(* ===== verification/_CoqProject ===== *)
-Q . S2P
Prelude.v
GoText.v
GoTime.v
GoJson.v
Keyed.v
Optimistic.v
FireModel.v
FireService.v
FireStations.v
FireDuty.v
FireExtinguishers.v
FireApply.v
FireInvariant.v
FireOccupancy.v
FireDutyProofs.v
FireTheorems.v
Scenario.v
FireEvolution.v
FireHistory.v
FireApplyTheorems.v
FireWitness.v
SitesModel.v
SitesService.v
SitesApply.v
SitesInvariant.v
SitesProofs.v
SitesApplyProofs.v
SitesDiff.v
SitesTheorems.v
SitesWitness.v
GbCodec.v
GbProofs.v
GbParser.v
GbTheorems.v
GbMessages.v
Queue.v
QueueInvariant.v
QueueProofs.v
QueueTheorems.v
QueueFifo.v
QueueWitness.v
RateLimit.v
RateLimitTheorems.v
RateLimitCluster.v
StoreIO.v
AlarmModel.v
AlarmStore.v
AlarmEngine.v
AlarmRuns.v
AlarmEffects.v
AlarmHistory.v
AlarmTheorems.v
AlarmConvergence.v
AlarmMutate.v
AlarmWitness.v
MessageClaims.v
MessageClaimsTheorems.v
DeviceModel.v
DeviceEngine.v
DeviceMutate.v
DeviceScan.v
DeviceTiming.v
DeviceMessages.v
DeviceWitness.v
RawModel.v
RawIngest.v
RawProofs.v
RawSteps.v
RawTheorems.v
RawWitness.v
NotifyModel.v
NotifyService.v
NotifyQueue.v
NotifyTimely.v
NotifyDelivery.v
NotifyRounds.v
NotifyTheorems.v
NotifyReports.v
NotifyValidate.v
NotifyWitness.v
