(* ===== verification/Prelude.v ===== *)
(** TorchLink verification library (root file).

    TorchLink is an IoT platform for fire safety.  Devices send raw messages
    over MQTT or TCP; an ingest queue keeps them until they are delivered;
    parsers turn them into standard messages; the engine raises, updates and
    closes alarms; tenants keep documents about their sites (where devices
    are) and about fire safety (stations, people, duty, inspections).  This
    library models the parts of the Go code that decide something, translates
    them definition by definition, and proves what they promise.

    ** The parts

    Each part has files of definitions, which read like the code, files of
    lemmas, a file of properties and a file of concrete runs (...Witness; those
    of the frames and of the rate limits end GbMessages and RateLimitCluster).

    - Go itself.  Prelude (this file: records that are updated field by field,
      results and errors, the state monad [M] of handlers, int64 wrap-around,
      the order in which [range] visits a map), GoText (UTF-8, strings, case,
      hexadecimal, bytes and little-endian integers), GoTime (civil dates), GoJson
      (decoding JSON into structs), Keyed (slices of records as tables, and
      identities drawn by the process).
    - Tenant documents.  Optimistic models the stores of the memory adapter
      that keep one versioned document per tenant, and the calls of a service
      to them while other requests act in between, with their rely-guarantee
      theory, stated for any document type by the classes [Revised] and
      [Coherence], which the two services below instantiate.
    - Fire safety (internal/firesafety, internal/model/fire_safety.go,
      internal/adapters/memory/fire_safety.go).  FireModel, FireService,
      FireStations, FireDuty and FireExtinguishers translate the 23 handlers
      behind [mutate]; FireApply the service's Apply and Snapshot.  A handler
      is a function of the actor, the request body, the clock and the aggregate.
      FireInvariant states the well-formedness [wf] of the aggregate;
      FireOccupancy and FireDutyProofs show that the handlers keep it,
      FireTheorems lifts that to reachable aggregates, FireEvolution and FireHistory describe what one
      request may change.  Properties C1 to C3, C6 and C7;
      FireHistory also has versions, workflows and batches.
    - Sites (internal/sites, internal/model/sites.go,
      internal/adapters/memory/sites.go, and the row changes of
      internal/adapters/postgres/sites.go).  SitesModel, SitesService and
      SitesApply are the code, SitesInvariant to SitesTheorems the proofs.
      AlarmLocation, which the alarm engine asks for the place of a device, is
      part of it.  Properties C16, C17 and C20 to C22.
    - GB/T 26875.3 (internal/parser/gb26875.go).  GbCodec has the frames and
      their builders, GbParser the way from a raw to a standard message.  Properties
      C26 and C29.
    - Ingest queue (internal/durablequeue/queue.go).  Queue models the methods
      over a directory whose system calls may each fail; QueueInvariant has the
      invariant and a small program logic for the methods; QueueFifo refines
      the queue to a list of pending messages and drains it on a disk that
      works.  Properties C30 to C33.  One failing call breaks the accounting:
      the os.Stat that put makes after a failed write, which C30 leaves out,
      C32 has as an outcome of its own and QueueWitness runs.
    - Rate limits (internal/ratelimit/ratelimit.go).  RateLimit has the
      fixed-window limiter and the cluster limiter, RateLimitCluster a fleet of
      instances over one store that may be down.  Properties C35 and C36.
    - Alarms.  AlarmModel has the data, the component transition and the report
      events (internal/model/model.go, component.go, alarm_attachment.go);
      AlarmStore the store of the memory adapter with its outbox
      (internal/adapters/memory/repository.go, component.go, external_alarm.go);
      AlarmEngine the changes of the engine and its optimistic loop
      (internal/core/alarm_lifecycle.go, alarm_rules.go, consistency.go, and
      the archived media of video_media.go with external_media.go), as
      calls to a repository which others use in between (StoreIO).
      AlarmRuns defines histories of calls, AlarmEffects classifies what a call
      can do, AlarmHistory shows what all calls keep,
      AlarmTheorems, AlarmConvergence and AlarmMutate state the properties C23
      and C37 to C40.
    - Claims on standard messages (internal/adapters/memory/repository.go,
      internal/core/consistency.go).  MessageClaims has the claim table with its
      fencing tokens and the wait for a claim, MessageClaimsTheorems the
      properties C18 and C28.
    - Device states (internal/core/device_state.go, connections.go,
      device_timing.go, completeStandard of engine.go, and their tables in the
      memory adapter).  DeviceModel has the data and the tables, DeviceEngine
      the optimistic loop and every operation built on it.  DeviceMutate is
      about the loop under interference (C8) and without it, DeviceScan the offline scan (C9), DeviceTiming new timing for a
      template (C25), DeviceMessages what completed messages leave (C34).
    - Raw messages (IngestRaw to ensureGatewayChild of internal/core/engine.go,
      protocol_cache.go, the tables of the memory adapter, raw_reservation.go,
      internal/adapters/rawstore/store.go).  RawModel has messages at rest: their
      reservations, the index, the message tables and the store that routes a
      message to a database.  RawIngest has the way of a message through the
      engine, call by call: its protocol, the registration of a child of a
      gateway, reserving, archiving, indexing and publishing, and the job for
      what is pending.  RawProofs states the ledger [raw_ok] over these tables
      and the bus and shows that each step keeps it; RawSteps carries it
      through the calls while others act and calls fail; RawTheorems has the
      properties C10, C11, C13, C24 and C27.  C27 shows a message that no
      delivery brings in again: archived, not indexed, refused as a conflict
      because its stored copy has another text.
    - Notifications (internal/notify, OnDutyContacts of
      internal/httpapi/notifications.go).  NotifyModel has channels, policies and
      the delivery queue of the memory store, NotifyService the way from a report
      event to queued tasks and from a due task to the message, NotifyValidate
      the checks of what administrators save (C19).  NotifyQueue and NotifyTimely
      are about histories of the queue with any number of workers (C5);
      NotifyDelivery and NotifyRounds carry one task and one batch to the loop in
      NotifyTheorems (C12, C14, C15).  NotifyReports composes the
      histories of the alarm store with the service: the events of the outbox,
      delivered in any order and more than once, notify every alarm once (C4).
      NotifyWitness also runs two workers on one task and a failing lookup.

    ** What the properties show

    - Reachability invariants (C1 to C3, C5, C6, C13, C16, C30, C37): nobody is on two
      duties at once, no item is out twice, reviewers are not submitters, the
      hierarchy of a site is closed, the counters of the queue are those of the
      directory, a subject has one open alarm, a notification is queued once, what is indexed
      is archived and what is published is indexed.
    - Histories (C38, C39): the outbox as a ledger of the reports of every alarm,
      and the life of an alarm; C4 follows these reports to the notification
      queue.
    - Refinement under interference (C7, C8, C20, C22, C23): the optimistic loops
      are one atomic step on the document stored at that moment.  Interference
      is any sequence of steps of others that moves the revision whenever it
      changes the document.  C31 and C32 refine the queue to a list.  C10: whatever
      happens in between, ingestion is one identity with one content.
    - Functional behaviour (C15, C17, C25), termination (C9, C12, C18), fencing
      (C28), admission (C11), a state no retry leaves (C27).
    - Round trips (C21, C29), refusal of corrupted input (C26), bounds (C3,
      C19, C35, C36), order independence (C34, C40), progress (C14, C24,
      C33).

    ** Bounds and fuel

    The optimistic loops try eight times as the code does ([apply_attempts],
    [mutate_attempts], [device_attempts], [complete_attempts]): at most 24 store
    calls for a document and 16 for an alarm.  The wait for a claim, the offline
    scan, the walk over the devices of a template and the delivery of notifications
    are loops without a bound in the code; they take fuel and return [None] when
    it is used up, and C18, C9, C25 and C12 prove how much is enough.  Decoding UTF-8 uses the length of the text as fuel, and every step
    consumes at least one byte.  Every other recursion is structural.  Integers
    are [Z] with [wrap64] where the code adds or subtracts on int and int64;
    theorems about counters assume histories shorter than the range of int64.

    ** Parameters

    - [Platform]: the case-folding tables, the local time zone and the random
      identities of the host; identities never repeat.  [UpperCase]: the
      upper-case table.
    - [MapOrder]: the order of [range] over a map, any permutation of the keys.
    - In Queue and the Raw files, the JSON codec of messages and SHA-256.  In C10,
      C13 and C24 the payload of a message is any JSON text, of which the codec
      gives back a copy in compact form ([compact], [json_copy]), and the other
      fields are given back as they are ([head_ok]); C27 is what becomes of a
      message whose copy has another digest.  In the Raw files also the clock, the random
      identities and the reader of what was archived before the databases.
    - In Queue the system calls.  Each may fail, os.Stat and os.Lstat included,
      with an error that is not "no such file" ([os_laws]), and then has no
      effect.
    - In Alarm files, the values in the details of an alarm, with the video event
      a value holds, and the JSON text of an alarm; in NotifyReports
      the decoder, which reads back what was encoded from UTF-8 texts.
    - In Notify files, the directory of alarms, products and people (the HTTP
      layer), the cipher of the channel secrets, and the answer of the receiving
      side to a message.
    - In RateLimit, the shared store (Redis).

    ** Not modelled

    Inside the modelled parts: tokenizing of JSON text; the difference of nil
    and empty slices; the JSON round trips by which stores copy values; pointer
    identity (a sound but otherwise unknown test in SitesModel); the cleaning
    copies [normalize] and [SortState]; the advisory lock of the queue's
    directory and the temporary file of its atomic write; goroutines other than
    as interleaved calls, since every method holds a mutex or is one transaction;
    in AlarmEngine, the audit entries, bus and realtime messages and the state of
    the device that follow a committed change; listing and deleting alarms (so
    of updateVideoAlarmMedia the change of each alarm, not the walk); the
    realtime messages, metrics and lock stripes of the device states; the senders
    of the notification channels, the metrics and the ticker of the worker; for
    raw messages, the parsing of what was published (handleRaw), the lock stripes,
    metrics and logs, the value returned beside an error, and what ClickHouse does
    differently from the table it is taken for.

    Parts left out: the HTTP interface, the adapters of PostgreSQL, Kafka, MQTT,
    ClickHouse, Redis and object storage, which are input and output around the
    calls modelled here; the other tables of the memory repository; rules,
    replay and knowledge of internal/core; the other parsers, protocol
    packages and their runners; onboarding, the transfer of video, capacity, AI, backup,
    cluster planning and operations; commands, device simulators, scripts
    and the front end. *)

From stdpp Require Export base list gmap strings pretty sorting.
From Stdlib Require Export ZArith Lia.
#[global] Open Scope Z_scope.
#[global] Set Default Goal Selector "!".
#[global] Set Warnings "-clear-no-such-hyp,-register-all".

(** ** Field update for records

    A record type [R] that is updated in place by the Go code declares one
    instance of [Settable R]: the eta expansion of the record.  The setter of
    a projection is then the eta expansion with that projection replaced, so
    that [cbn] computes every projection of an updated record. *)
Class Settable (R : Type) := eta : R → R.

Class Setter {R E : Type} (getter : R → E) := set : (E → E) → R → R.
#[global] Arguments set {R E} getter {_} _ _ : simpl nomatch.

Ltac derive_setter getter :=
  match type of getter with
  | ?R → ?E =>
    let i := constr:(_ : Settable R) in
    let i' := eval hnf in i in
    exact (λ (f : E → E) (r : R),
      ltac:(let body := eval cbv beta in (i' r) in
            match eval pattern (getter r) in body with
            | ?h _ => let t := eval cbv beta in (h (f (getter r))) in exact t
            end))
  end.

#[global] Hint Extern 1 (@Setter _ _ ?getter) => (derive_setter getter) : typeclass_instances.

Declare Scope go_scope.
Delimit Scope go_scope with go.
#[global] Open Scope go_scope.
Notation "r <| f := v |>" := (set f (λ _, v) r)
  (at level 1, f at next level, v at level 200, left associativity) : go_scope.
Notation "r <| f ::= g |>" := (set f g r)
  (at level 1, f at next level, g at level 200, left associativity) : go_scope.

(** ** Maps

    [range] over a Go map visits the keys in an unspecified order. *)
Class MapOrder := map_range : ∀ A, gmap string A → list string.
#[global] Arguments map_range {_ A} m.
Class MapOrderLaws `{MapOrder} : Prop :=
  map_range_keys : ∀ A (m : gmap string A), map_range m ≡ₚ (map_to_list m).*1.

(** ** Results

    A Go function returning [(T, error)] is a function into [res T]; the
    value returned next to a non-nil error is never read by the modelled
    callers.  [err_kind] is what [errors.Is] can ask of an error (the sentinel
    it wraps), [err_text] is its [Error()] string. *)
Inductive err_kind := Validation | NotFound | Conflict | Forbidden | Permanent | Other.

#[export] Instance err_kind_eq_dec : EqDecision err_kind.
Proof. solve_decision. Defined.

Record error := mk_error { err_is : err_kind; err_text : string }.

#[export] Instance error_eq_dec : EqDecision error.
Proof. solve_decision. Defined.

Inductive res (A : Type) := Ok (a : A) | Err (e : error).
#[global] Arguments Ok {A} a.
#[global] Arguments Err {A} e.

#[export] Instance res_ret : MRet res := λ A a, Ok a.
#[export] Instance res_bind : MBind res := λ A B f m,
  match m with Ok a => f a | Err e => Err e end.

(** [if cond { return err }] *)
Definition fail_when (P : Prop) `{Decision P} (e : error) : res unit :=
  if decide P then Err e else Ok tt.
#[global] Arguments fail_when P {_} e.

(** [for _, x := range l { if err := f(x); err != nil { return err } }] *)
Fixpoint for_each {A} (f : A → res unit) (l : list A) : res unit :=
  match l with
  | [] => Ok tt
  | x :: l => match f x with Ok _ => for_each f l | Err e => Err e end
  end.

(** ** Stateful handlers

    A handler works on a private copy of the aggregate [S] and draws record
    identities from the [uuid] package.  The copy is dropped by the caller
    when the handler returns an error, so an error carries no state. *)
Record world (S : Type) := mk_world { w_state : S; w_next : nat }.
#[global] Arguments mk_world {S} _ _.
#[global] Arguments w_state {S} _.
#[global] Arguments w_next {S} _.

Definition M (S A : Type) := world S → res (A * world S).

#[export] Instance M_ret {S} : MRet (M S) := λ A a w, Ok (a, w).
#[export] Instance M_bind {S} : MBind (M S) := λ A B f m w,
  match m w with Ok (a, w') => f a w' | Err e => Err e end.

Definition lift {S A} (r : res A) : M S A :=
  λ w, match r with Ok a => Ok (a, w) | Err e => Err e end.
Definition get {S} : M S S := λ w, Ok (w_state w, w).
Definition put {S} (s : S) : M S unit := λ w, Ok (tt, mk_world s (w_next w)).
Definition throw {S A} (e : error) : M S A := λ _, Err e.

Section result_lemmas.
Context {A B : Type}.

Lemma res_bind_ok (m : res A) (f : A → res B) b :
  m ≫= f = Ok b ↔ ∃ a, m = Ok a ∧ f a = Ok b.
Proof. destruct m; cbn; naive_solver. Qed.

(** A guard followed by the rest of the function. *)
Lemma res_seq_ok (m : res unit) (k : res B) b :
  (m ≫= λ _, k) = Ok b ↔ m = Ok tt ∧ k = Ok b.
Proof. destruct m as [[]|]; cbn; naive_solver. Qed.

Lemma fail_when_ok P `{Decision P} e u : fail_when P e = Ok u ↔ ¬ P.
Proof. unfold fail_when. destruct u. case_decide; naive_solver. Qed.

Lemma fail_when_err P `{Decision P} e e' : fail_when P e = Err e' ↔ P ∧ e' = e.
Proof. unfold fail_when. case_decide; naive_solver. Qed.

Lemma for_each_ok (f : A → res unit) l u :
  for_each f l = Ok u ↔ Forall (λ x, f x = Ok tt) l.
Proof.
  destruct u. induction l as [|x l IH]; cbn.
  - split; [by constructor|done].
  - rewrite Forall_cons. destruct (f x) as [[]|]; naive_solver.
Qed.

Lemma for_each_fail (P : A → Prop) `{∀ x, Decision (P x)} (e : A → error) l u :
  for_each (λ x, fail_when (P x) (e x)) l = Ok u ↔ Forall (λ x, ¬ P x) l.
Proof.
  rewrite for_each_ok. split; intros Hl; (eapply Forall_impl; [exact Hl|]);
    intros x; cbn; by rewrite fail_when_ok.
Qed.
End result_lemmas.

Section handler_lemmas.
Context {S A B : Type}.
Implicit Types w : world S.

Lemma M_bind_ok (m : M S A) (f : A → M S B) w b w' :
  (m ≫= f) w = Ok (b, w') ↔ ∃ a w1, m w = Ok (a, w1) ∧ f a w1 = Ok (b, w').
Proof.
  unfold mbind, M_bind. destruct (m w) as [[a w1]|e]; naive_solver.
Qed.

Lemma M_ret_ok (a b : A) w w' : (mret a : M S A) w = Ok (b, w') ↔ b = a ∧ w' = w.
Proof. unfold mret, M_ret. naive_solver. Qed.

Lemma lift_ok (r : res A) (a : A) w w' : lift r w = Ok (a, w') ↔ r = Ok a ∧ w' = w.
Proof. unfold lift. destruct r; naive_solver. Qed.

Lemma get_ok s w w' : (get : M S S) w = Ok (s, w') ↔ s = w_state w ∧ w' = w.
Proof. unfold get. naive_solver. Qed.

Lemma put_ok (s : S) u w w' :
  put s w = Ok (u, w') ↔ w' = mk_world s (w_next w).
Proof. unfold put. destruct u. naive_solver. Qed.

Lemma throw_ok e (a : A) w w' : (throw e : M S A) w = Ok (a, w') ↔ False.
Proof. unfold throw. naive_solver. Qed.
End handler_lemmas.

(** ** Identities are only drawn, never given back *)

Definition grows {S A} (m : M S A) : Prop :=
  ∀ w a w', m w = Ok (a, w') → (w_next w ≤ w_next w')%nat.

Section grows_lemmas.
Context {S : Type}.

Lemma grows_bind {A B} (m : M S A) (f : A → M S B) :
  grows m → (∀ a, grows (f a)) → grows (m ≫= f).
Proof.
  intros Hm Hf w b w' (a & w1 & H1%Hm & H2)%M_bind_ok. apply Hf in H2. lia.
Qed.
Lemma grows_ret {A} (a : A) : grows (mret a : M S A).
Proof. intros w b w' [_ ->]%M_ret_ok. done. Qed.
Lemma grows_lift {A} (r : res A) : grows (lift r : M S A).
Proof. intros w b w' [_ ->]%lift_ok. done. Qed.
Lemma grows_get : grows (get : M S S).
Proof. intros w b w' [_ ->]%get_ok. done. Qed.
Lemma grows_put (s : S) : grows (put s).
Proof. intros w b w' ->%put_ok. done. Qed.
Lemma grows_throw {A} e : grows (throw e : M S A).
Proof. intros w b w' []%throw_ok. Qed.
End grows_lemmas.

Create HintDb grows discriminated.
#[export] Hint Resolve grows_ret grows_lift grows_get grows_put grows_throw : grows.

(** [grow] follows the handler: the [grows] database knows its primitives. *)
Ltac grow :=
  repeat first [ solve [auto with grows nocore] | apply grows_bind; [|intros ?]
               | progress case_match ].

(** [inv_ok H] turns [H : handler w = Ok (r, w')] into the successful path
    through the handler: one hypothesis per guard and per bound value. *)
Ltac inv_ok_step H :=
  lazymatch type of H with
  | (_ ≫= _) _ = Ok _ =>
      apply M_bind_ok in H;
      let a := fresh "a" in let w := fresh "w" in let H1 := fresh "Hr" in
      destruct H as (a & w & H1 & H); cbn beta in H; inv_ok_step H1; inv_ok_step H
  | (_ ≫= _) = Ok _ =>
      apply res_bind_ok in H;
      let a := fresh "a" in let H1 := fresh "Hr" in
      destruct H as (a & H1 & H); cbn beta in H; inv_ok_step H1; inv_ok_step H
  | lift _ _ = Ok _ =>
      apply lift_ok in H; let Hw := fresh "Hw" in destruct H as [H Hw];
      subst; inv_ok_step H
  | get _ = Ok _ => apply get_ok in H; destruct H as [? ?]; subst
  | put _ _ = Ok _ => apply put_ok in H; subst
  | throw _ _ = Ok _ => apply throw_ok in H; destruct H
  | mret _ _ = Ok _ => apply M_ret_ok in H; destruct H as [? ?]; subst
  | mret _ = Ok _ => unfold mret, res_ret in H; inv_ok_step H
  | fail_when _ _ = Ok _ => apply fail_when_ok in H
  | Ok _ = Ok _ => injection H as H; subst
  | Err _ = Ok _ => discriminate H
  | _ => idtac
  end.
Ltac inv_ok H := inv_ok_step H; cbn [w_state w_next] in *.

(** ** Machine integers *)

Definition two63 : Z := 9223372036854775808.
Definition two64 : Z := 18446744073709551616.

(** Two's complement wrap-around of [int64] and of [int] on 64-bit targets. *)
Definition wrap64 (z : Z) : Z := (z + two63) mod two64 - two63.
Definition in_int64 (z : Z) : Prop := - two63 ≤ z < two63.
#[export] Instance in_int64_dec z : Decision (in_int64 z).
Proof. unfold in_int64. apply _. Defined.

Lemma wrap64_small z : in_int64 z → wrap64 z = z.
Proof. unfold in_int64, wrap64, two63, two64. intros. rewrite Z.mod_small; lia. Qed.

Lemma wrap64_range z : in_int64 (wrap64 z).
Proof.
  unfold in_int64, wrap64, two64, two63.
  pose proof (Z.mod_pos_bound (z + 9223372036854775808) 18446744073709551616). lia.
Qed.

Lemma wrap64_add_l x y : wrap64 (wrap64 x + y) = wrap64 (x + y).
Proof.
  unfold wrap64. f_equal.
  replace ((x + two63) mod two64 - two63 + y + two63) with ((x + two63) mod two64 + y) by lia.
  rewrite Zplus_mod_idemp_l. f_equal. lia.
Qed.

(** ** Lists as Go slices *)

(** [p := find(items, id)] of a slice of records: the index and the value of
    the first element with property [P]; the index plays the pointer. *)
Abbreviation find_first := list_find.

(** [s = append(s[:i], s[i+1:]...)] *)
Abbreviation remove_at := delete.

Section list_lemmas.
Context {A : Type}.
Implicit Types l : list A.

Lemma elem_of_insert_list l i x y :
  y ∈ <[i:=x]> l → y = x ∨ ∃ j, j ≠ i ∧ l !! j = Some y.
Proof.
  intros [j Hj]%list_elem_of_lookup_1.
  apply list_lookup_insert_Some in Hj as [(-> & -> & _)|[Hne Hj]]; [by left|].
  right. exists j. by split.
Qed.

Lemma Forall_insert_list (P : A → Prop) l i x :
  P x → Forall P l → Forall P (<[i:=x]> l).
Proof.
  rewrite !Forall_forall. intros Hx Hl y Hy%elem_of_insert_list.
  destruct Hy as [->|(j & _ & Hj)]; [done|]. apply Hl. by eapply list_elem_of_lookup_2.
Qed.

Lemma elem_of_delete_list l i y : y ∈ delete i l → y ∈ l.
Proof.
  rewrite delete_take_drop, elem_of_app. intros [Hy|Hy].
  - by eapply elem_of_take in Hy as (? & ?%list_elem_of_lookup_2 & _).
  - apply list_elem_of_lookup_1 in Hy as [j Hj]. rewrite lookup_drop in Hj.
    by eapply list_elem_of_lookup_2.
Qed.

Lemma fmap_delete {B} (f : A → B) l i : f <$> delete i l = delete i (f <$> l).
Proof. revert i. induction l as [|x l IH]; intros [|i]; cbn; [done..|]. f_equal. apply IH. Qed.

Lemma NoDup_delete_list l i : NoDup l → NoDup (delete i l).
Proof.
  intros Hl. eapply sublist_NoDup; [exact Hl|apply sublist_delete].
Qed.

Lemma filter_all (P : A → Prop) `{∀ x, Decision (P x)} l : Forall P l → filter P l = l.
Proof. induction 1 as [|x l Hx _ IH]; [done|]. by rewrite filter_cons_True, IH. Qed.
End list_lemmas.

Create HintDb go discriminated.
#[export] Hint Resolve wrap64_range : go.
