(* ===== verification/GoText.v ===== *)
(** Go strings and the text functions of the standard library the modelled
    packages call: UTF-8 decoding ([for _, r := range s]), [utf8.RuneCountInString],
    [strings.TrimSpace], [strings.EqualFold], [strings.ToLower],
    [strings.TrimPrefix], decimal formatting and hexadecimal encoding.

    A Go string is the list of its bytes, here a [string] of 8-bit [ascii]
    characters.  Unicode property tables and the process environment are the
    operations of the class [Platform]. *)
From S2P Require Import Prelude.
From Stdlib Require Import Ascii.

(** ** Environment of the process *)

(** Data the code reads from the Go distribution or from the host, not from
    the repository: the simple case folding orbits ([unicode.SimpleFold], as
    the least rune of the orbit), [unicode.ToLower], the offset in seconds of
    [time.Local] at an instant, and the identities drawn from the third-party
    package [github.com/google/uuid] (the n-th call of [uuid.NewString]). *)
Class Platform := {
  simple_fold : Z → Z;
  rune_to_lower : Z → Z;
  local_offset : Z → Z;
  new_uuid : nat → string;
}.

(** What the code relies on: random UUIDs are non-empty and never repeat. *)
Class PlatformLaws `{Platform} : Prop := {
  new_uuid_nonempty n : new_uuid n ≠ "";
  new_uuid_inj n m : new_uuid n = new_uuid m → n = m;
}.

(** ** UTF-8 *)

Definition rune_error : Z := 65533.

Definition byte_of (c : ascii) : Z := Z.of_N (N_of_ascii c).
Definition of_byte (z : Z) : ascii := ascii_of_N (Z.to_N z).

Fixpoint bytes_of (s : string) : list Z :=
  match s with EmptyString => [] | String c s => byte_of c :: bytes_of s end.
Fixpoint string_of_bytes (l : list Z) : string :=
  match l with [] => EmptyString | z :: l => String (of_byte z) (string_of_bytes l) end.

Definition in_range (lo hi z : Z) : bool := (lo <=? z) && (z <=? hi).
Definition cont (z : Z) : bool := in_range 128 191 z.
Definition low6 (z : Z) : Z := Z.land z 63.

(** [utf8.DecodeRune]: the rune at the head of the bytes and its width; an
    invalid prefix is [RuneError] of width one. *)
Definition decode_rune (l : list Z) : option (Z * nat) :=
  match l with
  | [] => None
  | a :: l1 =>
    let bad := Some (rune_error, 1%nat) in
    if a <? 128 then Some (a, 1%nat)
    else if in_range 194 223 a then
      match l1 with
      | b :: _ => if cont b then Some (Z.lor (Z.shiftl (Z.land a 31) 6) (low6 b), 2%nat) else bad
      | _ => bad
      end
    else if in_range 224 239 a then
      let lo := if a =? 224 then 160 else 128 in
      let hi := if a =? 237 then 159 else 191 in
      match l1 with
      | b :: c :: _ =>
        if in_range lo hi b && cont c then
          Some (Z.lor (Z.shiftl (Z.land a 15) 12) (Z.lor (Z.shiftl (low6 b) 6) (low6 c)), 3%nat)
        else bad
      | _ => bad
      end
    else if in_range 240 244 a then
      let lo := if a =? 240 then 144 else 128 in
      let hi := if a =? 244 then 143 else 191 in
      match l1 with
      | b :: c :: d :: _ =>
        if in_range lo hi b && cont c && cont d then
          Some (Z.lor (Z.shiftl (Z.land a 7) 18)
                 (Z.lor (Z.shiftl (low6 b) 12) (Z.lor (Z.shiftl (low6 c) 6) (low6 d))), 4%nat)
        else bad
      | _ => bad
      end
    else bad
  end.

(** The runes of a string with their widths; every step consumes a byte, so
    the length of the input is enough fuel. *)
Fixpoint runes_fuel (fuel : nat) (l : list Z) : list (Z * nat) :=
  match fuel with
  | O => []
  | S fuel =>
    match decode_rune l with
    | None => []
    | Some (r, n) => (r, n) :: runes_fuel fuel (drop n l)
    end
  end.
Definition runes_of (l : list Z) : list (Z * nat) := runes_fuel (length l) l.
Definition runes (s : string) : list Z := (runes_of (bytes_of s)).*1.

(** [utf8.RuneCountInString] *)
Definition rune_count (s : string) : Z := Z.of_nat (length (runes s)).

(** [utf8.ValidString]: no width-one [RuneError]. *)
Definition valid_utf8 (l : list Z) : bool :=
  forallb (λ rn : Z * nat, negb ((rn.1 =? rune_error) && (rn.2 =? 1)%nat)) (runes_of l).

Lemma decode_rune_width l r n : decode_rune l = Some (r, n) → (1 ≤ n ≤ length l)%nat.
Proof.
  destruct l as [|a l1]; cbn [decode_rune]; [done|].
  repeat case_match; intros; simplify_eq; cbn [length]; lia.
Qed.

(** The fuel of [runes_of] is enough: the widths of the runes add up to the
    length of the input, whatever larger fuel is used. *)
Lemma runes_fuel_widths fuel l :
  (length l ≤ fuel)%nat → sum_list ((runes_fuel fuel l).*2) = length l.
Proof.
  revert l. induction fuel as [|fuel IH]; intros l Hl.
  - by destruct l; cbn in *; [|lia].
  - cbn [runes_fuel]. destruct (decode_rune l) as [[r n]|] eqn:Hd; cbn.
    + apply decode_rune_width in Hd. rewrite IH; rewrite length_drop; lia.
    + by destruct l as [|a l]; [|cbn [decode_rune] in Hd; repeat case_match].
Qed.

(** ** Trimming *)

(** [unicode.IsSpace] *)
Definition is_space (r : Z) : bool :=
  in_range 9 13 r || (r =? 32) || (r =? 133) || (r =? 160) || (r =? 5760)
  || in_range 8192 8202 r || (r =? 8232) || (r =? 8233) || (r =? 8239)
  || (r =? 8287) || (r =? 12288).

Fixpoint drop_spaces (l : list (Z * nat)) : list (Z * nat) :=
  match l with
  | [] => []
  | rn :: l' => if is_space rn.1 then drop_spaces l' else l
  end.
Definition widths (l : list (Z * nat)) : nat := sum_list (l.*2).

(** [strings.TrimSpace]: the subslice of the bytes between the first and the
    last rune that is not white space. *)
Definition trim_space (s : string) : string :=
  let b := bytes_of s in
  let l := drop_spaces (runes_of b) in
  let start := (length b - widths l)%nat in
  let stop := widths (reverse (drop_spaces (reverse l))) in
  string_of_bytes (take stop (drop start b)).

(** ** Comparison, prefixes, case *)

(** [strings.EqualFold] *)
Definition equal_fold `{Platform} (s t : string) : bool :=
  bool_decide (simple_fold <$> runes s = simple_fold <$> runes t).

(** [strings.ToLower]; only ever compared with another lowered string, so the
    lowered rune sequence stands for the string. *)
Definition to_lower `{Platform} (s : string) : list Z := rune_to_lower <$> runes s.

(** [strings.HasPrefix], [strings.TrimPrefix] *)
Fixpoint strip_prefix (p s : string) : option string :=
  match p, s with
  | EmptyString, _ => Some s
  | String a p, String b s => if decide (a = b) then strip_prefix p s else None
  | String _ _, EmptyString => None
  end.
Definition has_prefix (s p : string) : bool :=
  match strip_prefix p s with Some _ => true | None => false end.
Definition trim_prefix (s p : string) : string :=
  match strip_prefix p s with Some t => t | None => s end.

Lemma strip_prefix_app p s : strip_prefix p (p +:+ s) = Some s.
Proof.
  induction p as [|a p IH]; [by destruct s|].
  change (String a p +:+ s) with (String a (p +:+ s)). cbn [strip_prefix].
  by rewrite decide_True.
Qed.

Lemma trim_prefix_app p s : trim_prefix (p +:+ s) p = s.
Proof. unfold trim_prefix. by rewrite strip_prefix_app. Qed.

(** [strings.HasSuffix], [strings.TrimSuffix] *)
Definition has_suffix (s p : string) : bool := bool_decide (bytes_of p `suffix_of` bytes_of s).
Definition trim_suffix (s p : string) : string :=
  if has_suffix s p
  then string_of_bytes (take (length (bytes_of s) - length (bytes_of p)) (bytes_of s)) else s.

(** [strings.Join] *)
Fixpoint join (sep : string) (l : list string) : string :=
  match l with
  | [] => ""
  | [s] => s
  | s :: l => s +:+ sep +:+ join sep l
  end.

(** [fmt.Sprintf("%d", z)] and [fmt.Sprintf("%02d", z)] for 0 <= z *)
Definition dec (z : Z) : string := pretty z.
Definition dec2 (z : Z) : string := if z <? 10 then "0" +:+ dec z else dec z.

(** ** Hexadecimal *)

Definition hex_digit (n : Z) : ascii := of_byte (if n <? 10 then 48 + n else 55 + n).

(** [strings.ToUpper(hex.EncodeToString(l))] *)
Fixpoint hex_upper (l : list Z) : string :=
  match l with
  | [] => ""
  | z :: l => String (hex_digit (Z.shiftr z 4)) (String (hex_digit (Z.land z 15)) (hex_upper l))
  end.

(** The value of a hexadecimal digit, as [hex.DecodeString] reads it. *)
Definition unhex (c : ascii) : option Z :=
  let z := byte_of c in
  if in_range 48 57 z then Some (z - 48)
  else if in_range 97 102 z then Some (z - 87)
  else if in_range 65 70 z then Some (z - 55)
  else None.

(** [hex.DecodeString] *)
Fixpoint hex_decode (s : string) : option (list Z) :=
  match s with
  | EmptyString => Some []
  | String a (String b s) =>
      match unhex a, unhex b, hex_decode s with
      | Some x, Some y, Some l => Some (x * 16 + y :: l)
      | _, _, _ => None
      end
  | String _ EmptyString => None
  end.

Lemma byte_of_of_byte z : 0 ≤ z < 256 → byte_of (of_byte z) = z.
Proof.
  intros Hz. unfold byte_of, of_byte. rewrite N_ascii_embedding; lia.
Qed.

Lemma of_byte_byte_of c : of_byte (byte_of c) = c.
Proof. unfold byte_of, of_byte. rewrite N2Z.id. apply ascii_N_embedding. Qed.

Lemma byte_of_range c : 0 ≤ byte_of c < 256.
Proof. unfold byte_of. pose proof (N_ascii_bounded c). lia. Qed.

Lemma string_of_bytes_of s : string_of_bytes (bytes_of s) = s.
Proof. induction s as [|c s IH]; cbn; [done|]. by rewrite of_byte_byte_of, IH. Qed.

Lemma unhex_digit n : 0 ≤ n < 16 → unhex (hex_digit n) = Some n.
Proof.
  intros Hn. unfold unhex, hex_digit, in_range. rewrite byte_of_of_byte by (case_match; lia).
  destruct (Z.ltb_spec n 10).
  - rewrite (proj2 (Z.leb_le _ _)), (proj2 (Z.leb_le (48 + n) 57)) by lia. cbn. f_equal. lia.
  - rewrite (proj2 (Z.leb_gt (55 + n) 57)), andb_false_r by lia.
    rewrite (proj2 (Z.leb_gt 97 (55 + n))) by lia. cbn.
    rewrite (proj2 (Z.leb_le 65 (55 + n))), (proj2 (Z.leb_le (55 + n) 70)) by lia.
    cbn. f_equal. lia.
Qed.

Lemma hex_roundtrip l :
  Forall (λ z, 0 ≤ z < 256) l → hex_decode (hex_upper l) = Some l.
Proof.
  induction 1 as [|z l Hz Hl IH]; cbn [hex_upper hex_decode]; [done|].
  assert (Hs : Z.shiftr z 4 = z / 16) by (by rewrite Z.shiftr_div_pow2).
  assert (Ha : Z.land z 15 = z mod 16) by (by apply (Z.land_ones z 4)).
  pose proof (Z.div_mod z 16). pose proof (Z.mod_pos_bound z 16).
  rewrite Hs, Ha, !unhex_digit, IH by lia. do 2 f_equal. lia.
Qed.

(** ** Drawing identities *)

(** [uuid.NewString()] *)
Definition new_id `{Platform} {S} : M S string := λ w,
  Ok (new_uuid (w_next w), mk_world (w_state w) (Datatypes.S (w_next w))).

Lemma new_id_ok `{Platform} {S} (w w' : world S) i :
  new_id w = Ok (i, w') ↔
  i = new_uuid (w_next w) ∧ w' = mk_world (w_state w) (Datatypes.S (w_next w)).
Proof. unfold new_id. naive_solver. Qed.

Lemma grows_new_id `{Platform} {S} : grows (new_id : M S string).
Proof. intros w i w' [_ ->]%new_id_ok. cbn. lia. Qed.
#[export] Hint Resolve grows_new_id : grows.

(** Byte slices: [encoding/binary] on two bytes, slicing, [copy], and the
    arithmetic of [byte].  A byte is a [Z] from 0 to 255. *)

Definition byte_ok (b : Z) : Prop := 0 ≤ b < 256.
#[export] Instance byte_ok_dec b : Decision (byte_ok b).
Proof. unfold byte_ok. apply _. Defined.
Definition bytes_ok (l : list Z) : Prop := Forall byte_ok l.
#[export] Instance bytes_ok_dec l : Decision (bytes_ok l).
Proof. unfold bytes_ok. apply _. Defined.

(** Conversion to [byte] and to [uint16]. *)
Definition wrap8 (z : Z) : Z := z mod 256.
Definition wrap16 (z : Z) : Z := z mod 65536.

(** [data[i]], zero past the end; the code guards the length first. *)
Definition byte_at (l : list Z) (i : nat) : Z := nth i l 0.
(** [data[i:j]] *)
Definition slice (l : list Z) (i j : nat) : list Z := take (j - i) (drop i l).

(** [binary.LittleEndian.Uint16(l)] and [binary.BigEndian.Uint16(l)] *)
Definition le_uint16 (l : list Z) : Z := Z.lor (byte_at l 0) (Z.shiftl (byte_at l 1) 8).
(** [binary.LittleEndian.PutUint16]: the two bytes written. *)
Definition put_le_uint16 (v : Z) : list Z := [wrap8 v; wrap8 (Z.shiftr v 8)].

(** [copy(l[i:], src)] into a slice that is long enough. *)
Definition write_at (i : nat) (src l : list Z) : list Z :=
  take i l ++ src ++ drop (i + length src) l.

(** [make([]byte, n)] *)
Definition zeros (n : nat) : list Z := replicate n 0.

(** [var sum byte; for _, v := range l { sum += v }] *)
Definition byte_sum (l : list Z) : Z := foldl (λ sum v, wrap8 (sum + v)) 0 l.

(** ** Words *)

(** Low bits and high bits do not meet. *)
Lemma lor_shiftl a b k : 0 ≤ k → 0 ≤ a < 2 ^ k → Z.lor a (Z.shiftl b k) = a + b * 2 ^ k.
Proof.
  intros Hk Ha. rewrite Z.shiftl_mul_pow2 by done. symmetry. apply Z.add_nocarry_lor.
  apply Z.bits_inj'. intros n Hn. rewrite Z.land_spec, Z.bits_0.
  destruct (decide (n < k)); [by rewrite Z.mul_pow2_bits_low, andb_false_r by lia|].
  replace (Z.testbit a n) with false; [done|symmetry].
  destruct (decide (a = 0)) as [->|]; [by rewrite Z.bits_0|].
  apply Z.bits_above_log2; [lia|]. apply Z.log2_lt_pow2; [lia|].
  assert (2 ^ k ≤ 2 ^ n) by (apply Z.pow_le_mono_r; lia). lia.
Qed.

Lemma le_uint16_range l : bytes_ok l → 0 ≤ le_uint16 l < 65536.
Proof.
  intros Hl. assert (Hb : ∀ i, byte_ok (byte_at l i)).
  { intros i. unfold byte_at. destruct (nth_in_or_default i l 0) as [Hin| ->]; [|done].
    unfold bytes_ok in Hl. rewrite Forall_forall in Hl. by apply Hl, list_elem_of_In. }
  unfold le_uint16. rewrite lor_shiftl; [|done|apply Hb].
  pose proof (Hb 0%nat). pose proof (Hb 1%nat). unfold byte_ok in *. change (2 ^ 8) with 256. lia.
Qed.

Lemma put_le_uint16_ok v : bytes_ok (put_le_uint16 v).
Proof. repeat constructor; unfold wrap8; apply Z.mod_pos_bound; lia. Qed.

Lemma le_put_uint16 v : le_uint16 (put_le_uint16 v) = wrap16 v.
Proof.
  unfold le_uint16, put_le_uint16, byte_at, wrap8, wrap16; cbn [nth].
  rewrite lor_shiftl, Z.shiftr_div_pow2 by (try apply Z.mod_pos_bound; lia).
  change (2 ^ 8) with 256. change 65536 with (256 * 256). rewrite (Z.rem_mul_r v 256 256) by lia. lia.
Qed.

Lemma put_le_uint16_le a b : byte_ok a → byte_ok b → put_le_uint16 (le_uint16 [a; b]) = [a; b].
Proof.
  intros Ha Hb. unfold byte_ok in *. unfold put_le_uint16, le_uint16, byte_at, wrap8; cbn [nth].
  rewrite lor_shiftl, Z.shiftr_div_pow2 by done. change (2 ^ 8) with 256.
  f_equal; [|f_equal].
  - rewrite Z_mod_plus_full. by apply Z.mod_small.
  - rewrite Z.div_add, (Z.div_small a), Z.add_0_l by lia. by apply Z.mod_small.
Qed.

(** ** Sums *)

Lemma byte_sum_from s l :
  foldl (λ sum v, wrap8 (sum + v)) (wrap8 s) l = wrap8 (s + foldr Z.add 0 l).
Proof.
  revert s. induction l as [|v l IH]; intros s; cbn; [by rewrite Z.add_0_r|].
  unfold wrap8 in *. rewrite Zplus_mod_idemp_l, IH. f_equal. lia.
Qed.
Lemma byte_sum_eq l : byte_sum l = wrap8 (foldr Z.add 0 l).
Proof. apply (byte_sum_from 0). Qed.
Lemma byte_sum_ok l : byte_ok (byte_sum l).
Proof. rewrite byte_sum_eq. apply Z.mod_pos_bound. lia. Qed.

Lemma sum_app l1 l2 : foldr Z.add 0 (l1 ++ l2) = foldr Z.add 0 l1 + foldr Z.add 0 l2.
Proof. induction l1 as [|x l1 IH]; cbn; [done|]. rewrite IH. lia. Qed.

Lemma wrap8_inj c a b : byte_ok a → byte_ok b → wrap8 (c + a) = wrap8 (c + b) → a = b.
Proof.
  unfold byte_ok, wrap8. intros Ha Hb Heq.
  rewrite (Z.mod_eq (c + a)), (Z.mod_eq (c + b)) in Heq by lia. nia.
Qed.

(** The sum tells two lists apart that differ in one byte. *)
Lemma byte_sum_one l1 l2 a b :
  byte_ok a → byte_ok b → byte_sum (l1 ++ a :: l2) = byte_sum (l1 ++ b :: l2) → a = b.
Proof.
  rewrite !byte_sum_eq, !sum_app. cbn. intros Ha Hb Heq.
  apply (wrap8_inj (foldr Z.add 0 l1 + foldr Z.add 0 l2)); [done..|].
  etrans; [|etrans; [exact Heq|]]; f_equal; lia.
Qed.

(** ** Writing a buffer from left to right *)

Lemma write_next i src pre n :
  i = length pre → (length src ≤ n)%nat →
  write_at i src (pre ++ zeros n) = (pre ++ src) ++ zeros (n - length src).
Proof.
  intros -> Hn. unfold write_at, zeros.
  rewrite take_app_length, drop_app, drop_ge, app_nil_l by lia.
  rewrite drop_replicate, <-app_assoc. do 3 f_equal. lia.
Qed.

Lemma slice_app_l l1 l2 j : length l1 = j → slice (l1 ++ l2) 0 j = l1.
Proof. intros <-. unfold slice. by rewrite Nat.sub_0_r, drop_0, take_app_length. Qed.

Lemma slice_drop l k i j : slice (drop k l) i j = slice l (k + i) (k + j).
Proof. unfold slice. rewrite drop_drop. f_equal. lia. Qed.

Lemma slice_app_r l1 l2 i j : slice (l1 ++ l2) (length l1 + i) (length l1 + j) = slice l2 i j.
Proof. rewrite <-slice_drop. by rewrite drop_app_length. Qed.

Lemma slice_length l i j : (i ≤ j ≤ length l)%nat → length (slice l i j) = (j - i)%nat.
Proof. intros. unfold slice. rewrite length_take, length_drop. lia. Qed.

Lemma bytes_ok_slice l i j : bytes_ok l → bytes_ok (slice l i j).
Proof. intros. unfold slice, bytes_ok. by apply Forall_take, Forall_drop. Qed.
