(* ===== verification/GoTime.v ===== *)
(** The parts of Go's [time] package the modelled code uses: the proleptic
    Gregorian calendar, [time.Date], [time.UnixMilli(..).Format] and
    [time.Parse] for the layouts "2006-01-02" and "15:04".

    Days are counted from 1970-01-01.  The round-trip lemmas reduce to one
    400-year period, which is checked by computation. *)
From S2P Require Import Prelude GoText.

(** ** Calendar *)

Definition is_leap (y : Z) : bool :=
  (y mod 4 =? 0) && (negb (y mod 100 =? 0) || (y mod 400 =? 0)).

Definition days_in (y m : Z) : Z :=
  if m =? 2 then (if is_leap y then 29 else 28)
  else if (m =? 4) || (m =? 6) || (m =? 9) || (m =? 11) then 30 else 31.

Definition valid_civil (y m d : Z) : bool :=
  in_range 1 12 m && in_range 1 (days_in y m) d.

(** Day of the era of a March-based year [yoe] and month [mp]. *)
Definition day_of_era (yoe mp d : Z) : Z :=
  yoe * 365 + yoe / 4 - yoe / 100 + ((153 * mp + 2) / 5 + d - 1).

Definition days_from_civil (y m d : Z) : Z :=
  let y' := if m <=? 2 then y - 1 else y in
  (y' / 400) * 146097 + day_of_era (y' mod 400) ((m + 9) mod 12) d - 719468.

(** The March-based year of era, month and day of a day of the era. *)
Definition civil_of_era (doe : Z) : Z * Z * Z :=
  let yoe := (doe - doe / 1460 + doe / 36524 - doe / 146096) / 365 in
  let doy := doe - (365 * yoe + yoe / 4 - yoe / 100) in
  let mp := (5 * doy + 2) / 153 in
  (yoe, mp, doy - (153 * mp + 2) / 5 + 1).

Definition civil_from_days (n : Z) : Z * Z * Z :=
  let z := n + 719468 in
  let '(yoe, mp, d) := civil_of_era (z mod 146097) in
  let m := if mp <? 10 then mp + 3 else mp - 9 in
  (yoe + (z / 146097) * 400 + (if m <=? 2 then 1 else 0), m, d).

(** Days in a March-based month, [leap] for the year the month belongs to. *)
Definition month_days (yoe mp : Z) : Z :=
  let m := if mp <? 10 then mp + 3 else mp - 9 in
  days_in (yoe + (if m <=? 2 then 1 else 0)) m.

Definition era_day_ok (yoe mp d : Z) : bool :=
  let doe := day_of_era yoe mp d in
  in_range 0 146096 doe && bool_decide (civil_of_era doe = (yoe, mp, d)).
Definition era_month_ok (yoe mp : Z) : bool :=
  forallb (era_day_ok yoe mp) (seqZ 1 (month_days yoe mp)).
Definition era_year_ok (yoe : Z) : bool := forallb (era_month_ok yoe) (seqZ 0 12).
Definition era_check : bool := forallb era_year_ok (seqZ 0 400).

Lemma era_month_ok_eq yoe mp :
  era_month_ok yoe mp = forallb (era_day_ok yoe mp) (seqZ 1 (month_days yoe mp)).
Proof. done. Qed.
Lemma era_year_ok_eq yoe : era_year_ok yoe = forallb (era_month_ok yoe) (seqZ 0 12).
Proof. done. Qed.
Lemma era_check_eq : era_check = forallb era_year_ok (seqZ 0 400).
Proof. done. Qed.
Lemma era_check_true : era_check = true.
Proof. vm_compute. reflexivity. Qed.

Lemma in_range_iff lo hi z : in_range lo hi z = true ↔ lo ≤ z ≤ hi.
Proof. unfold in_range. rewrite andb_true_iff, !Z.leb_le. done. Qed.

Lemma forallb_seqZ f lo n z :
  forallb f (seqZ lo n) = true → lo ≤ z < lo + n → f z = true.
Proof.
  rewrite forallb_forall. intros Hf Hz. apply Hf, list_elem_of_In, elem_of_seqZ. lia.
Qed.

Lemma civil_of_day_of_era yoe mp d :
  0 ≤ yoe < 400 → 0 ≤ mp < 12 → 1 ≤ d ≤ month_days yoe mp →
  0 ≤ day_of_era yoe mp d < 146097 ∧ civil_of_era (day_of_era yoe mp d) = (yoe, mp, d).
Proof.
  intros Hy Hm Hd.
  assert (He : era_day_ok yoe mp d = true).
  { apply (forallb_seqZ (era_day_ok yoe mp) 1 (month_days yoe mp)); [|lia].
    rewrite <-era_month_ok_eq.
    apply (forallb_seqZ (era_month_ok yoe) 0 12); [|lia]. rewrite <-era_year_ok_eq.
    apply (forallb_seqZ era_year_ok 0 400); [|lia].
    rewrite <-era_check_eq. exact era_check_true. }
  unfold era_day_ok in He.
  apply andb_true_iff in He as [He1 He2]. apply in_range_iff in He1.
  apply bool_decide_eq_true in He2. split; [lia|exact He2].
Qed.

Lemma days_in_mod y k m : days_in (y + k * 400) m = days_in y m.
Proof.
  unfold days_in, is_leap.
  replace ((y + k * 400) mod 4) with (y mod 4) by
    (replace (k * 400) with ((k * 100) * 4) by lia; by rewrite Z_mod_plus_full).
  replace ((y + k * 400) mod 100) with (y mod 100) by
    (replace (k * 400) with ((k * 4) * 100) by lia; by rewrite Z_mod_plus_full).
  by rewrite Z_mod_plus_full.
Qed.

(** Every valid date is recovered from its day number. *)
Lemma civil_from_days_from_civil y m d :
  valid_civil y m d = true → civil_from_days (days_from_civil y m d) = (y, m, d).
Proof.
  unfold valid_civil. rewrite andb_true_iff, !in_range_iff. intros [Hm Hd].
  unfold days_from_civil, civil_from_days.
  set (y' := if m <=? 2 then y - 1 else y). set (mp := (m + 9) mod 12).
  assert (Hmp : mp = if m <=? 2 then m + 9 else m - 3).
  { unfold mp. destruct (Z.leb_spec m 2); [apply Z.mod_small; lia|].
    replace (m + 9) with (m - 3 + 1 * 12) by lia. rewrite Z_mod_plus_full, Z.mod_small; lia. }
  assert (Hmm : (if mp <? 10 then mp + 3 else mp - 9) = m).
  { rewrite Hmp. repeat case_match; lia. }
  assert (Hyd : y = y' + (if m <=? 2 then 1 else 0)) by (unfold y'; destruct (Z.leb_spec m 2); lia).
  pose proof (Z.mod_pos_bound y' 400) as Hy. pose proof (Z.div_mod y' 400) as Hdm.
  destruct (civil_of_day_of_era (y' mod 400) mp d) as [Hb Hc].
  - lia.
  - rewrite Hmp. destruct (Z.leb_spec m 2); lia.
  - unfold month_days. rewrite Hmm.
    replace (y' mod 400 + (if m <=? 2 then 1 else 0)) with (y + (- (y' / 400)) * 400) by lia.
    rewrite days_in_mod. lia.
  - set (e := day_of_era (y' mod 400) mp d) in *.
    replace (y' / 400 * 146097 + e - 719468 + 719468) with (e + (y' / 400) * 146097) by lia.
    rewrite Z_mod_plus_full, Z.div_add, (Z.mod_small e), (Z.div_small e) by lia.
    rewrite Hc, Hmm. do 2 f_equal. lia.
Qed.

(** ** Civil time *)

Record civil := mk_civil {
  c_year : Z; c_month : Z; c_day : Z; c_hour : Z; c_minute : Z; c_second : Z }.
#[export] Instance eta_civil : Settable civil := λ t,
  mk_civil (c_year t) (c_month t) (c_day t) (c_hour t) (c_minute t) (c_second t).

(** Seconds since the epoch of a civil time read as UTC. *)
Definition utc_seconds (t : civil) : Z :=
  days_from_civil (c_year t) (c_month t) (c_day t) * 86400
  + c_hour t * 3600 + c_minute t * 60 + c_second t.

Definition utc_civil (sec : Z) : civil :=
  let '(y, m, d) := civil_from_days (sec / 86400) in
  let r := sec mod 86400 in
  mk_civil y m d (r / 3600) (r mod 3600 / 60) (r mod 60).

Definition valid_time (t : civil) : bool :=
  valid_civil (c_year t) (c_month t) (c_day t)
  && in_range 0 23 (c_hour t) && in_range 0 59 (c_minute t) && in_range 0 59 (c_second t).

Lemma utc_civil_seconds t : valid_time t = true → utc_civil (utc_seconds t) = t.
Proof.
  destruct t as [y m d h mi s]. unfold valid_time. cbn [c_year c_month c_day c_hour c_minute c_second].
  rewrite !andb_true_iff, !in_range_iff. intros [[[Hd Hh] Hm] Hs].
  unfold utc_civil, utc_seconds. cbn [c_year c_month c_day c_hour c_minute c_second].
  set (n := days_from_civil y m d).
  replace (n * 86400 + h * 3600 + mi * 60 + s) with ((h * 3600 + mi * 60 + s) + n * 86400) by lia.
  rewrite Z_mod_plus_full, Z.div_add, (Z.div_small (h * 3600 + mi * 60 + s)), Z.add_0_l by lia.
  unfold n. rewrite civil_from_days_from_civil by done.
  rewrite (Z.mod_small (_ + _ + _) 86400) by lia.
  f_equal.
  - symmetry. apply (Z.div_unique_pos _ _ _ (mi * 60 + s)); lia.
  - replace (h * 3600 + mi * 60 + s) with ((mi * 60 + s) + h * 3600) by lia.
    rewrite Z_mod_plus_full, (Z.mod_small (mi * 60 + s)) by lia.
    symmetry. apply (Z.div_unique_pos _ _ _ s); lia.
  - replace (h * 3600 + mi * 60 + s) with (s + (h * 60 + mi) * 60) by lia.
    rewrite Z_mod_plus_full, Z.mod_small; lia.
Qed.

(** [time.Date] on arguments in range up to the day of the month, which it
    normalizes: days past the end of a month run into the next one.  [loc]
    is the zone offset at an instant; as [time.Date] does, the offset in force
    at the resulting instant is used. *)
Definition date_in (loc : Z → Z) (t : civil) : Z :=
  let u := utc_seconds (t <| c_day := 1 |>) + (c_day t - 1) * 86400 in
  let o := loc u in
  if o =? 0 then u else u - loc (u - o).

(** The civil time of an instant in a zone. *)
Definition civil_in (loc : Z → Z) (sec : Z) : civil := utc_civil (sec + loc sec).

(** ** Formatting and parsing *)

Definition digit (z : Z) : option Z := if in_range 48 57 z then Some (z - 48) else None.

(** [time.Parse("2006-01-02", s)], as the day number of the result. *)
Definition parse_date (s : string) : option (Z * Z * Z) :=
  match bytes_of s with
  | [y1; y2; y3; y4; 45; m1; m2; 45; d1; d2] =>
    y1 ← digit y1; y2 ← digit y2; y3 ← digit y3; y4 ← digit y4;
    m1 ← digit m1; m2 ← digit m2; d1 ← digit d1; d2 ← digit d2;
    let y := ((y1 * 10 + y2) * 10 + y3) * 10 + y4 in
    let m := m1 * 10 + m2 in let d := d1 * 10 + d2 in
    if valid_civil y m d then Some (y, m, d) else None
  | _ => None
  end.

(** [time.Parse("15:04", s)]: the hour may have one digit. *)
Definition parse_clock (s : string) : option (Z * Z) :=
  let ok h m := if in_range 0 23 h && in_range 0 59 m then Some (h, m) else None in
  match bytes_of s with
  | [h1; 58; m1; m2] =>
    h1 ← digit h1; m1 ← digit m1; m2 ← digit m2; ok h1 (m1 * 10 + m2)
  | [h1; h2; 58; m1; m2] =>
    h1 ← digit h1; h2 ← digit h2; m1 ← digit m1; m2 ← digit m2;
    ok (h1 * 10 + h2) (m1 * 10 + m2)
  | _ => None
  end.

Definition format_clock (h m : Z) : string := dec2 h +:+ ":" +:+ dec2 m.

Definition dec4 (y : Z) : string :=
  if y <? 10 then "000" +:+ dec y else if y <? 100 then "00" +:+ dec y
  else if y <? 1000 then "0" +:+ dec y else dec y.

(** [time.UnixMilli(ms).Format("2006-01-02")] for years from 0 *)
Definition format_date (t : civil) : string :=
  dec4 (c_year t) +:+ "-" +:+ dec2 (c_month t) +:+ "-" +:+ dec2 (c_day t).

(** [time.UnixMilli(ms).Format("01-02 15:04")] *)
Definition format_minute (t : civil) : string :=
  dec2 (c_month t) +:+ "-" +:+ dec2 (c_day t) +:+ " " +:+ format_clock (c_hour t) (c_minute t).

(** The local civil time of a Unix time in milliseconds. *)
Definition local_civil `{Platform} (ms : Z) : civil := civil_in local_offset (ms / 1000).
