(* ===== verification/GoJson.v ===== *)
(** JSON documents and [encoding/json]'s decoding into Go structs.

    A request body ([json.RawMessage]) is its document together with the two
    facts about its text the code looks at.  Tokenizing the text is not
    modelled: [raw_doc] is [None] exactly when the text is not one valid JSON
    value.  Decoding follows [json.Unmarshal]: members are applied in order,
    field names match exactly or else after case folding, [null] leaves
    scalars unchanged and clears slices and pointers, unknown members are
    skipped, and a type mismatch anywhere makes the whole call fail. *)
From S2P Require Import Prelude GoText.
From Stdlib Require Import SpecFloat.

(** ** Numbers *)

(** [float64] as IEEE 754 binary64. *)
Abbreviation float64 := spec_float.
Definition f64_prec : Z := 53.
Definition f64_emax : Z := 1024.

(** A JSON number literal: an integer literal, or [mant * 10^exp] when the
    literal has a fraction or an exponent. *)
Inductive number :=
  | NInt (neg : bool) (mag : Z)
  | NDec (neg : bool) (mant exp : Z).

(** [strconv.ParseInt(literal, 10, 64)] *)
Definition number_int64 (n : number) : option Z :=
  match n with
  | NInt neg mag =>
    let z := if neg then - mag else mag in
    if decide (in_int64 z) then Some z else None
  | NDec _ _ _ => None
  end.

Definition round_ratio (neg : bool) (m d : Z) : float64 :=
  match m with
  | Z0 => S754_zero neg
  | Z.pos _ =>
    let '(mz, ez, lz) := SFdiv_core_binary f64_prec f64_emax m 0 d 0 in
    binary_round_aux f64_prec f64_emax neg mz ez lz
  | Z.neg _ => S754_nan
  end.

(** [strconv.ParseFloat(literal, 64)]: the nearest float, or an error when
    the literal is out of range. *)
Definition number_float64 (n : number) : option float64 :=
  let f := match n with
           | NInt neg mag => round_ratio neg mag 1
           | NDec neg mant exp =>
             if 0 <=? exp then round_ratio neg (mant * 10 ^ exp) 1
             else round_ratio neg mant (10 ^ (- exp))
           end in
  match f with S754_infinity _ | S754_nan => None | _ => Some f end.

(** The float of a small integer constant of the source. *)
Definition f64_of_Z (z : Z) : float64 := round_ratio (z <? 0) (Z.abs z) 1.

(** [<] on [float64]; false when an operand is NaN. *)
Definition f64_ltb (a b : float64) : bool :=
  match SFcompare a b with Some Lt => true | _ => false end.

(** [==] on [float64] *)
Definition f64_eqb (a b : float64) : bool :=
  match SFcompare a b with Some Eq => true | _ => false end.

#[export] Instance float64_eq_dec : EqDecision float64.
Proof. solve_decision. Defined.

(** ** Documents *)

Inductive json :=
  | JNull
  | JBool (b : bool)
  | JNum (n : number)
  | JStr (s : string)
  | JArr (l : list json)
  | JObj (l : list (string * json)).

Definition jint (z : Z) : json := JNum (NInt (z <? 0) (Z.abs z)).

Record raw_message := mk_raw {
  raw_len : Z;               (* len(body) *)
  raw_null : bool;           (* strings.TrimSpace(string(body)) == "null" *)
  raw_doc : option json }.

(** The body whose text is the document [j] in [n] bytes. *)
Definition raw_of (n : Z) (j : json) : raw_message :=
  mk_raw n (match j with JNull => true | _ => false end) (Some j).

(** ** Decoding *)

(** Decoding a value into a variable that holds [a]; [None] is an
    [UnmarshalTypeError]. *)
Definition decoder (A : Type) := json → A → option A.

Definition dec_string : decoder string := λ j a,
  match j with JNull => Some a | JStr s => Some s | _ => None end.
Definition dec_bool : decoder bool := λ j a,
  match j with JNull => Some a | JBool b => Some b | _ => None end.
Definition dec_int64 : decoder Z := λ j a,
  match j with JNull => Some a | JNum n => number_int64 n | _ => None end.
Definition dec_float64 : decoder float64 := λ j a,
  match j with JNull => Some a | JNum n => number_float64 n | _ => None end.

(** A pointer field: [null] clears it, anything else is decoded into a fresh
    or the existing pointee. *)
Definition dec_ptr {A} (d : decoder A) (zero : A) : decoder (option A) := λ j a,
  match j with JNull => Some None | _ => Some <$> d j (default zero a) end.

(** A slice: the i-th element is decoded into the existing i-th element when
    the slice already holds one, which a repeated member can observe. *)
Fixpoint dec_elems {A} (d : decoder A) (zero : A) (l : list json) (old : list A)
    : option (list A) :=
  match l with
  | [] => Some []
  | j :: l =>
    x ← d j (default zero (head old)); xs ← dec_elems d zero l (tail old); Some (x :: xs)
  end.
Definition dec_list {A} (d : decoder A) (zero : A) : decoder (list A) := λ j old,
  match j with JNull => Some [] | JArr l => dec_elems d zero l old | _ => None end.

(** Field name folding of [encoding/json]: ASCII letters are upper-cased, and
    the two other runes whose folding orbit holds an ASCII letter (U+017F and
    U+212A) fold to it. *)
Definition fold_rune (r : Z) : Z :=
  if in_range 97 122 r then r - 32
  else if r =? 383 then 83 else if r =? 8490 then 75 else r.
Definition fold_name (s : string) : list Z := fold_rune <$> runes s.

(** The struct field a member name selects. *)
Definition struct_field {T} (fields : list (string * decoder T)) (name : string)
    : option (decoder T) :=
  match list_find (λ f, f.1 = name) fields with
  | Some (_, f) => Some f.2
  | None => snd ∘ snd <$> list_find (λ f, fold_name f.1 = fold_name name) fields
  end.

Definition dec_member {T} (fields : list (string * decoder T)) (a : option T)
    (m : string * json) : option T :=
  a ← a; match struct_field fields m.1 with Some d => d m.2 a | None => Some a end.

Definition dec_struct {T} (fields : list (string * decoder T)) : decoder T := λ j a,
  match j with
  | JNull => Some a
  | JObj l => foldl (dec_member fields) (Some a) l
  | _ => None
  end.

(** A struct field of [T] reached through a projection. *)
Definition at_field {T A} (getter : T → A) `{!Setter getter} (d : decoder A) : decoder T :=
  λ j t, (λ a, set getter (λ _, a) t) <$> d j (getter t).
#[global] Arguments at_field {T A} getter {_} d _ _.

(** The fields promoted from an embedded struct. *)
Definition embed {T A} (getter : T → A) `{!Setter getter} (fields : list (string * decoder A))
    : list (string * decoder T) :=
  (λ f, (f.1, at_field getter f.2)) <$> fields.
#[global] Arguments embed {T A} getter {_} fields.

Lemma dec_elems_length {A} (d : decoder A) zero l old xs :
  dec_elems d zero l old = Some xs → length xs = length l.
Proof.
  revert old xs. induction l as [|j l IH]; intros old xs; cbn; [naive_solver|].
  intros (x & _ & (ys & Hys%IH & ?)%bind_Some)%bind_Some. simplify_eq. cbn. lia.
Qed.
