(* ===== verification/Keyed.v ===== *)
(** Slices of records with an identity, read as tables.

    The code keeps each collection of an aggregate as a slice and finds, adds,
    replaces and removes records by identity with linear scans.  On a slice
    whose identities are distinct these scans are the operations of a finite
    map; the lemmas here let the component proofs reason that way. *)
From S2P Require Import Prelude GoText.

Class Keyed (A : Type) := key : A → string.

Definition keys {A} `{Keyed A} (l : list A) : list string := key <$> l.

(** The record a scan for [k] finds. *)
Definition get_by {A} `{Keyed A} (l : list A) (k : string) : option A :=
  snd <$> list_find (λ x, key x = k) l.

(** [append] when the scan found nothing, assignment through the found
    pointer otherwise. *)
Definition upsert {A} (old : option (nat * A)) (v : A) (l : list A) : list A :=
  match old with None => l ++ [v] | Some (i, _) => <[i:=v]> l end.

(** [v] keeps the identity of the record it replaces, or is new. *)
Definition upsert_ok {A} `{Keyed A} (old : option (nat * A)) (v : A) (l : list A) : Prop :=
  match old with
  | None => key v ∉ keys l
  | Some (i, o) => l !! i = Some o ∧ key o = key v
  end.

Section keyed.
Context {A : Type} `{Keyed A}.
Implicit Types l : list A.

Lemma find_get_by l k i x :
  list_find (λ x, key x = k) l = Some (i, x) →
  l !! i = Some x ∧ key x = k ∧ get_by l k = Some x.
Proof.
  intros Hf. unfold get_by. rewrite Hf. by apply list_find_Some in Hf as (? & ? & _).
Qed.

Lemma find_None_get_by l k :
  list_find (λ x, key x = k) l = None → get_by l k = None ∧ k ∉ keys l.
Proof.
  intros Hf. unfold get_by. rewrite Hf. split; [done|]. apply list_find_None in Hf.
  unfold keys. intros (x & -> & Hx)%list_elem_of_fmap.
  rewrite Forall_forall in Hf. by apply (Hf x).
Qed.

Lemma get_by_find l k x :
  get_by l k = Some x → ∃ i, list_find (λ x, key x = k) l = Some (i, x).
Proof.
  unfold get_by. destruct (list_find _ l) as [[i y]|]; cbn; naive_solver.
Qed.

Lemma get_by_elem l k x : get_by l k = Some x → x ∈ l ∧ key x = k.
Proof.
  intros (i & (Hi & ? & _)%list_find_Some)%get_by_find.
  split; [by eapply list_elem_of_lookup_2|done].
Qed.

Lemma keys_lookup_inj l i j x y :
  NoDup (keys l) → l !! i = Some x → l !! j = Some y → key x = key y → i = j.
Proof.
  intros Hnd Hi Hj Hk. apply (NoDup_lookup (keys l) i j (key x)); [done|..].
  - unfold keys. by rewrite list_lookup_fmap, Hi.
  - unfold keys. by rewrite list_lookup_fmap, Hj, Hk.
Qed.

Lemma get_by_lookup l i x :
  NoDup (keys l) → l !! i = Some x → get_by l (key x) = Some x.
Proof.
  intros Hnd Hi. unfold get_by.
  destruct (list_find_elem_of (λ y, key y = key x) l x) as [[j y] Hf];
    [by eapply list_elem_of_lookup_2|done|].
  rewrite Hf. cbn. apply list_find_Some in Hf as (Hj & Hk & _).
  assert (i = j) as -> by (eapply keys_lookup_inj; eauto). congruence.
Qed.

Lemma get_by_elem_of l x : NoDup (keys l) → x ∈ l → get_by l (key x) = Some x.
Proof. intros Hnd [i Hi]%list_elem_of_lookup_1. by eapply get_by_lookup. Qed.

Lemma get_by_iff l k x : NoDup (keys l) → get_by l k = Some x ↔ x ∈ l ∧ key x = k.
Proof.
  intros Hnd. split; [apply get_by_elem|]. intros [Hx <-]. by apply get_by_elem_of.
Qed.

Lemma get_by_is_Some l k : is_Some (get_by l k) ↔ k ∈ keys l.
Proof.
  unfold keys. rewrite list_elem_of_fmap. split.
  - intros [x [Hx Hk]%get_by_elem]. eauto.
  - intros (x & -> & Hx). unfold get_by. apply fmap_is_Some.
    by eapply (list_find_elem_of (λ y, key y = key x)).
Qed.

Lemma find_is_Some l k : is_Some (list_find (λ x, key x = k) l) ↔ k ∈ keys l.
Proof. rewrite <-get_by_is_Some. unfold get_by. by rewrite fmap_is_Some. Qed.

Lemma upsert_ok_found l k v :
  (match list_find (λ x, key x = k) l with
   | Some (_, o) => key v = key o | None => key v ∉ keys l end) →
  upsert_ok (list_find (λ x, key x = k) l) v l.
Proof.
  destruct (list_find _ l) as [[i o]|] eqn:Hf; cbn; [|done].
  apply find_get_by in Hf as (? & ? & _). done.
Qed.

(** An identity of the table that is overwritten is the one looked up. *)
Lemma upsert_key_old l k v i :
  upsert_ok (list_find (λ x, key x = k) l) v l → i ∈ keys l → i = key v →
  i = k ∧ ∃ j o, list_find (λ x, key x = k) l = Some (j, o) ∧ l !! j = Some o ∧ key o = k.
Proof.
  intros Hok Hi ->. destruct (list_find _ l) as [[j o]|] eqn:Hf; cbn in Hok; [|done].
  destruct Hok as [Hj <-]. apply find_get_by in Hf as (_ & <- & _). eauto 6.
Qed.

Lemma keys_upsert old v l :
  upsert_ok old v l →
  keys (upsert old v l) = match old with None => keys l ++ [key v] | Some _ => keys l end.
Proof.
  unfold keys, upsert. destruct old as [[i o]|]; cbn.
  - intros [Hi Hk]. rewrite list_fmap_insert. apply list_insert_id.
    by rewrite list_lookup_fmap, Hi, <-Hk.
  - intros _. by rewrite fmap_app.
Qed.

Lemma NoDup_keys_upsert old v l :
  NoDup (keys l) → upsert_ok old v l → NoDup (keys (upsert old v l)).
Proof.
  intros Hnd Hok. rewrite keys_upsert by done. destruct old; [done|].
  apply NoDup_app. split; [done|]. split; [|apply NoDup_singleton].
  cbn in Hok. set_solver.
Qed.

Lemma elem_of_upsert old v l x : x ∈ upsert old v l → x = v ∨ x ∈ l.
Proof.
  unfold upsert. destruct old as [[i o]|].
  - intros [?|(j & _ & Hj)]%elem_of_insert_list; [by left|right].
    by eapply list_elem_of_lookup_2.
  - set_solver.
Qed.

Lemma elem_of_upsert_self old v l : upsert_ok old v l → v ∈ upsert old v l.
Proof.
  unfold upsert. destruct old as [[i o]|]; cbn.
  - intros [Hi _]. eapply list_elem_of_lookup_2. apply list_lookup_insert_eq.
    by eapply lookup_lt_Some.
  - set_solver.
Qed.

Lemma elem_of_upsert_other old v l x :
  upsert_ok old v l → x ∈ l → key x ≠ key v → x ∈ upsert old v l.
Proof.
  unfold upsert. destruct old as [[i o]|]; cbn; [|set_solver].
  intros [Hi Hk] [j Hj]%list_elem_of_lookup_1 Hne. eapply list_elem_of_lookup_2.
  rewrite list_lookup_insert_ne; [done|]. intros ->. congruence.
Qed.

(** Replacing or appending a record is the map update at its identity. *)
Lemma get_by_upsert old v l k :
  NoDup (keys l) → upsert_ok old v l →
  get_by (upsert old v l) k = if decide (k = key v) then Some v else get_by l k.
Proof.
  intros Hnd Hok. pose proof (NoDup_keys_upsert _ _ _ Hnd Hok) as Hnd'.
  case_decide as Hk.
  - subst. apply get_by_elem_of; [done|]. by apply elem_of_upsert_self.
  - apply option_eq. intros x. rewrite !get_by_iff by done. split.
    + intros [[->|Hx]%elem_of_upsert ?]; [congruence|done].
    + intros [Hx <-]. split; [by apply elem_of_upsert_other|done].
Qed.

Lemma keys_remove i l : keys (remove_at i l) = remove_at i (keys l).
Proof. apply fmap_delete. Qed.

Lemma NoDup_keys_remove i l : NoDup (keys l) → NoDup (keys (remove_at i l)).
Proof. rewrite keys_remove. apply NoDup_delete_list. Qed.

Lemma elem_of_remove i l x o :
  NoDup (keys l) → l !! i = Some o → x ∈ remove_at i l ↔ x ∈ l ∧ key x ≠ key o.
Proof.
  intros Hnd Hi. rewrite delete_take_drop, elem_of_app. split.
  - intros Hx. assert (∃ j, j ≠ i ∧ l !! j = Some x) as (j & Hji & Hj).
    { destruct Hx as [(j & Hj & ?)%elem_of_take|[j Hj]%list_elem_of_lookup_1].
      - exists j. split; [lia|done].
      - rewrite lookup_drop in Hj. exists (S i + j)%nat. split; [lia|done]. }
    split; [by eapply list_elem_of_lookup_2|]. intros Hk. apply Hji.
    by eapply keys_lookup_inj.
  - intros [[j Hj]%list_elem_of_lookup_1 Hk].
    destruct (decide (j = i)) as [->|Hne]; [congruence|].
    destruct (decide (j < i)%nat).
    + left. apply elem_of_take. eauto.
    + right. eapply (list_elem_of_lookup_2 _ (j - S i)). rewrite lookup_drop.
      by replace (S i + (j - S i))%nat with j by lia.
Qed.

(** Removing a record is the map deletion of its identity. *)
Lemma get_by_remove i l o k :
  NoDup (keys l) → l !! i = Some o →
  get_by (remove_at i l) k = if decide (k = key o) then None else get_by l k.
Proof.
  intros Hnd Hi. pose proof (NoDup_keys_remove i l Hnd) as Hnd'.
  apply option_eq. intros x. rewrite get_by_iff, (elem_of_remove _ _ _ o) by done.
  case_decide as Hk; [naive_solver|]. rewrite get_by_iff by done. naive_solver.
Qed.
End keyed.

(** ** Predicates on tables, and how updates preserve them *)

(** Every record. *)
Definition each {A} (P : A → Prop) (l : list A) : Prop := ∀ x, x ∈ l → P x.

(** Every two records of different identity. *)
Definition distinct {A} `{Keyed A} (R : A → A → Prop) (l : list A) : Prop :=
  ∀ x y, x ∈ l → y ∈ l → key x ≠ key y → R x y.

(** The references [f] of every record are identities of [m]. *)
Definition refs_to {A B} `{Keyed B} (f : A → list string) (l : list A) (m : list B) : Prop :=
  ∀ x i, x ∈ l → i ∈ f x → i ∈ keys m.

Section tables.
Context {A B : Type} `{Keyed A, Keyed B}.
Implicit Types (l : list A) (m : list B).

Lemma each_upsert P old (v : A) l : each P l → P v → each P (upsert old v l).
Proof. intros Hl Hv x [->|Hx]%elem_of_upsert; auto. Qed.

Lemma each_nil (P : A → Prop) : each P [].
Proof. intros x Hx%not_elem_of_nil. done. Qed.

Lemma each_cons P (v : A) l : P v → each P l → each P (v :: l).
Proof. intros Hv Hl x [->|Hx]%elem_of_cons; auto. Qed.

Lemma each_app P l1 l2 : each P (l1 ++ l2) ↔ each P l1 ∧ each P l2.
Proof. unfold each. set_solver. Qed.

Lemma each_remove P i l : each P l → each P (remove_at i l).
Proof. intros Hl x Hx%elem_of_delete_list. auto. Qed.

Lemma each_impl (P Q : A → Prop) l : each P l → (∀ x, x ∈ l → P x → Q x) → each Q l.
Proof. unfold each. auto. Qed.

Lemma distinct_upsert R old v l :
  distinct R l → (∀ x, x ∈ l → key x ≠ key v → R x v ∧ R v x) →
  distinct R (upsert old v l).
Proof.
  intros Hl Hv x y [->|Hx]%elem_of_upsert [->|Hy]%elem_of_upsert Hne; [done|..].
  - by apply Hv.
  - by apply Hv.
  - by apply Hl.
Qed.

Lemma distinct_remove R i l : distinct R l → distinct R (remove_at i l).
Proof. intros Hl x y Hx%elem_of_delete_list Hy%elem_of_delete_list. auto. Qed.

Lemma keys_upsert_incl old (v : B) m i :
  upsert_ok old v m → i ∈ keys m → i ∈ keys (upsert old v m).
Proof. intros Hok Hi. rewrite keys_upsert by done. destruct old; set_solver. Qed.

Lemma keys_upsert_inv old (v : B) m i :
  upsert_ok old v m → i ∈ keys (upsert old v m) → i = key v ∨ i ∈ keys m.
Proof. intros Hok. rewrite keys_upsert by done. destruct old; set_solver. Qed.

Lemma keys_remove_ne j m o i :
  NoDup (keys m) → m !! j = Some o → i ≠ key o → i ∈ keys m → i ∈ keys (remove_at j m).
Proof.
  intros Hnd Hj Hne. rewrite <-!get_by_is_Some, (get_by_remove _ _ o) by done.
  by rewrite decide_False.
Qed.

Lemma refs_upsert_src f old v l m :
  refs_to f l m → (∀ i, i ∈ f v → i ∈ keys m) → refs_to f (upsert old v l) m.
Proof. intros Hl Hv x i [->|Hx]%elem_of_upsert; eauto. Qed.

Lemma refs_upsert_dst (f : A → list string) old (v : B) l m :
  refs_to f l m → upsert_ok old v m → refs_to f l (upsert old v m).
Proof. intros Hl Hv x i Hx Hi. apply keys_upsert_incl; eauto. Qed.

Lemma refs_remove_src f i l m : refs_to f l m → refs_to f (remove_at i l) m.
Proof. intros Hl x k Hx%elem_of_delete_list. eauto. Qed.

Lemma refs_remove_dst (f : A → list string) j l m o :
  refs_to f l m → NoDup (keys m) → m !! j = Some o →
  (∀ x, x ∈ l → key o ∉ f x) → refs_to f l (remove_at j m).
Proof.
  intros Hl Hnd Hj Ho x i Hx Hi. eapply keys_remove_ne; [done..| |eauto].
  intros ->. by eapply Ho.
Qed.
End tables.

#[export] Hint Resolve each_upsert each_remove distinct_remove refs_upsert_dst refs_remove_src
  NoDup_keys_remove : go.

#[global] Arguments get_by : simpl never.
#[global] Arguments upsert : simpl never.
#[global] Arguments keys : simpl never.
#[global] Arguments key : simpl never.

(** Record identities: the tables whose identities are distinct and drawn from
    the process-wide source of identities. *)

Section with_platform.
Context `{Platform}.

(** [i] is one of the first [n] identities drawn from [uuid]. *)
Definition drawn (n : nat) (i : string) : Prop := ∃ k, (k < n)%nat ∧ i = new_uuid k.

Definition keyed {A} `{Keyed A} (n : nat) (l : list A) : Prop :=
  NoDup (keys l) ∧ ∀ i, i ∈ keys l → drawn n i.

Lemma drawn_mono n m i : (n ≤ m)%nat → drawn n i → drawn m i.
Proof. intros ? (k & ? & ?). exists k. split; [lia|done]. Qed.

Lemma drawn_new n : drawn (S n) (new_uuid n).
Proof. exists n. split; [lia|done]. Qed.

Lemma drawn_fresh `{!PlatformLaws} n : ¬ drawn n (new_uuid n).
Proof. intros (k & Hk & Heq%new_uuid_inj). lia. Qed.

Lemma drawn_nonempty `{!PlatformLaws} n i : drawn n i → i ≠ "".
Proof. intros (k & _ & ->). apply new_uuid_nonempty. Qed.

Section tables.
Context {A : Type} `{Keyed A}.
Implicit Types l : list A.

Lemma keyed_nil n : keyed n ([] : list A).
Proof. split; [constructor|]. intros i Hi. by apply not_elem_of_nil in Hi. Qed.

Lemma keyed_mono n m l : (n ≤ m)%nat → keyed n l → keyed m l.
Proof. intros Hm [? Hd]. split; [done|]. intros i Hi. eapply drawn_mono; eauto. Qed.

Lemma keyed_remove n i l : keyed n l → keyed n (remove_at i l).
Proof.
  intros [? Hd]. split; [by apply NoDup_keys_remove|]. intros k Hk. apply Hd.
  rewrite keys_remove in Hk. by eapply elem_of_delete_list.
Qed.

Lemma keyed_upsert n m old v l :
  keyed n l → (n ≤ m)%nat → upsert_ok old v l → drawn m (key v) → keyed m (upsert old v l).
Proof.
  intros Hl Hm Hok Hv. destruct (keyed_mono _ _ _ Hm Hl) as [Hnd Hd].
  split; [by apply NoDup_keys_upsert|]. by intros i [->|Hi%Hd]%keys_upsert_inv.
Qed.

Lemma keyed_replace n i o v l :
  keyed n l → upsert_ok (Some (i, o)) v l → keyed n (upsert (Some (i, o)) v l).
Proof. intros Hl Hok. unfold keyed. by rewrite keys_upsert. Qed.

(** A record with a fresh identity can be appended. *)
Lemma keyed_append `{!PlatformLaws} n v l :
  keyed n l → key v = new_uuid n →
  upsert_ok None v l ∧ keyed (S n) (upsert None v l).
Proof.
  intros Hl Hv. assert (Hok : upsert_ok None v l).
  { cbn. rewrite Hv. intros ?%Hl. by eapply drawn_fresh. }
  split; [done|]. apply (keyed_upsert n); [done|lia|done|]. rewrite Hv. apply drawn_new.
Qed.

(** A record that keeps the identity looked up can replace what was found. *)
Lemma keyed_found n m k v l i o :
  keyed n l → (n ≤ m)%nat → list_find (λ x, key x = k) l = Some (i, o) → key v = key o →
  upsert_ok (Some (i, o)) v l ∧ keyed m (upsert (Some (i, o)) v l).
Proof.
  intros Hl Hm Hf Hv. apply find_get_by in Hf as (Hi & _). assert (upsert_ok (Some (i, o)) v l) by done.
  split; [done|]. apply keyed_replace; [by eapply keyed_mono|done].
Qed.
End tables.
End with_platform.

#[export] Hint Resolve keyed_remove keyed_replace : go.
