(* ===== verification/Optimistic.v ===== *)
(** Tenant documents under optimistic locking: the stores of the memory
    adapter, the calls a service makes to them while other requests and
    replicas act in between, and what such a service may rely on.

    A document type [S] is an instance of [Revised].  Every call of the store
    is one atomic step on the shared database.  The schedule says what the
    others do before each call (to the database and to the caches [C] of this
    process), when the context of the request is cancelled, which calls fail,
    and what the clock reads. *)
From S2P Require Import Prelude.

(** A document with a revision; [blank] is what a tenant without a stored
    document reads. *)
Class Revised (S : Type) := {
  revision : S → Z;
  with_revision : Z → S → S;
  blank : S }.

Class RevisedLaws (S : Type) `{Revised S} : Prop := {
  revision_with z (s : S) : revision (with_revision z s) = z;
  revision_blank : revision (blank : S) = 0 }.

(** ** The store *)

(** The stored documents by tenant, and how many identities have been drawn
    from [uuid] by all processes together. *)
Record database (S : Type) := mk_database { db_states : gmap string S; db_next : nat }.
#[global] Arguments mk_database {S} _ _.
#[global] Arguments db_states {S} _.
#[global] Arguments db_next {S} _.

Section store.
Context {S : Type} `{Revised S}.

Definition load (tenant : string) (db : database S) : S := default blank (db_states db !! tenant).
Definition stored_revision (tenant : string) (db : database S) : Z := revision (load tenant db).

(** False when the tenant has moved past the revision [base]. *)
Definition save (tenant : string) (base : Z) (next : S) (db : database S) : bool * database S :=
  if decide (stored_revision tenant db ≠ base) then (false, db)
  else (true, mk_database (<[tenant := with_revision (wrap64 (base + 1)) next]> (db_states db))
                (db_next db)).

(** Writing the next revision of the document of [t]. *)
Definition commit (t : string) (state : S) (db : database S) : database S :=
  mk_database (<[t := with_revision (stored_revision t db + 1) state]> (db_states db)) (db_next db).
End store.

(** ** Calls under interference *)

(** What other requests share with this one: the database, and the caches of
    this process. *)
Definition shared (S C : Type) : Type := database S * C.

Record schedule (S C : Type) := mk_schedule {
  s_env : nat → shared S C → shared S C;   (* before the n-th store call *)
  s_ctx : nat → option error;              (* ctx.Err() *)
  s_fail : nat → option error;             (* the error of the n-th store call *)
  s_now : nat → Z }.                       (* s.now().UnixMilli() *)
#[global] Arguments mk_schedule {S C} _ _ _ _.
#[global] Arguments s_env {S C} _ _ _.
#[global] Arguments s_ctx {S C} _ _.
#[global] Arguments s_fail {S C} _ _.
#[global] Arguments s_now {S C} _ _.

Record io_state (S C : Type) := mk_io { io_db : database S; io_cache : C; io_tick : nat }.
#[global] Arguments mk_io {S C} _ _ _.
#[global] Arguments io_db {S C} _.
#[global] Arguments io_cache {S C} _.
#[global] Arguments io_tick {S C} _.
#[export] Instance eta_io_state {S C} : Settable (io_state S C) := λ v,
  mk_io (io_db v) (io_cache v) (io_tick v).

Definition IO (S C A : Type) := io_state S C → res A * io_state S C.
#[export] Instance IO_ret {S C} : MRet (IO S C) := λ A a s, (Ok a, s).
#[export] Instance IO_bind {S C} : MBind (IO S C) := λ A B f m s,
  match m s with (Ok a, s') => f a s' | (Err e, s') => (Err e, s') end.

Section calls.
Context {S C : Type} (sched : schedule S C).

Definition io_err {A} (e : error) : IO S C A := λ s, (Err e, s).

(** One atomic store call, after the steps of the others.  A call that fails
    (a cancelled context, a database error, a constraint of the store) leaves
    the database as it is. *)
Definition call {A} (f : database S → A * database S) : IO S C A := λ s,
  let '(db, cache) := s_env sched (io_tick s) (io_db s, io_cache s) in
  let t := Datatypes.S (io_tick s) in
  match s_fail sched (io_tick s) with
  | Some e => (Err e, mk_io db cache t)
  | None => let '(a, db) := f db in (Ok a, mk_io db cache t)
  end.

Definition ctx_err : IO S C unit := λ s,
  match s_ctx sched (io_tick s) with Some e => (Err e, s) | None => (Ok tt, s) end.

(** What the process keeps in memory. *)
Definition cached : IO S C C := λ s, (Ok (io_cache s), s).
Definition set_cache (f : C → C) : IO S C unit := λ s, (Ok tt, s <| io_cache ::= f |>).

(** Running a handler on a copy of [base]; the identities it draws are gone
    even when the change is not saved. *)
Definition run_handler {A} (handler : Z → M S A) (base : S) : IO S C (A * S) := λ s,
  match handler (s_now sched (io_tick s)) (mk_world base (db_next (io_db s))) with
  | Ok (r, w) => (Ok (r, w_state w), s <| io_db := mk_database (db_states (io_db s)) (w_next w) |>)
  | Err e => (Err e, s)
  end.

Definition map_err {A} (f : error → error) (m : IO S C A) : IO S C A := λ s,
  match m s with (Err e, s') => (Err (f e), s') | r => r end.
End calls.

(** The theory of optimistic locking over tenant documents.

    Rely: the other requests move the revision of a tenant whenever they
    change its document, keep the documents well-formed and the caches
    coherent.  Guarantee: a service that only reads, draws identities and
    saves documents it loaded and changed does the same. *)

(** What a service promises about its documents and caches: [doc_ok n s] is
    the invariant of a document when [n] identities have been drawn, and
    [coherent db c] that the caches [c] agree with the database. *)
Class Coherence (S C : Type) `{Revised S} := {
  doc_ok : nat → S → Prop;
  coherent : database S → C → Prop }.

Section moves.
Context {S : Type} `{RevisedLaws S}.
Implicit Types db : database S.

(** A document changes only together with its revision, which grows. *)
Definition moves (db db' : database S) : Prop :=
  (db_next db ≤ db_next db')%nat ∧
  ∀ t, load t db' = load t db ∨ stored_revision t db < stored_revision t db'.

Definition bounded (k : Z) (db : database S) : Prop := ∀ t, 0 ≤ stored_revision t db ≤ k.

Lemma moves_refl db : moves db db.
Proof. split; [lia|]. by left. Qed.

Lemma moves_trans db1 db2 db3 : moves db1 db2 → moves db2 db3 → moves db1 db3.
Proof.
  intros [? H12] [? H23]. split; [lia|]. intros t.
  destruct (H12 t) as [E1|], (H23 t) as [E2|]; unfold stored_revision in *.
  - left. congruence.
  - right. by rewrite <-E1.
  - right. by rewrite E2.
  - right. lia.
Qed.

#[export] Instance moves_preorder : PreOrder moves.
Proof. split; [exact moves_refl|exact moves_trans]. Qed.

Lemma moves_draw db m : (db_next db ≤ m)%nat → moves db (mk_database (db_states db) m).
Proof. intros Hm. split; [done|]. intros t. by left. Qed.

(** Documents of equal revision are equal. *)
Lemma moves_same t db db' :
  moves db db' → stored_revision t db' = stored_revision t db → load t db' = load t db.
Proof. intros [_ Hm] Heq. destruct (Hm t); [done|lia]. Qed.

Lemma load_commit t state db :
  load t (commit t state db) = with_revision (stored_revision t db + 1) state.
Proof. unfold load. cbn. by rewrite lookup_insert_eq. Qed.

Lemma load_commit_ne t t' state db : t ≠ t' → load t' (commit t state db) = load t' db.
Proof. intros Hne. unfold load. cbn. by rewrite lookup_insert_ne. Qed.

Lemma revision_commit t state db : stored_revision t (commit t state db) = stored_revision t db + 1.
Proof. unfold stored_revision at 1. by rewrite load_commit, revision_with. Qed.

Lemma revision_commit_ne t t' state db :
  t ≠ t' → stored_revision t' (commit t state db) = stored_revision t' db.
Proof. intros Hne. unfold stored_revision. by rewrite load_commit_ne. Qed.

Lemma moves_commit t state db : moves db (commit t state db).
Proof.
  split; [done|]. intros t'. destruct (decide (t = t')) as [<-|Hne].
  - right. rewrite revision_commit. lia.
  - left. by apply load_commit_ne.
Qed.
End moves.

Section rely.
Context {S C : Type} `{Coherence S C, !RevisedLaws S}.

(** What the promises need: both survive a draw of identities and a commit,
    and the document invariant does not look at the revision. *)
Class CoherenceLaws : Prop := {
  doc_ok_mono n m (s : S) : (n ≤ m)%nat → doc_ok n s → doc_ok m s;
  doc_ok_revision n z (s : S) : doc_ok n s → doc_ok n (with_revision z s);
  coherent_draw (db : database S) (c : C) m :
    coherent db c → coherent (mk_database (db_states db) m) c;
  coherent_commit t (s : S) (db : database S) (c : C) :
    coherent db c → coherent (commit t s db) c }.
Context `{!CoherenceLaws}.

Record sane (k : Z) (db : database S) (cache : C) (tick : nat) : Prop := {
  sane_docs : ∀ t, doc_ok (db_next db) (load t db);
  sane_coherent : coherent db cache;
  sane_bounded : bounded (k + Z.of_nat tick) db }.

(** What the other requests do; [k] bounds the revisions they reach. *)
Record rely (k : Z) (sched : schedule S C) : Prop := {
  rely_moves n sh : moves sh.1 (s_env sched n sh).1;
  rely_sane n db cache : sane k db cache n →
    sane k (s_env sched n (db, cache)).1 (s_env sched n (db, cache)).2 n }.

(** Steps of the database that this request did not write. *)
Definition env_step (sched : schedule S C) (db db' : database S) : Prop :=
  ∃ n cache, db' = (s_env sched n (db, cache)).1.
Definition draw_step (db db' : database S) : Prop :=
  ∃ m, (db_next db ≤ m)%nat ∧ db' = mk_database (db_states db) m.
Definition quiet (sched : schedule S C) : relation (database S) :=
  rtc (λ db db', env_step sched db db' ∨ draw_step db db').

Lemma quiet_moves k sched db db' : rely k sched → quiet sched db db' → moves db db'.
Proof.
  intros Hrely. induction 1 as [db|db1 db2 db3 [(n & cache & ->)|(m & Hm & ->)] _ IH]; [done|..].
  - etrans; [|exact IH]. apply (rely_moves k sched Hrely n (db1, cache)).
  - etrans; [|exact IH]. by apply moves_draw.
Qed.

Lemma sane_draw k db cache n m :
  sane k db cache n → (db_next db ≤ m)%nat → sane k (mk_database (db_states db) m) cache n.
Proof.
  intros [Hwf Hc Hb] Hm. split; [|by apply coherent_draw|done].
  intros t. eapply doc_ok_mono; [exact Hm|]. apply Hwf.
Qed.

Lemma sane_tick k db cache n : sane k db cache n → sane k db cache (Datatypes.S n).
Proof. intros [? ? Hb]. split; [done..|]. intros t. specialize (Hb t). lia. Qed.

Lemma sane_commit k t state db cache n :
  sane k db cache n → doc_ok (db_next db) state → sane k (commit t state db) cache (Datatypes.S n).
Proof.
  intros [Hwf Hc Hb] Hst. split; [|by apply coherent_commit|].
  - intros t'. destruct (decide (t = t')) as [<-|Hne].
    + rewrite load_commit. by apply doc_ok_revision.
    + rewrite load_commit_ne by done. apply Hwf.
  - intros t'. specialize (Hb t'). destruct (decide (t = t')) as [<-|Hne].
    + rewrite revision_commit. lia.
    + rewrite revision_commit_ne by done. lia.
Qed.

(** ** The calls of a request *)

Lemma IO_bind_inv {A B} (m : IO S C A) (f : A → IO S C B) s r s' :
  (m ≫= f) s = (r, s') →
  (∃ e, m s = (Err e, s') ∧ r = Err e) ∨ (∃ a s1, m s = (Ok a, s1) ∧ f a s1 = (r, s')).
Proof.
  unfold mbind, IO_bind. destruct (m s) as [[a|e] s1]; [eauto|]. intros [= <- <-]. eauto.
Qed.

Definition sane_io (k : Z) (s : io_state S C) : Prop := sane k (io_db s) (io_cache s) (io_tick s).

Section calls.
Context (sched : schedule S C) (k : Z) (Hrely : rely k sched).

Lemma env_ok s db cache :
  sane_io k s → s_env sched (io_tick s) (io_db s, io_cache s) = (db, cache) →
  sane k db cache (io_tick s) ∧ quiet sched (io_db s) db.
Proof.
  intros Hs Henv. split.
  - pose proof (rely_sane k sched Hrely (io_tick s) _ _ Hs) as Hs'. by rewrite Henv in Hs'.
  - apply rtc_once. left. exists (io_tick s), (io_cache s). by rewrite Henv.
Qed.

(** A call that only reads returns a view of the database it leaves. *)
Lemma call_read {A} (g : database S → A) s r s' :
  sane_io k s → call sched (λ db, (g db, db)) s = (r, s') →
  sane_io k s' ∧ quiet sched (io_db s) (io_db s') ∧ io_tick s' = Datatypes.S (io_tick s) ∧
  (∀ a, r = Ok a → a = g (io_db s')).
Proof.
  intros Hs Hr. unfold call in Hr. destruct (s_env _ _ _) as [db cache] eqn:Henv.
  apply env_ok in Henv as [Hs1 Hq]; [|done].
  destruct (s_fail _ _); injection Hr as <- <-; (split; [by apply sane_tick|]); cbn;
    (split; [done|]); (split; [done|]); naive_solver.
Qed.

(** A change of the caches that keeps them coherent. *)
Lemma set_cache_ok f s r s' :
  sane_io k s → coherent (io_db s) (f (io_cache s)) → set_cache f s = (r, s') →
  r = Ok tt ∧ io_db s' = io_db s ∧ io_tick s' = io_tick s ∧ sane_io k s'.
Proof.
  intros [? ? ?] Hf Hr. unfold set_cache in Hr. injection Hr as <- <-. by split_and!.
Qed.

(** The save commits when nobody else moved the revision, and then the
    document is still the one that was changed. *)
Lemma save_ok t db0 state s r s' :
  sane_io k s → moves db0 (io_db s) → doc_ok (db_next (io_db s)) state →
  k + Z.of_nat (io_tick s) < two63 - 1 →
  call sched (save t (stored_revision t db0) state) s = (r, s') →
  io_tick s' = Datatypes.S (io_tick s) ∧ sane_io k s' ∧
  match r with
  | Ok true => ∃ db1, quiet sched (io_db s) db1 ∧ load t db1 = load t db0 ∧
      io_db s' = commit t state db1
  | _ => quiet sched (io_db s) (io_db s')
  end.
Proof.
  intros Hs Hmv Hst Hk Hr. unfold call in Hr. destruct (s_env _ _ _) as [db cache] eqn:Henv.
  apply env_ok in Henv as [Hs1 Hq]; [|done].
  destruct (s_fail _ _) as [e|].
  { injection Hr as <- <-. split; [done|]. split; [by apply sane_tick|done]. }
  unfold save in Hr. destruct (decide _) as [Hne|Heq] in Hr.
  { injection Hr as <- <-. split; [done|]. split; [by apply sane_tick|done]. }
  apply dec_stable in Heq.
  assert (Hsame : load t db = load t db0).
  { apply moves_same; [|done]. etrans; [exact Hmv|]. by eapply quiet_moves. }
  assert (Hcm : s' = mk_io (commit t state db) cache (Datatypes.S (io_tick s)) ∧ r = Ok true).
  { assert (Hw : wrap64 (stored_revision t db0 + 1) = stored_revision t db + 1).
    { rewrite <-Heq. destruct (sane_bounded _ _ _ _ Hs1 t).
      apply wrap64_small. unfold in_int64, two63 in *. lia. }
    injection Hr as <- <-. split; [|done]. unfold commit. by rewrite <-Hw. }
  destruct Hcm as [-> ->]. split; [done|]. split; [|by exists db].
  apply sane_commit; [done|]. eapply doc_ok_mono; [|exact Hst].
  by apply (quiet_moves k sched _ _ Hrely Hq).
Qed.

(** ** One commit or nothing *)

(** What a finished call of a handler did to the database: nothing of its own,
    or one commit of the handler's result on the document stored at that
    moment. *)
Definition linearized {A} (t : string) (handler : Z → M S A) (db db' : database S) (r : res A)
    : Prop :=
  match r with
  | Err _ => quiet sched db db'
  | Ok a => ∃ db1 m n w', quiet sched db db1 ∧
      handler (s_now sched m) (mk_world (load t db1) n) = Ok (a, w') ∧
      (n ≤ w_next w' ≤ db_next db1)%nat ∧ db' = commit t (w_state w') db1
  end.

Lemma linearized_quiet {A} t (handler : Z → M S A) db0 db db' r :
  quiet sched db0 db → linearized t handler db db' r → linearized t handler db0 db' r.
Proof.
  intros Hq. destruct r as [a|e]; cbn; [|intros; by etrans].
  intros (db1 & m & n & w' & ? & Hrest). exists db1, m, n, w'. split; [by etrans|done].
Qed.

(** What a handler must promise for its results to be committed. *)
Definition handler_ok {A} (handler : Z → M S A) : Prop :=
  ∀ now w a w', handler now w = Ok (a, w') → (w_next w ≤ w_next w')%nat ∧
    (doc_ok (w_next w) (w_state w) → doc_ok (w_next w') (w_state w')).

Lemma run_handler_ok {A} t (handler : Z → M S A) s r s' :
  handler_ok handler → sane_io k s → run_handler sched handler (load t (io_db s)) s = (r, s') →
  sane_io k s' ∧ quiet sched (io_db s) (io_db s') ∧ io_tick s' = io_tick s ∧
  (∀ a state, r = Ok (a, state) → ∃ w',
     handler (s_now sched (io_tick s)) (mk_world (load t (io_db s)) (db_next (io_db s)))
       = Ok (a, w') ∧
     state = w_state w' ∧ (db_next (io_db s) ≤ w_next w')%nat ∧ db_next (io_db s') = w_next w' ∧
     doc_ok (w_next w') state).
Proof.
  intros Hok Hs Hr. unfold run_handler in Hr.
  destruct (handler _ _) as [[a w']|e] eqn:Hm; injection Hr as <- <-.
  - destruct (Hok _ _ _ _ Hm) as [Hn Hwf].
    split; [by apply sane_draw|]. split; [apply rtc_once; right; by eexists|].
    split; [done|]. intros a' state [= <- <-]. exists w'. split_and!; try done. apply Hwf, Hs.
  - split; [done|]. split; [apply rtc_refl|]. split; [done|]. naive_solver.
Qed.

(** One attempt: the handler on the document just read, then the save. *)
Lemma attempt_ok {A} t (handler : Z → M S A) s a state s1 r s2 :
  handler_ok handler → sane_io k s → k + Z.of_nat (io_tick s) < two63 - 1 →
  run_handler sched handler (load t (io_db s)) s = (Ok (a, state), s1) →
  call sched (save t (stored_revision t (io_db s)) state) s1 = (r, s2) →
  sane_io k s2 ∧ io_tick s2 = Datatypes.S (io_tick s) ∧
  match r with
  | Ok true => linearized t handler (io_db s) (io_db s2) (Ok a) ∧
      load t (io_db s2) = with_revision (wrap64 (stored_revision t (io_db s) + 1)) state
  | _ => quiet sched (io_db s) (io_db s2)
  end.
Proof.
  intros Hok Hs Hk Hrun Hsave.
  apply run_handler_ok in Hrun as (Hs1 & Hq1 & Ht1 & Hm); [|done..].
  destruct (Hm _ _ eq_refl) as (w' & Hmut & -> & Hn & Hnext & Hdoc).
  assert (Hmv : moves (io_db s) (io_db s1)) by (by eapply quiet_moves).
  apply save_ok in Hsave as (Ht2 & Hs2 & Hr); [|done..|by rewrite Hnext|lia].
  split; [done|]. split; [lia|]. destruct r as [[]|]; [|by etrans..].
  destruct Hr as (db1 & Hq2 & Hsame & Hdb2).
  assert (Hw : wrap64 (stored_revision t (io_db s) + 1) = stored_revision t db1 + 1).
  { unfold stored_revision. rewrite Hsame. destruct (sane_bounded _ _ _ _ Hs t).
    unfold stored_revision in *. apply wrap64_small. unfold in_int64, two63 in *. lia. }
  split; [|by rewrite Hw, Hdb2, load_commit].
  exists db1, (io_tick s), (db_next (io_db s)), w'.
  split; [by etrans|]. split; [by rewrite Hsame|]. split; [|done].
  destruct (quiet_moves k _ _ _ Hrely Hq2) as [Hle _]. lia.
Qed.
End calls.
End rely.

#[global] Arguments CoherenceLaws S C {_ _}.

(** ** A request that runs alone *)

Section alone.
Context {S C : Type}.

(** Nobody interferes and the store answers. *)
Record calm (sched : schedule S C) : Prop := {
  calm_env n sh : s_env sched n sh = sh;
  calm_ctx n : s_ctx sched n = None;
  calm_fail n : s_fail sched n = None }.

Lemma call_alone sched {A} (f : database S → A * database S) s :
  calm sched →
  call sched f s = (Ok (f (io_db s)).1, mk_io (f (io_db s)).2 (io_cache s) (Datatypes.S (io_tick s))).
Proof.
  intros []. unfold call. rewrite calm_env0, calm_fail0. by destruct (f (io_db s)).
Qed.
End alone.
