(* ===== verification/FireModel.v ===== *)
(** Fire safety data (internal/model/fire_safety.go): the records of one
    tenant aggregate with their zero values and the JSON member tables of their
    struct tags.  Slices are lists, so a nil and an empty slice are the same
    value; [int] is 64 bits wide. *)
From S2P Require Import Prelude GoText GoJson Keyed.
From Stdlib Require Import SpecFloat.

(** FireRecord carries identity and optimistic concurrency for every record. *)
Record FireRecord := mk_FireRecord {
  r_ID : string; r_Version : Z; r_CreatedAt : Z; r_UpdatedAt : Z }.
#[export] Instance eta_FireRecord : Settable FireRecord := λ v,
  mk_FireRecord (r_ID v) (r_Version v) (r_CreatedAt v) (r_UpdatedAt v).
Definition zero_FireRecord : FireRecord := mk_FireRecord "" 0 0 0.
Definition json_FireRecord : list (string * decoder FireRecord) :=
  [("id", at_field r_ID dec_string); ("version", at_field r_Version dec_int64);
   ("createdAt", at_field r_CreatedAt dec_int64); ("updatedAt", at_field r_UpdatedAt dec_int64)].
Definition decode_FireRecord : decoder FireRecord := dec_struct json_FireRecord.

(** Type: micro, professional, volunteer. *)
Record FireStation := mk_FireStation {
  st_FireRecord : FireRecord; st_Code : string; st_Name : string; st_Type : string;
  st_Address : string; st_Longitude : float64; st_Latitude : float64; st_Contact : string;
  st_Phone : string; st_Enabled : bool; st_Notes : string }.
#[export] Instance eta_FireStation : Settable FireStation := λ v,
  mk_FireStation (st_FireRecord v) (st_Code v) (st_Name v) (st_Type v) (st_Address v) (st_Longitude v)
    (st_Latitude v) (st_Contact v) (st_Phone v) (st_Enabled v) (st_Notes v).
Definition zero_FireStation : FireStation := mk_FireStation zero_FireRecord "" "" "" "" (S754_zero false) (S754_zero false) "" "" false "".
Definition json_FireStation : list (string * decoder FireStation) :=
  embed st_FireRecord json_FireRecord ++
  [("code", at_field st_Code dec_string); ("name", at_field st_Name dec_string);
   ("type", at_field st_Type dec_string); ("address", at_field st_Address dec_string);
   ("longitude", at_field st_Longitude dec_float64);
   ("latitude", at_field st_Latitude dec_float64); ("contact", at_field st_Contact dec_string);
   ("phone", at_field st_Phone dec_string); ("enabled", at_field st_Enabled dec_bool);
   ("notes", at_field st_Notes dec_string)].
Definition decode_FireStation : decoder FireStation := dec_struct json_FireStation.

Record FirePersonnel := mk_FirePersonnel {
  pe_FireRecord : FireRecord; pe_Name : string; pe_Phone : string; pe_StationID : string;
  pe_Position : string; pe_Enabled : bool; pe_Notes : string }.
#[export] Instance eta_FirePersonnel : Settable FirePersonnel := λ v,
  mk_FirePersonnel (pe_FireRecord v) (pe_Name v) (pe_Phone v) (pe_StationID v) (pe_Position v) (pe_Enabled v)
    (pe_Notes v).
Definition zero_FirePersonnel : FirePersonnel := mk_FirePersonnel zero_FireRecord "" "" "" "" false "".
Definition json_FirePersonnel : list (string * decoder FirePersonnel) :=
  embed pe_FireRecord json_FireRecord ++
  [("name", at_field pe_Name dec_string); ("phone", at_field pe_Phone dec_string);
   ("stationId", at_field pe_StationID dec_string);
   ("position", at_field pe_Position dec_string); ("enabled", at_field pe_Enabled dec_bool);
   ("notes", at_field pe_Notes dec_string)].
Definition decode_FirePersonnel : decoder FirePersonnel := dec_struct json_FirePersonnel.

(** Status: ready, maintenance, retired. *)
Record FireEquipment := mk_FireEquipment {
  eq_FireRecord : FireRecord; eq_StationID : string; eq_Name : string; eq_Category : string;
  eq_Quantity : Z; eq_Unit : string; eq_Status : string; eq_Notes : string }.
#[export] Instance eta_FireEquipment : Settable FireEquipment := λ v,
  mk_FireEquipment (eq_FireRecord v) (eq_StationID v) (eq_Name v) (eq_Category v) (eq_Quantity v) (eq_Unit v)
    (eq_Status v) (eq_Notes v).
Definition zero_FireEquipment : FireEquipment := mk_FireEquipment zero_FireRecord "" "" "" 0 "" "" "".
Definition json_FireEquipment : list (string * decoder FireEquipment) :=
  embed eq_FireRecord json_FireRecord ++
  [("stationId", at_field eq_StationID dec_string); ("name", at_field eq_Name dec_string);
   ("category", at_field eq_Category dec_string); ("quantity", at_field eq_Quantity dec_int64);
   ("unit", at_field eq_Unit dec_string); ("status", at_field eq_Status dec_string);
   ("notes", at_field eq_Notes dec_string)].
Definition decode_FireEquipment : decoder FireEquipment := dec_struct json_FireEquipment.

Record FireEquipmentUsage := mk_FireEquipmentUsage {
  us_EquipmentID : string; us_Quantity : Z }.
#[export] Instance eta_FireEquipmentUsage : Settable FireEquipmentUsage := λ v,
  mk_FireEquipmentUsage (us_EquipmentID v) (us_Quantity v).
Definition zero_FireEquipmentUsage : FireEquipmentUsage := mk_FireEquipmentUsage "" 0.
Definition json_FireEquipmentUsage : list (string * decoder FireEquipmentUsage) :=
  [("equipmentId", at_field us_EquipmentID dec_string);
   ("quantity", at_field us_Quantity dec_int64)].
Definition decode_FireEquipmentUsage : decoder FireEquipmentUsage := dec_struct json_FireEquipmentUsage.

(** Status: dispatched, returned. *)
Record FireDispatch := mk_FireDispatch {
  di_FireRecord : FireRecord; di_StationID : string; di_Title : string; di_Type : string;
  di_Location : string; di_PersonnelIDs : list string; di_Equipment : list FireEquipmentUsage;
  di_Status : string; di_StartedAt : Z; di_ReturnedAt : Z; di_Summary : string;
  di_CreatedBy : string; di_ReturnedBy : string }.
#[export] Instance eta_FireDispatch : Settable FireDispatch := λ v,
  mk_FireDispatch (di_FireRecord v) (di_StationID v) (di_Title v) (di_Type v) (di_Location v)
    (di_PersonnelIDs v) (di_Equipment v) (di_Status v) (di_StartedAt v) (di_ReturnedAt v)
    (di_Summary v) (di_CreatedBy v) (di_ReturnedBy v).
Definition zero_FireDispatch : FireDispatch := mk_FireDispatch zero_FireRecord "" "" "" "" [] [] "" 0 0 "" "" "".
Definition json_FireDispatch : list (string * decoder FireDispatch) :=
  embed di_FireRecord json_FireRecord ++
  [("stationId", at_field di_StationID dec_string); ("title", at_field di_Title dec_string);
   ("type", at_field di_Type dec_string); ("location", at_field di_Location dec_string);
   ("personnelIds", at_field di_PersonnelIDs (dec_list dec_string ""));
   ("equipment", at_field di_Equipment (dec_list decode_FireEquipmentUsage zero_FireEquipmentUsage));
   ("status", at_field di_Status dec_string); ("startedAt", at_field di_StartedAt dec_int64);
   ("returnedAt", at_field di_ReturnedAt dec_int64);
   ("summary", at_field di_Summary dec_string);
   ("createdBy", at_field di_CreatedBy dec_string);
   ("returnedBy", at_field di_ReturnedBy dec_string)].
Definition decode_FireDispatch : decoder FireDispatch := dec_struct json_FireDispatch.

(** StartTime and EndTime: HH:mm. *)
Record DutyShift := mk_DutyShift {
  sh_FireRecord : FireRecord; sh_Name : string; sh_StartTime : string; sh_EndTime : string }.
#[export] Instance eta_DutyShift : Settable DutyShift := λ v,
  mk_DutyShift (sh_FireRecord v) (sh_Name v) (sh_StartTime v) (sh_EndTime v).
Definition zero_DutyShift : DutyShift := mk_DutyShift zero_FireRecord "" "" "".
Definition json_DutyShift : list (string * decoder DutyShift) :=
  embed sh_FireRecord json_FireRecord ++
  [("name", at_field sh_Name dec_string); ("startTime", at_field sh_StartTime dec_string);
   ("endTime", at_field sh_EndTime dec_string)].
Definition decode_DutyShift : decoder DutyShift := dec_struct json_DutyShift.

Record DutyAssignment := mk_DutyAssignment {
  as_FireRecord : FireRecord; as_StationID : string; as_ShiftID : string;
  as_PersonnelIDs : list string; as_StartAt : Z; as_EndAt : Z; as_Notes : string }.
#[export] Instance eta_DutyAssignment : Settable DutyAssignment := λ v,
  mk_DutyAssignment (as_FireRecord v) (as_StationID v) (as_ShiftID v) (as_PersonnelIDs v) (as_StartAt v)
    (as_EndAt v) (as_Notes v).
Definition zero_DutyAssignment : DutyAssignment := mk_DutyAssignment zero_FireRecord "" "" [] 0 0 "".
Definition json_DutyAssignment : list (string * decoder DutyAssignment) :=
  embed as_FireRecord json_FireRecord ++
  [("stationId", at_field as_StationID dec_string);
   ("shiftId", at_field as_ShiftID dec_string);
   ("personnelIds", at_field as_PersonnelIDs (dec_list dec_string ""));
   ("startAt", at_field as_StartAt dec_int64); ("endAt", at_field as_EndAt dec_int64);
   ("notes", at_field as_Notes dec_string)].
Definition decode_DutyAssignment : decoder DutyAssignment := dec_struct json_DutyAssignment.

(** Status: pending, approved, rejected. *)
Record DutySwap := mk_DutySwap {
  sw_FireRecord : FireRecord; sw_AssignmentID : string; sw_FromPersonnelID : string;
  sw_ToPersonnelID : string; sw_Reason : string; sw_Status : string; sw_RequestedBy : string;
  sw_ReviewedBy : string; sw_ReviewNote : string; sw_ReviewedAt : Z }.
#[export] Instance eta_DutySwap : Settable DutySwap := λ v,
  mk_DutySwap (sw_FireRecord v) (sw_AssignmentID v) (sw_FromPersonnelID v) (sw_ToPersonnelID v)
    (sw_Reason v) (sw_Status v) (sw_RequestedBy v) (sw_ReviewedBy v) (sw_ReviewNote v)
    (sw_ReviewedAt v).
Definition zero_DutySwap : DutySwap := mk_DutySwap zero_FireRecord "" "" "" "" "" "" "" "" 0.
Definition json_DutySwap : list (string * decoder DutySwap) :=
  embed sw_FireRecord json_FireRecord ++
  [("assignmentId", at_field sw_AssignmentID dec_string);
   ("fromPersonnelId", at_field sw_FromPersonnelID dec_string);
   ("toPersonnelId", at_field sw_ToPersonnelID dec_string);
   ("reason", at_field sw_Reason dec_string); ("status", at_field sw_Status dec_string);
   ("requestedBy", at_field sw_RequestedBy dec_string);
   ("reviewedBy", at_field sw_ReviewedBy dec_string);
   ("reviewNote", at_field sw_ReviewNote dec_string);
   ("reviewedAt", at_field sw_ReviewedAt dec_int64)].
Definition decode_DutySwap : decoder DutySwap := dec_struct json_DutySwap.

(** Status: active, maintenance, retired. *)
Record Extinguisher := mk_Extinguisher {
  ex_FireRecord : FireRecord; ex_Code : string; ex_StationID : string; ex_Location : string;
  ex_Type : string; ex_Specification : string; ex_Manufacturer : string;
  ex_SerialNumber : string; ex_ManufacturedOn : string; ex_ServiceDueOn : string;
  ex_RetireOn : string; ex_InspectionCycleDays : Z; ex_Status : string; ex_Notes : string }.
#[export] Instance eta_Extinguisher : Settable Extinguisher := λ v,
  mk_Extinguisher (ex_FireRecord v) (ex_Code v) (ex_StationID v) (ex_Location v) (ex_Type v)
    (ex_Specification v) (ex_Manufacturer v) (ex_SerialNumber v) (ex_ManufacturedOn v)
    (ex_ServiceDueOn v) (ex_RetireOn v) (ex_InspectionCycleDays v) (ex_Status v) (ex_Notes v).
Definition zero_Extinguisher : Extinguisher := mk_Extinguisher zero_FireRecord "" "" "" "" "" "" "" "" "" "" 0 "" "".
Definition json_Extinguisher : list (string * decoder Extinguisher) :=
  embed ex_FireRecord json_FireRecord ++
  [("code", at_field ex_Code dec_string); ("stationId", at_field ex_StationID dec_string);
   ("location", at_field ex_Location dec_string); ("type", at_field ex_Type dec_string);
   ("specification", at_field ex_Specification dec_string);
   ("manufacturer", at_field ex_Manufacturer dec_string);
   ("serialNumber", at_field ex_SerialNumber dec_string);
   ("manufacturedOn", at_field ex_ManufacturedOn dec_string);
   ("serviceDueOn", at_field ex_ServiceDueOn dec_string);
   ("retireOn", at_field ex_RetireOn dec_string);
   ("inspectionCycleDays", at_field ex_InspectionCycleDays dec_int64);
   ("status", at_field ex_Status dec_string); ("notes", at_field ex_Notes dec_string)].
Definition decode_Extinguisher : decoder Extinguisher := dec_struct json_Extinguisher.

Record FireInspectionCheck := mk_FireInspectionCheck {
  ck_Name : string; ck_Passed : bool }.
#[export] Instance eta_FireInspectionCheck : Settable FireInspectionCheck := λ v,
  mk_FireInspectionCheck (ck_Name v) (ck_Passed v).
Definition zero_FireInspectionCheck : FireInspectionCheck := mk_FireInspectionCheck "" false.
Definition json_FireInspectionCheck : list (string * decoder FireInspectionCheck) :=
  [("name", at_field ck_Name dec_string); ("passed", at_field ck_Passed dec_bool)].
Definition decode_FireInspectionCheck : decoder FireInspectionCheck := dec_struct json_FireInspectionCheck.

(** Status: pending, approved, rejected. *)
Record FireRectification := mk_FireRectification {
  re_Action : string; re_SubmittedBy : string; re_SubmittedAt : Z; re_Status : string;
  re_ReviewedBy : string; re_ReviewedAt : Z; re_ReviewNote : string }.
#[export] Instance eta_FireRectification : Settable FireRectification := λ v,
  mk_FireRectification (re_Action v) (re_SubmittedBy v) (re_SubmittedAt v) (re_Status v) (re_ReviewedBy v)
    (re_ReviewedAt v) (re_ReviewNote v).
Definition zero_FireRectification : FireRectification := mk_FireRectification "" "" 0 "" "" 0 "".
Definition json_FireRectification : list (string * decoder FireRectification) :=
  [("action", at_field re_Action dec_string);
   ("submittedBy", at_field re_SubmittedBy dec_string);
   ("submittedAt", at_field re_SubmittedAt dec_int64);
   ("status", at_field re_Status dec_string);
   ("reviewedBy", at_field re_ReviewedBy dec_string);
   ("reviewedAt", at_field re_ReviewedAt dec_int64);
   ("reviewNote", at_field re_ReviewNote dec_string)].
Definition decode_FireRectification : decoder FireRectification := dec_struct json_FireRectification.

(** Status: pending, rectifying, reviewing, completed, cancelled. *)
Record FireInspection := mk_FireInspection {
  in_FireRecord : FireRecord; in_ExtinguisherID : string; in_AssigneeID : string; in_DueAt : Z;
  in_Status : string; in_Notes : string; in_Checks : list FireInspectionCheck;
  in_Result : string; in_InspectedAt : Z; in_InspectedBy : string; in_Findings : string;
  in_Rectifications : list FireRectification; in_CreatedBy : string; in_CancelReason : string }.
#[export] Instance eta_FireInspection : Settable FireInspection := λ v,
  mk_FireInspection (in_FireRecord v) (in_ExtinguisherID v) (in_AssigneeID v) (in_DueAt v) (in_Status v)
    (in_Notes v) (in_Checks v) (in_Result v) (in_InspectedAt v) (in_InspectedBy v)
    (in_Findings v) (in_Rectifications v) (in_CreatedBy v) (in_CancelReason v).
Definition zero_FireInspection : FireInspection := mk_FireInspection zero_FireRecord "" "" 0 "" "" [] "" 0 "" "" [] "" "".
Definition json_FireInspection : list (string * decoder FireInspection) :=
  embed in_FireRecord json_FireRecord ++
  [("extinguisherId", at_field in_ExtinguisherID dec_string);
   ("assigneeId", at_field in_AssigneeID dec_string); ("dueAt", at_field in_DueAt dec_int64);
   ("status", at_field in_Status dec_string); ("notes", at_field in_Notes dec_string);
   ("checks", at_field in_Checks (dec_list decode_FireInspectionCheck zero_FireInspectionCheck));
   ("result", at_field in_Result dec_string);
   ("inspectedAt", at_field in_InspectedAt dec_int64);
   ("inspectedBy", at_field in_InspectedBy dec_string);
   ("findings", at_field in_Findings dec_string);
   ("rectifications", at_field in_Rectifications (dec_list decode_FireRectification zero_FireRectification));
   ("createdBy", at_field in_CreatedBy dec_string);
   ("cancelReason", at_field in_CancelReason dec_string)].
Definition decode_FireInspection : decoder FireInspection := dec_struct json_FireInspection.

(** One tenant's aggregate; [Revision] is the optimistic lock of a save. *)
Record FireSafetyState := mk_FireSafetyState {
  Revision : Z;
  Stations : list FireStation;
  Personnel : list FirePersonnel;
  Equipment : list FireEquipment;
  Dispatches : list FireDispatch;
  Shifts : list DutyShift;
  Assignments : list DutyAssignment;
  Swaps : list DutySwap;
  Extinguishers : list Extinguisher;
  Inspections : list FireInspection }.
#[export] Instance eta_FireSafetyState : Settable FireSafetyState := λ v,
  mk_FireSafetyState (Revision v) (Stations v) (Personnel v) (Equipment v) (Dispatches v)
    (Shifts v) (Assignments v) (Swaps v) (Extinguishers v) (Inspections v).

(** The state of a tenant without a stored document. *)
Definition empty_state : FireSafetyState := mk_FireSafetyState 0 [] [] [] [] [] [] [] [] [].

(** model.ErrDutyOverlap *)
Definition ErrDutyOverlap : error := mk_error Other "duty assignments overlap for one person".

(** ** Records with identity *)

(** The types that embed [FireRecord]; [ID v] and [Version v] are the promoted
    fields [v.ID] and [v.Version]. *)
Class FireRecorded (A : Type) := frec : A → FireRecord.
#[export] Instance frec_FireStation : FireRecorded FireStation := st_FireRecord.
#[export] Instance frec_FirePersonnel : FireRecorded FirePersonnel := pe_FireRecord.
#[export] Instance frec_FireEquipment : FireRecorded FireEquipment := eq_FireRecord.
#[export] Instance frec_FireDispatch : FireRecorded FireDispatch := di_FireRecord.
#[export] Instance frec_DutyShift : FireRecorded DutyShift := sh_FireRecord.
#[export] Instance frec_DutyAssignment : FireRecorded DutyAssignment := as_FireRecord.
#[export] Instance frec_DutySwap : FireRecorded DutySwap := sw_FireRecord.
#[export] Instance frec_Extinguisher : FireRecorded Extinguisher := ex_FireRecord.
#[export] Instance frec_FireInspection : FireRecorded FireInspection := in_FireRecord.

#[export] Instance fire_keyed `{FireRecorded A} : Keyed A := λ v, r_ID (frec v).
Abbreviation ID := key.
Definition Version {A} `{FireRecorded A} (v : A) : Z := r_Version (frec v).
