(* ===== verification/FireService.v ===== *)
(** Shared operations of the fire safety service (internal/firesafety/service.go):
    error constructors, body reading, field checks, record versions and the
    lookups of the aggregate.  Pointers into a slice are (index, value) pairs. *)
From S2P Require Import Prelude GoText GoTime GoJson Keyed FireModel.
From Stdlib Require Import SpecFloat.

(** ** Errors *)

Definition sentinel_text (k : err_kind) : string :=
  match k with
  | Validation => "消防管理数据无效"
  | NotFound => "消防管理记录不存在"
  | Conflict => "消防管理数据冲突"
  | Forbidden => "没有执行此操作的权限"
  | Permanent | Other => ""
  end.
(** [fmt.Errorf("%w: %s", sentinel, message)] *)
Definition wrap_error (k : err_kind) (message : string) : error :=
  mk_error k (sentinel_text k +:+ ": " +:+ message).
Definition invalid (message : string) : error := wrap_error Validation message.
Definition conflict (message : string) : error := wrap_error Conflict message.
Definition missing (label : string) : error := wrap_error NotFound (label +:+ "不存在").
Definition forbidden (message : string) : error := wrap_error Forbidden message.

(** ** Reading a body *)

Definition read {A} (d : decoder A) (zero : A) (body : raw_message) : res A :=
  _ ← fail_when (raw_len body = 0 ∨ raw_null body) (invalid "提交内容不能为空");
  match raw_doc body ≫= λ j, d j zero with
  | Some v => Ok v
  | None => Err (invalid "提交内容格式错误")
  end.

(** ** Field checks *)

(** [text(&value, ...)]; the result is the trimmed value it stores back. *)
Definition text (value label : string) (required : bool) (max : Z) : res string :=
  let value := trim_space value in
  _ ← fail_when (required ∧ value = "") (invalid (label +:+ "不能为空"));
  _ ← fail_when (rune_count value > max)
        (invalid (label +:+ "不能超过" +:+ dec max +:+ "个字符"));
  mret value.

(** A [field] holds a pointer to a string of the value under edit: a getter
    and the setter through that pointer. *)
Record field (T : Type) := mk_field {
  f_value : T → string; f_store : string → T → T;
  f_label : string; f_required : bool; f_max : Z }.
#[global] Arguments mk_field {T} _ _ _ _ _.
#[global] Arguments f_value {T} _ _.
#[global] Arguments f_store {T} _ _ _.
#[global] Arguments f_label {T} _.
#[global] Arguments f_required {T} _.
#[global] Arguments f_max {T} _.
Definition field_of {T} (getter : T → string) `{!Setter getter}
    (label : string) (required : bool) (max : Z) : field T :=
  mk_field getter (λ s, set getter (λ _, s)) label required max.
#[global] Arguments field_of {T} getter {_} label required max.

Fixpoint fields {T} (values : list (field T)) (t : T) : res T :=
  match values with
  | [] => Ok t
  | v :: values =>
    s ← text (f_value v t) (f_label v) (f_required v) (f_max v);
    fields values (f_store v s t)
  end.

Definition oneOf (value label : string) (choices : list string) : res unit :=
  fail_when (value ∉ choices) (invalid (label +:+ "无效")).

(** 2200-01-01T00:00:00Z in milliseconds *)
Definition stamp_max : Z := days_from_civil 2200 1 1 * 86400000.
Definition stamp (value : Z) (label : string) : res unit :=
  fail_when (value ≤ 0 ∨ value > stamp_max) (invalid (label +:+ "无效")).

Definition finite (value : float64) : bool :=
  match value with S754_nan | S754_infinity _ => false | _ => true end.

(** [date]: the zero [time.Time] is the first day of year 1. *)
Definition zero_day : Z := days_from_civil 1 1 1.
Definition date (value label : string) : res Z :=
  if decide (value = "") then Ok zero_day
  else
    let bad := Err (invalid (label +:+ "须为有效的 YYYY-MM-DD 日期")) in
    match parse_date value with
    | None => bad
    | Some (y, m, d) =>
      if decide (y < 1900 ∨ y > 2199) then bad else Ok (days_from_civil y m d)
    end.

(** ** Record identity and versions *)

Section with_platform.
Context `{Platform}.

(** [record]: a new identity, or the next version of [old] when the caller
    edited the version it read. *)
Definition record {S} (in_ : FireRecord) (old : option FireRecord) (now : Z)
    : M S FireRecord :=
  match old with
  | None =>
    i ← new_id; mret (mk_FireRecord i 1 now now)
  | Some old =>
    _ ← lift (fail_when (r_Version in_ ≠ r_Version old) (conflict "记录已更新，请刷新后重试"));
    mret (old <| r_Version := wrap64 (r_Version old + 1) |> <| r_UpdatedAt := now |>)
  end.

End with_platform.

Definition decode_version : decoder Z := dec_struct [("version", dec_int64)].
Definition requireVersion (body : raw_message) (old : FireRecord) : res unit :=
  version ← read decode_version 0 body;
  fail_when (version ≠ r_Version old) (conflict "记录已更新，请刷新后重试").

Definition advance (v : FireRecord) (now : Z) : FireRecord :=
  v <| r_Version := wrap64 (r_Version v + 1) |> <| r_UpdatedAt := now |>.

Definition contains (items : list string) (id : string) : Prop := id ∈ items.
#[export] Instance contains_dec items id : Decision (contains items id).
Proof. unfold contains. apply _. Defined.

Fixpoint unique_from (seen ids : list string) (e : error) : res unit :=
  match ids with
  | [] => Ok tt
  | id :: ids =>
    _ ← fail_when (trim_space id = "" ∨ id ∈ seen) e; unique_from (id :: seen) ids e
  end.
Definition uniqueIDs (ids : list string) (label : string) : res unit :=
  _ ← fail_when (ids = []) (invalid (label +:+ "不能为空"));
  _ ← fail_when (200 < length ids)%nat (invalid (label +:+ "最多200项"));
  unique_from [] ids (invalid (label +:+ "存在空值或重复项")).

(** ** Lookups *)

Definition station (v : FireSafetyState) (id : string) : option (nat * FireStation) :=
  find_first (λ s, ID s = id) (Stations v).
Definition personnel (v : FireSafetyState) (id : string) : option (nat * FirePersonnel) :=
  find_first (λ s, ID s = id) (Personnel v).
Definition equipment (v : FireSafetyState) (id : string) : option (nat * FireEquipment) :=
  find_first (λ s, ID s = id) (Equipment v).
Definition shift (v : FireSafetyState) (id : string) : option (nat * DutyShift) :=
  find_first (λ s, ID s = id) (Shifts v).
Definition assignment (v : FireSafetyState) (id : string) : option (nat * DutyAssignment) :=
  find_first (λ s, ID s = id) (Assignments v).
Definition extinguisher (v : FireSafetyState) (id : string) : option (nat * Extinguisher) :=
  find_first (λ s, ID s = id) (Extinguishers v).

Definition inspectionOpen (v : FireInspection) : Prop :=
  in_Status v ≠ "completed" ∧ in_Status v ≠ "cancelled".
#[export] Instance inspectionOpen_dec v : Decision (inspectionOpen v).
Proof. unfold inspectionOpen. apply _. Defined.

Definition enabledStation (v : FireSafetyState) (id : string) : res unit :=
  match station v id with
  | None => Err (invalid "消防站不存在或不属于当前租户")
  | Some (_, s) => fail_when (¬ st_Enabled s) (conflict "消防站已停用")
  end.

(** ** Responses *)

(** [skipped] of createInspections *)
Record skipped := mk_skipped { sk_ID : string; sk_Code : string; sk_Reason : string }.

(** The values [mutate] returns as [any]. *)
Inductive response :=
  | RStation (v : FireStation)
  | RPersonnel (v : FirePersonnel)
  | REquipment (v : FireEquipment)
  | RDispatch (v : FireDispatch)
  | RShift (v : DutyShift)
  | RAssignment (v : DutyAssignment)
  | RSwap (v : DutySwap)
  | RExtinguisher (v : Extinguisher)
  | RInspection (v : FireInspection)
  | RDeleted
  | RAssignments (items : list DutyAssignment) (created : Z)
  | RInspections (items : list FireInspection) (created : Z) (skips : list skipped).

(** The [previous *FireRecord] of a save. *)
Definition previous {A} `{FireRecorded A} (old : option (nat * A)) : option FireRecord :=
  (λ p, frec p.2) <$> old.
