(* ===== verification/FireStations.v ===== *)
(** Stations, personnel, equipment and dispatches
    (internal/firesafety/stations.go).  Each handler reads its body, validates
    it against the aggregate and replaces or appends one record. *)
From S2P Require Import Prelude GoText GoJson Keyed FireModel FireService.

Section with_platform.
Context `{Platform}.

Definition station_fields : list (field FireStation) :=
  [field_of st_Code "消防站编号" true 64; field_of st_Name "消防站名称" true 100;
   field_of st_Address "地址" false 300; field_of st_Contact "联系人" false 100;
   field_of st_Phone "联系电话" false 40; field_of st_Notes "备注" false 2000].

(** The coordinates are numbers within [-180, 180] x [-90, 90]. *)
Definition bad_coordinates (v : FireStation) : Prop :=
  ¬ finite (st_Longitude v) ∨ ¬ finite (st_Latitude v)
  ∨ f64_ltb (st_Longitude v) (f64_of_Z (-180)) ∨ f64_ltb (f64_of_Z 180) (st_Longitude v)
  ∨ f64_ltb (st_Latitude v) (f64_of_Z (-90)) ∨ f64_ltb (f64_of_Z 90) (st_Latitude v).
#[export] Instance bad_coordinates_dec v : Decision (bad_coordinates v).
Proof. unfold bad_coordinates. apply _. Defined.

(** An open inspection of the station's extinguishers or by its personnel. *)
Definition station_task (state : FireSafetyState) (id : string) (task : FireInspection) : Prop :=
  inspectionOpen task ∧
  ((∃ p, extinguisher state (in_ExtinguisherID task) = Some p ∧ ex_StationID p.2 = id) ∨
   (∃ p, personnel state (in_AssigneeID task) = Some p ∧ pe_StationID p.2 = id)).
#[export] Instance option_exists_dec {A} (o : option A) (P : A → Prop) `{∀ x, Decision (P x)} :
  Decision (∃ x, o = Some x ∧ P x).
Proof.
  refine (match o with Some x => cast_if (decide (P x)) | None => right _ end); naive_solver.
Defined.
#[export] Instance station_task_dec state id task : Decision (station_task state id task).
Proof. unfold station_task. apply _. Defined.

Definition check_disable_station (state : FireSafetyState) (id : string) (now : Z) : res unit :=
  _ ← for_each (λ a, fail_when (as_StationID a = id ∧ as_EndAt a > now)
        (conflict "消防站存在未结束排班，不能停用")) (Assignments state);
  _ ← for_each (λ d, fail_when (di_StationID d = id ∧ di_Status d = "dispatched")
        (conflict "消防站存在未归队出勤，不能停用")) (Dispatches state);
  for_each (λ task, fail_when (station_task state id task)
        (conflict "消防站存在未结巡检任务，不能停用")) (Inspections state).

Definition saveStation (id : string) (body : raw_message) (now : Z) : M FireSafetyState response :=
  v ← lift (read decode_FireStation zero_FireStation body);
  v ← lift (fields station_fields v);
  _ ← lift (oneOf (st_Type v) "消防站类型" ["micro"; "professional"; "volunteer"]);
  _ ← lift (fail_when (bad_coordinates v) (invalid "经纬度超出有效范围"));
  state ← get;
  let old := station state id in
  _ ← lift (fail_when (id ≠ "" ∧ ¬ is_Some old) (missing "消防站"));
  _ ← lift (for_each (λ s, fail_when (ID s ≠ id ∧ equal_fold (st_Code s) (st_Code v))
        (conflict "消防站编号已存在")) (Stations state));
  _ ← lift (if decide (is_Some old ∧ ¬ st_Enabled v)
            then check_disable_station state id now else Ok tt);
  r ← record (st_FireRecord v) (previous old) now;
  let v := v <| st_FireRecord := r |> in
  _ ← put (state <| Stations ::= upsert old v |>);
  mret (RStation v).

Definition deleteStation (id : string) (body : raw_message) : M FireSafetyState response :=
  state ← get;
  match station state id with
  | None => throw (missing "消防站")
  | Some (i, old) =>
    _ ← lift (requireVersion body (st_FireRecord old));
    _ ← lift (for_each (λ p, fail_when (pe_StationID p = id)
          (conflict "消防站仍关联人员，不能删除")) (Personnel state));
    _ ← lift (for_each (λ e, fail_when (eq_StationID e = id)
          (conflict "消防站仍关联器材，不能删除")) (Equipment state));
    _ ← lift (for_each (λ e, fail_when (ex_StationID e = id)
          (conflict "消防站仍关联灭火器，不能删除")) (Extinguishers state));
    _ ← lift (for_each (λ a, fail_when (as_StationID a = id)
          (conflict "消防站已有排班记录，不能删除")) (Assignments state));
    _ ← lift (for_each (λ d, fail_when (di_StationID d = id)
          (conflict "消防站已有出勤记录，不能删除")) (Dispatches state));
    _ ← put (state <| Stations ::= remove_at i |>);
    mret RDeleted
  end.

Definition personnel_fields : list (field FirePersonnel) :=
  [field_of pe_Name "人员姓名" true 100; field_of pe_Phone "联系电话" false 40;
   field_of pe_Position "岗位" false 100; field_of pe_Notes "备注" false 2000].

Definition check_release_personnel (state : FireSafetyState) (id : string) (now : Z) : res unit :=
  _ ← for_each (λ a, fail_when (as_EndAt a > now ∧ contains (as_PersonnelIDs a) id)
        (conflict "人员存在未结束排班，不能停用或更换消防站")) (Assignments state);
  _ ← for_each (λ d, fail_when (di_Status d = "dispatched" ∧ contains (di_PersonnelIDs d) id)
        (conflict "人员正在出勤，不能停用或更换消防站")) (Dispatches state);
  _ ← for_each (λ task, fail_when (in_AssigneeID task = id ∧ inspectionOpen task)
        (conflict "人员存在未结巡检任务，不能停用或更换消防站")) (Inspections state);
  for_each (λ swap, fail_when (sw_Status swap = "pending"
          ∧ (sw_FromPersonnelID swap = id ∨ sw_ToPersonnelID swap = id))
        (conflict "人员存在待审批换班，不能停用或更换消防站")) (Swaps state).

Definition savePersonnel (id : string) (body : raw_message) (now : Z) : M FireSafetyState response :=
  v ← lift (read decode_FirePersonnel zero_FirePersonnel body);
  v ← lift (fields personnel_fields v);
  state ← get;
  match station state (pe_StationID v) with
  | None => throw (invalid "所属消防站不存在或不属于当前租户")
  | Some (_, s) =>
    _ ← lift (fail_when (pe_Enabled v ∧ ¬ st_Enabled s)
          (conflict "所属消防站已停用，不能启用人员"));
    let old := personnel state id in
    _ ← lift (fail_when (id ≠ "" ∧ ¬ is_Some old) (missing "人员"));
    _ ← lift (match old with
              | Some (_, o) =>
                if decide (¬ pe_Enabled v ∨ pe_StationID o ≠ pe_StationID v)
                then check_release_personnel state id now else Ok tt
              | None => Ok tt
              end);
    r ← record (pe_FireRecord v) (previous old) now;
    let v := v <| pe_FireRecord := r |> in
    _ ← put (state <| Personnel ::= upsert old v |>);
    mret (RPersonnel v)
  end.

Definition deletePersonnel (id : string) (body : raw_message) : M FireSafetyState response :=
  state ← get;
  match personnel state id with
  | None => throw (missing "人员")
  | Some (i, old) =>
    _ ← lift (requireVersion body (pe_FireRecord old));
    _ ← lift (for_each (λ a, fail_when (contains (as_PersonnelIDs a) id)
          (conflict "人员已有排班记录，不能删除")) (Assignments state));
    _ ← lift (for_each (λ d, fail_when (contains (di_PersonnelIDs d) id)
          (conflict "人员已有出勤记录，不能删除")) (Dispatches state));
    _ ← lift (for_each (λ task, fail_when (in_AssigneeID task = id)
          (conflict "人员已有巡检记录，不能删除")) (Inspections state));
    _ ← lift (for_each (λ swap, fail_when
            (sw_FromPersonnelID swap = id ∨ sw_ToPersonnelID swap = id)
          (conflict "人员已有换班记录，不能删除")) (Swaps state));
    _ ← put (state <| Personnel ::= remove_at i |>);
    mret RDeleted
  end.

(** The number of items of an equipment record that are out, summed in [int]. *)
Definition usage_sum (id : string) (quantity : Z) (l : list FireEquipmentUsage) : Z :=
  foldl (λ q e, if decide (us_EquipmentID e = id) then wrap64 (q + us_Quantity e) else q) quantity l.
Definition occupiedEquipment (state : FireSafetyState) (id : string) : Z :=
  foldl (λ q d, if decide (di_Status d = "dispatched") then usage_sum id q (di_Equipment d) else q)
    0 (Dispatches state).

Definition equipment_fields : list (field FireEquipment) :=
  [field_of eq_Name "器材名称" true 100; field_of eq_Category "器材类别" true 100;
   field_of eq_Unit "数量单位" true 20; field_of eq_Notes "备注" false 2000].

Definition saveEquipment (id : string) (body : raw_message) (now : Z) : M FireSafetyState response :=
  v ← lift (read decode_FireEquipment zero_FireEquipment body);
  v ← lift (fields equipment_fields v);
  _ ← lift (fail_when (eq_Quantity v < 0 ∨ eq_Quantity v > 1000000)
        (invalid "器材数量须为0至1000000"));
  _ ← lift (oneOf (eq_Status v) "器材状态" ["ready"; "maintenance"; "retired"]);
  state ← get;
  _ ← lift (fail_when (¬ is_Some (station state (eq_StationID v)))
        (invalid "所属消防站不存在或不属于当前租户"));
  _ ← lift (if decide (eq_Status v = "ready")
            then enabledStation state (eq_StationID v) else Ok tt);
  let old := equipment state id in
  _ ← lift (fail_when (id ≠ "" ∧ ¬ is_Some old) (missing "器材"));
  let used := occupiedEquipment state id in
  _ ← lift (match old with
            | Some (_, o) => fail_when (used > 0 ∧
                  (eq_Status v ≠ "ready" ∨ eq_StationID v ≠ eq_StationID o ∨ eq_Quantity v < used))
                (conflict "器材正在出勤，不能改变归属、停用或减少至占用数量以下")
            | None => Ok tt
            end);
  r ← record (eq_FireRecord v) (previous old) now;
  let v := v <| eq_FireRecord := r |> in
  _ ← put (state <| Equipment ::= upsert old v |>);
  mret (REquipment v).

Definition deleteEquipment (id : string) (body : raw_message) : M FireSafetyState response :=
  state ← get;
  match equipment state id with
  | None => throw (missing "器材")
  | Some (i, old) =>
    _ ← lift (requireVersion body (eq_FireRecord old));
    _ ← lift (for_each (λ d, for_each (λ e, fail_when (us_EquipmentID e = id)
          (conflict "器材已有出勤记录，不能删除")) (di_Equipment d)) (Dispatches state));
    _ ← put (state <| Equipment ::= remove_at i |>);
    mret RDeleted
  end.

Definition dispatch_fields : list (field FireDispatch) :=
  [field_of di_Title "出勤标题" true 150; field_of di_Location "出勤地点" true 300].

(** The personnel of a dispatch belong to its station, are enabled and are
    not out on another dispatch. *)
Definition check_dispatch_person (state : FireSafetyState) (stationID id : string) : res unit :=
  match personnel state id with
  | None => Err (invalid "出勤人员须属于本消防站且已启用")
  | Some (_, p) =>
    _ ← fail_when (pe_StationID p ≠ stationID ∨ ¬ pe_Enabled p)
          (invalid "出勤人员须属于本消防站且已启用");
    for_each (λ d, fail_when (di_Status d = "dispatched" ∧ contains (di_PersonnelIDs d) id)
      (conflict "出勤人员尚未归队")) (Dispatches state)
  end.

Fixpoint check_dispatch_equipment (state : FireSafetyState) (stationID : string)
    (seen : list string) (items : list FireEquipmentUsage) : res unit :=
  match items with
  | [] => Ok tt
  | item :: items =>
    _ ← fail_when (us_EquipmentID item = "" ∨ us_EquipmentID item ∈ seen
          ∨ us_Quantity item ≤ 0 ∨ us_Quantity item > 1000000)
          (invalid "出勤器材存在空值、重复项或无效数量");
    let seen := us_EquipmentID item :: seen in
    match equipment state (us_EquipmentID item) with
    | None => Err (invalid "出勤器材须属于本消防站且处于可用状态")
    | Some (_, e) =>
      _ ← fail_when (eq_StationID e ≠ stationID ∨ eq_Status e ≠ "ready")
            (invalid "出勤器材须属于本消防站且处于可用状态");
      _ ← fail_when (us_Quantity item > wrap64 (eq_Quantity e - occupiedEquipment state (ID e)))
            (conflict "出勤器材可用数量不足");
      check_dispatch_equipment state stationID seen items
    end
  end.

Definition createDispatch (actor : string) (body : raw_message) (now : Z)
    : M FireSafetyState response :=
  v ← lift (read decode_FireDispatch zero_FireDispatch body);
  v ← lift (fields dispatch_fields v);
  _ ← lift (oneOf (di_Type v) "出勤类型" ["fire"; "rescue"; "drill"; "other"]);
  state ← get;
  _ ← lift (enabledStation state (di_StationID v));
  _ ← lift (uniqueIDs (di_PersonnelIDs v) "出勤人员");
  let v := if decide (di_StartedAt v = 0) then v <| di_StartedAt := now |> else v in
  _ ← lift (stamp (di_StartedAt v) "出勤时间");
  _ ← lift (fail_when (di_StartedAt v > wrap64 (now + 60000)) (invalid "出勤时间不能晚于当前时间"));
  _ ← lift (for_each (check_dispatch_person state (di_StationID v)) (di_PersonnelIDs v));
  _ ← lift (fail_when (200 < length (di_Equipment v))%nat (invalid "出勤器材最多200项"));
  _ ← lift (check_dispatch_equipment state (di_StationID v) [] (di_Equipment v));
  r ← record zero_FireRecord None now;
  let v := v <| di_FireRecord := r |> <| di_Status := "dispatched" |> <| di_CreatedBy := actor |>
             <| di_ReturnedBy := "" |> <| di_Summary := "" |> <| di_ReturnedAt := 0 |> in
  _ ← put (state <| Dispatches ::= (λ l, l ++ [v]) |>);
  mret (RDispatch v).

(** The body of returnDispatch. *)
Record return_input := mk_return_input { ri_ReturnedAt : Z; ri_Summary : string }.
#[export] Instance eta_return_input : Settable return_input := λ v,
  mk_return_input (ri_ReturnedAt v) (ri_Summary v).
Definition decode_return_input : decoder return_input :=
  dec_struct [("returnedAt", at_field ri_ReturnedAt dec_int64);
              ("summary", at_field ri_Summary dec_string)].

Definition returnDispatch (actor id : string) (body : raw_message) (now : Z)
    : M FireSafetyState response :=
  in_ ← lift (read decode_return_input (mk_return_input 0 "") body);
  state ← get;
  match find_first (λ d, ID d = id) (Dispatches state) with
  | None => throw (missing "出勤记录")
  | Some (i, v) =>
    _ ← lift (requireVersion body (di_FireRecord v));
    _ ← lift (fail_when (di_Status v ≠ "dispatched") (conflict "出勤记录已归队，不能重复归队"));
    summary ← lift (text (ri_Summary in_) "归队总结" true 4000);
    let returnedAt := if decide (ri_ReturnedAt in_ = 0) then now else ri_ReturnedAt in_ in
    _ ← lift (stamp returnedAt "归队时间");
    _ ← lift (fail_when (returnedAt < di_StartedAt v ∨ returnedAt > wrap64 (now + 60000))
          (invalid "归队时间须不早于出勤时间且不晚于当前时间"));
    let v := v <| di_Status := "returned" |> <| di_ReturnedBy := actor |>
               <| di_Summary := summary |> <| di_ReturnedAt := returnedAt |>
               <| di_FireRecord ::= (λ r, advance r now) |> in
    _ ← put (state <| Dispatches ::= <[i:=v]> |>);
    mret (RDispatch v)
  end.

End with_platform.
