(* ===== verification/FireDuty.v ===== *)
(** Shifts, duty assignments and duty swaps (internal/firesafety/duty.go). *)
From S2P Require Import Prelude GoText GoTime GoJson Keyed FireModel FireService.

Section with_platform.
Context `{Platform}.

(** ** Shifts *)

Definition shift_fields : list (field DutyShift) :=
  [field_of sh_Name "班次名称" true 100; field_of sh_StartTime "班次开始时间" true 5;
   field_of sh_EndTime "班次结束时间" true 5].

(** [time.Parse("15:04", value)] succeeds and formats back to the value. *)
Definition valid_clock (value : string) : Prop :=
  match parse_clock value with Some (h, m) => format_clock h m = value | None => False end.
#[export] Instance valid_clock_dec value : Decision (valid_clock value).
Proof. unfold valid_clock. destruct (parse_clock value) as [[h m]|]; apply _. Defined.

Definition saveShift (id : string) (body : raw_message) (now : Z) : M FireSafetyState response :=
  v ← lift (read decode_DutyShift zero_DutyShift body);
  v ← lift (fields shift_fields v);
  _ ← lift (for_each (λ value, fail_when (¬ valid_clock value)
        (invalid "班次时间须为有效的 HH:mm 时间")) [sh_StartTime v; sh_EndTime v]);
  state ← get;
  let old := shift state id in
  _ ← lift (fail_when (id ≠ "" ∧ ¬ is_Some old) (missing "班次"));
  _ ← lift (for_each (λ s, fail_when (ID s ≠ id ∧ equal_fold (sh_Name s) (sh_Name v))
        (conflict "班次名称已存在")) (Shifts state));
  r ← record (sh_FireRecord v) (previous old) now;
  let v := v <| sh_FireRecord := r |> in
  _ ← put (state <| Shifts ::= upsert old v |>);
  mret (RShift v).

Definition deleteShift (id : string) (body : raw_message) : M FireSafetyState response :=
  state ← get;
  match shift state id with
  | None => throw (missing "班次")
  | Some (i, old) =>
    _ ← lift (requireVersion body (sh_FireRecord old));
    _ ← lift (for_each (λ a, fail_when (as_ShiftID a = id)
          (conflict "班次已有排班记录，不能删除")) (Assignments state));
    _ ← put (state <| Shifts ::= remove_at i |>);
    mret RDeleted
  end.

(** ** Assignments *)

(** int64(48*time.Hour/time.Millisecond) *)
Definition max_assignment : Z := 172800000.

(** One person of an assignment: member of the station, enabled, and without
    another assignment that overlaps. *)
Definition check_assignment_person (state : FireSafetyState) (v : DutyAssignment)
    (excludeID id : string) : res unit :=
  match personnel state id with
  | None => Err (invalid "排班人员须属于本消防站且已启用")
  | Some (_, p) =>
    _ ← fail_when (pe_StationID p ≠ as_StationID v ∨ ¬ pe_Enabled p)
          (invalid "排班人员须属于本消防站且已启用");
    for_each (λ other, fail_when (ID other ≠ excludeID ∧ contains (as_PersonnelIDs other) id
        ∧ as_StartAt v < as_EndAt other ∧ as_StartAt other < as_EndAt v)
      (conflict ("人员“" +:+ pe_Name p +:+ "”存在重叠排班"))) (Assignments state)
  end.

Definition validateAssignment (state : FireSafetyState) (v : DutyAssignment)
    (excludeID : string) : res unit :=
  _ ← enabledStation state (as_StationID v);
  _ ← fail_when (¬ is_Some (shift state (as_ShiftID v))) (invalid "班次不存在或不属于当前租户");
  _ ← uniqueIDs (as_PersonnelIDs v) "排班人员";
  _ ← stamp (as_StartAt v) "排班开始时间";
  _ ← stamp (as_EndAt v) "排班结束时间";
  _ ← fail_when (as_EndAt v ≤ as_StartAt v ∨ wrap64 (as_EndAt v - as_StartAt v) > max_assignment)
        (invalid "排班结束时间须晚于开始时间，时长不能超过48小时");
  for_each (check_assignment_person state v excludeID) (as_PersonnelIDs v).

(** The edit changes what a pending swap refers to. *)
Definition duty_changed (old v : DutyAssignment) : Prop :=
  as_StationID old ≠ as_StationID v ∨ as_ShiftID old ≠ as_ShiftID v
  ∨ as_StartAt old ≠ as_StartAt v ∨ as_EndAt old ≠ as_EndAt v
  ∨ as_PersonnelIDs old ≠ as_PersonnelIDs v.
#[export] Instance duty_changed_dec old v : Decision (duty_changed old v).
Proof. unfold duty_changed. apply _. Defined.

Definition saveAssignment (id : string) (body : raw_message) (now : Z)
    : M FireSafetyState response :=
  v ← lift (read decode_DutyAssignment zero_DutyAssignment body);
  notes ← lift (text (as_Notes v) "排班备注" false 2000);
  let v := v <| as_Notes := notes |> in
  state ← get;
  let old := assignment state id in
  _ ← lift (fail_when (id ≠ "" ∧ ¬ is_Some old) (missing "排班"));
  _ ← lift (match old with
            | Some (_, o) =>
              if decide (duty_changed o v) then
                for_each (λ swap, fail_when (sw_AssignmentID swap = id ∧ sw_Status swap = "pending")
                  (conflict "排班存在待审批换班，请先完成审批")) (Swaps state)
              else Ok tt
            | None => Ok tt
            end);
  _ ← lift (validateAssignment state v id);
  r ← record (as_FireRecord v) (previous old) now;
  let v := v <| as_FireRecord := r |> in
  _ ← put (state <| Assignments ::= upsert old v |>);
  mret (RAssignment v).

Definition maxBatchAssignments : Z := 62.

(** The loop of createAssignments: conflicts are collected and the item is
    left out, any other error ends the call. *)
Fixpoint add_assignments (now : Z) (problems : list string) (created items : list DutyAssignment)
    : M FireSafetyState (list string * list DutyAssignment) :=
  match items with
  | [] => mret (problems, created)
  | v :: items =>
    notes ← lift (text (as_Notes v) "排班备注" false 2000);
    let v := v <| as_Notes := notes |> in
    let day := format_minute (local_civil (as_StartAt v)) in
    state ← get;
    match validateAssignment state v "" with
    | Err e =>
      if decide (err_is e = Conflict) then
        let problem := day +:+ " " +:+ trim_prefix (err_text e) (sentinel_text Conflict +:+ ": ") in
        add_assignments now (problems ++ [problem]) created items
      else throw (mk_error (err_is e) (err_text e +:+ "（" +:+ day +:+ "）"))
    | Ok _ =>
      r ← record zero_FireRecord None now;
      let v := v <| as_FireRecord := r |> in
      _ ← put (state <| Assignments ::= (λ l, l ++ [v]) |>);
      add_assignments now problems (created ++ [v]) items
    end
  end.

Definition decode_batch_assignments : decoder (list DutyAssignment) :=
  dec_struct [("assignments", dec_list decode_DutyAssignment zero_DutyAssignment)].

Definition createAssignments (body : raw_message) (now : Z) : M FireSafetyState response :=
  items ← lift (read decode_batch_assignments [] body);
  _ ← lift (fail_when (items = [] ∨ Z.of_nat (length items) > maxBatchAssignments)
        (invalid ("批量排班须为1至" +:+ dec maxBatchAssignments +:+ "条")));
  pc ← add_assignments now [] [] items;
  let '(problems, created) := pc in
  _ ← lift (fail_when (problems ≠ [])
        (let problems := if decide (10 < length problems)%nat
           then take 10 problems ++ ["等 " +:+ dec (Z.of_nat (length problems)) +:+ " 处"]
           else problems in
         conflict ("以下排班存在冲突，未保存任何排班：" +:+ join "；" problems)));
  mret (RAssignments created (Z.of_nat (length created))).

Definition deleteAssignment (id : string) (body : raw_message) : M FireSafetyState response :=
  state ← get;
  match assignment state id with
  | None => throw (missing "排班")
  | Some (i, old) =>
    _ ← lift (requireVersion body (as_FireRecord old));
    _ ← lift (for_each (λ swap, fail_when (sw_AssignmentID swap = id)
          (conflict "排班已有换班记录，不能删除")) (Swaps state));
    _ ← put (state <| Assignments ::= remove_at i |>);
    mret RDeleted
  end.

(** ** Swaps *)

(** Replacing one person by another in a list of personnel. *)
Definition swap_personnel (from to : string) (ids : list string) : list string :=
  (λ id, if decide (id = from) then to else id) <$> ids.

Definition swappedAssignment (state : FireSafetyState) (v : DutySwap) (now : Z)
    : res DutyAssignment :=
  match assignment state (sw_AssignmentID v) with
  | None => Err (invalid "原排班不存在或不属于当前租户")
  | Some (_, a) =>
    _ ← fail_when (as_EndAt a ≤ now) (conflict "排班已结束，不能换班");
    _ ← fail_when (sw_FromPersonnelID v = "" ∨ sw_ToPersonnelID v = ""
          ∨ sw_FromPersonnelID v = sw_ToPersonnelID v
          ∨ ¬ contains (as_PersonnelIDs a) (sw_FromPersonnelID v)
          ∨ contains (as_PersonnelIDs a) (sw_ToPersonnelID v))
          (invalid "换班人员无效，原人员须在排班中且替班人员不能已在排班中");
    let next := a <| as_PersonnelIDs ::=
      swap_personnel (sw_FromPersonnelID v) (sw_ToPersonnelID v) |> in
    _ ← validateAssignment state next (ID a);
    mret next
  end.

Definition createSwap (actor : string) (body : raw_message) (now : Z) : M FireSafetyState response :=
  v ← lift (read decode_DutySwap zero_DutySwap body);
  reason ← lift (text (sw_Reason v) "换班原因" true 2000);
  let v := v <| sw_Reason := reason |> in
  state ← get;
  _ ← lift (swappedAssignment state v now);
  _ ← lift (for_each (λ pending, fail_when (sw_AssignmentID pending = sw_AssignmentID v
          ∧ sw_FromPersonnelID pending = sw_FromPersonnelID v ∧ sw_Status pending = "pending")
        (conflict "原人员已有待审批换班申请")) (Swaps state));
  r ← record zero_FireRecord None now;
  let v := v <| sw_FireRecord := r |> <| sw_Status := "pending" |> <| sw_RequestedBy := actor |>
             <| sw_ReviewedBy := "" |> <| sw_ReviewNote := "" |> <| sw_ReviewedAt := 0 |> in
  _ ← put (state <| Swaps ::= (λ l, l ++ [v]) |>);
  mret (RSwap v).

Record reviewInput := mk_reviewInput { rv_Approved : option bool; rv_Note : string }.
#[export] Instance eta_reviewInput : Settable reviewInput := λ v,
  mk_reviewInput (rv_Approved v) (rv_Note v).
Definition decode_reviewInput : decoder reviewInput :=
  dec_struct [("approved", at_field rv_Approved (dec_ptr dec_bool false));
              ("note", at_field rv_Note dec_string)].

(** readReview: the decision and the trimmed note, which a rejection needs. *)
Definition readReview (body : raw_message) : res (bool * string) :=
  in_ ← read decode_reviewInput (mk_reviewInput None "") body;
  match rv_Approved in_ with
  | None => Err (invalid "须明确选择通过或驳回")
  | Some approved =>
    note ← text (rv_Note in_) "审批意见" (negb approved) 2000;
    mret (approved, note)
  end.

Definition reviewSwap (actor id : string) (body : raw_message) (now : Z)
    : M FireSafetyState response :=
  in_ ← lift (readReview body);
  let '(approved, note) := in_ in
  state ← get;
  match find_first (λ s, ID s = id) (Swaps state) with
  | None => throw (missing "换班申请")
  | Some (i, v) =>
    _ ← lift (requireVersion body (sw_FireRecord v));
    _ ← lift (fail_when (sw_Status v ≠ "pending") (conflict "换班申请已审批，不能重复审批"));
    _ ← lift (fail_when (sw_RequestedBy v = actor) (forbidden "不能审批自己提交的换班申请"));
    state ← (if approved : bool then
        next ← lift (swappedAssignment state v now);
        let next := next <| as_FireRecord ::= (λ r, advance r now) |> in
        match assignment state (sw_AssignmentID v) with
        | Some (j, _) => mret (state <| Assignments ::= <[j:=next]> |>)
        | None => mret state (* unreachable: swappedAssignment found it *)
        end
      else mret state);
    let v := v <| sw_Status := if approved : bool then "approved" else "rejected" |>
               <| sw_ReviewedBy := actor |> <| sw_ReviewNote := note |> <| sw_ReviewedAt := now |>
               <| sw_FireRecord ::= (λ r, advance r now) |> in
    _ ← put (state <| Swaps ::= <[i:=v]> |>);
    mret (RSwap v)
  end.

End with_platform.
