(* ===== verification/FireExtinguishers.v ===== *)
(** Extinguishers and their inspections (internal/firesafety/extinguishers.go):
    the asset register, the creation of inspection tasks singly and in
    batches, and the task workflow inspect / rectify / review / cancel. *)
From S2P Require Import Prelude GoText GoTime GoJson Keyed FireModel FireService FireDuty.

Section with_platform.
Context `{Platform}.

Definition extinguisher_fields : list (field Extinguisher) :=
  [field_of ex_Code "灭火器编号" true 64; field_of ex_Location "安装位置" true 300;
   field_of ex_Specification "规格" false 100; field_of ex_Manufacturer "生产厂家" false 150;
   field_of ex_SerialNumber "出厂序列号" false 100; field_of ex_Notes "备注" false 2000].

(** Go's [<] on strings is byte-wise lexicographic. *)
Definition string_gt (a b : string) : bool :=
  match String.compare a b with Gt => true | _ => false end.

(** The order of the dates of an extinguisher; [zero_day] is a missing date. *)
Definition check_dates (v : Extinguisher) (now : Z) : res unit :=
  manufactured ← date (ex_ManufacturedOn v) "生产日期";
  serviceDue ← date (ex_ServiceDueOn v) "维保到期日期";
  retire ← date (ex_RetireOn v) "报废日期";
  _ ← fail_when (ex_ManufacturedOn v ≠ ""
        ∧ string_gt (ex_ManufacturedOn v) (format_date (local_civil now)))
        (invalid "生产日期不能晚于当前日期");
  _ ← fail_when (manufactured ≠ zero_day
        ∧ ((serviceDue ≠ zero_day ∧ serviceDue < manufactured)
           ∨ (retire ≠ zero_day ∧ retire < manufactured)))
        (invalid "维保到期日期和报废日期不能早于生产日期");
  fail_when (serviceDue ≠ zero_day ∧ retire ≠ zero_day ∧ retire < serviceDue)
    (invalid "报废日期不能早于维保到期日期").

Definition saveExtinguisher (id : string) (body : raw_message) (now : Z)
    : M FireSafetyState response :=
  v ← lift (read decode_Extinguisher zero_Extinguisher body);
  v ← lift (fields extinguisher_fields v);
  _ ← lift (oneOf (ex_Type v) "灭火器类型" ["dry_powder"; "co2"; "foam"; "water"; "other"]);
  _ ← lift (oneOf (ex_Status v) "灭火器状态" ["active"; "maintenance"; "retired"]);
  _ ← lift (fail_when (ex_InspectionCycleDays v < 1 ∨ ex_InspectionCycleDays v > 3650)
        (invalid "巡检周期须为1至3650天"));
  _ ← lift (check_dates v now);
  state ← get;
  _ ← lift (fail_when (¬ is_Some (station state (ex_StationID v)))
        (invalid "所属消防站不存在或不属于当前租户"));
  _ ← lift (if decide (ex_Status v = "active")
            then enabledStation state (ex_StationID v) else Ok tt);
  let old := extinguisher state id in
  _ ← lift (fail_when (id ≠ "" ∧ ¬ is_Some old) (missing "灭火器"));
  _ ← lift (for_each (λ e, fail_when (ID e ≠ id ∧ equal_fold (ex_Code e) (ex_Code v))
        (conflict "灭火器编号已存在")) (Extinguishers state));
  _ ← lift (match old with
            | Some (_, o) =>
              if decide (ex_Status v = "retired" ∨ ex_StationID v ≠ ex_StationID o) then
                for_each (λ task, fail_when (in_ExtinguisherID task = id ∧ inspectionOpen task)
                  (conflict "灭火器存在未结巡检任务，不能报废或更换消防站")) (Inspections state)
              else Ok tt
            | None => Ok tt
            end);
  r ← record (ex_FireRecord v) (previous old) now;
  let v := v <| ex_FireRecord := r |> in
  _ ← put (state <| Extinguishers ::= upsert old v |>);
  mret (RExtinguisher v).

Definition deleteExtinguisher (id : string) (body : raw_message) : M FireSafetyState response :=
  state ← get;
  match extinguisher state id with
  | None => throw (missing "灭火器")
  | Some (i, old) =>
    _ ← lift (requireVersion body (ex_FireRecord old));
    _ ← lift (for_each (λ task, fail_when (in_ExtinguisherID task = id)
          (conflict "灭火器已有巡检记录，不能删除")) (Inspections state));
    _ ← put (state <| Extinguishers ::= remove_at i |>);
    mret RDeleted
  end.

Definition StandardChecks : list string :=
  ["外观及筒体"; "压力指示"; "喷管及附件"; "铭牌及日期"; "放置及标识"].

Definition maxBatchInspections : Z := 500.

Definition createInspection (actor : string) (body : raw_message) (now : Z)
    : M FireSafetyState FireInspection :=
  v ← lift (read decode_FireInspection zero_FireInspection body);
  notes ← lift (text (in_Notes v) "巡检备注" false 2000);
  state ← get;
  match extinguisher state (in_ExtinguisherID v) with
  | None => throw (invalid "灭火器不存在或不属于当前租户")
  | Some (_, e) =>
    _ ← lift (fail_when (ex_Status e = "retired") (conflict "已报废灭火器不能创建巡检任务"));
    _ ← lift (if decide (ex_StationID e ≠ "")
              then enabledStation state (ex_StationID e) else Ok tt);
    match personnel state (in_AssigneeID v) with
    | None => throw (invalid "巡检人员不存在或未启用")
    | Some (_, p) =>
      _ ← lift (fail_when (¬ pe_Enabled p) (invalid "巡检人员不存在或未启用"));
      _ ← lift (enabledStation state (pe_StationID p));
      _ ← lift (stamp (in_DueAt v) "巡检期限");
      _ ← lift (for_each (λ task, fail_when (in_ExtinguisherID task = ID e ∧ inspectionOpen task)
            (conflict "灭火器已有未结巡检任务")) (Inspections state));
      r ← record zero_FireRecord None now;
      let v := zero_FireInspection <| in_FireRecord := r |>
                 <| in_ExtinguisherID := in_ExtinguisherID v |>
                 <| in_AssigneeID := in_AssigneeID v |> <| in_DueAt := in_DueAt v |>
                 <| in_Status := "pending" |> <| in_Notes := notes |> <| in_CreatedBy := actor |> in
      _ ← put (state <| Inspections ::= (λ l, l ++ [v]) |>);
      mret v
    end
  end.

(** The body of createInspections. *)
Record batch_input := mk_batch_input {
  bi_ExtinguisherIDs : list string; bi_AssigneeID : string; bi_DueAt : Z; bi_Notes : string }.
#[export] Instance eta_batch_input : Settable batch_input := λ v,
  mk_batch_input (bi_ExtinguisherIDs v) (bi_AssigneeID v) (bi_DueAt v) (bi_Notes v).
Definition decode_batch_input : decoder batch_input :=
  dec_struct [("extinguisherIds", at_field bi_ExtinguisherIDs (dec_list dec_string ""));
              ("assigneeId", at_field bi_AssigneeID dec_string);
              ("dueAt", at_field bi_DueAt dec_int64); ("notes", at_field bi_Notes dec_string)].

(** [json.Marshal] of the task map of one item, members in key order.  Its
    length is not looked at again; it is positive. *)
Definition task_body (in_ : batch_input) (id : string) : raw_message :=
  raw_of 1 (JObj [("assigneeId", JStr (bi_AssigneeID in_)); ("dueAt", jint (bi_DueAt in_));
                  ("extinguisherId", JStr id); ("notes", JStr (bi_Notes in_))]).

(** Running a handler and looking at its error, as Go code that continues
    after [err != nil] does; the handlers so used fail before they modify the
    state. *)
Definition attempt {S A} (m : M S A) : M S (res A) := λ w,
  match m w with Ok (a, w') => Ok (Ok a, w') | Err e => Ok (Err e, w) end.

Fixpoint add_inspections (actor : string) (in_ : batch_input) (now : Z)
    (created : list FireInspection) (skips : list skipped) (ids : list string)
    : M FireSafetyState (list FireInspection * list skipped) :=
  match ids with
  | [] => mret (created, skips)
  | id :: ids =>
    result ← attempt (createInspection actor (task_body in_ id) now);
    match result with
    | Err e =>
      if decide (err_is e = Conflict) then
        state ← get;
        let code := match extinguisher state id with Some (_, x) => ex_Code x | None => id end in
        let reason := trim_prefix (err_text e) (sentinel_text Conflict +:+ ": ") in
        add_inspections actor in_ now created (skips ++ [mk_skipped id code reason]) ids
      else throw e
    | Ok task => add_inspections actor in_ now (created ++ [task]) skips ids
    end
  end.

Definition createInspections (actor : string) (body : raw_message) (now : Z)
    : M FireSafetyState response :=
  in_ ← lift (read decode_batch_input (mk_batch_input [] "" 0 "") body);
  _ ← lift (fail_when (bi_ExtinguisherIDs in_ = []
          ∨ Z.of_nat (length (bi_ExtinguisherIDs in_)) > maxBatchInspections)
        (invalid ("批量巡检须选择1至" +:+ dec maxBatchInspections +:+ "个灭火器")));
  _ ← lift (uniqueIDs (bi_ExtinguisherIDs in_) "灭火器");
  cs ← add_inspections actor in_ now [] [] (bi_ExtinguisherIDs in_);
  let '(created, skips) := cs in
  _ ← lift (fail_when (created = []) (conflict "所选灭火器均已有未结巡检任务或已报废，未创建任务"));
  mret (RInspections created (Z.of_nat (length created)) skips).

(** ** The inspection workflow *)

Record inspect_input := mk_inspect_input {
  ii_Checks : list FireInspectionCheck; ii_Findings : string }.
#[export] Instance eta_inspect_input : Settable inspect_input := λ v,
  mk_inspect_input (ii_Checks v) (ii_Findings v).
Definition decode_inspect_input : decoder inspect_input :=
  dec_struct [("checks", at_field ii_Checks (dec_list decode_FireInspectionCheck zero_FireInspectionCheck));
              ("findings", at_field ii_Findings dec_string)].

(** The loop over the checks: trimmed names, the lowered names seen and
    whether every check passed. *)
Fixpoint read_checks (seen : list (list Z)) (passed : bool) (checks : list FireInspectionCheck)
    : res (list FireInspectionCheck * list (list Z) * bool) :=
  match checks with
  | [] => Ok ([], seen, passed)
  | check :: checks =>
    name ← text (ck_Name check) "检查项目" true 100;
    let key := to_lower name in
    _ ← fail_when (key ∈ seen) (invalid "检查项目不能重复");
    rest ← read_checks (key :: seen) (passed && ck_Passed check) checks;
    let '(cs, seen, passed) := rest in
    mret (check <| ck_Name := name |> :: cs, seen, passed)
  end.

Definition inspect (actor id : string) (body : raw_message) (now : Z)
    : M FireSafetyState response :=
  in_ ← lift (read decode_inspect_input (mk_inspect_input [] "") body);
  _ ← lift (fail_when (ii_Checks in_ = [] ∨ (100 < length (ii_Checks in_))%nat)
        (invalid "检查项目须为1至100项"));
  rc ← lift (read_checks [] true (ii_Checks in_));
  let '(checks, seen, passed) := rc in
  _ ← lift (for_each (λ name, fail_when (to_lower name ∉ seen)
        (invalid ("检查项目须包含标准项目“" +:+ name +:+ "”"))) StandardChecks);
  findings ← lift (text (ii_Findings in_) "问题描述" (negb passed) 4000);
  state ← get;
  match find_first (λ v, ID v = id) (Inspections state) with
  | None => throw (missing "巡检任务")
  | Some (i, v) =>
    _ ← lift (requireVersion body (in_FireRecord v));
    _ ← lift (fail_when (in_Status v ≠ "pending") (conflict "巡检任务已执行或结束，不能重复检查"));
    let v := v <| in_Checks := checks |> <| in_Findings := findings |>
               <| in_InspectedAt := now |> <| in_InspectedBy := actor |>
               <| in_Result := if passed : bool then "pass" else "fail" |>
               <| in_Status := if passed : bool then "completed" else "rectifying" |>
               <| in_FireRecord ::= (λ r, advance r now) |> in
    _ ← put (state <| Inspections ::= <[i:=v]> |>);
    mret (RInspection v)
  end.

Definition decode_action : decoder string := dec_struct [("action", dec_string)].
Definition decode_reason : decoder string := dec_struct [("reason", dec_string)].

Definition rectify (actor id : string) (body : raw_message) (now : Z)
    : M FireSafetyState response :=
  action ← lift (read decode_action "" body);
  action ← lift (text action "整改措施" true 4000);
  state ← get;
  match find_first (λ v, ID v = id) (Inspections state) with
  | None => throw (missing "巡检任务")
  | Some (i, v) =>
    _ ← lift (requireVersion body (in_FireRecord v));
    _ ← lift (fail_when (in_Status v ≠ "rectifying") (conflict "巡检任务当前不处于整改阶段"));
    let v := v <| in_Rectifications ::= (λ l, l ++
                    [mk_FireRectification action actor now "pending" "" 0 ""]) |>
               <| in_Status := "reviewing" |> <| in_FireRecord ::= (λ r, advance r now) |> in
    _ ← put (state <| Inspections ::= <[i:=v]> |>);
    mret (RInspection v)
  end.

Definition reviewInspection (actor id : string) (body : raw_message) (now : Z)
    : M FireSafetyState response :=
  in_ ← lift (readReview body);
  let '(approved, note) := in_ in
  state ← get;
  match find_first (λ v, ID v = id) (Inspections state) with
  | None => throw (missing "巡检任务")
  | Some (i, v) =>
    _ ← lift (requireVersion body (in_FireRecord v));
    match last (in_Rectifications v) with
    | None => throw (conflict "巡检任务当前不处于复核阶段")
    | Some r =>
      _ ← lift (fail_when (in_Status v ≠ "reviewing") (conflict "巡检任务当前不处于复核阶段"));
      _ ← lift (fail_when (re_Status r ≠ "pending") (conflict "整改已复核，不能重复复核"));
      _ ← lift (fail_when (re_SubmittedBy r = actor) (forbidden "不能复核自己提交的整改"));
      let r := r <| re_ReviewedBy := actor |> <| re_ReviewedAt := now |> <| re_ReviewNote := note |>
                 <| re_Status := if approved : bool then "approved" else "rejected" |> in
      let v := v <| in_Rectifications ::= (λ l, <[pred (length l):=r]> l) |>
                 <| in_Status := if approved : bool then "completed" else "rectifying" |>
                 <| in_FireRecord ::= (λ r, advance r now) |> in
      _ ← put (state <| Inspections ::= <[i:=v]> |>);
      mret (RInspection v)
    end
  end.

Definition cancelInspection (id : string) (body : raw_message) (now : Z)
    : M FireSafetyState response :=
  reason ← lift (read decode_reason "" body);
  reason ← lift (text reason "取消原因" true 2000);
  state ← get;
  match find_first (λ v, ID v = id) (Inspections state) with
  | None => throw (missing "巡检任务")
  | Some (i, v) =>
    _ ← lift (requireVersion body (in_FireRecord v));
    _ ← lift (fail_when (¬ inspectionOpen v) (conflict "巡检任务已结束，不能取消"));
    let v := v <| in_Status := "cancelled" |> <| in_CancelReason := reason |>
               <| in_FireRecord ::= (λ r, advance r now) |> in
    _ ← put (state <| Inspections ::= <[i:=v]> |>);
    mret (RInspection v)
  end.

End with_platform.
