(* ===== verification/FireApply.v ===== *)
(** The fire safety service (internal/firesafety/service.go: Snapshot, Apply,
    remember, mutate) over the tenant store of the memory adapter
    (internal/adapters/memory/fire_safety.go).  [cloneState] and [normalize]
    copy the document and replace nil slices by empty ones: the identity on
    the values of the model. *)
From S2P Require Import Prelude Optimistic GoText GoJson Keyed FireModel FireService FireStations.
From S2P Require Import FireDuty FireExtinguishers.

(** ** The store *)

#[export] Instance fire_revised : Revised FireSafetyState := {|
  revision := Revision; with_revision z s := s <| Revision := z |>; blank := empty_state |}.
#[export] Instance fire_revised_laws : RevisedLaws FireSafetyState.
Proof. by split. Qed.

Abbreviation fire_cache := (gmap string FireSafetyState).
Abbreviation fire_database := (database FireSafetyState).
Abbreviation fire_io := (io_state FireSafetyState fire_cache).
Abbreviation FireIO := (IO FireSafetyState fire_cache).

Definition LoadFireSafetyState (tenant : string) (db : fire_database) : FireSafetyState :=
  load tenant db.

Definition FireSafetyRevision (tenant : string) (db : fire_database) : Z :=
  Revision (LoadFireSafetyState tenant db).

Definition SaveFireSafetyState (tenant : string) (state : FireSafetyState) (db : fire_database)
    : bool * fire_database :=
  save tenant (Revision state) state db.

Definition SaveFireSafetyFrom (tenant : string) (base next : FireSafetyState) (db : fire_database)
    : bool * fire_database :=
  SaveFireSafetyState tenant (next <| Revision := Revision base |>) db.

Section with_platform.
Context `{Platform}.

(** ** mutate *)

Definition mutate (actor action id : string) (body : raw_message) (now : Z)
    : M FireSafetyState response :=
  if decide (action = "saveStation") then saveStation id body now
  else if decide (action = "deleteStation") then deleteStation id body
  else if decide (action = "savePersonnel") then savePersonnel id body now
  else if decide (action = "deletePersonnel") then deletePersonnel id body
  else if decide (action = "saveEquipment") then saveEquipment id body now
  else if decide (action = "deleteEquipment") then deleteEquipment id body
  else if decide (action = "createDispatch") then createDispatch actor body now
  else if decide (action = "returnDispatch") then returnDispatch actor id body now
  else if decide (action = "saveShift") then saveShift id body now
  else if decide (action = "deleteShift") then deleteShift id body
  else if decide (action = "saveAssignment") then saveAssignment id body now
  else if decide (action = "deleteAssignment") then deleteAssignment id body
  else if decide (action = "createAssignments") then createAssignments body now
  else if decide (action = "createSwap") then createSwap actor body now
  else if decide (action = "reviewSwap") then reviewSwap actor id body now
  else if decide (action = "saveExtinguisher") then saveExtinguisher id body now
  else if decide (action = "deleteExtinguisher") then deleteExtinguisher id body
  else if decide (action = "createInspection") then
    v ← createInspection actor body now; mret (RInspection v)
  else if decide (action = "createInspections") then createInspections actor body now
  else if decide (action = "inspect") then inspect actor id body now
  else if decide (action = "rectify") then rectify actor id body now
  else if decide (action = "reviewInspection") then reviewInspection actor id body now
  else if decide (action = "cancelInspection") then cancelInspection id body now
  else throw (invalid "不支持的消防管理操作").

(** ** The service under interference *)

Section service.
Context (sched : schedule FireSafetyState fire_cache).

(** The cache after remembering a document: unless a newer one is there. *)
Definition remembered (tenant : string) (state : FireSafetyState) (cache : fire_cache) : fire_cache :=
  match cache !! tenant with
  | Some previous =>
    if decide (Revision previous ≤ Revision state) then <[tenant := state]> cache else cache
  | None => <[tenant := state]> cache
  end.
Definition remember (tenant : string) (state : FireSafetyState) : FireIO unit :=
  set_cache (remembered tenant state).

Definition Snapshot (tenant : string) : FireIO FireSafetyState :=
  if decide (trim_space tenant = "") then io_err (invalid "租户不能为空")
  else
    revision ← call sched (λ db, (FireSafetyRevision tenant db, db));
    cache ← cached;
    let reload :=
      state ← call sched (λ db, (LoadFireSafetyState tenant db, db));
      _ ← remember tenant state;
      mret state in
    match cache !! tenant with
    | Some hit =>
      if decide (revision ≠ 0 ∧ Revision hit = revision) then mret hit else reload
    | None => reload
    end.

(** [if errors.Is(err, model.ErrDutyOverlap)] *)
Definition save_error (e : error) : error :=
  if decide (e = ErrDutyOverlap) then conflict "人员存在重叠排班，请刷新后重试" else e.

Fixpoint apply_attempts (attempts : nat) (tenant actor action id : string) (body : raw_message)
    : FireIO response :=
  match attempts with
  | O => io_err (conflict "数据正在被其他操作更新，请刷新重试")
  | S attempts =>
    _ ← ctx_err sched;
    base ← Snapshot tenant;
    rs ← run_handler sched (mutate actor action id body) base;
    let '(result, state) := rs in
    saved ← map_err save_error (call sched (SaveFireSafetyFrom tenant base state));
    if saved : bool then
      _ ← remember tenant (state <| Revision := wrap64 (Revision base + 1) |>);
      mret result
    else apply_attempts attempts tenant actor action id body
  end.

Definition Apply (tenant actor action id : string) (body : raw_message) : FireIO response :=
  if decide (trim_space tenant = "" ∨ trim_space actor = "") then
    io_err (invalid "租户和操作人不能为空")
  else if decide (raw_len body > 128 * 1024) then io_err (invalid "提交内容过大")
  else apply_attempts 8 tenant actor action id body.

End service.
End with_platform.
