(* ===== verification/FireInvariant.v ===== *)
(** Well-formedness of the fire safety aggregate.

    [wf n s] collects what the handlers maintain together: identities are
    distinct and drawn, references resolve, nobody is on two overlapping
    duties, personnel and equipment are not out twice, an extinguisher has at
    most one open inspection, and nobody reviews what they submitted. *)
From S2P Require Import Prelude Keyed GoText GoTime GoJson FireModel FireService FireStations.
From S2P Require Import FireDuty FireExtinguishers.

Section with_platform.
Context `{Platform}.

(** ** Identities *)

Record wf_keys (n : nat) (s : FireSafetyState) : Prop := {
  wk_stations : keyed n (Stations s);
  wk_personnel : keyed n (Personnel s);
  wk_equipment : keyed n (Equipment s);
  wk_dispatches : keyed n (Dispatches s);
  wk_shifts : keyed n (Shifts s);
  wk_assignments : keyed n (Assignments s);
  wk_swaps : keyed n (Swaps s);
  wk_extinguishers : keyed n (Extinguishers s);
  wk_inspections : keyed n (Inspections s) }.

(** ** References *)

Record wf_refs (s : FireSafetyState) : Prop := {
  wr_personnel_station : refs_to (λ p, [pe_StationID p]) (Personnel s) (Stations s);
  wr_equipment_station : refs_to (λ e, [eq_StationID e]) (Equipment s) (Stations s);
  wr_extinguisher_station : refs_to (λ e, [ex_StationID e]) (Extinguishers s) (Stations s);
  wr_assignment_station : refs_to (λ a, [as_StationID a]) (Assignments s) (Stations s);
  wr_dispatch_station : refs_to (λ d, [di_StationID d]) (Dispatches s) (Stations s);
  wr_assignment_shift : refs_to (λ a, [as_ShiftID a]) (Assignments s) (Shifts s);
  wr_assignment_personnel : refs_to as_PersonnelIDs (Assignments s) (Personnel s);
  wr_dispatch_personnel : refs_to di_PersonnelIDs (Dispatches s) (Personnel s);
  wr_dispatch_equipment :
    refs_to (λ d, us_EquipmentID <$> di_Equipment d) (Dispatches s) (Equipment s);
  wr_swap_assignment : refs_to (λ w, [sw_AssignmentID w]) (Swaps s) (Assignments s);
  wr_swap_personnel :
    refs_to (λ w, [sw_FromPersonnelID w; sw_ToPersonnelID w]) (Swaps s) (Personnel s);
  wr_inspection_extinguisher :
    refs_to (λ t, [in_ExtinguisherID t]) (Inspections s) (Extinguishers s);
  wr_inspection_assignee : refs_to (λ t, [in_AssigneeID t]) (Inspections s) (Personnel s) }.

(** ** Duty *)

Definition assignment_ok (a : DutyAssignment) : Prop :=
  NoDup (as_PersonnelIDs a) ∧ as_PersonnelIDs a ≠ [] ∧ (length (as_PersonnelIDs a) ≤ 200)%nat ∧
  0 < as_StartAt a < as_EndAt a ∧ as_EndAt a ≤ stamp_max ∧
  as_EndAt a - as_StartAt a ≤ max_assignment.

(** Somebody is on both assignments at the same time. *)
Definition clash (a b : DutyAssignment) : Prop :=
  ∃ i, i ∈ as_PersonnelIDs a ∧ i ∈ as_PersonnelIDs b ∧
       as_StartAt a < as_EndAt b ∧ as_StartAt b < as_EndAt a.

Definition wf_duty (s : FireSafetyState) : Prop :=
  each assignment_ok (Assignments s) ∧ distinct (λ a b, ¬ clash a b) (Assignments s).

(** ** Dispatches *)

Definition active (d : FireDispatch) : Prop := di_Status d = "dispatched".
#[export] Instance active_dec d : Decision (active d).
Proof. unfold active. apply _. Defined.

(** Exact (unbounded) totals of the items of an equipment record. *)
Fixpoint usage_total (id : string) (l : list FireEquipmentUsage) : Z :=
  match l with
  | [] => 0
  | u :: l => (if decide (us_EquipmentID u = id) then us_Quantity u else 0) + usage_total id l
  end.
Fixpoint occ_total (id : string) (l : list FireDispatch) : Z :=
  match l with
  | [] => 0
  | d :: l => (if decide (active d) then usage_total id (di_Equipment d) else 0) + occ_total id l
  end.

Definition dispatch_ok (d : FireDispatch) : Prop :=
  NoDup (di_PersonnelIDs d) ∧ NoDup (us_EquipmentID <$> di_Equipment d) ∧
  each (λ u, 1 ≤ us_Quantity u ≤ 1000000) (di_Equipment d) ∧
  (di_Status d = "dispatched" ∨ di_Status d = "returned").

Definition station_enabled (s : FireSafetyState) (id : string) : Prop :=
  ∃ st, get_by (Stations s) id = Some st ∧ st_Enabled st = true.

(** What a dispatch that is out holds on to. *)
Definition dispatch_held (s : FireSafetyState) (d : FireDispatch) : Prop :=
  active d →
  station_enabled s (di_StationID d) ∧
  (∀ i, i ∈ di_PersonnelIDs d → ∃ p, get_by (Personnel s) i = Some p ∧
     pe_StationID p = di_StationID d ∧ pe_Enabled p = true) ∧
  (∀ u, u ∈ di_Equipment d → ∃ e, get_by (Equipment s) (us_EquipmentID u) = Some e ∧
     eq_StationID e = di_StationID d ∧ eq_Status e = "ready").

Definition equipment_ok (ds : list FireDispatch) (e : FireEquipment) : Prop :=
  0 ≤ eq_Quantity e ≤ 1000000 ∧ occ_total (ID e) ds ≤ eq_Quantity e.

Definition no_common_personnel (d1 d2 : FireDispatch) : Prop :=
  active d1 → active d2 → ∀ i, i ∈ di_PersonnelIDs d1 → i ∉ di_PersonnelIDs d2.

Record wf_dispatch (s : FireSafetyState) : Prop := {
  wd_ok : each dispatch_ok (Dispatches s);
  wd_personnel : distinct no_common_personnel (Dispatches s);
  wd_held : each (dispatch_held s) (Dispatches s);
  wd_equipment : each (equipment_ok (Dispatches s)) (Equipment s) }.

(** ** Inspections *)

Definition task_ready (s : FireSafetyState) (t : FireInspection) : Prop :=
  inspectionOpen t →
  (∃ e, get_by (Extinguishers s) (in_ExtinguisherID t) = Some e ∧
        ex_Status e ≠ "retired" ∧ station_enabled s (ex_StationID e)) ∧
  (∃ p, get_by (Personnel s) (in_AssigneeID t) = Some p ∧
        pe_Enabled p = true ∧ station_enabled s (pe_StationID p)).

Definition one_open (t1 t2 : FireInspection) : Prop :=
  inspectionOpen t1 → inspectionOpen t2 → in_ExtinguisherID t1 ≠ in_ExtinguisherID t2.

(** A rectification is pending, or was decided by somebody else. *)
Definition rectification_ok (r : FireRectification) : Prop :=
  re_Status r = "pending" ∨
  ((re_Status r = "approved" ∨ re_Status r = "rejected") ∧ re_ReviewedBy r ≠ re_SubmittedBy r).

(** What the status of a task says about its rectifications: only a task
    under review ends with a pending one. *)
Definition task_phase (t : FireInspection) : Prop :=
  each rectification_ok (in_Rectifications t) ∧
  ((in_Status t = "pending" ∧ in_Rectifications t = []) ∨
   (in_Status t = "rectifying" ∧ each (λ r, re_Status r = "rejected") (in_Rectifications t)) ∨
   (in_Status t = "reviewing" ∧ ∃ l r, in_Rectifications t = l ++ [r] ∧ re_Status r = "pending"
      ∧ each (λ r, re_Status r = "rejected") l) ∨
   in_Status t = "completed" ∨ in_Status t = "cancelled").

Record wf_tasks (s : FireSafetyState) : Prop := {
  wt_one : distinct one_open (Inspections s);
  wt_ready : each (task_ready s) (Inspections s);
  wt_phase : each task_phase (Inspections s) }.

(** ** Swaps *)

Definition swap_reviewed (w : DutySwap) : Prop :=
  sw_Status w = "pending" ∨
  ((sw_Status w = "approved" ∨ sw_Status w = "rejected") ∧ sw_ReviewedBy w ≠ sw_RequestedBy w).

Record wf (n : nat) (s : FireSafetyState) : Prop := {
  wf_k : wf_keys n s;
  wf_r : wf_refs s;
  wf_d : wf_duty s;
  wf_o : wf_dispatch s;
  wf_t : wf_tasks s;
  wf_s : each swap_reviewed (Swaps s) }.

(** A handler preserves well-formedness, whatever state it starts from. *)
Definition preserves (m : M FireSafetyState response) : Prop :=
  ∀ w r w', m w = Ok (r, w') → wf (w_next w) (w_state w) → wf (w_next w') (w_state w').

Lemma empty_state_wf n : wf n empty_state.
Proof.
  assert (∀ A (P : A → Prop), each P []) by (intros A P x Hx; set_solver).
  repeat split; cbn; try (intros ? ? ?; set_solver); try constructor; try set_solver;
    intros x Hx; set_solver.
Qed.

(** ** Basic lemmas *)

(** What [record] gives a record that is always new. *)
Lemma record_append `{!PlatformLaws} {S A} `{FireRecorded A} in_ (l : list A) now
    (w : world S) r w' (v : A) :
  record in_ None now w = Ok (r, w') → keyed (w_next w) l → frec v = r →
  w_state w' = w_state w ∧ (w_next w ≤ w_next w')%nat ∧
  upsert_ok None v l ∧ keyed (w_next w') (upsert None v l).
Proof.
  intros Hr Hl Hv. unfold record in Hr.
  apply M_bind_ok in Hr as (i & w1 & [-> ->]%new_id_ok & Hr). inv_ok Hr.
  split; [done|]. split; [cbn; lia|]. apply keyed_append; [done|].
  unfold key, fire_keyed. by rewrite Hv.
Qed.

(** What [record] gives the record that is saved back. *)
Lemma record_upsert `{!PlatformLaws} {S A} `{FireRecorded A} in_ (l : list A) id now
    (w : world S) r w' (v : A) :
  record in_ (previous (find_first (λ x, ID x = id) l)) now w = Ok (r, w') →
  keyed (w_next w) l → frec v = r →
  w_state w' = w_state w ∧ (w_next w ≤ w_next w')%nat ∧
  upsert_ok (find_first (λ x, ID x = id) l) v l ∧
  keyed (w_next w') (upsert (find_first (λ x, ID x = id) l) v l).
Proof.
  intros Hr Hl Hv. destruct (find_first _ l) as [[i o]|] eqn:Hf; [|by eapply record_append].
  unfold record, previous in Hr. cbn in Hr. inv_ok Hr.
  split; [done|]. split; [lia|]. eapply keyed_found; [done|lia|exact Hf|].
  unfold key, fire_keyed. match goal with E : frec v = _ |- _ => by rewrite E end.
Qed.

Lemma unique_from_ok seen ids e u :
  unique_from seen ids e = Ok u ↔
  NoDup ids ∧ (∀ i, i ∈ ids → (i ∉ seen) ∧ trim_space i ≠ "").
Proof.
  destruct u. revert seen. induction ids as [|i ids IH]; intros seen; cbn [unique_from].
  - split; [|done]. intros _. split; [constructor|]. intros i Hi. by apply not_elem_of_nil in Hi.
  - rewrite res_bind_ok, NoDup_cons. setoid_rewrite elem_of_cons. split.
    + intros ([] & Hg%fail_when_ok & [Hnd Hids]%IH). split.
      * split; [|done]. intros Hi%Hids. set_solver.
      * intros j [->|Hj]; [tauto|]. specialize (Hids _ Hj). set_solver.
    + intros [[Hi Hnd] Hids]. exists (). split; [apply fail_when_ok; naive_solver|].
      apply IH. split; [done|]. intros j Hj. destruct (Hids j) as [? ?]; [by right|].
      split; [|done]. intros [->|?]%elem_of_cons; done.
Qed.

Lemma uniqueIDs_ok ids label u :
  uniqueIDs ids label = Ok u ↔
  ids ≠ [] ∧ (length ids ≤ 200)%nat ∧ NoDup ids ∧ (∀ i, i ∈ ids → trim_space i ≠ "").
Proof.
  unfold uniqueIDs. rewrite res_bind_ok. setoid_rewrite res_bind_ok.
  setoid_rewrite fail_when_ok. setoid_rewrite unique_from_ok.
  setoid_rewrite (Nat.nlt_ge 200). split.
  - intros (_ & ? & _ & ? & ? & Hids). split; [done|]. split; [done|]. split; [done|].
    intros i Hi. by apply Hids.
  - intros (? & ? & ? & Hids). exists (). split; [done|]. exists (). split; [done|].
    split; [done|]. intros i Hi. split; [by apply not_elem_of_nil|auto].
Qed.

Lemma station_enabled_keys s i : station_enabled s i → i ∈ keys (Stations s).
Proof. intros (st & Hst & _). apply get_by_is_Some. eauto. Qed.

Lemma station_enabled_upsert s old v i :
  NoDup (keys (Stations s)) → upsert_ok old v (Stations s) → station_enabled s i →
  (i = ID v → st_Enabled v = true) → station_enabled (s <| Stations ::= upsert old v |>) i.
Proof.
  intros Hnd Hok (st & Hst & Hen) Hv. unfold station_enabled. cbn.
  rewrite get_by_upsert by done. case_decide; eauto.
Qed.

Lemma station_enabled_remove s j o i :
  NoDup (keys (Stations s)) → Stations s !! j = Some o → station_enabled s i → i ≠ ID o →
  station_enabled (s <| Stations ::= remove_at j |>) i.
Proof.
  intros Hnd Hj (st & Hst & Hen) Hi. exists st. split; [|done]. cbn.
  rewrite (get_by_remove _ _ o) by done. by rewrite decide_False.
Qed.

Lemma station_enabled_iff s i :
  station_enabled s i ↔ enabledStation s i = Ok tt.
Proof.
  unfold station_enabled, enabledStation, station, get_by.
  destruct (find_first _ _) as [[j st]|]; cbn.
  - rewrite fail_when_ok. split; [intros (? & [= <-] & ->); cbn; tauto|].
    intros Hn. exists st. split; [done|]. destruct (st_Enabled st); [done|tauto].
  - naive_solver.
Qed.
End with_platform.

(** ** Automation of the preservation proofs *)

(** Guards in the form the lemmas use. *)
Ltac guards :=
  repeat match goal with
  | H : for_each (λ x, fail_when _ _) _ = Ok _ |- _ =>
      apply for_each_fail in H; rewrite Forall_forall in H
  end.

(** Contradiction with one of the guards. *)
Ltac refute :=
  solve [match goal with
  | Hg : ∀ x, x ∈ ?l → ¬ _, Hx : _ ∈ ?l |- False => apply (Hg _ Hx); unfold contains; first [tauto|congruence|left; congruence|right; congruence]
  | Hg : ¬ _ |- False => apply Hg; unfold contains; first [tauto|congruence|left; congruence|right; congruence]
  end].

(** The facts about the record a save writes back. *)
Ltac use_record Hwf :=
  match goal with Hrec : record _ _ _ _ = Ok _ |- context [upsert _ ?v] =>
    eapply (record_upsert _ _ _ _ _ _ _ v) in Hrec; [|apply Hwf|reflexivity];
    destruct Hrec as (_ & Hnext & Hok & Hkeyed)
  end.

Ltac use_append Hwf :=
  match goal with Hrec : record _ _ _ _ = Ok _ |- context [set ?f (λ l, l ++ [?v]) ?s] =>
    change (λ l, l ++ [v]) with (upsert None v) in *;
    eapply (record_append _ (f s) _ _ _ _ v) in Hrec; [|apply Hwf|reflexivity];
    destruct Hrec as (_ & Hnext & Hok & Hkeyed)
  end.

(** A record replaced in place, keeping its identity. *)
Ltac use_replace i d :=
  match goal with |- context [set _ <[i:=?v]> _] =>
    change (<[i:=v]>) with (upsert (Some (i, d)) v) in *;
    match goal with Hi : ?l !! i = Some d |- _ =>
      assert (Hok : upsert_ok (Some (i, d)) v l) by done end
  end.

(** Splits a goal [wf n s] into the predicates the handler touches. *)
Ltac wf_split Hwf :=
  destruct Hwf as [[] [] [] [] [] ?]; split;
  [split; cbn; eauto using keyed_mono, keyed_remove, keyed_replace with go
  |split; cbn; eauto with go
  |split; cbn; eauto with go
  |split; cbn; eauto with go
  |split; cbn; eauto with go
  |cbn; eauto with go].
