(* ===== verification/FireOccupancy.v ===== *)
(** Equipment and dispatches: how many items of an equipment record are out,
    and the handlers that depend on it preserve [wf]. *)
From S2P Require Import Prelude GoText GoTime GoJson Keyed FireModel FireService FireStations.
From S2P Require Import FireDuty FireExtinguishers FireInvariant.

(** Stations and personnel: their handlers preserve [wf]. *)

Section with_platform.
Context `{PlatformLaws}.

Lemma check_disable_station_ok s id now u :
  check_disable_station s id now = Ok u →
  (∀ d, d ∈ Dispatches s → active d → di_StationID d ≠ id) ∧
  (∀ t, t ∈ Inspections s → ¬ station_task s id t).
Proof.
  unfold check_disable_station. intros Hr. inv_ok Hr. guards.
  split; [|done]. intros d Hd Hact Hid. refute.
Qed.

(** Nothing that must stay at an enabled station is at a station that is
    being disabled. *)
Lemma saveStation_preserves id body now : preserves (saveStation id body now).
Proof.
  intros w r w' Hr Hwf. unfold saveStation in Hr. inv_ok Hr. unfold station in *.
  use_record Hwf. set (s := w_state w) in *. set (v := a0 <| st_FireRecord := a6 |>) in *.
  assert (Hdis : ∀ i, station_enabled s i → i = ID v → st_Enabled v = true ∨
    check_disable_station s i now = Ok tt).
  { intros i Hi Hiv. destruct (st_Enabled v) eqn:Hen; [by left|right].
    eapply upsert_key_old in Hiv as (-> & j & o & Hf & _); [|done|by apply station_enabled_keys].
    rewrite Hf, decide_True in Hr6; [by destruct a5|]. change (st_Enabled v) with (st_Enabled a0) in Hen.
    rewrite Hen. split; [by eexists|tauto]. }
  assert (Hen : ∀ i, station_enabled s i →
    (check_disable_station s i now = Ok tt → False) →
    station_enabled (s <| Stations ::= upsert (find_first (λ s, ID s = id) (Stations s)) v |>) i).
  { intros i Hi Hno. apply station_enabled_upsert; [apply Hwf|done..|].
    intros Hiv. destruct (Hdis i Hi Hiv); tauto. }
  wf_split Hwf.
  - intros d Hd Hact. destruct (wd_held d Hd Hact) as (Hst & ? & ?). split; [|done].
    apply Hen; [done|]. intros [Hc _]%check_disable_station_ok. by eapply Hc.
  - intros t Ht Hopen. destruct (wt_ready t Ht Hopen) as [(e & He & Hret & Hst1) (p & Hp & Hpe & Hst2)].
    split; [exists e|exists p]; (split; [done|]; split; [done|]); (apply Hen; [done|]);
      intros [_ Hc]%check_disable_station_ok; apply (Hc t Ht); split; [done| |done|];
      unfold station_task, extinguisher, personnel.
    + left. apply get_by_find in He as [j Hf]. eauto.
    + right. apply get_by_find in Hp as [j Hf]. eauto.
Qed.

Lemma deleteStation_preserves id body : preserves (deleteStation id body).
Proof.
  intros w r w' Hr Hwf. unfold deleteStation, station in Hr. inv_ok Hr.
  destruct (find_first _ _) as [[i old]|] eqn:Hf; inv_ok Hr. guards.
  apply find_get_by in Hf as (Hi & <- & _). set (s := w_state w) in *.
  wf_split Hwf.
  1-5: eapply refs_remove_dst; [done|by apply wk_stations|done|];
    intros x Hx Hin%list_elem_of_singleton; refute.
  - intros d Hd Hact. destruct (wd_held d Hd Hact) as (Hst & ? & ?). split; [|done].
    eapply station_enabled_remove; [by apply wk_stations|done..|]. intros Hid. refute.
  - intros t Ht Hopen. destruct (wt_ready t Ht Hopen) as [(e & He & Hret & Hst1) (p & Hp & Hpe & Hst2)].
    apply get_by_elem in He as He'. apply get_by_elem in Hp as Hp'. destruct He', Hp'.
    split; [exists e|exists p]; (split; [done|]; split; [done|]);
      (eapply station_enabled_remove; [by apply wk_stations|done..|]); intros Hid; refute.
Qed.

Lemma check_release_personnel_ok s id now u :
  check_release_personnel s id now = Ok u →
  (∀ d, d ∈ Dispatches s → active d → id ∉ di_PersonnelIDs d) ∧
  (∀ t, t ∈ Inspections s → inspectionOpen t → in_AssigneeID t ≠ id).
Proof.
  unfold check_release_personnel. intros Hr. inv_ok Hr. guards.
  split; [intros d Hd Hact Hid; refute|intros t Ht Ho Hid; refute].
Qed.

Lemma savePersonnel_preserves id body now : preserves (savePersonnel id body now).
Proof.
  intros w r w' Hr Hwf. unfold savePersonnel, station, personnel in Hr. inv_ok Hr.
  destruct (find_first _ (Stations _)) as [[k st]|] eqn:Hst; inv_ok Hr.
  use_record Hwf. set (s := w_state w) in *. set (v := a0 <| pe_FireRecord := a4 |>) in *.
  apply find_get_by in Hst as (_ & Hk & Hst).
  assert (Hkeep : ∀ i, i ∈ keys (Personnel s) → i = ID v →
    (pe_Enabled v = true ∧ ∃ o, get_by (Personnel s) i = Some o ∧ pe_StationID o = pe_StationID v)
    ∨ check_release_personnel s i now = Ok tt).
  { intros i Hi Hiv. eapply upsert_key_old in Hiv as (-> & j & o & Hf & _); [|done|done].
    rewrite Hf in Hr4. case_decide as Hc; [right; by destruct a3|left].
    destruct (pe_Enabled a0) eqn:Hen; [|tauto]. split; [done|]. exists o.
    apply find_get_by in Hf as (_ & _ & ->). split; [done|]. apply dec_stable. tauto. }
  wf_split Hwf.
  - apply refs_upsert_src; [done|]. intros i ->%list_elem_of_singleton.
    apply get_by_is_Some. by exists st.
  - intros d Hd Hact. destruct (wd_held d Hd Hact) as (? & Hp & ?). split; [done|]. split; [|done].
    intros i Hi. destruct (Hp i Hi) as (p & Hget & Hps & Hpe). cbn.
    rewrite get_by_upsert by (done || apply wk_personnel). case_decide as Hiv; [|by exists p].
    exists v. split; [done|].
    destruct (Hkeep i) as [(Hen & o & Ho & Hos)|[Hc _]%check_release_personnel_ok]; [|done| |].
    + apply get_by_is_Some. by eexists.
    + by replace o with p in Hos by congruence; rewrite <-Hos.
    + by destruct (Hc d).
  - intros t Ht Hopen. destruct (wt_ready t Ht Hopen) as [Hx (p & Hget & Hpe & Hps)].
    split; [done|]. cbn. rewrite get_by_upsert by (done || apply wk_personnel).
    case_decide as Hiv; [|by exists p]. exists v. split; [done|].
    destruct (Hkeep (in_AssigneeID t)) as [(Hen & _)|[_ Hc]%check_release_personnel_ok]; [|done| |].
    + apply get_by_is_Some. by eexists.
    + split; [done|]. exists st. split; [done|].
      change (pe_Enabled v) with (pe_Enabled a0) in Hen. rewrite Hen in *.
      destruct (st_Enabled st); cbn in *; tauto.
    + by destruct (Hc t).
Qed.

Lemma deletePersonnel_preserves id body : preserves (deletePersonnel id body).
Proof.
  intros w r w' Hr Hwf. unfold deletePersonnel, personnel in Hr. inv_ok Hr.
  destruct (find_first _ _) as [[i old]|] eqn:Hf; inv_ok Hr. guards.
  apply find_get_by in Hf as (Hi & <- & _). set (s := w_state w) in *.
  wf_split Hwf.
  1-4: eapply refs_remove_dst; [done|by apply wk_personnel|done|];
    intros x Hx Hin; repeat apply elem_of_cons in Hin as [Hin|Hin];
    try (apply elem_of_nil in Hin); try done; refute.
  - intros d Hd Hact. destruct (wd_held d Hd Hact) as (? & Hp & ?). split; [done|]. split; [|done].
    intros j Hj. destruct (Hp j Hj) as (p & Hget & ?). exists p. split; [|done]. cbn.
    rewrite (get_by_remove _ _ old), decide_False by (done || apply wk_personnel || (intros ->; refute)).
    done.
  - intros t Ht Hopen. destruct (wt_ready t Ht Hopen) as [Hx (p & Hget & ?)].
    split; [done|]. exists p. split; [|done]. cbn.
    rewrite (get_by_remove _ _ old), decide_False by (done || apply wk_personnel || (intros ?; refute)).
    done.
Qed.
End with_platform.

(** ** Sums *)

Lemma usage_sum_total id q l :
  usage_sum id (wrap64 q) l = wrap64 (q + usage_total id l).
Proof.
  unfold usage_sum. revert q. induction l as [|u l IH]; intros q; cbn; [by rewrite Z.add_0_r|].
  case_decide.
  - rewrite wrap64_add_l, IH. f_equal. lia.
  - by rewrite IH.
Qed.

(** The sum in machine integers is the exact one, wrapped. *)
Lemma occupiedEquipment_wrap s id :
  occupiedEquipment s id = wrap64 (occ_total id (Dispatches s)).
Proof.
  unfold occupiedEquipment.
  enough (∀ q l, foldl (λ q d, if decide (di_Status d = "dispatched")
    then usage_sum id q (di_Equipment d) else q) (wrap64 q) l = wrap64 (q + occ_total id l)) as Hl.
  { exact (Hl 0 (Dispatches s)). }
  intros q l. revert q. induction l as [|d l IH]; intros q; cbn; [by rewrite Z.add_0_r|].
  unfold active. case_decide.
  - rewrite usage_sum_total, IH. f_equal. lia.
  - by rewrite IH.
Qed.

Definition quantities_ok (l : list FireEquipmentUsage) : Prop :=
  each (λ u, 1 ≤ us_Quantity u ≤ 1000000) l.

Lemma usage_total_pos id l u :
  quantities_ok l → u ∈ l → us_EquipmentID u = id → 1 ≤ usage_total id l.
Proof.
  intros Hl Hu Hid. assert (∀ l, quantities_ok l → 0 ≤ usage_total id l) as Hpos.
  { clear. induction l as [|u l IH]; intros Hl; cbn; [lia|].
    assert (0 ≤ usage_total id l) by (apply IH; intros x Hx; apply Hl; set_solver).
    specialize (Hl u ltac:(set_solver)). cbn in Hl. case_decide; lia. }
  induction l as [|x l IH]; [by apply not_elem_of_nil in Hu|]. cbn.
  assert (Hl' : quantities_ok l) by (intros y Hy; apply Hl; set_solver).
  pose proof (Hpos _ Hl'). pose proof (Hl x ltac:(set_solver)) as Hx. cbn in Hx.
  apply elem_of_cons in Hu as [->|Hu]; [rewrite decide_True by done; lia|].
  specialize (IH Hl' Hu). case_decide; lia.
Qed.

Lemma usage_total_none id l : id ∉ us_EquipmentID <$> l → usage_total id l = 0.
Proof.
  induction l as [|u l IH]; cbn; [done|]. intros [Hne Hni]%not_elem_of_cons.
  rewrite decide_False by congruence. rewrite IH; [done|done].
Qed.

Lemma usage_total_one l u :
  NoDup (us_EquipmentID <$> l) → u ∈ l → usage_total (us_EquipmentID u) l = us_Quantity u.
Proof.
  induction l as [|x l IH]; cbn; [set_solver|]. intros [Hx Hnd]%NoDup_cons.
  intros [->|Hu]%elem_of_cons.
  - rewrite decide_True, usage_total_none by done. lia.
  - rewrite decide_False, IH by (done || (intros Heq; apply Hx; rewrite Heq; by apply list_elem_of_fmap_2)).
    lia.
Qed.

Lemma occ_total_app id l1 l2 : occ_total id (l1 ++ l2) = occ_total id l1 + occ_total id l2.
Proof. induction l1 as [|d l1 IH]; cbn; [done|]. rewrite IH. lia. Qed.

Lemma usage_total_nonneg id l : quantities_ok l → 0 ≤ usage_total id l.
Proof.
  induction l as [|u l IH]; intros Hl; cbn; [lia|].
  assert (0 ≤ usage_total id l) by (apply IH; intros x Hx; apply Hl; set_solver).
  specialize (Hl u ltac:(set_solver)). cbn in Hl. case_decide; lia.
Qed.

Lemma occ_total_nonneg id l : each dispatch_ok l → 0 ≤ occ_total id l.
Proof.
  induction l as [|d l IH]; intros Hl; cbn; [lia|].
  assert (0 ≤ occ_total id l) by (apply IH; intros x Hx; apply Hl; set_solver).
  destruct (Hl d ltac:(set_solver)) as (_ & _ & Hq & _).
  pose proof (usage_total_nonneg id _ Hq). case_decide; lia.
Qed.

(** An item that is out counts. *)
Lemma occ_total_pos id l d u :
  each dispatch_ok l → d ∈ l → active d → u ∈ di_Equipment d → us_EquipmentID u = id →
  1 ≤ occ_total id l.
Proof.
  intros Hl Hd Hact Hu Hid. apply list_elem_of_split in Hd as (l1 & l2 & ->).
  rewrite occ_total_app. cbn. rewrite decide_True by done.
  assert (0 ≤ occ_total id l1) by (apply occ_total_nonneg; intros x Hx; apply Hl; set_solver).
  assert (0 ≤ occ_total id l2) by (apply occ_total_nonneg; intros x Hx; apply Hl; set_solver).
  destruct (Hl d ltac:(set_solver)) as (_ & _ & Hq & _).
  pose proof (usage_total_pos id _ u Hq Hu Hid). lia.
Qed.

Lemma occ_total_none id l :
  (∀ d, d ∈ l → id ∉ us_EquipmentID <$> di_Equipment d) → occ_total id l = 0.
Proof.
  induction l as [|d l IH]; intros Hl; cbn; [done|].
  rewrite usage_total_none, IH by (try intros; apply Hl; set_solver). by case_decide.
Qed.

(** Replacing a dispatch by one that is not out only lowers the total. *)
Lemma occ_total_return id l i d d' :
  each dispatch_ok l → l !! i = Some d → ¬ active d' → occ_total id (<[i:=d']> l) ≤ occ_total id l.
Proof.
  intros Hl Hi Hd'. rewrite <-(take_drop_middle l i d Hi) at 2.
  rewrite insert_take_drop by (by eapply lookup_lt_Some). rewrite !occ_total_app. cbn.
  rewrite (decide_False (P := active d')) by done.
  destruct (Hl d) as (_ & _ & Hq & _); [by eapply list_elem_of_lookup_2|].
  pose proof (usage_total_nonneg id _ Hq). case_decide; lia.
Qed.

(** On a well-formed aggregate the counting loop does not overflow. *)
Lemma occupiedEquipment_exact s e :
  wf_dispatch s → e ∈ Equipment s → occupiedEquipment s (ID e) = occ_total (ID e) (Dispatches s).
Proof.
  intros Hwf He. rewrite occupiedEquipment_wrap, wrap64_small; [done|].
  destruct (wd_equipment s Hwf e He) as [Hq Hocc].
  pose proof (occ_total_nonneg (ID e) _ (wd_ok s Hwf)). unfold in_int64, two63. lia.
Qed.

Section with_platform.
Context `{PlatformLaws}.

Lemma saveEquipment_preserves id body now : preserves (saveEquipment id body now).
Proof.
  intros w r w' Hr Hwf. unfold saveEquipment, station, equipment in Hr. inv_ok Hr.
  use_record Hwf. set (s := w_state w) in *. set (v := a0 <| eq_FireRecord := a7 |>) in *.
  assert (Hkeep : ∀ i, i ∈ keys (Equipment s) → i = ID v → ∃ o, get_by (Equipment s) i = Some o ∧
    (0 < occ_total i (Dispatches s) → eq_Status v = "ready" ∧ eq_StationID v = eq_StationID o
      ∧ occ_total i (Dispatches s) ≤ eq_Quantity v)).
  { intros i Hi Hiv. eapply upsert_key_old in Hiv as (-> & j & o & Hf & Hj & Ho); [|done|done].
    rewrite Hf in Hr7. apply fail_when_ok in Hr7. exists o.
    split; [by apply find_get_by in Hf as (_ & _ & ?)|]. intros Hpos.
    rewrite <-Ho, occupiedEquipment_exact, Ho in Hr7;
      [|apply Hwf|by eapply list_elem_of_lookup_2].
    change (eq_Status v) with (eq_Status a0). change (eq_StationID v) with (eq_StationID a0).
    change (eq_Quantity v) with (eq_Quantity a0).
    apply Z.lt_gt in Hpos. split; [|split]; [apply dec_stable; tauto..|lia]. }
  wf_split Hwf.
  - apply refs_upsert_src; [done|]. intros i ->%list_elem_of_singleton.
    apply find_is_Some. by apply dec_stable.
  - intros d Hd Hact. destruct (wd_held d Hd Hact) as (? & ? & He). split; [done|]. split; [done|].
    intros u Hu. destruct (He u Hu) as (e & Hget & Hst & Hready). cbn.
    rewrite get_by_upsert by (done || apply wk_equipment). destruct (decide (_ = ID v)) as [Hiv|]; [|by exists e].
    exists v. split; [done|]. destruct (Hkeep (us_EquipmentID u)) as (o & Ho & Hpos);
      [apply get_by_is_Some; by eexists|done|].
    replace o with e in Hpos by congruence. destruct Hpos as (-> & -> & _); [|done].
    pose proof (occ_total_pos _ _ d u wd_ok Hd Hact Hu eq_refl). lia.
  - apply each_upsert; [done|]. split; [change (0 ≤ eq_Quantity a0 ≤ 1000000); lia|].
    pose proof (occ_total_nonneg (ID v) _ wd_ok).
    destruct (decide (ID v ∈ keys (Equipment s))) as [Hi|Hi].
    + destruct (Hkeep _ Hi eq_refl) as (o & Ho & Hpos).
      destruct (decide (0 < occ_total (ID v) (Dispatches s))); [by apply Hpos|].
      change (eq_Quantity v) with (eq_Quantity a0). lia.
    + rewrite occ_total_none; [change (0 ≤ eq_Quantity a0); lia|].
      intros d Hd Hin. apply Hi. eapply wr_dispatch_equipment; eauto.
Qed.

Lemma deleteEquipment_preserves id body : preserves (deleteEquipment id body).
Proof.
  intros w r w' Hr Hwf. unfold deleteEquipment, equipment in Hr. inv_ok Hr.
  destruct (find_first _ _) as [[i old]|] eqn:Hf; inv_ok Hr.
  apply find_get_by in Hf as (Hi & <- & _). set (s := w_state w) in *.
  assert (Hno : ∀ d u, d ∈ Dispatches s → u ∈ di_Equipment d → us_EquipmentID u ≠ ID old).
  { intros d u Hd Hu. apply for_each_ok in Hr1. rewrite Forall_forall in Hr1.
    specialize (Hr1 d Hd). cbn in Hr1. apply for_each_fail in Hr1.
    rewrite Forall_forall in Hr1. by apply Hr1. }
  wf_split Hwf.
  - eapply refs_remove_dst; [done|by apply wk_equipment|done|].
    intros d Hd (u & ? & Hu)%list_elem_of_fmap. by eapply Hno.
  - intros d Hd Hact. destruct (wd_held d Hd Hact) as (? & ? & He). split; [done|]. split; [done|].
    intros u Hu. destruct (He u Hu) as (e & Hget & ?). exists e. split; [|done]. cbn.
    rewrite (get_by_remove _ _ old), decide_False by (done || apply wk_equipment || by eapply Hno).
    done.
Qed.

(** ** Dispatches *)

Lemma check_dispatch_person_ok s st i u :
  check_dispatch_person s st i = Ok u →
  (∃ p, get_by (Personnel s) i = Some p ∧ pe_StationID p = st ∧ pe_Enabled p = true) ∧
  (∀ d, d ∈ Dispatches s → active d → i ∉ di_PersonnelIDs d).
Proof.
  unfold check_dispatch_person, personnel. destruct (find_first _ _) as [[j p]|] eqn:Hf; [|done].
  intros Hr. inv_ok Hr. guards. apply find_get_by in Hf as (_ & _ & Hp). split.
  - exists p. split; [done|]. split; [apply dec_stable; tauto|].
    destruct (pe_Enabled p); [done|exfalso; apply Hr0; right; cbn; tauto].
  - intros d Hd Hact Hi. refute.
Qed.

(** What the equipment loop establishes of every item. *)
Lemma check_dispatch_equipment_ok s st seen items u :
  check_dispatch_equipment s st seen items = Ok u →
  NoDup (us_EquipmentID <$> items) ∧ (∀ i, i ∈ us_EquipmentID <$> items → i ∉ seen) ∧
  each (λ x, 1 ≤ us_Quantity x ≤ 1000000 ∧ ∃ e, get_by (Equipment s) (us_EquipmentID x) = Some e
    ∧ eq_StationID e = st ∧ eq_Status e = "ready"
    ∧ us_Quantity x ≤ wrap64 (eq_Quantity e - occupiedEquipment s (ID e))) items.
Proof.
  revert seen. induction items as [|x items IH]; intros seen; cbn [check_dispatch_equipment].
  { intros _. split; [constructor|]. split; [set_solver|]. intros x Hx. set_solver. }
  intros Hr. inv_ok Hr. unfold equipment in Hr.
  destruct (find_first _ _) as [[j e]|] eqn:Hf; [|done]. inv_ok Hr.
  apply IH in Hr as (Hnd & Hseen & Hitems). apply find_get_by in Hf as (_ & Hk & He).
  split; [|split].
  - cbn. constructor; [|done]. intros Hin. apply (Hseen _ Hin). by left.
  - cbn. intros i [->|Hi]%elem_of_cons; [tauto|]. intros Hi'. apply (Hseen _ Hi). by right.
  - intros y [->|Hy]%elem_of_cons; [|by apply Hitems]. split; [lia|]. exists e. split; [done|].
    split; [apply dec_stable; tauto|]. split; [apply dec_stable; tauto|lia].
Qed.

Lemma createDispatch_preserves actor body now : preserves (createDispatch actor body now).
Proof.
  intros w r w' Hr Hwf. unfold createDispatch in Hr. inv_ok Hr.
  set (v1 := if decide _ then _ else _) in *.
  assert (di_StationID v1 = di_StationID a0 ∧ di_PersonnelIDs v1 = di_PersonnelIDs a0)
    as [Hst1 Hper1] by (subst v1; by case_decide).
  clearbody v1. rewrite <-?Hst1, <-?Hper1 in *. use_append Hwf.
  set (s := w_state w) in *.
  set (v := v1 <| di_FireRecord := a9 |> <| _ := _ |> <| _ := _ |> <| _ := _ |> <| _ := _ |>
    <| _ := _ |>) in *.
  apply check_dispatch_equipment_ok in Hr9 as (Hnd & _ & Hitems).
  apply uniqueIDs_ok in Hr4 as (_ & _ & Hnp & _).
  assert (Hpers : ∀ i, i ∈ di_PersonnelIDs v1 →
    (∃ p, get_by (Personnel s) i = Some p ∧ pe_StationID p = di_StationID v1 ∧ pe_Enabled p = true)
    ∧ (∀ d, d ∈ Dispatches s → active d → i ∉ di_PersonnelIDs d)).
  { intros i Hi. apply for_each_ok in Hr7. rewrite Forall_forall in Hr7.
    eapply check_dispatch_person_ok, Hr7, Hi. }
  wf_split Hwf.
  - apply refs_upsert_src; [done|]. intros i ->%list_elem_of_singleton.
    apply station_enabled_keys, station_enabled_iff. by destruct a2.
  - apply refs_upsert_src; [done|]. intros i Hi. apply get_by_is_Some.
    destruct (Hpers i Hi) as [(p & ? & _) _]. by eexists.
  - apply refs_upsert_src; [done|]. intros i (x & -> & Hx)%list_elem_of_fmap.
    apply get_by_is_Some. destruct (Hitems x Hx) as (_ & e & ? & _). by eexists.
  - apply each_upsert; [done|]. split; [done|]. split; [done|]. split; [|by left].
    intros x Hx. by apply Hitems.
  - apply distinct_upsert; [done|]. intros d Hd _.
    split; intros Hact1 Hact2 i Hi1 Hi2;
      [destruct (Hpers i Hi2) as [_ Hno]|destruct (Hpers i Hi1) as [_ Hno]]; by apply (Hno d).
  - apply each_upsert; [done|]. intros _.
    split; [apply station_enabled_iff; by destruct a2|]. split.
    + intros i Hi. by apply Hpers.
    + intros x Hx. destruct (Hitems x Hx) as (_ & e & ? & ? & ? & _). by exists e.
  - intros e He. destruct (wd_equipment e He) as [Hq Hocc]. split; [done|].
    change (upsert None v (Dispatches s)) with (Dispatches s ++ [v]).
    rewrite occ_total_app. cbn. rewrite decide_True by done.
    change (di_Equipment v) with (di_Equipment v1).
    destruct (decide (ID e ∈ us_EquipmentID <$> di_Equipment v1)) as [Hin|Hout].
    + apply list_elem_of_fmap in Hin as (x & Hid & Hx). rewrite Hid, usage_total_one by done.
      destruct (Hitems x Hx) as (_ & e' & He' & _ & _ & Hle).
      rewrite <-Hid, get_by_elem_of in He' by (done || apply wk_equipment).
      injection He' as <-. rewrite occupiedEquipment_exact in Hle by (done || by split).
      pose proof (occ_total_nonneg (ID e) _ wd_ok).
      rewrite wrap64_small in Hle by (unfold in_int64, two63; lia). rewrite <-Hid. lia.
    + rewrite usage_total_none by done. lia.
Qed.

(** Coming back only gives up what the dispatch held. *)
Lemma returnDispatch_preserves actor id body now : preserves (returnDispatch actor id body now).
Proof.
  intros w r w' Hr Hwf. unfold returnDispatch in Hr. inv_ok Hr.
  destruct (find_first _ _) as [[i d]|] eqn:Hf; inv_ok Hr.
  apply find_get_by in Hf as (Hi & <- & _). set (s := w_state w) in *.
  use_replace i d. set (d' := d <| _ := _ |> <| _ := _ |> <| _ := _ |> <| _ := _ |> <| _ ::= _ |>) in *.
  assert (Hd : d ∈ Dispatches s) by (by eapply list_elem_of_lookup_2).
  assert (Hna : ¬ active d') by done.
  wf_split Hwf.
  1-3: apply refs_upsert_src; [done|]; intros j Hj; match goal with H : refs_to _ _ _ |- _ =>
    by eapply (H d) end.
  - apply each_upsert; [done|]. destruct (wd_ok d Hd) as (? & ? & ? & _).
    split; [done|split; [done|split; [done|by right]]].
  - apply distinct_upsert; [done|]. intros x Hx _. by split.
  - apply each_upsert; [done|]. by intros Hact.
  - intros e He. destruct (wd_equipment e He) as [Hq Hocc]. split; [done|].
    pose proof (occ_total_return (ID e) _ i d d' wd_ok Hi Hna). unfold upsert. lia.
Qed.
End with_platform.
