(* ===== verification/FireDutyProofs.v ===== *)
(** Shifts, assignments and swaps: the declarative meaning of
    [validateAssignment], and the handlers of FireDuty preserve [wf]. *)
From S2P Require Import Prelude GoText GoTime GoJson Keyed FireModel FireService FireStations.
From S2P Require Import FireDuty FireExtinguishers FireInvariant.

(** ** What [validateAssignment] accepts *)

Definition valid_stamp (z : Z) : Prop := 0 < z ≤ stamp_max.

Definition on_station (s : FireSafetyState) (st i : string) : Prop :=
  ∃ p, get_by (Personnel s) i = Some p ∧ pe_StationID p = st ∧ pe_Enabled p = true.

(** The declarative reading: the station is in service, the shift exists, the
    personnel are distinct members of the station, the period is a positive
    one of at most two days, and nobody is already on duty during it, on an
    assignment other than [excludeID]. *)
Record assignment_valid (s : FireSafetyState) (v : DutyAssignment) (excludeID : string) : Prop := {
  av_station : station_enabled s (as_StationID v);
  av_shift : as_ShiftID v ∈ keys (Shifts s);
  av_nonempty : as_PersonnelIDs v ≠ [];
  av_length : (length (as_PersonnelIDs v) ≤ 200)%nat;
  av_nodup : NoDup (as_PersonnelIDs v);
  av_blank : ∀ i, i ∈ as_PersonnelIDs v → trim_space i ≠ "";
  av_start : valid_stamp (as_StartAt v);
  av_end : valid_stamp (as_EndAt v);
  av_period : 0 < as_EndAt v - as_StartAt v ≤ max_assignment;
  av_member : ∀ i, i ∈ as_PersonnelIDs v → on_station s (as_StationID v) i;
  av_clash : ∀ other, other ∈ Assignments s → ID other ≠ excludeID → ¬ clash v other }.

Lemma stamp_ok z label u : stamp z label = Ok u ↔ valid_stamp z.
Proof. unfold stamp, valid_stamp. rewrite fail_when_ok. lia. Qed.

Lemma stamp_max_small : stamp_max < two63.
Proof. vm_compute. reflexivity. Qed.

Lemma check_assignment_person_ok s v ex i u :
  check_assignment_person s v ex i = Ok u ↔
  on_station s (as_StationID v) i ∧
  (∀ o, o ∈ Assignments s → ID o ≠ ex →
     ¬ (i ∈ as_PersonnelIDs o ∧ as_StartAt v < as_EndAt o ∧ as_StartAt o < as_EndAt v)).
Proof.
  unfold check_assignment_person, personnel, on_station, get_by.
  destruct (find_first _ (Personnel s)) as [[j p]|]; cbn; [|naive_solver].
  rewrite res_bind_ok. setoid_rewrite fail_when_ok. setoid_rewrite for_each_fail.
  setoid_rewrite Forall_forall. unfold contains. split.
  - intros (_ & Hp & Ho). split.
    + exists p. split; [done|]. destruct (pe_Enabled p); cbn in Hp; [|tauto].
      split; [|done]. apply dec_stable. tauto.
    + intros o Hin Hne Hc. apply (Ho o Hin). tauto.
  - intros [(p' & [= <-] & <- & ->) Ho]. exists (). split; [cbn; tauto|].
    intros o Hin Hc. apply (Ho o Hin); tauto.
Qed.

Lemma validateAssignment_iff s v ex :
  validateAssignment s v ex = Ok tt ↔ assignment_valid s v ex.
Proof.
  unfold validateAssignment. rewrite !res_seq_ok, !fail_when_ok, uniqueIDs_ok, !stamp_ok, for_each_ok,
    Forall_forall, <-station_enabled_iff.
  setoid_rewrite check_assignment_person_ok. unfold shift. rewrite find_is_Some.
  pose proof stamp_max_small as Hmax.
  assert (Hw : valid_stamp (as_StartAt v) → valid_stamp (as_EndAt v) →
    wrap64 (as_EndAt v - as_StartAt v) = as_EndAt v - as_StartAt v).
  { unfold valid_stamp. intros. apply wrap64_small. unfold in_int64, two63 in *. lia. }
  split.
  - intros (Hst & Hsh & (? & ? & ? & ?) & Hs & He & Hper & Hall).
    rewrite Hw in Hper by done. split; try done.
    + by apply dec_stable.
    + lia.
    + intros i Hi. by apply Hall.
    + intros o Ho Hne (i & Hi & Hio & ?). destruct (Hall i Hi) as [_ Hc]. by apply (Hc o).
  - intros []. split; [done|]. split; [tauto|]. split; [done|]. split; [done|]. split; [done|].
    split; [rewrite Hw by done; lia|]. intros i Hi. split; [by apply av_member0|].
    intros o Ho Hne (? & ? & ?). apply (av_clash0 o Ho Hne). by exists i.
Qed.

(** ** Preservation *)

Lemma clash_sym a b : clash a b → clash b a.
Proof. intros (i & ? & ? & ? & ?). by exists i. Qed.

Lemma assignment_valid_ok s v ex : assignment_valid s v ex → assignment_ok v.
Proof. intros [?????? [? ?] [? ?] [? ?] ??]. repeat split; first [done|lia]. Qed.

(** Saving a valid assignment over [excludeID] keeps the duty table free of
    double bookings. *)
Lemma wf_duty_upsert s v v' ex old :
  wf_duty s → assignment_valid s v ex →
  as_PersonnelIDs v' = as_PersonnelIDs v → as_StartAt v' = as_StartAt v →
  as_EndAt v' = as_EndAt v →
  (∀ o, o ∈ Assignments s → ID o ≠ ID v' → ID o ≠ ex) →
  wf_duty (s <| Assignments ::= upsert old v' |>).
Proof.
  intros [Hok Hdis] Hv Hp Hs He Hex. split; cbn.
  - apply each_upsert; [done|]. unfold assignment_ok. rewrite Hp, Hs, He.
    by eapply assignment_valid_ok.
  - apply distinct_upsert; [done|]. intros o Ho Hne.
    assert (Hno : ¬ clash v' o).
    { intros (i & Hi & Hc). rewrite Hp, Hs, He in *. apply (av_clash _ _ _ Hv o Ho); [by apply Hex|].
      by exists i. }
    split; [|done]. intros Hc%clash_sym. done.
Qed.

Section with_platform.
Context `{PlatformLaws}.

Lemma saveShift_preserves id body now : preserves (saveShift id body now).
Proof.
  intros w r w' Hr Hwf. unfold saveShift, shift in Hr. inv_ok Hr. use_record Hwf.
  wf_split Hwf.
Qed.

Lemma deleteShift_preserves id body : preserves (deleteShift id body).
Proof.
  intros w r w' Hr Hwf. unfold deleteShift, shift in Hr. inv_ok Hr.
  destruct (find_first _ _) as [[i old]|] eqn:Hf; inv_ok Hr. guards.
  apply find_get_by in Hf as (Hi & <- & _). wf_split Hwf.
  eapply refs_remove_dst; [done|by apply wk_shifts|done|].
  intros x Hx Hin%list_elem_of_singleton. refute.
Qed.

(** The references of a valid assignment resolve. *)
Lemma assignment_refs s v v' ex old :
  wf_refs s → assignment_valid s v ex → as_StationID v' = as_StationID v →
  as_ShiftID v' = as_ShiftID v → as_PersonnelIDs v' = as_PersonnelIDs v →
  refs_to (λ a, [as_StationID a]) (upsert old v' (Assignments s)) (Stations s) ∧
  refs_to (λ a, [as_ShiftID a]) (upsert old v' (Assignments s)) (Shifts s) ∧
  refs_to as_PersonnelIDs (upsert old v' (Assignments s)) (Personnel s).
Proof.
  intros [] [] Hst Hsh Hp. split; [|split]; (apply refs_upsert_src; [done|]); intros i.
  - rewrite Hst. intros ->%list_elem_of_singleton. by apply station_enabled_keys.
  - rewrite Hsh. by intros ->%list_elem_of_singleton.
  - rewrite Hp. intros Hi. apply get_by_is_Some. destruct (av_member0 i Hi) as (p & ? & _). by eexists.
Qed.

(** An assignment validated against the aggregate can be saved. *)
Lemma save_valid_assignment n n' s v v' ex old :
  wf n s → assignment_valid s v ex → (n ≤ n')%nat →
  upsert_ok old v' (Assignments s) → keyed n' (upsert old v' (Assignments s)) →
  as_StationID v' = as_StationID v → as_ShiftID v' = as_ShiftID v →
  as_PersonnelIDs v' = as_PersonnelIDs v → as_StartAt v' = as_StartAt v →
  as_EndAt v' = as_EndAt v →
  (∀ o, o ∈ Assignments s → ID o ≠ ID v' → ID o ≠ ex) →
  wf n' (s <| Assignments ::= upsert old v' |>).
Proof.
  intros Hwf Hv Hnext Hok Hkeyed Hst Hsh Hp Hs He Hex.
  destruct (assignment_refs s v v' ex old (wf_r _ _ Hwf) Hv Hst Hsh Hp) as (? & ? & ?).
  pose proof (wf_duty_upsert s v v' ex old (wf_d _ _ Hwf) Hv Hp Hs He Hex) as [? ?].
  wf_split Hwf.
Qed.

Lemma saveAssignment_preserves id body now : preserves (saveAssignment id body now).
Proof.
  intros w r w' Hr Hwf. unfold saveAssignment, assignment in Hr. inv_ok Hr. use_record Hwf.
  match goal with Hv : validateAssignment _ _ _ = Ok ?u |- _ =>
    destruct u; apply validateAssignment_iff in Hv end.
  eapply save_valid_assignment; try done. intros o Ho Hne <-.
  match goal with Hg : ¬ (ID o ≠ "" ∧ _) |- _ => apply Hg end. split.
  - eapply drawn_nonempty, (wk_assignments _ _ (wf_k _ _ Hwf)). by apply list_elem_of_fmap_2.
  - intros [[j o'] Hf]. rewrite Hf in Hok. destruct Hok as [_ Hk].
    apply find_get_by in Hf as (_ & ? & _). congruence.
Qed.

Lemma deleteAssignment_preserves id body : preserves (deleteAssignment id body).
Proof.
  intros w r w' Hr Hwf. unfold deleteAssignment, assignment in Hr. inv_ok Hr.
  destruct (find_first _ _) as [[i old]|] eqn:Hf; inv_ok Hr. guards.
  apply find_get_by in Hf as (Hi & <- & _). wf_split Hwf.
  - eapply refs_remove_dst; [done|by apply wk_assignments|done|].
    intros x Hx Hin%list_elem_of_singleton. refute.
Qed.

(** One accepted item of a batch. *)
Lemma add_assignment_wf now s n v r w' :
  wf n s → validateAssignment s v "" = Ok tt →
  record zero_FireRecord None now (mk_world s n) = Ok (r, w') →
  w_state w' = s ∧ wf (w_next w') (s <| Assignments ::= (λ l, l ++ [v <| as_FireRecord := r |>]) |>).
Proof.
  intros Hwf Hv%validateAssignment_iff Hrec.
  eapply (record_append _ (Assignments s) _ _ _ _ (v <| as_FireRecord := r |>)) in Hrec
    as (-> & Hnext & Hok & Hkeyed); [|apply Hwf|reflexivity].
  split; [done|]. change (λ l, l ++ [?x]) with (upsert None x).
  eapply (save_valid_assignment n); try done. intros o Ho _.
  eapply drawn_nonempty, (wk_assignments _ _ (wf_k _ _ Hwf)). by apply list_elem_of_fmap_2.
Qed.

Lemma add_assignments_wf now problems created items w pc w' :
  add_assignments now problems created items w = Ok (pc, w') →
  wf (w_next w) (w_state w) → wf (w_next w') (w_state w').
Proof.
  revert problems created w. induction items as [|v items IH]; intros problems created w Hr Hwf;
    cbn [add_assignments] in Hr; inv_ok Hr; [done|].
  destruct (validateAssignment _ _ _) as [[]|e] eqn:Hv.
  - inv_ok Hr. destruct w as [s n].
    eapply add_assignment_wf in Hv as [Hs Hw]; [|done..]. cbn in *. eapply IH; [done|]. cbn.
    done.
  - case_decide; [|done]. by eapply IH.
Qed.

Lemma createAssignments_preserves body now : preserves (createAssignments body now).
Proof.
  intros w r w' Hr Hwf. unfold createAssignments in Hr. inv_ok Hr.
  destruct a1 as [problems created]. inv_ok Hr. by eapply add_assignments_wf.
Qed.

(** What an accepted swap request says. *)
Record swap_valid (s : FireSafetyState) (v : DutySwap) (now : Z) (a : DutyAssignment) : Prop := {
  sv_found : get_by (Assignments s) (sw_AssignmentID v) = Some a;
  sv_future : now < as_EndAt a;
  sv_from : sw_FromPersonnelID v ∈ as_PersonnelIDs a;
  sv_to : sw_ToPersonnelID v ∉ as_PersonnelIDs a;
  sv_set : sw_FromPersonnelID v ≠ "" ∧ sw_ToPersonnelID v ≠ "";
  sv_valid : assignment_valid s (a <| as_PersonnelIDs ::=
    swap_personnel (sw_FromPersonnelID v) (sw_ToPersonnelID v) |>) (ID a) }.

Lemma swappedAssignment_iff s v now next :
  swappedAssignment s v now = Ok next ↔
  ∃ a, swap_valid s v now a ∧
    next = a <| as_PersonnelIDs ::= swap_personnel (sw_FromPersonnelID v) (sw_ToPersonnelID v) |>.
Proof.
  unfold swappedAssignment, assignment. split.
  - destruct (find_first _ _) as [[j a]|] eqn:Hf; [|done]. intros Hr. inv_ok Hr.
    destruct a2. apply find_get_by in Hf as (_ & _ & Hf). exists a. split; [|done].
    unfold contains in *. split; [done|lia| | |tauto|by apply validateAssignment_iff].
    + apply dec_stable. tauto.
    + tauto.
  - intros (a & [Hf Hnow Hfrom Hto Hset Hv] & ->). apply get_by_find in Hf as [j ->].
    rewrite !res_seq_ok, !fail_when_ok. apply validateAssignment_iff in Hv.
    split; [lia|]. split; [|done]. unfold contains. intros [?|[?|[Heq|[?|?]]]]; try tauto.
    by rewrite Heq in Hfrom.
Qed.

Lemma swap_personnel_to from to ids : from ∈ ids → to ∈ swap_personnel from to ids.
Proof.
  intros Hf. unfold swap_personnel. apply list_elem_of_fmap. exists from.
  by rewrite decide_True.
Qed.

Lemma createSwap_preserves actor body now : preserves (createSwap actor body now).
Proof.
  intros w r w' Hr Hwf. unfold createSwap in Hr. inv_ok Hr. use_append Hwf.
  match goal with Hs : swappedAssignment _ _ _ = Ok _ |- _ =>
    apply swappedAssignment_iff in Hs as (asg & [Hf _ Hfrom _ _ Hv] & _) end.
  wf_split Hwf.
  - apply refs_upsert_src; [done|]. intros i ->%list_elem_of_singleton.
    apply get_by_is_Some. by exists asg.
  - apply refs_upsert_src; [done|]. intros i Hi. cbn in Hi, Hf, Hfrom, Hv.
    repeat apply elem_of_cons in Hi as [->|Hi]; [| |by apply not_elem_of_nil in Hi].
    + eapply wr_assignment_personnel; [|done]. by eapply get_by_elem.
    + apply get_by_is_Some. destruct (av_member _ _ _ Hv (sw_ToPersonnelID a)) as (p & ? & _);
        [cbn; by apply swap_personnel_to|]. by eexists.
  - apply each_upsert; [done|]. by left.
Qed.

(** Carrying out an accepted swap on the assignment found at [j]. *)
Lemma apply_swap_wf n s v now a next j x :
  wf n s → swap_valid s v now a →
  next = a <| as_PersonnelIDs ::= swap_personnel (sw_FromPersonnelID v) (sw_ToPersonnelID v) |> →
  assignment s (sw_AssignmentID v) = Some (j, x) →
  wf n (s <| Assignments ::= <[j:=next <| as_FireRecord ::= (λ r, advance r now) |>]> |>).
Proof.
  intros Hwf [Hget _ _ _ _ Hv] Hnext Hf. apply find_get_by in Hf as (Hj & _ & Hx).
  assert (x = a) as -> by congruence.
  set (v' := next <| as_FireRecord ::= _ |>). change (<[j:=v']>) with (upsert (Some (j, a)) v').
  assert (Hok : upsert_ok (Some (j, a)) v' (Assignments s)) by (subst; done).
  subst. eapply save_valid_assignment; try done. apply keyed_replace; [apply Hwf|done].
Qed.

Lemma replace_swap_wf n s i v v' :
  wf n s → Swaps s !! i = Some v → ID v' = ID v → sw_AssignmentID v' = sw_AssignmentID v →
  sw_FromPersonnelID v' = sw_FromPersonnelID v → sw_ToPersonnelID v' = sw_ToPersonnelID v →
  swap_reviewed v' → wf n (s <| Swaps ::= <[i:=v']> |>).
Proof.
  intros Hwf Hi Hid Ha Hfrom Hto Hrev. change (<[i:=v']>) with (upsert (Some (i, v)) v').
  assert (Hok : upsert_ok (Some (i, v)) v' (Swaps s)) by done.
  assert (Hv : v ∈ Swaps s) by (by eapply list_elem_of_lookup_2).
  wf_split Hwf.
  - apply refs_upsert_src; [done|]. rewrite Ha. intros k Hk. by eapply (wr_swap_assignment v).
  - apply refs_upsert_src; [done|]. rewrite Hfrom, Hto. intros k Hk.
    by eapply (wr_swap_personnel v).
Qed.

Lemma reviewSwap_preserves actor id body now : preserves (reviewSwap actor id body now).
Proof.
  intros w r w' Hr Hwf. unfold reviewSwap in Hr. inv_ok Hr. destruct a as [approved note].
  inv_ok Hr. destruct (find_first _ _) as [[i v]|] eqn:Hf; inv_ok Hr.
  apply find_get_by in Hf as (Hi & <- & _).
  match goal with Hs : (if approved then _ else _) w = Ok (?s', ?w1) |- _ =>
    assert (Hmid : Swaps s' = Swaps (w_state w) ∧ wf (w_next w1) s');
    [destruct approved; inv_ok Hs; [|done]|] end.
  - match goal with Hn : swappedAssignment _ _ _ = Ok _ |- _ =>
      apply swappedAssignment_iff in Hn as (asg & Hsv & Hnext) end.
    destruct (assignment _ _) as [[j x]|] eqn:Hj; cbn in *; inv_ok Hr4; [|done].
    split; [done|]. by eapply apply_swap_wf.
  - destruct Hmid as [Hsw Hmid]. eapply (replace_swap_wf _ _ _ v); try done; [by rewrite Hsw|].
    right. cbn. split; [destruct approved; auto|done].
Qed.
End with_platform.

(** Extinguishers and inspections: the handlers of FireExtinguishers preserve
    [wf]. *)

Section with_platform.
Context `{PlatformLaws}.

Lemma saveExtinguisher_preserves id body now : preserves (saveExtinguisher id body now).
Proof.
  intros w r w' Hr Hwf. unfold saveExtinguisher, station, extinguisher in Hr. inv_ok Hr.
  use_record Hwf. set (s := w_state w) in *.
  match goal with |- context [upsert _ ?x] => set (v := x) in * end.
  assert (Hkeep : ∀ t, t ∈ Inspections s → inspectionOpen t → in_ExtinguisherID t = ID v →
    ex_Status v ≠ "retired" ∧
    ∃ o, get_by (Extinguishers s) (ID v) = Some o ∧ ex_StationID v = ex_StationID o).
  { intros t Ht Hopen Hid. pose proof (wr_inspection_extinguisher _ (wf_r _ _ Hwf) t _ Ht
      ltac:(by apply list_elem_of_singleton)) as Hkey.
    eapply upsert_key_old in Hkey as (Heq & j & o & Hf & _ & Ho); [|done..].
    match goal with Hg : match find_first _ _ with _ => _ end = Ok _ |- _ =>
      rewrite Hf in Hg; rename Hg into Hcheck end.
    destruct (decide (_ ∨ _)) as [Hc|Hc] in Hcheck.
    - guards. exfalso. apply (Hcheck t Ht). split; [congruence|done].
    - apply find_get_by in Hf as (_ & _ & Hget). split; [change (ex_Status v) with (ex_Status a0); tauto|].
      exists o. split; [congruence|]. change (ex_StationID v) with (ex_StationID a0).
      apply dec_stable. tauto. }
  wf_split Hwf.
  - apply refs_upsert_src; [done|]. intros i ->%list_elem_of_singleton.
    apply find_is_Some. by apply dec_stable.
  - intros t Ht Hopen. destruct (wt_ready t Ht Hopen) as [(e & He & Hret & Hst) Hp].
    split; [|done]. cbn. rewrite get_by_upsert by (done || apply wk_extinguishers).
    destruct (decide (_ = ID v)) as [Hid|]; [|by exists e].
    destruct (Hkeep t Ht Hopen Hid) as (Hnr & o & Ho & Hso). exists v. split; [done|].
    split; [done|]. rewrite Hso. by replace o with e by congruence.
Qed.

Lemma deleteExtinguisher_preserves id body : preserves (deleteExtinguisher id body).
Proof.
  intros w r w' Hr Hwf. unfold deleteExtinguisher, extinguisher in Hr. inv_ok Hr.
  destruct (find_first _ _) as [[i old]|] eqn:Hf; inv_ok Hr. guards.
  apply find_get_by in Hf as (Hi & <- & _). set (s := w_state w) in *. wf_split Hwf.
  - eapply refs_remove_dst; [done|by apply wk_extinguishers|done|].
    intros x Hx Hin%list_elem_of_singleton. refute.
  - intros t Ht Hopen. destruct (wt_ready t Ht Hopen) as [(e & He & ?) Hp].
    split; [|done]. exists e. split; [|done]. cbn.
    rewrite (get_by_remove _ _ old), decide_False
      by (done || apply wk_extinguishers || (intros ?; refute)). done.
Qed.

Lemma createInspection_wf actor body now w v w' :
  createInspection actor body now w = Ok (v, w') →
  wf (w_next w) (w_state w) → wf (w_next w') (w_state w').
Proof.
  intros Hr Hwf. unfold createInspection in Hr. inv_ok Hr.
  destruct (extinguisher _ _) as [[i e]|] eqn:He; inv_ok Hr.
  destruct (personnel _ _) as [[j p]|] eqn:Hp; inv_ok Hr. use_append Hwf.
  apply find_get_by in He as (He & Hke & Hge). apply find_get_by in Hp as (Hp & Hkp & Hgp).
  guards. set (s := w_state w) in *.
  match goal with |- context [upsert _ ?x] => set (t := x) in * end.
  assert (Hste : station_enabled s (ex_StationID e)).
  { apply station_enabled_iff. destruct (decide (ex_StationID e ≠ "")) as [|Hne] in *; [by destruct a2|].
    exfalso. apply Hne. eapply drawn_nonempty, (wk_stations _ _ (wf_k _ _ Hwf)).
    eapply (wr_extinguisher_station _ (wf_r _ _ Hwf) e); [by eapply list_elem_of_lookup_2|].
    by apply list_elem_of_singleton. }
  wf_split Hwf.
  - apply refs_upsert_src; [done|]. intros k ->%list_elem_of_singleton.
    apply get_by_is_Some. by exists e.
  - apply refs_upsert_src; [done|]. intros k ->%list_elem_of_singleton.
    apply get_by_is_Some. by exists p.
  - apply distinct_upsert; [done|]. intros x Hx _.
    assert (Hno : ¬ (inspectionOpen x ∧ in_ExtinguisherID x = in_ExtinguisherID t)).
    { intros [Hopen Hid]. match goal with Hg : ∀ x, x ∈ _ → ¬ _ |- _ => apply (Hg x Hx) end.
      split; [by rewrite Hid, Hke|done]. }
    split; intros Ho1 Ho2 Heq; apply Hno; by split.
  - apply each_upsert; [done|]. intros _. split.
    + exists e. by split.
    + exists p. split; [done|]. split; [destruct (pe_Enabled p); cbn in *; tauto|].
      apply station_enabled_iff. by destruct a4.
  - apply each_upsert; [done|]. split; [intros x Hx%not_elem_of_nil; done|by left].
Qed.

Lemma createInspection_preserves actor body now :
  preserves (v ← createInspection actor body now; mret (RInspection v)).
Proof. intros w r w' Hr Hwf. inv_ok Hr. by eapply createInspection_wf. Qed.

Lemma add_inspections_wf actor in_ now created skips ids w cs w' :
  add_inspections actor in_ now created skips ids w = Ok (cs, w') →
  wf (w_next w) (w_state w) → wf (w_next w') (w_state w').
Proof.
  revert created skips w. induction ids as [|i ids IH]; intros created skips w Hr Hwf;
    cbn [add_inspections] in Hr; inv_ok Hr; [done|].
  unfold attempt in Hr0. destruct (createInspection _ _ _ _) as [[t w1]|e] eqn:Hc;
    injection Hr0 as <- <-.
  - eapply IH; [done|]. by eapply createInspection_wf.
  - case_decide; inv_ok Hr. by eapply IH.
Qed.

Lemma createInspections_preserves actor body now : preserves (createInspections actor body now).
Proof.
  intros w r w' Hr Hwf. unfold createInspections in Hr. inv_ok Hr.
  destruct a2 as [created skips]. inv_ok Hr. by eapply add_inspections_wf.
Qed.

(** A task is replaced by one in a consistent phase that is not reopened. *)
Lemma replace_task_wf n s i v v' :
  wf n s → Inspections s !! i = Some v → ID v' = ID v →
  in_ExtinguisherID v' = in_ExtinguisherID v → in_AssigneeID v' = in_AssigneeID v →
  (inspectionOpen v' → inspectionOpen v) → task_phase v' →
  wf n (s <| Inspections ::= <[i:=v']> |>).
Proof.
  intros Hwf Hi Hid He Ha Hopen Hph. change (<[i:=v']>) with (upsert (Some (i, v)) v').
  assert (Hok : upsert_ok (Some (i, v)) v' (Inspections s)) by done.
  assert (Hv : v ∈ Inspections s) by (by eapply list_elem_of_lookup_2).
  wf_split Hwf.
  - apply refs_upsert_src; [done|]. rewrite He. intros k Hk. by eapply (wr_inspection_extinguisher v).
  - apply refs_upsert_src; [done|]. rewrite Ha. intros k Hk. by eapply (wr_inspection_assignee v).
  - apply distinct_upsert; [done|]. intros x Hx Hne. rewrite Hid in Hne.
    unfold one_open. rewrite He. split; intros Ho1 Ho2; apply wt_one; auto.
  - apply each_upsert; [done|]. intros Ho. unfold task_ready in *. rewrite He, Ha.
    by apply wt_ready, Hopen.
Qed.

Lemma task_phase_elem s t : wf_tasks s → t ∈ Inspections s → task_phase t.
Proof. intros []. auto. Qed.

Lemma inspect_preserves actor id body now : preserves (inspect actor id body now).
Proof.
  intros w r w' Hr Hwf. unfold inspect in Hr. inv_ok Hr. destruct a1 as [[checks seen] passed].
  inv_ok Hr. destruct (find_first _ _) as [[i v]|] eqn:Hf; inv_ok Hr.
  apply find_get_by in Hf as (Hi & <- & _). apply dec_stable in Hr6.
  eapply (replace_task_wf _ _ _ v); try done.
  - intros _. split; by rewrite Hr6.
  - destruct (task_phase_elem _ v (wf_t _ _ Hwf)) as [Hre Hph]; [by eapply list_elem_of_lookup_2|].
    rewrite Hr6 in Hph. destruct Hph as [[_ Hnil]|[[? _]|[[? _]|[?|?]]]]; try done.
    split; [done|]. cbn. rewrite Hnil. destruct passed; [tauto|].
    right. left. split; [done|]. intros x Hx%not_elem_of_nil. done.
Qed.

Lemma each_snoc {A} (P : A → Prop) l x : each P l → P x → each P (l ++ [x]).
Proof. intros Hl Hx y [?| ->%list_elem_of_singleton]%elem_of_app; auto. Qed.

Lemma rectify_preserves actor id body now : preserves (rectify actor id body now).
Proof.
  intros w r w' Hr Hwf. unfold rectify in Hr. inv_ok Hr.
  destruct (find_first _ _) as [[i v]|] eqn:Hf; inv_ok Hr.
  apply find_get_by in Hf as (Hi & <- & _). apply dec_stable in Hr3.
  eapply (replace_task_wf _ _ _ v); try done.
  - intros _. split; by rewrite Hr3.
  - destruct (task_phase_elem _ v (wf_t _ _ Hwf)) as [Hre Hph]; [by eapply list_elem_of_lookup_2|].
    rewrite Hr3 in Hph. destruct Hph as [[? _]|[[_ Hrej]|[[? _]|[?|?]]]]; try done.
    split; cbn; [apply each_snoc; [done|by left]|]. do 2 right. left. split; [done|]. eauto.
Qed.

Lemma cancelInspection_preserves id body now : preserves (cancelInspection id body now).
Proof.
  intros w r w' Hr Hwf. unfold cancelInspection in Hr. inv_ok Hr.
  destruct (find_first _ _) as [[i v]|] eqn:Hf; inv_ok Hr.
  apply find_get_by in Hf as (Hi & <- & _). apply dec_stable in Hr3.
  eapply (replace_task_wf _ _ _ v); try done.
  destruct (task_phase_elem _ v (wf_t _ _ Hwf)) as [Hre Hph]; [by eapply list_elem_of_lookup_2|].
  split; [done|]. cbn. tauto.
Qed.

Lemma reviewInspection_preserves actor id body now : preserves (reviewInspection actor id body now).
Proof.
  intros w r w' Hr Hwf. unfold reviewInspection in Hr. inv_ok Hr. destruct a as [approved note].
  inv_ok Hr. destruct (find_first _ _) as [[i v]|] eqn:Hf; inv_ok Hr.
  destruct (last (in_Rectifications v)) as [rc|] eqn:Hl; inv_ok Hr.
  apply find_get_by in Hf as (Hi & <- & _). apply dec_stable in Hr2, Hr3.
  eapply (replace_task_wf _ _ _ v); try done.
  - intros _. split; by rewrite Hr2.
  - destruct (task_phase_elem _ v (wf_t _ _ Hwf)) as [Hre Hph]; [by eapply list_elem_of_lookup_2|].
    rewrite Hr2 in Hph. destruct Hph as [[? _]|[[? _]|[[_ (l & x & Heq & _ & Hrej)]|[?|?]]]]; try done.
    rewrite Heq, last_snoc in Hl. injection Hl as ->.
    split; cbn; rewrite Heq, length_app, Nat.add_1_r; cbn;
      rewrite insert_app_r_alt, Nat.sub_diag by lia; cbn.
    + apply each_snoc; [intros y Hy; apply Hre; rewrite Heq; set_solver|].
      right. cbn. split; [destruct approved; auto|done].
    + destruct approved; [tauto|]. right. left. split; [done|]. by apply each_snoc.
Qed.
End with_platform.
