(* ===== verification/FireTheorems.v ===== *)
(** The properties of the fire safety aggregate that hold in every state the
    service can reach. *)
From S2P Require Import Prelude GoText GoTime GoJson Keyed FireModel FireService FireStations.
From S2P Require Import FireDuty FireExtinguishers FireApply FireInvariant FireOccupancy.
From S2P Require Import FireDutyProofs.

(** Reachable aggregates: [mutate] preserves well-formedness, and what that
    means for every state the service can reach. *)

(** ** Requests and runs *)

(** One request to the service. *)
Record request := mk_request {
  q_actor : string; q_action : string; q_id : string; q_body : raw_message; q_now : Z }.

Section with_platform.
Context `{Platform}.

Definition serve (q : request) : M FireSafetyState response :=
  mutate (q_actor q) (q_action q) (q_id q) (q_body q) (q_now q).

(** The aggregates of a tenant, with the number of identities drawn so far:
    the empty one, the result of an accepted request, and identities drawn by
    other tenants or by requests that were not saved. *)
Inductive reachable : nat → FireSafetyState → Prop :=
  | reach_empty n : reachable n empty_state
  | reach_serve n s q r w' :
      reachable n s → serve q (mk_world s n) = Ok (r, w') →
      reachable (w_next w') (w_state w')
  | reach_save n s rev : reachable n s → reachable n (s <| Revision := rev |>)
  | reach_draw n m s : reachable n s → (n ≤ m)%nat → reachable m s.

(** Serving requests one after the other, stopping at the first error. *)
Fixpoint serve_all (qs : list request) : M FireSafetyState (list response) :=
  match qs with
  | [] => mret []
  | q :: qs => r ← serve q; rs ← serve_all qs; mret (r :: rs)
  end.

(** ** Identities are only drawn, never given back *)

Lemma grows_record in_ old now : grows (record in_ old now : M FireSafetyState FireRecord).
Proof. unfold record. grow. Qed.
Lemma grows_attempt {A} (m : M FireSafetyState A) : grows m → grows (attempt m).
Proof.
  intros Hm w b w' Hr. unfold attempt in Hr. destruct (m w) as [[a w1]|] eqn:Ha;
    injection Hr as <- <-; [by eapply Hm|done].
Qed.
#[local] Hint Resolve grows_record grows_attempt : grows.

Lemma add_assignments_grows now problems created items :
  grows (add_assignments now problems created items).
Proof.
  revert problems created. induction items as [|v items IH]; intros; cbn [add_assignments]; grow.
Qed.

Lemma createInspection_grows actor body now : grows (createInspection actor body now).
Proof. unfold createInspection. grow. Qed.
#[local] Hint Resolve add_assignments_grows createInspection_grows : grows.

Lemma add_inspections_grows actor in_ now created skips ids :
  grows (add_inspections actor in_ now created skips ids).
Proof.
  revert created skips. induction ids as [|v ids IH]; intros; cbn [add_inspections]; grow.
Qed.
#[local] Hint Resolve add_inspections_grows : grows.

Lemma mutate_grows actor action id body now : grows (mutate actor action id body now).
Proof.
  unfold mutate. repeat (case_decide; [
    unfold saveStation, deleteStation, savePersonnel, deletePersonnel, saveEquipment,
      deleteEquipment, createDispatch, returnDispatch, saveShift, deleteShift, saveAssignment,
      deleteAssignment, createAssignments, createSwap, reviewSwap, saveExtinguisher,
      deleteExtinguisher, createInspections, inspect, rectify, reviewInspection,
      cancelInspection; grow|]).
  apply grows_throw.
Qed.

(** ** Well-formedness *)

Lemma mutate_preserves `{!PlatformLaws} actor action id body now :
  preserves (mutate actor action id body now).
Proof.
  unfold mutate. repeat (case_decide; [eauto using saveStation_preserves,
    deleteStation_preserves, savePersonnel_preserves, deletePersonnel_preserves,
    saveEquipment_preserves, deleteEquipment_preserves, createDispatch_preserves,
    returnDispatch_preserves, saveShift_preserves, deleteShift_preserves,
    saveAssignment_preserves, deleteAssignment_preserves, createAssignments_preserves,
    createSwap_preserves, reviewSwap_preserves, saveExtinguisher_preserves,
    deleteExtinguisher_preserves, createInspection_preserves, createInspections_preserves,
    inspect_preserves, rectify_preserves, reviewInspection_preserves,
    cancelInspection_preserves|]).
  intros w r w' Hr. inv_ok Hr.
Qed.

Lemma wf_mono n m s : (n ≤ m)%nat → wf n s → wf m s.
Proof. intros Hnm Hwf. wf_split Hwf. Qed.

Lemma wf_revision n s rev : wf n s → wf n (s <| Revision := rev |>).
Proof. intros Hwf. wf_split Hwf. Qed.

Lemma reachable_is_wf `{!PlatformLaws} n s : reachable n s → wf n s.
Proof.
  induction 1 as [n|n s q r w' _ IH Hs|n s rev _ IH|n m s _ IH Hnm].
  - apply empty_state_wf.
  - by eapply (mutate_preserves _ _ _ _ _ _ _ _ Hs).
  - by apply wf_revision.
  - by eapply wf_mono.
Qed.

Lemma serve_all_reachable qs n s rs w' :
  reachable n s → serve_all qs (mk_world s n) = Ok (rs, w') → reachable (w_next w') (w_state w').
Proof.
  revert n s rs. induction qs as [|q qs IH]; intros n s rs Hs Hr; cbn [serve_all] in Hr.
  - inv_ok Hr. done.
  - apply M_bind_ok in Hr as (r & [s1 n1] & Hq & Hr).
    apply M_bind_ok in Hr as (rs1 & w1 & Hqs & Hr). inv_ok Hr.
    eapply IH; [|done]. by eapply (reach_serve _ _ _ _ _ Hs Hq).
Qed.
End with_platform.

Section with_platform.
Context `{PlatformLaws}.

(** C1: every accepted request, whatever its action and body, leads from a
    well-formed aggregate to a well-formed one: identities stay distinct and
    drawn, references resolve, nobody is on two overlapping duties, dispatched
    personnel and equipment are held only once, an extinguisher has at most
    one open inspection and reviews are done by somebody else. *)
Theorem mutate_preserves_wf actor action id body now n s r w' :
  wf n s → mutate actor action id body now (mk_world s n) = Ok (r, w') →
  wf (w_next w') (w_state w').
Proof. intros Hwf Hr. by eapply (mutate_preserves _ _ _ _ _ _ _ _ Hr). Qed.

(** C2: in every reachable aggregate nobody is on duty twice at one instant:
    two assignments that contain the same person and the same instant are one
    assignment. *)
Theorem reachable_duty_exclusive n s a b i t :
  reachable n s → a ∈ Assignments s → b ∈ Assignments s →
  i ∈ as_PersonnelIDs a → i ∈ as_PersonnelIDs b →
  as_StartAt a ≤ t < as_EndAt a → as_StartAt b ≤ t < as_EndAt b → a = b.
Proof.
  intros Hwf%reachable_is_wf Ha Hb Hia Hib Hta Htb. destruct Hwf as [Hk _ [_ Hd] _ _ _].
  pose proof (wk_assignments _ _ Hk) as [Hnd _].
  destruct (decide (ID a = ID b)) as [Heq|Hne].
  - apply get_by_elem_of in Ha, Hb; [|done..]. rewrite Heq in Ha. congruence.
  - exfalso. apply (Hd a b Ha Hb Hne). exists i. split; [done|]. split; [done|]. lia.
Qed.

(** C3: in every reachable aggregate the number of items of an equipment
    record that are out on dispatches is computed without overflow and never
    exceeds the stock. *)
Theorem reachable_equipment_stock n s e :
  reachable n s → e ∈ Equipment s →
  occupiedEquipment s (ID e) = occ_total (ID e) (Dispatches s) ∧
  0 ≤ occupiedEquipment s (ID e) ≤ eq_Quantity e.
Proof.
  intros Hwf%reachable_is_wf He. pose proof (wf_o _ _ Hwf) as Ho.
  rewrite occupiedEquipment_exact by done. split; [done|].
  pose proof (occ_total_nonneg (ID e) _ (wd_ok _ Ho)).
  destruct (wd_equipment _ Ho e He). lia.
Qed.

(** In every reachable aggregate a person is out on at most one dispatch
    that has not returned, and such a dispatch belongs to a station in
    service whose enabled members it takes. *)
Theorem reachable_dispatch_exclusive n s d1 d2 i :
  reachable n s → d1 ∈ Dispatches s → d2 ∈ Dispatches s → active d1 → active d2 →
  i ∈ di_PersonnelIDs d1 → i ∈ di_PersonnelIDs d2 →
  d1 = d2 ∧ station_enabled s (di_StationID d1) ∧
  ∃ p, get_by (Personnel s) i = Some p ∧ pe_StationID p = di_StationID d1 ∧ pe_Enabled p = true.
Proof.
  intros Hwf%reachable_is_wf H1 H2 Ha1 Ha2 Hi1 Hi2. destruct Hwf as [Hk _ _ [_ Hp Hh _] _ _].
  pose proof (wk_dispatches _ _ Hk) as [Hnd _].
  destruct (Hh d1 H1 Ha1) as (Hst & Hper & _). split; [|split; [done|by apply Hper]].
  destruct (decide (ID d1 = ID d2)) as [Heq|Hne].
  - apply get_by_elem_of in H1, H2; [|done..]. rewrite Heq in H1. congruence.
  - by destruct (Hp d1 d2 H1 H2 Hne Ha1 Ha2 i Hi1).
Qed.

(** In every reachable aggregate an extinguisher has at most one open
    inspection, it is not retired, and its station and the enabled assignee's
    station are in service. *)
Theorem reachable_inspection_unique n s t1 t2 :
  reachable n s → t1 ∈ Inspections s → t2 ∈ Inspections s →
  inspectionOpen t1 → inspectionOpen t2 → in_ExtinguisherID t1 = in_ExtinguisherID t2 →
  t1 = t2 ∧ task_ready s t1.
Proof.
  intros Hwf%reachable_is_wf H1 H2 Ho1 Ho2 Heq. destruct Hwf as [Hk _ _ _ [Hone Hr _] _].
  pose proof (wk_inspections _ _ Hk) as [Hnd _]. split; [|by apply Hr].
  destruct (decide (ID t1 = ID t2)) as [Hid|Hne].
  - apply get_by_elem_of in H1, H2; [|done..]. rewrite Hid in H1. congruence.
  - by destruct (Hone t1 t2 H1 H2 Hne Ho1 Ho2).
Qed.

(** C6: separation of duties: in every reachable aggregate a decided swap and
    a decided rectification were reviewed by somebody other than the one who
    submitted them. *)
Theorem reachable_separation_of_duties n s :
  reachable n s →
  (∀ w, w ∈ Swaps s → sw_Status w ≠ "pending" → sw_ReviewedBy w ≠ sw_RequestedBy w) ∧
  (∀ t r, t ∈ Inspections s → r ∈ in_Rectifications t → re_Status r ≠ "pending" →
    re_ReviewedBy r ≠ re_SubmittedBy r).
Proof.
  intros Hwf%reachable_is_wf. destruct Hwf as [_ _ _ _ [_ _ Hph] Hsw]. split.
  - intros w Hw Hp. by destruct (Hsw w Hw) as [?|[_ ?]].
  - intros t r Ht Hr Hp. destruct (Hph t Ht) as [Hre _]. by destruct (Hre r Hr) as [?|[_ ?]].
Qed.
End with_platform.
