(* ===== verification/Scenario.v ===== *)
(** A concrete platform and a concrete history of the fire safety service, on
    which the theorems are exercised. *)
From S2P Require Import Prelude Keyed GoText GoTime GoJson FireModel FireService FireStations.
From S2P Require Import FireDuty FireExtinguishers FireApply FireInvariant FireTheorems.
From S2P Require Import Optimistic.
From Stdlib Require Import SpecFloat Ascii.

(** ** A platform *)

(** ASCII case folding, UTC+8, and counted identities. *)
Definition ascii_fold (r : Z) : Z := if in_range 97 122 r then r - 32 else r.
Definition ascii_lower (r : Z) : Z := if in_range 65 90 r then r + 32 else r.
Fixpoint counted_id (n : nat) : string :=
  match n with O => "u" | S n => "u" +:+ counted_id n end.
Definition ascii_platform : Platform :=
  {| simple_fold := ascii_fold; rune_to_lower := ascii_lower;
     local_offset := λ _, 28800; new_uuid := counted_id |}.

Lemma counted_id_length n : String.length (counted_id n) = S n.
Proof. induction n as [|n IH]; [done|]. change (S (String.length (counted_id n)) = S (S n)). by f_equal. Qed.

Lemma counted_id_inj n m : counted_id n = counted_id m → n = m.
Proof. intros Heq%(f_equal String.length). rewrite !counted_id_length in Heq. lia. Qed.

Lemma ascii_laws : @PlatformLaws ascii_platform.
Proof. split; [intros []; discriminate|apply counted_id_inj]. Qed.

#[local] Existing Instance ascii_platform.
#[local] Existing Instance ascii_laws.

(** ** A history *)

Definition body (l : list (string * json)) : raw_message := raw_of 64 (JObj l).
Definition empty_world : world FireSafetyState := mk_world empty_state 0.
Definition now0 : Z := 1700000000000.
Definition hour : Z := 3600000.

Definition person (name : string) : request :=
  mk_request "admin" "savePersonnel" ""
    (body [("name", JStr name); ("stationId", JStr "u"); ("enabled", JBool true)]) now0.

Definition duty (people : list string) (from to : Z) : list (string * json) :=
  [("stationId", JStr "u"); ("shiftId", JStr "uuuuu"); ("personnelIds", JArr (JStr <$> people));
   ("startAt", jint from); ("endAt", jint to)].

(** A station with three people, a shift, a duty, equipment out on a dispatch,
    an extinguisher with an open inspection and a pending swap. *)
Definition history : list request :=
  [mk_request "admin" "saveStation" ""
     (body [("code", JStr "S1"); ("name", JStr "North"); ("type", JStr "micro");
            ("enabled", JBool true)]) now0;
   person "Ann"; person "Bob"; person "Cid";
   mk_request "admin" "saveShift" ""
     (body [("name", JStr "day"); ("startTime", JStr "08:00"); ("endTime", JStr "20:00")]) now0;
   mk_request "admin" "saveAssignment" "" (body (duty ["uu"] (now0 + hour) (now0 + 3 * hour))) now0;
   mk_request "admin" "saveEquipment" ""
     (body [("name", JStr "hose"); ("category", JStr "water"); ("unit", JStr "pc");
            ("stationId", JStr "u"); ("status", JStr "ready"); ("quantity", jint 10)]) now0;
   mk_request "admin" "createDispatch" ""
     (body [("title", JStr "drill"); ("location", JStr "yard"); ("type", JStr "drill");
            ("stationId", JStr "u"); ("personnelIds", JArr [JStr "uuuu"]);
            ("equipment", JArr [JObj [("equipmentId", JStr "uuuuuuu"); ("quantity", jint 4)]])]) now0;
   mk_request "admin" "saveExtinguisher" ""
     (body [("code", JStr "E1"); ("location", JStr "hall"); ("type", JStr "co2");
            ("status", JStr "active"); ("stationId", JStr "u"); ("inspectionCycleDays", jint 30)]) now0;
   mk_request "admin" "createInspection" ""
     (body [("extinguisherId", JStr "uuuuuuuuu"); ("assigneeId", JStr "uu");
            ("dueAt", jint (now0 + hour))]) now0;
   mk_request "ann" "createSwap" ""
     (body [("assignmentId", JStr "uuuuuu"); ("fromPersonnelId", JStr "uu");
            ("toPersonnelId", JStr "uuu"); ("reason", JStr "leave")]) now0].

Definition after (qs : list request) : world FireSafetyState :=
  match serve_all qs empty_world with Ok (_, w) => w | Err _ => empty_world end.

Lemma history_runs : is_Some (match serve_all history empty_world with Ok p => Some p | Err _ => None end).
Proof. vm_compute. eauto. Qed.

(** ** Interference *)

Section interference.
Context {S C : Type} `{CoherenceLaws S C, !RevisedLaws S}.

(** Just before the first save another request commits to the tenant "t", so
    the call has to reload and try again. *)
Definition bump (limit : Z) (n : nat) (sh : shared S C) : shared S C :=
  if decide (n = 2%nat ∧ stored_revision "t" sh.1 + 1 ≤ limit)
  then (commit "t" (load "t" sh.1) sh.1, sh.2) else sh.
Definition busy_schedule (limit : Z) : schedule S C :=
  mk_schedule (bump limit) (λ _, None) (λ _, None) (λ _, now0).

Lemma busy_schedule_rely limit : rely limit (busy_schedule limit).
Proof.
  split.
  - intros n [db cache]. cbn. unfold bump. case_decide; [apply moves_commit|done].
  - intros n db cache Hs. cbn. unfold bump. cbn [fst snd]. case_decide as Hd; [|done]. cbn.
    destruct (sane_commit limit "t" (load "t" db) db cache n Hs) as [Hwf Hc _];
      [apply Hs|]. split; [done|done|]. intros t'. pose proof (sane_bounded _ _ _ _ Hs t') as Hb.
    destruct (decide ("t" = t')) as [<-|Hne].
    + rewrite revision_commit. destruct Hd as [_ Hd]. cbn in Hd. lia.
    + by rewrite revision_commit_ne.
Qed.
End interference.

(** ** An encoding of records

    Every character is announced, so that a text ends where none is. *)

Fixpoint frame (s k : string) : string :=
  match s with
  | EmptyString => String "-"%char k
  | String c s => String "+"%char (String c (frame s k))
  end.
Fixpoint unframe (s : string) : string * string :=
  match s with
  | String "+"%char (String c s) => let '(t, k) := unframe s in (String c t, k)
  | String _ k => ("", k)
  | EmptyString => ("", "")
  end.
Lemma unframe_frame s k : unframe (frame s k) = (s, k).
Proof. induction s as [|c s IH]; [done|]. cbn [frame unframe]. by rewrite IH. Qed.

Fixpoint pos_bits (p : positive) : string :=
  match p with
  | xH => ""
  | xO p => String "0"%char (pos_bits p)
  | xI p => String "1"%char (pos_bits p)
  end.
Fixpoint bits_pos (s : string) : positive :=
  match s with
  | EmptyString => xH
  | String "0"%char s => xO (bits_pos s)
  | String _ s => xI (bits_pos s)
  end.
Lemma bits_pos_bits p : bits_pos (pos_bits p) = p.
Proof. induction p as [p IH|p IH|]; cbn [pos_bits bits_pos]; by rewrite ?IH. Qed.
Definition int_bits (z : Z) : string :=
  match z with Z0 => "" | Zpos p => String "p"%char (pos_bits p) | Zneg p => String "n"%char (pos_bits p) end.
Definition bits_int (s : string) : Z :=
  match s with
  | EmptyString => 0
  | String "p"%char s => Zpos (bits_pos s)
  | String _ s => Zneg (bits_pos s)
  end.
Lemma bits_int_bits z : bits_int (int_bits z) = z.
Proof. destruct z; cbn; by rewrite ?bits_pos_bits. Qed.
