(* ===== verification/FireEvolution.v ===== *)
(** How one request may change the aggregate: record versions, and the state
    machines of dispatches, swaps and inspections. *)
From S2P Require Import Prelude GoText GoTime GoJson Keyed FireModel FireService FireStations.
From S2P Require Import FireDuty FireExtinguishers FireApply FireInvariant FireDutyProofs.

(** ** One change of a collection *)

(** A record as [record] creates it. *)
Definition fresh_record (now : Z) (r : FireRecord) : Prop :=
  r_Version r = 1 ∧ r_CreatedAt r = now ∧ r_UpdatedAt r = now.

(** New records at the end, one record replaced by its next version, or one
    record removed where the collection allows it. *)
Inductive edit {A} `{FireRecorded A} (now : Z) (new : A → Prop) (step : A → A → Prop)
    (removable : bool) : list A → list A → Prop :=
  | edit_add l vs :
      each (λ v, fresh_record now (frec v) ∧ new v) vs →
      edit now new step removable l (l ++ vs)
  | edit_set l i o v :
      l !! i = Some o → frec v = advance (frec o) now → step o v →
      edit now new step removable l (<[i:=v]> l)
  | edit_del l i :
      removable = true → edit now new step removable l (remove_at i l).

Definition anything {A} (v : A) : Prop := True.
Definition any_step {A} (o v : A) : Prop := True.

(** ** The state machines *)

(** Dispatches: dispatched, then returned; who and what was out is kept. *)
Definition dispatch_created (actor : string) (d : FireDispatch) : Prop :=
  di_Status d = "dispatched" ∧ di_CreatedBy d = actor ∧ di_ReturnedAt d = 0.
Definition dispatch_step (actor : string) (o v : FireDispatch) : Prop :=
  di_Status o = "dispatched" ∧ di_Status v = "returned" ∧ di_ReturnedBy v = actor ∧
  di_PersonnelIDs v = di_PersonnelIDs o ∧ di_Equipment v = di_Equipment o ∧
  di_StationID v = di_StationID o ∧ di_StartedAt v = di_StartedAt o ∧
  di_StartedAt o ≤ di_ReturnedAt v.

(** Swaps: pending, then approved or rejected by somebody else. *)
Definition swap_created (actor : string) (w : DutySwap) : Prop :=
  sw_Status w = "pending" ∧ sw_RequestedBy w = actor ∧ sw_ReviewedBy w = "".
Definition swap_step (actor : string) (now : Z) (o v : DutySwap) : Prop :=
  sw_Status o = "pending" ∧ (sw_Status v = "approved" ∨ sw_Status v = "rejected") ∧
  sw_RequestedBy o ≠ actor ∧ sw_ReviewedBy v = actor ∧ sw_ReviewedAt v = now ∧
  sw_RequestedBy v = sw_RequestedBy o ∧ sw_AssignmentID v = sw_AssignmentID o ∧
  sw_FromPersonnelID v = sw_FromPersonnelID o ∧ sw_ToPersonnelID v = sw_ToPersonnelID o.

(** Inspections. *)
Definition task_created (actor : string) (t : FireInspection) : Prop :=
  in_Status t = "pending" ∧ in_Rectifications t = [] ∧ in_CreatedBy t = actor.

(** What no step changes. *)
Definition same_task (o v : FireInspection) : Prop :=
  in_ExtinguisherID v = in_ExtinguisherID o ∧ in_AssigneeID v = in_AssigneeID o ∧
  in_DueAt v = in_DueAt o ∧ in_CreatedBy v = in_CreatedBy o ∧ in_Notes v = in_Notes o.

Inductive task_move (actor : string) (now : Z) (o v : FireInspection) : Prop :=
  | move_inspect (passed : bool) :
      in_Status o = "pending" →
      in_Status v = (if passed then "completed" else "rectifying") →
      in_Result v = (if passed then "pass" else "fail") →
      (passed = true ↔ ∀ c, c ∈ in_Checks v → ck_Passed c = true) →
      in_InspectedBy v = actor → in_Rectifications v = in_Rectifications o →
      task_move actor now o v
  | move_rectify r :
      in_Status o = "rectifying" → in_Status v = "reviewing" →
      in_Rectifications v = in_Rectifications o ++ [r] →
      re_SubmittedBy r = actor → re_Status r = "pending" → re_Action r ≠ "" →
      task_move actor now o v
  | move_review (approved : bool) l r r' :
      in_Status o = "reviewing" →
      in_Status v = (if approved then "completed" else "rectifying") →
      in_Rectifications o = l ++ [r] → in_Rectifications v = l ++ [r'] →
      re_Status r = "pending" → re_SubmittedBy r ≠ actor →
      re_Status r' = (if approved then "approved" else "rejected") →
      re_ReviewedBy r' = actor → re_SubmittedBy r' = re_SubmittedBy r →
      re_Action r' = re_Action r →
      task_move actor now o v
  | move_cancel :
      inspectionOpen o → in_Status v = "cancelled" → in_CancelReason v ≠ "" →
      in_Rectifications v = in_Rectifications o →
      task_move actor now o v.

Definition task_step (actor : string) (now : Z) (o v : FireInspection) : Prop :=
  same_task o v ∧ task_move actor now o v.

(** ** One request *)

Record evolves (actor : string) (now : Z) (s s' : FireSafetyState) : Prop := {
  ev_stations : edit now anything any_step true (Stations s) (Stations s');
  ev_personnel : edit now anything any_step true (Personnel s) (Personnel s');
  ev_equipment : edit now anything any_step true (Equipment s) (Equipment s');
  ev_dispatches :
    edit now (dispatch_created actor) (dispatch_step actor) false (Dispatches s) (Dispatches s');
  ev_shifts : edit now anything any_step true (Shifts s) (Shifts s');
  ev_assignments : edit now anything any_step true (Assignments s) (Assignments s');
  ev_swaps : edit now (swap_created actor) (swap_step actor now) false (Swaps s) (Swaps s');
  ev_extinguishers : edit now anything any_step true (Extinguishers s) (Extinguishers s');
  ev_inspections :
    edit now (task_created actor) (task_step actor now) false (Inspections s) (Inspections s') }.

Lemma edit_same {A} `{FireRecorded A} now new step removable (l : list A) :
  edit now new step removable l l.
Proof.
  pose proof (edit_add now new step removable l []) as He. rewrite app_nil_r in He.
  apply He. intros x Hx%not_elem_of_nil. done.
Qed.

Section with_platform.
Context `{Platform}.

Definition changes (actor : string) (now : Z) {A} (m : M FireSafetyState A) : Prop :=
  ∀ w r w', m w = Ok (r, w') → evolves actor now (w_state w) (w_state w').

Lemma edit_upsert {S A} `{FireRecorded A} in_ (l : list A) id now (w : world S) r w' (v : A) :
  record in_ (previous (find_first (λ x, ID x = id) l)) now w = Ok (r, w') → frec v = r →
  edit now anything any_step true l (upsert (find_first (λ x, ID x = id) l) v l).
Proof.
  intros Hr Hv. unfold record, previous in Hr. destruct (find_first _ l) as [[i o]|] eqn:Hf; cbn in Hr.
  - inv_ok Hr. apply find_get_by in Hf as (Hi & _). by eapply edit_set.
  - apply M_bind_ok in Hr as (i & w1 & _ & Hr). inv_ok Hr.
    apply edit_add. intros x ->%list_elem_of_singleton. split; [|done].
    match goal with E : frec _ = _ |- _ => by rewrite E end.
Qed.

Lemma edit_append {S A} `{FireRecorded A} in_ now (w : world S) r w' new step b (l : list A) v :
  record in_ None now w = Ok (r, w') → frec v = r → new v → edit now new step b l (l ++ [v]).
Proof.
  intros Hr Hv Hn. unfold record in Hr. apply M_bind_ok in Hr as (i & w1 & _ & Hr). inv_ok Hr.
  apply edit_add. intros x ->%list_elem_of_singleton. split; [|done].
  match goal with E : frec _ = _ |- _ => by rewrite E end.
Qed.

Lemma record_state {S} in_ old now (w : world S) r w' :
  record in_ old now w = Ok (r, w') → w_state w' = w_state w.
Proof.
  unfold record. destruct old; intros Hr; [by inv_ok Hr|].
  apply M_bind_ok in Hr as (i & w1 & [-> ->]%new_id_ok & Hr). by inv_ok Hr.
Qed.

(** ** Every handler *)

Ltac evolve := split; cbn; first [apply edit_same|idtac].
Ltac change_save :=
  evolve; match goal with Hrec : record _ _ _ _ = Ok _ |- _ =>
    eapply edit_upsert; [exact Hrec|reflexivity] end.
Ltac find_cases := repeat (case_match; inv_ok_step); try done.

Lemma saveStation_changes actor id body now : changes actor now (saveStation id body now).
Proof. intros w r w' Hr. unfold saveStation in Hr. inv_ok Hr. change_save. Qed.

Lemma deleteStation_changes actor now id body : changes actor now (deleteStation id body).
Proof.
  intros w r w' Hr. unfold deleteStation in Hr. inv_ok Hr.
  destruct (station _ _) as [[i o]|]; inv_ok Hr. evolve. by apply edit_del.
Qed.

Lemma savePersonnel_changes actor id body now : changes actor now (savePersonnel id body now).
Proof.
  intros w r w' Hr. unfold savePersonnel in Hr. inv_ok Hr.
  destruct (station _ _) as [[i o]|]; inv_ok Hr. change_save.
Qed.

Lemma deletePersonnel_changes actor now id body : changes actor now (deletePersonnel id body).
Proof.
  intros w r w' Hr. unfold deletePersonnel in Hr. inv_ok Hr.
  destruct (personnel _ _) as [[i o]|]; inv_ok Hr. evolve. by apply edit_del.
Qed.

Lemma saveEquipment_changes actor id body now : changes actor now (saveEquipment id body now).
Proof. intros w r w' Hr. unfold saveEquipment in Hr. inv_ok Hr. change_save. Qed.

Lemma deleteEquipment_changes actor now id body : changes actor now (deleteEquipment id body).
Proof.
  intros w r w' Hr. unfold deleteEquipment in Hr. inv_ok Hr.
  destruct (equipment _ _) as [[i o]|]; inv_ok Hr. evolve. by apply edit_del.
Qed.

Lemma createDispatch_changes actor body now : changes actor now (createDispatch actor body now).
Proof.
  intros w r w' Hr. unfold createDispatch in Hr. inv_ok Hr. evolve.
  eapply edit_append; [eassumption|reflexivity|done].
Qed.

Lemma returnDispatch_changes actor id body now :
  changes actor now (returnDispatch actor id body now).
Proof.
  intros w r w' Hr. unfold returnDispatch in Hr. inv_ok Hr.
  destruct (find_first _ _) as [[i d]|] eqn:Hf; inv_ok Hr.
  apply find_get_by in Hf as (Hi & _). evolve. eapply edit_set; [exact Hi|done|].
  apply dec_stable in Hr2. split_and!; try done. cbn. lia.
Qed.

Lemma saveShift_changes actor id body now : changes actor now (saveShift id body now).
Proof. intros w r w' Hr. unfold saveShift in Hr. inv_ok Hr. change_save. Qed.

Lemma deleteShift_changes actor now id body : changes actor now (deleteShift id body).
Proof.
  intros w r w' Hr. unfold deleteShift in Hr. inv_ok Hr.
  destruct (shift _ _) as [[i o]|]; inv_ok Hr. evolve. by apply edit_del.
Qed.

Lemma saveAssignment_changes actor id body now : changes actor now (saveAssignment id body now).
Proof. intros w r w' Hr. unfold saveAssignment in Hr. inv_ok Hr. change_save. Qed.

Lemma deleteAssignment_changes actor now id body : changes actor now (deleteAssignment id body).
Proof.
  intros w r w' Hr. unfold deleteAssignment in Hr. inv_ok Hr.
  destruct (assignment _ _) as [[i o]|]; inv_ok Hr. evolve. by apply edit_del.
Qed.

Lemma fresh_of_record {S} in_ now (w : world S) r w' :
  record in_ None now w = Ok (r, w') → fresh_record now r.
Proof.
  unfold record. intros Hr. apply M_bind_ok in Hr as (i & w1 & _ & Hr). by inv_ok Hr.
Qed.

(** The batch appends the items it accepted. *)
Lemma add_assignments_adds now problems created items w pc w' :
  add_assignments now problems created items w = Ok (pc, w') →
  ∃ vs, each (λ v, fresh_record now (frec v) ∧ anything v) vs ∧ pc.2 = created ++ vs ∧
    w_state w' = (w_state w) <| Assignments ::= (λ l, l ++ vs) |>.
Proof.
  revert problems created w. induction items as [|v items IH]; intros problems created w Hr;
    cbn [add_assignments] in Hr; inv_ok Hr.
  { exists []. split; [apply each_nil|]. split; [by rewrite app_nil_r|].
    destruct w as [[] n]. unfold set. cbn. by rewrite app_nil_r. }
  destruct (validateAssignment _ _ _) as [[]|e] eqn:Hv.
  - inv_ok Hr. pose proof (fresh_of_record _ _ _ _ _ Hr1) as Hfresh.
    apply record_state in Hr1. apply IH in Hr as (vs & Hvs & Hc & Hs). cbn in Hs.
    eexists (_ :: vs). split; [|split; [rewrite Hc, <-app_assoc; reflexivity|]].
    + apply each_cons; [by split|done].
    + rewrite Hs. unfold set. cbn. by rewrite <-app_assoc.
  - case_decide; [|done]. by eapply IH.
Qed.

Lemma createAssignments_changes actor body now : changes actor now (createAssignments body now).
Proof.
  intros w r w' Hr. unfold createAssignments in Hr. inv_ok Hr. destruct a1 as [problems created].
  inv_ok Hr. apply add_assignments_adds in Hr2 as (vs & Hvs & _ & ->). evolve. by apply edit_add.
Qed.

Lemma createSwap_changes actor body now : changes actor now (createSwap actor body now).
Proof.
  intros w r w' Hr. unfold createSwap in Hr. inv_ok Hr. evolve.
  eapply edit_append; [eassumption|reflexivity|done].
Qed.

Lemma reviewSwap_changes actor id body now : changes actor now (reviewSwap actor id body now).
Proof.
  intros w r w' Hr. unfold reviewSwap in Hr. inv_ok Hr. destruct a as [approved note].
  inv_ok Hr. destruct (find_first _ _) as [[i v]|] eqn:Hf; inv_ok Hr.
  apply find_get_by in Hf as (Hi & _). apply dec_stable in Hr2.
  assert (Hsw : ∀ l, l = Swaps (w_state w) → edit now (swap_created actor) (swap_step actor now) false
    (Swaps (w_state w)) (<[i:=v <| sw_Status := if approved then "approved" else "rejected" |>
      <| sw_ReviewedBy := actor |> <| sw_ReviewNote := note |> <| sw_ReviewedAt := now |>
      <| sw_FireRecord ::= (λ r, advance r now) |>]> l)).
  { intros l ->. eapply edit_set; [exact Hi|done|]. split_and!; try done. destruct approved; auto. }
  destruct approved; inv_ok Hr4; [|by evolve; apply Hsw].
  destruct (assignment _ _) as [[j x]|] eqn:Hj; inv_ok Hr4; [|by evolve; apply Hsw].
  evolve; [|by apply Hsw]. apply find_get_by in Hj as (Hj & _ & Hx).
  eapply edit_set; [exact Hj| |done].
  match goal with Hn : swappedAssignment _ _ _ = Ok _ |- _ =>
    apply swappedAssignment_iff in Hn as (asg & [Hasg _ _ _ _ _] & ->) end.
  by assert (x = asg) as -> by congruence.
Qed.

Lemma saveExtinguisher_changes actor id body now :
  changes actor now (saveExtinguisher id body now).
Proof. intros w r w' Hr. unfold saveExtinguisher in Hr. inv_ok Hr. change_save. Qed.

Lemma deleteExtinguisher_changes actor now id body : changes actor now (deleteExtinguisher id body).
Proof.
  intros w r w' Hr. unfold deleteExtinguisher in Hr. inv_ok Hr.
  destruct (extinguisher _ _) as [[i o]|]; inv_ok Hr. evolve. by apply edit_del.
Qed.

Lemma createInspection_adds actor body now w v w' :
  createInspection actor body now w = Ok (v, w') →
  fresh_record now (frec v) ∧ task_created actor v ∧
  w_state w' = (w_state w) <| Inspections ::= (λ l, l ++ [v]) |>.
Proof.
  intros Hr. unfold createInspection in Hr. inv_ok Hr.
  destruct (extinguisher _ _) as [[i e]|]; inv_ok Hr.
  destruct (personnel _ _) as [[j p]|]; inv_ok Hr.
  match goal with Hrec : record _ _ _ _ = Ok _ |- _ => apply fresh_of_record in Hrec end.
  by split_and!.
Qed.

Lemma add_inspections_adds actor in_ now created skips ids w cs w' :
  add_inspections actor in_ now created skips ids w = Ok (cs, w') →
  ∃ vs, each (λ v, fresh_record now (frec v) ∧ task_created actor v) vs ∧ cs.1 = created ++ vs ∧
    w_state w' = (w_state w) <| Inspections ::= (λ l, l ++ vs) |>.
Proof.
  revert created skips w. induction ids as [|i ids IH]; intros created skips w Hr;
    cbn [add_inspections] in Hr; inv_ok Hr.
  { exists []. split; [apply each_nil|]. split; [by rewrite app_nil_r|].
    destruct w as [[] n]. unfold set. cbn. by rewrite app_nil_r. }
  unfold attempt in Hr0. destruct (createInspection _ _ _ _) as [[t w1]|e] eqn:Hc;
    injection Hr0 as <- <-.
  - apply createInspection_adds in Hc as (Hf & Ht & Hw1). apply IH in Hr as (vs & Hvs & Hcs & Hs).
    exists (t :: vs). split; [by apply each_cons|]. split; [by rewrite Hcs, <-app_assoc|].
    rewrite Hs, Hw1. unfold set. cbn. by rewrite <-app_assoc.
  - case_decide; inv_ok Hr. by eapply IH.
Qed.

Lemma createInspection_changes actor body now :
  changes actor now (v ← createInspection actor body now; mret (RInspection v)).
Proof.
  intros w r w' Hr. inv_ok Hr. apply createInspection_adds in Hr0 as (? & ? & ->). evolve.
  apply edit_add, each_cons; [done|apply each_nil].
Qed.

Lemma createInspections_changes actor body now : changes actor now (createInspections actor body now).
Proof.
  intros w r w' Hr. unfold createInspections in Hr. inv_ok Hr. destruct a2 as [created skips].
  inv_ok Hr. match goal with Ha : add_inspections _ _ _ _ _ _ _ = Ok _ |- _ =>
    apply add_inspections_adds in Ha as (vs & Hvs & _ & ->) end.
  evolve. by apply edit_add.
Qed.

(** ** The workflow steps *)

Lemma text_nonempty v label max s : text v label true max = Ok s → s ≠ "".
Proof. unfold text. intros Hr. inv_ok Hr. intros Heq. apply Hr0. by split. Qed.

Lemma read_checks_passed seen passed checks cs seen' passed' :
  read_checks seen passed checks = Ok (cs, seen', passed') →
  passed' = true ↔ passed = true ∧ ∀ c, c ∈ cs → ck_Passed c = true.
Proof.
  revert seen passed cs. induction checks as [|c checks IH]; intros seen passed cs Hr;
    cbn [read_checks] in Hr; inv_ok Hr.
  - split; [|tauto]. intros ->. split; [done|]. intros c Hc%not_elem_of_nil. done.
  - destruct a1 as [[cs1 seen1] passed1]. inv_ok Hr. apply IH in Hr2. rewrite Hr2.
    setoid_rewrite elem_of_cons. destruct passed, (ck_Passed c) eqn:Hc; cbn; naive_solver.
Qed.

Lemma inspect_changes actor id body now : changes actor now (inspect actor id body now).
Proof.
  intros w r w' Hr. unfold inspect in Hr. inv_ok Hr. destruct a1 as [[checks seen] passed].
  inv_ok Hr. destruct (find_first _ _) as [[i v]|] eqn:Hf; inv_ok Hr.
  apply find_get_by in Hf as (Hi & _). apply dec_stable in Hr6. evolve.
  eapply edit_set; [exact Hi|done|]. split; [done|].
  eapply (move_inspect _ _ _ _ passed); try done.
  apply read_checks_passed in Hr2. rewrite Hr2. cbn. tauto.
Qed.

Lemma rectify_changes actor id body now : changes actor now (rectify actor id body now).
Proof.
  intros w r w' Hr. unfold rectify in Hr. inv_ok Hr.
  destruct (find_first _ _) as [[i v]|] eqn:Hf; inv_ok Hr.
  apply find_get_by in Hf as (Hi & _). apply dec_stable in Hr3. evolve.
  eapply edit_set; [exact Hi|done|]. split; [done|].
  eapply move_rectify; try done. by eapply text_nonempty.
Qed.

Lemma cancelInspection_changes actor id body now : changes actor now (cancelInspection id body now).
Proof.
  intros w r w' Hr. unfold cancelInspection in Hr. inv_ok Hr.
  destruct (find_first _ _) as [[i v]|] eqn:Hf; inv_ok Hr.
  apply find_get_by in Hf as (Hi & _). apply dec_stable in Hr3. evolve.
  eapply edit_set; [exact Hi|done|]. split; [done|].
  eapply move_cancel; try done. by eapply text_nonempty.
Qed.

Lemma reviewInspection_changes actor id body now :
  changes actor now (reviewInspection actor id body now).
Proof.
  intros w r w' Hr. unfold reviewInspection in Hr. inv_ok Hr. destruct a as [approved note].
  inv_ok Hr. destruct (find_first _ _) as [[i v]|] eqn:Hf; inv_ok Hr.
  destruct (last (in_Rectifications v)) as [rc|] eqn:Hl; inv_ok Hr.
  apply find_get_by in Hf as (Hi & _). apply dec_stable in Hr2, Hr3. evolve.
  eapply edit_set; [exact Hi|done|]. split; [done|].
  apply last_Some in Hl as [l Hl].
  eapply (move_review _ _ _ _ approved l rc (rc <| re_ReviewedBy := actor |> <| re_ReviewedAt := now |>
    <| re_ReviewNote := note |> <| re_Status := if approved then "approved" else "rejected" |>));
    try done.
  cbn. rewrite Hl, length_app, Nat.add_1_r. cbn. by rewrite insert_app_r_alt, Nat.sub_diag by lia.
Qed.

Lemma mutate_changes actor action id body now : changes actor now (mutate actor action id body now).
Proof.
  unfold mutate. repeat (case_decide; [eauto using saveStation_changes,
    deleteStation_changes, savePersonnel_changes, deletePersonnel_changes,
    saveEquipment_changes, deleteEquipment_changes, createDispatch_changes,
    returnDispatch_changes, saveShift_changes, deleteShift_changes,
    saveAssignment_changes, deleteAssignment_changes, createAssignments_changes,
    createSwap_changes, reviewSwap_changes, saveExtinguisher_changes,
    deleteExtinguisher_changes, createInspection_changes, createInspections_changes,
    inspect_changes, rectify_changes, reviewInspection_changes,
    cancelInspection_changes|]).
  intros w r w' Hr. inv_ok Hr.
Qed.
End with_platform.
