(* ===== verification/FireHistory.v ===== *)
(** What one accepted request may do to records that exist: versions, the
    workflow steps of inspections, swaps and dispatches, and the exact effect
    of the batch operations and of an approved swap. *)
From S2P Require Import Prelude Keyed GoText GoTime GoJson FireModel FireService FireStations.
From S2P Require Import FireDuty FireExtinguishers FireApply FireInvariant FireDutyProofs.
From S2P Require Import FireEvolution.

(** ** Following a record through a change *)

(** What became of the record [o]: gone, untouched, or at its next version. *)
Definition versioned {A} `{FireRecorded A} (now : Z) (l l' : list A) : Prop :=
  ∀ o, o ∈ l → ID o ∉ keys l' ∨ ∃ v, v ∈ l' ∧ ID v = ID o ∧
    (v = o ∨ frec v = advance (frec o) now).

(** Records are kept, one step at most, and additions are fresh. *)
Definition tracked {A} `{FireRecorded A} (now : Z) (new : A → Prop) (step : A → A → Prop)
    (l l' : list A) : Prop :=
  (∀ o, o ∈ l → ∃ v, v ∈ l' ∧ ID v = ID o ∧
     (v = o ∨ (frec v = advance (frec o) now ∧ step o v))) ∧
  (∀ v, v ∈ l' → ID v ∈ keys l ∨ (fresh_record now (frec v) ∧ new v)).

Section edits.
Context {A : Type} `{FireRecorded A}.
Implicit Types l : list A.

Lemma advance_ID (r : FireRecord) now : r_ID (advance r now) = r_ID r.
Proof. done. Qed.

Lemma edit_set_elem l i o v now :
  NoDup (keys l) → l !! i = Some o → frec v = advance (frec o) now →
  ∀ x, x ∈ l → ∃ y, y ∈ <[i:=v]> l ∧ ID y = ID x ∧ (y = x ∨ (x = o ∧ y = v)).
Proof.
  intros Hnd Hi Hv x [j Hj]%list_elem_of_lookup_1.
  assert (Hid : ID v = ID o) by (unfold key, fire_keyed; by rewrite Hv).
  destruct (decide (i = j)) as [->|Hne].
  - assert (x = o) as -> by congruence. exists v. split; [|auto].
    eapply list_elem_of_lookup_2, list_lookup_insert_eq. by eapply lookup_lt_Some.
  - exists x. split; [|auto]. eapply list_elem_of_lookup_2. by rewrite list_lookup_insert_ne.
Qed.

Lemma edit_versioned now new step b l l' :
  NoDup (keys l) → edit now new step b l l' → versioned now l l'.
Proof.
  intros Hnd He. revert Hnd. destruct He as [l1 vs Hvs|l1 i o v Hi Hv _|l1 i _]; intros Hnd x Hx.
  - right. exists x. split; [set_solver|auto].
  - right. destruct (edit_set_elem _ _ _ _ _ Hnd Hi Hv x Hx) as (y & Hy & Hid & [->|[-> ->]]); eauto.
  - destruct (decide (ID x ∈ keys (remove_at i l1))) as [Hin|Hout]; [right|by left].
    apply list_elem_of_fmap in Hin as (y & Hid & Hy). pose proof (elem_of_delete_list _ _ _ Hy) as Hy'.
    exists y. split; [done|]. split; [done|]. left.
    apply (get_by_elem_of _ _ Hnd) in Hy', Hx. congruence.
Qed.

Lemma edit_tracked now new step l l' :
  NoDup (keys l) → edit now new step false l l' → tracked now new step l l'.
Proof.
  intros Hnd He. revert Hnd. destruct He as [l1 vs Hvs|l1 i o v Hi Hv Hstep|l1 i ?];
    intros Hnd; [..|done].
  - split.
    + intros x Hx. exists x. split; [set_solver|auto].
    + intros x [Hx|Hx]%elem_of_app; [left; by apply list_elem_of_fmap_2|right; by apply Hvs].
  - split.
    + intros x Hx.
      destruct (edit_set_elem _ _ _ _ _ Hnd Hi Hv x Hx) as (y & Hy & Hid & [->|[-> ->]]); eauto 6.
    + intros x Hx%elem_of_insert_list. left. destruct Hx as [->|(j & _ & Hj)].
      * assert (ID v = ID o) as -> by (unfold key, fire_keyed; by rewrite Hv).
        apply list_elem_of_fmap_2. by eapply list_elem_of_lookup_2.
      * apply list_elem_of_fmap_2. by eapply list_elem_of_lookup_2.
Qed.
End edits.

(** ** The properties *)

Section with_platform.
Context `{Platform}.

(** Optimistic concurrency of every record: after an accepted request a
    record of any of the nine collections is untouched, removed, or at exactly
    the next version with its identity and creation time kept and the
    request's time as its update time. *)
Theorem request_versions actor action id body now n s r w' :
  wf n s → mutate actor action id body now (mk_world s n) = Ok (r, w') →
  let s' := w_state w' in
  versioned now (Stations s) (Stations s') ∧ versioned now (Personnel s) (Personnel s') ∧
  versioned now (Equipment s) (Equipment s') ∧ versioned now (Dispatches s) (Dispatches s') ∧
  versioned now (Shifts s) (Shifts s') ∧ versioned now (Assignments s) (Assignments s') ∧
  versioned now (Swaps s) (Swaps s') ∧ versioned now (Extinguishers s) (Extinguishers s') ∧
  versioned now (Inspections s) (Inspections s').
Proof.
  intros [[] _ _ _ _ _] Hr%mutate_changes. destruct Hr. cbn in *.
  split_and!; (eapply edit_versioned; [|eassumption]);
    match goal with Hk : keyed _ ?l |- NoDup (keys ?l) => apply Hk end.
Qed.

(** The inspection workflow as a state machine: no request removes a
    task; a task is untouched or takes one step of inspect, rectify, review or
    cancel from the right status, with the actor recorded and the assignment
    data kept; new tasks are pending and without rectifications. *)
Theorem inspection_lifecycle actor action id body now n s r w' :
  wf n s → mutate actor action id body now (mk_world s n) = Ok (r, w') →
  tracked now (task_created actor) (task_step actor now) (Inspections s) (Inspections (w_state w')).
Proof.
  intros [[] _ _ _ _ _] Hr%mutate_changes. destruct Hr. cbn in *.
  eapply edit_tracked; [|eassumption]. by apply wk_inspections.
Qed.

(** A closed inspection, a decided swap and a returned dispatch are
    final: no request changes or removes them. *)
Theorem closed_records_final actor action id body now n s r w' :
  wf n s → mutate actor action id body now (mk_world s n) = Ok (r, w') →
  (∀ t, t ∈ Inspections s → ¬ inspectionOpen t → t ∈ Inspections (w_state w')) ∧
  (∀ x, x ∈ Swaps s → sw_Status x ≠ "pending" → x ∈ Swaps (w_state w')) ∧
  (∀ d, d ∈ Dispatches s → di_Status d ≠ "dispatched" → d ∈ Dispatches (w_state w')).
Proof.
  intros [[] _ _ _ _ _] Hr%mutate_changes. destruct Hr. cbn in *.
  apply edit_tracked in ev_inspections as [Ht _]; [|by apply wk_inspections].
  apply edit_tracked in ev_swaps as [Hs _]; [|by apply wk_swaps].
  apply edit_tracked in ev_dispatches as [Hd _]; [|by apply wk_dispatches].
  split_and!.
  - intros t Hin Hclosed. destruct (Ht t Hin) as (v & Hv & _ & [<-|(_ & _ & Hm)]); [done|].
    exfalso. apply Hclosed. unfold inspectionOpen.
    destruct Hm as [? Ho|? Ho|? ? ? ? Ho|]; try done; by rewrite Ho.
  - intros x Hin Hdec. by destruct (Hs x Hin) as (v & Hv & _ & [<-|(_ & [? _])]).
  - intros d Hin Hret. by destruct (Hd d Hin) as (v & Hv & _ & [<-|(_ & [? _])]).
Qed.

(** ** Batches *)

(** The saved assignment is the requested one with its notes trimmed. *)
Definition same_duty (item v : DutyAssignment) : Prop :=
  as_StationID v = as_StationID item ∧ as_ShiftID v = as_ShiftID item ∧
  as_PersonnelIDs v = as_PersonnelIDs item ∧ as_StartAt v = as_StartAt item ∧
  as_EndAt v = as_EndAt item ∧ as_Notes v = trim_space (as_Notes item).

(** The aggregate with some more assignments. *)
Definition with_assignments (s : FireSafetyState) (vs : list DutyAssignment) : FireSafetyState :=
  s <| Assignments ::= (λ l, l ++ vs) |>.

Lemma assignment_valid_ext s s' v v' ex :
  assignment_valid s v ex → Stations s' = Stations s → Shifts s' = Shifts s →
  Personnel s' = Personnel s → Assignments s' = Assignments s →
  as_StationID v' = as_StationID v → as_ShiftID v' = as_ShiftID v →
  as_PersonnelIDs v' = as_PersonnelIDs v → as_StartAt v' = as_StartAt v →
  as_EndAt v' = as_EndAt v → assignment_valid s' v' ex.
Proof.
  intros [] Hst Hsh Hpe Has Hv1 Hv2 Hv3 Hv4 Hv5.
  unfold clash, on_station, station_enabled in *.
  split; unfold clash, on_station, station_enabled;
    rewrite ?Hst, ?Hsh, ?Hpe, ?Has, ?Hv1, ?Hv2, ?Hv3, ?Hv4, ?Hv5; done.
Qed.

Lemma text_trim v label required max s : text v label required max = Ok s → s = trim_space v.
Proof. unfold text. intros Hr. inv_ok Hr. done. Qed.

Lemma with_assignments_app s vs1 vs2 :
  with_assignments (with_assignments s vs1) vs2 = with_assignments s (vs1 ++ vs2).
Proof. unfold with_assignments, set. cbn. by rewrite app_assoc. Qed.

Lemma add_assignments_items now problems created items w pc w' :
  add_assignments now problems created items w = Ok (pc, w') →
  ∃ ps vs, pc = (problems ++ ps, created ++ vs) ∧ (ps = [] →
    w_state w' = with_assignments (w_state w) vs ∧ length vs = length items ∧
    ∀ k v, vs !! k = Some v →
      assignment_valid (with_assignments (w_state w) (take k vs)) v "" ∧
      fresh_record now (as_FireRecord v) ∧ ∃ item, items !! k = Some item ∧ same_duty item v).
Proof.
  revert problems created w. induction items as [|item items IH]; intros problems created w Hr;
    cbn [add_assignments] in Hr; inv_ok Hr.
  { exists [], []. rewrite !app_nil_r. split; [done|]. intros _. split; [|done].
    destruct w as [[] n]. unfold with_assignments, set. cbn. by rewrite app_nil_r. }
  apply text_trim in Hr0 as ->.
  destruct (validateAssignment _ _ _) as [[]|e] eqn:Hv.
  - inv_ok Hr. match goal with Hrec : record _ _ _ _ = Ok _ |- _ =>
      pose proof (fresh_of_record _ _ _ _ _ Hrec) as Hfresh; apply record_state in Hrec as Hw end.
    apply validateAssignment_iff in Hv.
    apply IH in Hr as (ps & vs & -> & Hps). cbn [w_state] in Hps.
    set (v0 := item <| as_Notes := _ |> <| as_FireRecord := _ |>) in *.
    change (set Assignments (λ l, l ++ [v0]) (w_state w)) with (with_assignments (w_state w) [v0]) in Hps.
    exists ps, (v0 :: vs). split; [by rewrite <-(app_assoc created)|].
    intros Hnil. destruct (Hps Hnil) as (Hs & Hlen & Hall). rewrite with_assignments_app in Hs.
    split; [done|]. split; [cbn; by rewrite Hlen|]. intros [|k] v Hk; cbn in Hk.
    + injection Hk as <-. split; [|by split; [|exists item]].
      eapply assignment_valid_ext; [exact Hv|..]; try done. cbn. by rewrite app_nil_r.
    + destruct (Hall k v Hk) as (Hval & ? & ?). rewrite with_assignments_app in Hval. done.
  - case_decide; [|done]. apply IH in Hr as (ps & vs & -> & _). eexists (_ :: ps), vs.
    split; [by rewrite <-(app_assoc problems)|done].
Qed.

(** A batch of assignments is all or nothing and equivalent to saving its
    items one after the other: when it is accepted, every item was saved in
    order, each valid against the aggregate that already holds the previous
    ones; otherwise nothing is saved. *)
Theorem createAssignments_sequential body now w r w' :
  createAssignments body now w = Ok (r, w') →
  ∃ items created, read decode_batch_assignments [] body = Ok items ∧
    r = RAssignments created (Z.of_nat (length items)) ∧
    w_state w' = with_assignments (w_state w) created ∧
    (1 ≤ length items ≤ 62)%nat ∧ length created = length items ∧
    ∀ k v, created !! k = Some v →
      assignment_valid (with_assignments (w_state w) (take k created)) v "" ∧
      fresh_record now (as_FireRecord v) ∧ ∃ item, items !! k = Some item ∧ same_duty item v.
Proof.
  intros Hr. unfold createAssignments in Hr. inv_ok Hr. destruct a1 as [problems created].
  inv_ok Hr. apply dec_stable in Hr3. apply add_assignments_items in Hr2 as (ps & vs & Heq & Hps).
  injection Heq as -> ->. cbn in Hr3. destruct (Hps Hr3) as (Hs & Hlen & Hall).
  exists a, vs. rewrite <-Hlen. split_and!; try done.
  - destruct a; [|cbn in *; lia]. tauto.
  - unfold maxBatchAssignments in Hr1. lia.
Qed.

(** The task of one item of a batch is about that extinguisher. *)
Lemma read_task_body in_ id v :
  read decode_FireInspection zero_FireInspection (task_body in_ id) = Ok v →
  in_ExtinguisherID v = id ∧ in_AssigneeID v = bi_AssigneeID in_ ∧ in_DueAt v = bi_DueAt in_.
Proof.
  intros Hr. unfold read, task_body, raw_of in Hr. inv_ok Hr. cbn [raw_doc mbind option_bind] in Hr.
  destruct (decode_FireInspection _ _) as [v'|] eqn:Hd; [|done]. injection Hr as ->.
  assert (H1 : struct_field json_FireInspection "assigneeId" = Some (at_field in_AssigneeID dec_string))
    by reflexivity.
  assert (H2 : struct_field json_FireInspection "dueAt" = Some (at_field in_DueAt dec_int64))
    by reflexivity.
  assert (H3 : struct_field json_FireInspection "extinguisherId"
    = Some (at_field in_ExtinguisherID dec_string)) by reflexivity.
  assert (H4 : struct_field json_FireInspection "notes" = Some (at_field in_Notes dec_string))
    by reflexivity.
  unfold decode_FireInspection, dec_struct in Hd. cbn [foldl] in Hd.
  unfold dec_member in Hd. cbn [fst] in Hd. rewrite H1, H2, H3, H4 in Hd. clear H1 H2 H3 H4.
  unfold at_field, dec_string, dec_int64, jint in Hd. cbn in Hd. unfold number_int64 in Hd.
  destruct (decide (in_int64 _)) in Hd; [|done]. cbn in Hd. injection Hd as <-. cbn.
  split; [done|]. split; [done|]. destruct (bi_DueAt in_) as [| |]; cbn; lia.
Qed.

Lemma createInspection_about actor in_ id now w v w' :
  createInspection actor (task_body in_ id) now w = Ok (v, w') →
  in_ExtinguisherID v = id ∧ in_AssigneeID v = bi_AssigneeID in_ ∧ in_DueAt v = bi_DueAt in_.
Proof.
  intros Hr. unfold createInspection in Hr. inv_ok Hr.
  destruct (extinguisher _ _) as [[i e]|]; inv_ok Hr.
  destruct (personnel _ _) as [[j p]|]; inv_ok Hr. by eapply read_task_body in Hr0.
Qed.

Lemma add_inspections_accounts actor in_ now created skips ids w cs w' :
  add_inspections actor in_ now created skips ids w = Ok (cs, w') →
  ∃ vs ss, cs = (created ++ vs, skips ++ ss) ∧
    ids ≡ₚ (in_ExtinguisherID <$> vs) ++ (sk_ID <$> ss) ∧
    each (λ v, in_AssigneeID v = bi_AssigneeID in_ ∧ in_DueAt v = bi_DueAt in_) vs.
Proof.
  revert created skips w. induction ids as [|i ids IH]; intros created skips w Hr;
    cbn [add_inspections] in Hr; inv_ok Hr.
  { exists [], []. rewrite !app_nil_r. split; [done|]. split; [done|apply each_nil]. }
  unfold attempt in Hr0. destruct (createInspection _ _ _ _) as [[t w1]|e] eqn:Hc;
    injection Hr0 as <- <-.
  - apply createInspection_about in Hc as (Hid & Ht).
    apply IH in Hr as (vs & ss & -> & Hp & Hvs). exists (t :: vs), ss.
    split; [by rewrite <-(app_assoc created)|]. split; [|by apply each_cons].
    cbn. by rewrite Hid, Hp.
  - case_decide; inv_ok Hr. apply IH in Hr as (vs & ss & -> & Hp & Hvs). eexists vs, (_ :: ss).
    split; [by rewrite <-(app_assoc skips)|]. split; [|done]. cbn. rewrite Hp.
    by rewrite <-Permutation_middle.
Qed.

(** A batch of inspections accounts for every requested extinguisher
    exactly once: it got a pending task for the requested assignee and
    deadline, appended to the aggregate, or it is reported as skipped; and at
    least one task was created. *)
Theorem createInspections_accounts actor body now w r w' :
  createInspections actor body now w = Ok (r, w') →
  ∃ in_ created skips,
    read decode_batch_input (mk_batch_input [] "" 0 "") body = Ok in_ ∧
    r = RInspections created (Z.of_nat (length created)) skips ∧ created ≠ [] ∧
    NoDup (bi_ExtinguisherIDs in_) ∧
    bi_ExtinguisherIDs in_ ≡ₚ (in_ExtinguisherID <$> created) ++ (sk_ID <$> skips) ∧
    Z.of_nat (length (bi_ExtinguisherIDs in_)) = Z.of_nat (length created) + Z.of_nat (length skips) ∧
    w_state w' = (w_state w) <| Inspections ::= (λ l, l ++ created) |> ∧
    each (λ v, fresh_record now (in_FireRecord v) ∧ task_created actor v ∧
      in_AssigneeID v = bi_AssigneeID in_ ∧ in_DueAt v = bi_DueAt in_) created.
Proof.
  intros Hr. unfold createInspections in Hr. inv_ok Hr. destruct a2 as [created skips].
  inv_ok Hr. apply uniqueIDs_ok in Hr2 as (_ & _ & Hnd & _).
  match goal with Ha : add_inspections _ _ _ _ _ _ _ = Ok _ |- _ =>
    pose proof Ha as Hb; apply add_inspections_adds in Ha as (vs & Hvs & Hcs & Hs);
    apply add_inspections_accounts in Hb as (vs' & ss & Heq & Hp & Hin) end.
  injection Heq as -> ->. cbn in Hcs. subst vs'. exists a, vs, ss. split_and!; try done.
  - rewrite Hp, length_app, !length_fmap. lia.
  - intros v Hv. by destruct (Hvs v Hv), (Hin v Hv).
Qed.

(** ** Swaps *)

(** An approved review carries the swap out: the swap was pending and
    requested by somebody else, its assignment has not ended and holds the one
    person but not the other; afterwards the assignment, at its next version,
    has the substitute in the place of the original person, is still valid,
    and the swap is closed.  A rejection closes the swap and changes no
    assignment. *)
Theorem reviewSwap_effect actor id body now approved note n s r w' :
  NoDup (keys (Assignments s)) → readReview body = Ok (approved, note) →
  reviewSwap actor id body now (mk_world s n) = Ok (r, w') →
  ∃ v, get_by (Swaps s) id = Some v ∧ sw_Status v = "pending" ∧ sw_RequestedBy v ≠ actor ∧
  if approved : bool then ∃ a, swap_valid s v now a ∧
    ∀ i, get_by (Assignments (w_state w')) i =
      if decide (i = ID a) then
        Some (a <| as_PersonnelIDs ::= swap_personnel (sw_FromPersonnelID v) (sw_ToPersonnelID v) |>
                <| as_FireRecord ::= (λ r, advance r now) |>)
      else get_by (Assignments s) i
  else Assignments (w_state w') = Assignments s.
Proof.
  intros Hnd Hrev Hr. unfold reviewSwap in Hr. inv_ok Hr. rewrite Hrev in Hr0.
  injection Hr0 as <-. inv_ok Hr. destruct (find_first _ (Swaps _)) as [[i v]|] eqn:Hf; inv_ok Hr.
  apply find_get_by in Hf as (_ & <- & Hv). exists v.
  split; [done|]. split; [by apply dec_stable|]. split; [done|].
  match goal with Hc : _ (mk_world s n) = Ok (?s', _) |- _ => rename Hc into Hcase end.
  destruct approved; inv_ok Hcase; [|done].
  match goal with Hn : swappedAssignment _ _ _ = Ok _ |- _ =>
    apply swappedAssignment_iff in Hn as (asg & Hsv & ->) end.
  exists asg. split; [done|]. intros k.
  pose proof (sv_found _ _ _ _ Hsv) as Hget.
  destruct (assignment _ _) as [[j x]|] eqn:Hj; inv_ok Hcase.
  - apply find_get_by in Hj as (Hj & _ & Hx). assert (x = asg) as -> by congruence. cbn.
    match goal with |- get_by (<[j:=?y]> ?l) _ = _ =>
      change (<[j:=y]> l) with (upsert (Some (j, asg)) y l) end.
    by rewrite get_by_upsert.
  - unfold assignment in Hj. apply get_by_find in Hget as [j Hget]. congruence.
Qed.
End with_platform.
