(* ===== verification/FireApplyTheorems.v ===== *)
(** The contract of [Apply] and [Snapshot] as seen by their callers. *)
From S2P Require Import Prelude GoText GoTime GoJson Keyed Optimistic FireModel FireService.
From S2P Require Import FireStations FireDuty FireExtinguishers FireApply FireInvariant.
From S2P Require Import FireTheorems.

(** The loop of [Apply] and the snapshot cache of the fire safety service,
    proved against the theory of optimistic locking. *)

Section with_platform.
Context `{Platform}.

(** A cached document is never newer than the stored one and equals it when
    the revisions agree. *)
#[export] Instance fire_coherence : Coherence FireSafetyState fire_cache := {|
  doc_ok := wf;
  coherent db cache := ∀ t c, cache !! t = Some c →
    Revision c ≤ stored_revision t db ∧ (Revision c = stored_revision t db → c = load t db) |}.

#[export] Instance fire_coherence_laws : CoherenceLaws FireSafetyState fire_cache.
Proof.
  split.
  - intros n m s Hnm. by apply wf_mono.
  - intros n z s. apply wf_revision.
  - intros db c m Hc. exact Hc.
  - intros t s db c Hc t' x Hl. destruct (Hc t' x Hl) as [Hle Heq].
    destruct (decide (t = t')) as [<-|Hne].
    + rewrite revision_commit. split; [lia|]. intros ?. lia.
    + by rewrite revision_commit_ne, load_commit_ne.
Qed.

Section rely.
Context (sched : schedule FireSafetyState fire_cache) (k : Z) (Hrely : rely k sched).

(** Remembering the stored document keeps the cache coherent. *)
Lemma remember_ok t state s r s' :
  sane_io k s → state = LoadFireSafetyState t (io_db s) → remember t state s = (r, s') →
  r = Ok tt ∧ io_db s' = io_db s ∧ io_tick s' = io_tick s ∧ sane_io k s'.
Proof.
  intros Hs -> Hr. eapply set_cache_ok in Hr; [exact Hr|done|].
  intros t' c. unfold remembered.
  assert (Hins : <[t := LoadFireSafetyState t (io_db s)]> (io_cache s) !! t' = Some c →
    Revision c ≤ stored_revision t' (io_db s) ∧
    (Revision c = stored_revision t' (io_db s) → c = load t' (io_db s))).
  { rewrite lookup_insert_Some. intros [[<- <-]|[_ Hl]]; [done|].
    by apply (sane_coherent _ _ _ _ Hs). }
  destruct (io_cache s !! t); [case_decide|]; try done.
  apply (sane_coherent _ _ _ _ Hs).
Qed.

(** A snapshot is the document stored when it is returned. *)
Lemma Snapshot_ok t s r s' :
  sane_io k s → Snapshot sched t s = (r, s') →
  sane_io k s' ∧ quiet sched (io_db s) (io_db s') ∧ (io_tick s' ≤ io_tick s + 2)%nat ∧
  (∀ a, r = Ok a → a = LoadFireSafetyState t (io_db s')).
Proof.
  intros Hs Hr. unfold Snapshot in Hr. case_decide.
  { injection Hr as <- <-. split; [done|]. split; [apply rtc_refl|]. split; [lia|naive_solver]. }
  apply IO_bind_inv in Hr as [(e & Hc & ->)|(rev & s1 & Hc & Hr)];
    apply (call_read sched k Hrely) in Hc as (Hs1 & Hq1 & Ht1 & Hrev); try done.
  { split; [done|]. split; [done|]. split; [lia|naive_solver]. }
  specialize (Hrev _ eq_refl). subst rev.
  apply IO_bind_inv in Hr as [(e & Hc & ->)|(cache & s2 & Hc & Hr)]; [naive_solver|].
  injection Hc as <- <-.
  assert (Hreload : ∀ r s', (state ← call sched (λ db, (LoadFireSafetyState t db, db));
      _ ← remember t state; mret state) s1 = (r, s') →
    sane_io k s' ∧ quiet sched (io_db s) (io_db s') ∧ (io_tick s' ≤ io_tick s + 2)%nat ∧
    (∀ a, r = Ok a → a = LoadFireSafetyState t (io_db s'))).
  { clear Hr r s'. intros r s' Hr.
    apply IO_bind_inv in Hr as [(e & Hc & ->)|(state & s2 & Hc & Hr)];
      apply (call_read sched k Hrely) in Hc as (Hs2 & Hq2 & Ht2 & Hst); try done.
    { split; [done|]. split; [by etrans|]. split; [lia|naive_solver]. }
    apply IO_bind_inv in Hr as [(e & Hc & ->)|(u & s3 & Hc & Hr)];
      apply remember_ok in Hc as (Hu & Hdb & Ht & Hs3); try done; try by apply Hst.
    injection Hr as <- <-. rewrite Hdb. split; [done|]. split; [by etrans|].
    split; [lia|]. intros a [= <-]. by apply Hst. }
  destruct (io_cache s1 !! t) as [c|] eqn:Hcache; [|by apply Hreload].
  case_decide as Hhit; [|by apply Hreload].
  injection Hr as <- <-. split; [done|]. split; [done|]. split; [lia|].
  intros a [= <-]. destruct (sane_coherent _ _ _ _ Hs1 t c Hcache) as [_ Heq].
  apply Heq, Hhit.
Qed.

Lemma mutate_handler_ok `{!PlatformLaws} actor action id body :
  handler_ok (C := fire_cache) (mutate actor action id body).
Proof.
  intros now w a w' Hr. split; [by eapply mutate_grows|]. by apply (mutate_preserves _ _ _ _ _ _ _ _ Hr).
Qed.

Lemma apply_attempts_ok `{!PlatformLaws} attempts t actor action id body s r s' :
  sane_io k s → k + Z.of_nat (io_tick s) + 3 * Z.of_nat attempts < two63 - 1 →
  apply_attempts sched attempts t actor action id body s = (r, s') →
  sane_io k s' ∧ (io_tick s' ≤ io_tick s + 3 * attempts)%nat ∧
  linearized sched t (mutate actor action id body) (io_db s) (io_db s') r.
Proof.
  pose proof (mutate_handler_ok actor action id body) as Hok.
  revert s. induction attempts as [|attempts IH]; intros s Hs Hk Hr; cbn [apply_attempts] in Hr.
  { injection Hr as <- <-. split; [done|]. split; [lia|apply rtc_refl]. }
  apply IO_bind_inv in Hr as [(e & Hc & ->)|(u & s1 & Hc & Hr)]; unfold ctx_err in Hc;
    destruct (s_ctx _ _); simplify_eq.
  { split; [done|]. split; [lia|apply rtc_refl]. }
  apply IO_bind_inv in Hr as [(e & Hc & ->)|(base & s2 & Hc & Hr)];
    apply Snapshot_ok in Hc as (Hs2 & Hq2 & Ht2 & Hbase); try done.
  { split; [done|]. split; [lia|done]. }
  specialize (Hbase _ eq_refl). subst base.
  apply IO_bind_inv in Hr as [(e & Hc & ->)|([resp state] & s3 & Hrun & Hr)].
  { apply (run_handler_ok sched k) in Hc as (Hs3 & Hq3 & Ht3 & _); try done.
    split; [done|]. split; [lia|]. cbn. by etrans. }
  assert (Hsaved : ∀ b s4, call sched (SaveFireSafetyFrom t (LoadFireSafetyState t (io_db s2)) state) s3
      = (b, s4) → sane_io k s4 ∧ io_tick s4 = Datatypes.S (io_tick s2) ∧
    match b with
    | Ok true => linearized sched t (mutate actor action id body) (io_db s2) (io_db s4) (Ok resp) ∧
        LoadFireSafetyState t (io_db s4) =
          state <| Revision := wrap64 (Revision (LoadFireSafetyState t (io_db s2)) + 1) |>
    | _ => quiet sched (io_db s2) (io_db s4)
    end).
  { intros b s4 Hcall. eapply (attempt_ok sched k Hrely) in Hrun; [|done|done|lia|exact Hcall].
    exact Hrun. }
  apply IO_bind_inv in Hr as [(e & Hc & ->)|(saved & s4 & Hc & Hr)]; unfold map_err in Hc;
    destruct (call _ _ _) as [[b|e'] s4'] in Hc, Hsaved; try done; injection Hc as <- <-;
    destruct (Hsaved _ _ eq_refl) as (Hs4 & Ht4 & Hq4).
  { split; [done|]. split; [lia|]. cbn. by etrans. }
  destruct b.
  - destruct Hq4 as [Hlin Hload].
    apply IO_bind_inv in Hr as [(e & Hc & ->)|(v & s5 & Hc & Hr)];
      apply remember_ok in Hc as (Hv & Hdb5 & Ht5 & Hs5); try done.
    injection Hr as <- <-. split; [done|]. split; [lia|]. rewrite Hdb5.
    by eapply linearized_quiet.
  - eapply IH in Hr as (Hs5 & Ht5 & Hlin); [|done|lia]. split; [done|]. split; [lia|].
    eapply linearized_quiet; [|exact Hlin]. by etrans.
Qed.
End rely.
End with_platform.

Section with_platform.
Context `{PlatformLaws}.

(** C7: [Apply] is linearizable under any interference of other requests that
    keep the rely conditions: it returns after at most 24 store calls; an
    error leaves no write of its own; a result is the handler's result on the
    document stored at the moment of the one commit, and the stored document
    becomes the handler's with the next revision.  The database stays
    well-formed, the cache coherent, and the call itself only moves documents
    the way the others may rely on. *)
Theorem Apply_linearizes sched k t actor action id body s r s' :
  rely k sched → sane_io k s → k + Z.of_nat (io_tick s) + 24 < two63 - 1 →
  Apply sched t actor action id body s = (r, s') →
  sane_io k s' ∧ moves (io_db s) (io_db s') ∧ (io_tick s' ≤ io_tick s + 24)%nat ∧
  linearized sched t (mutate actor action id body) (io_db s) (io_db s') r.
Proof.
  intros Hrely Hs Hk Hr. unfold Apply in Hr.
  assert (Hstop : ∀ e, (r, s') = (Err e, s) → sane_io k s' ∧ moves (io_db s) (io_db s') ∧
    (io_tick s' ≤ io_tick s + 24)%nat ∧ linearized sched t (mutate actor action id body) (io_db s) (io_db s') r).
  { intros e [= -> ->]. split; [done|]. split; [done|]. split; [lia|apply rtc_refl]. }
  case_decide; [by eapply Hstop|]. case_decide; [by eapply Hstop|].
  apply (apply_attempts_ok sched k Hrely) in Hr as (Hs' & Ht & Hlin); [|done|lia].
  split; [done|]. split; [|by split; [lia|]].
  destruct r as [resp|e]; [|by eapply quiet_moves].
  destruct Hlin as (db1 & m & n & w' & Hq & _ & _ & ->).
  etrans; [by eapply quiet_moves|apply moves_commit].
Qed.

(** A snapshot taken under interference is the document that is stored
    when it is returned, however stale the cache was. *)
Theorem Snapshot_current sched k t s state s' :
  rely k sched → sane_io k s → Snapshot sched t s = (Ok state, s') →
  state = LoadFireSafetyState t (io_db s') ∧ quiet sched (io_db s) (io_db s') ∧ sane_io k s'.
Proof.
  intros Hrely Hs Hr. apply (Snapshot_ok sched k Hrely) in Hr as (Hs' & Hq & _ & Hst); [|done].
  split; [by apply Hst|done].
Qed.
End with_platform.

Section alone.
Context `{Platform}.

Lemma Snapshot_alone sched t (s : fire_io) :
  calm sched → coherent (io_db s) (io_cache s) → trim_space t ≠ "" →
  ∃ s1, Snapshot sched t s = (Ok (LoadFireSafetyState t (io_db s)), s1) ∧ io_db s1 = io_db s.
Proof.
  intros Hcalm Hc Ht. unfold Snapshot. rewrite decide_False by done.
  unfold mbind, IO_bind. rewrite call_alone by done. cbn.
  destruct (io_cache s !! t) as [c|] eqn:Hl; [case_decide as Hhit|].
  - destruct (Hc t c Hl) as [_ Heq]. rewrite (Heq (proj2 Hhit)). by eexists.
  - rewrite call_alone by done. by eexists.
  - rewrite call_alone by done. by eexists.
Qed.

(** Without interference [Apply] is the handler: it returns the handler's
    result or error in its first attempt, a result is stored under the next
    revision and no other tenant changes, an error changes nothing. *)
Theorem Apply_alone sched t actor action id body (s : fire_io) :
  calm sched → coherent (io_db s) (io_cache s) →
  trim_space t ≠ "" → trim_space actor ≠ "" → raw_len body ≤ 131072 →
  ∃ s' m, let w := mk_world (LoadFireSafetyState t (io_db s)) (db_next (io_db s)) in
  match mutate actor action id body (s_now sched m) w with
  | Ok (resp, w') => Apply sched t actor action id body s = (Ok resp, s') ∧
      io_db s' = mk_database
        (<[t := (w_state w') <| Revision := wrap64 (FireSafetyRevision t (io_db s) + 1) |>]>
          (db_states (io_db s))) (w_next w')
  | Err e => Apply sched t actor action id body s = (Err e, s') ∧ io_db s' = io_db s
  end.
Proof.
  intros Hcalm Hc Ht Ha Hlen.
  destruct (Snapshot_alone sched t s Hcalm Hc Ht) as (s1 & Hsnap & Hdb).
  set (w := mk_world _ _).
  assert (Happly : Apply sched t actor action id body s
    = apply_attempts sched 8 t actor action id body s).
  { unfold Apply. rewrite decide_False by tauto. by rewrite decide_False by lia. }
  destruct (mutate actor action id body (s_now sched (io_tick s1)) w) as [[resp w']|e] eqn:Hm;
    eexists _, (io_tick s1); cbn zeta; rewrite Hm, Happly; cbn [apply_attempts];
    unfold mbind, IO_bind, ctx_err; rewrite calm_ctx by done; rewrite Hsnap;
    unfold run_handler; rewrite Hdb; fold w; rewrite Hm.
  - unfold map_err. rewrite call_alone by done. cbn.
    unfold SaveFireSafetyFrom, SaveFireSafetyState, save. rewrite decide_False by (cbn; tauto).
    by split.
  - by split.
Qed.
End alone.
