(* ===== verification/FireWitness.v ===== *)
(** The theorems about the fire safety service applied to the concrete
    history of Scenario. *)
From S2P Require Import Prelude Keyed GoText GoTime GoJson FireModel FireService FireStations.
From S2P Require Import FireDuty FireExtinguishers FireApply FireInvariant FireDutyProofs.
From S2P Require Import FireTheorems FireEvolution FireHistory FireApplyTheorems Scenario.
From S2P Require Import Optimistic.

#[local] Existing Instance ascii_platform.
#[local] Existing Instance ascii_laws.

(** The aggregate after the history is reachable. *)
Lemma after_reachable qs :
  match serve_all qs empty_world with Ok _ => True | Err _ => False end →
  reachable (w_next (after qs)) (w_state (after qs)).
Proof.
  unfold after. destruct (serve_all qs empty_world) as [[rs w]|] eqn:Hr; [|done].
  intros _. eapply serve_all_reachable; [apply (reach_empty 0)|exact Hr].
Qed.

Definition base : FireSafetyState := w_state (after history).
Definition base_next : nat := w_next (after history).
Lemma base_reachable : reachable base_next base.
Proof. apply after_reachable. vm_compute. exact I. Qed.

(** A request that is accepted in the aggregate of the history. *)
Definition extra_duty : request :=
  mk_request "admin" "saveAssignment" "" (body (duty ["uuu"] (now0 + hour) (now0 + 3 * hour))) now0.
Definition served (q : request) : world FireSafetyState :=
  match serve q (after history) with Ok (_, w) => w | Err _ => empty_world end.

Lemma mutate_preserves_wf_witness : wf (w_next (served extra_duty)) (w_state (served extra_duty)).
Proof.
  eapply (mutate_preserves_wf "admin" "saveAssignment" "" (q_body extra_duty) now0 base_next base).
  - apply reachable_is_wf, base_reachable.
  - vm_compute. reflexivity.
Defined.

Definition nth_of {A} (zero : A) (l : list A) (i : nat) : A := default zero (l !! i).
Definition duty0 : DutyAssignment := nth_of zero_DutyAssignment (Assignments base) 0.

Ltac in_list := apply list_elem_of_lookup; exists 0%nat; vm_compute; reflexivity.
Ltac by_vm := vm_compute; first [reflexivity|intuition discriminate|intuition congruence].

Lemma reachable_duty_exclusive_witness : duty0 = duty0.
Proof.
  eapply (reachable_duty_exclusive base_next base duty0 duty0 "uu" (now0 + 2 * hour) base_reachable).
  - in_list.
  - in_list.
  - in_list.
  - in_list.
  - by_vm.
  - by_vm.
Defined.

Definition hose : FireEquipment := nth_of zero_FireEquipment (Equipment base) 0.
Lemma reachable_equipment_stock_witness :
  occupiedEquipment base (ID hose) = 4 ∧ 0 ≤ occupiedEquipment base (ID hose) ≤ eq_Quantity hose.
Proof.
  split; [vm_compute; reflexivity|].
  apply (reachable_equipment_stock base_next base hose base_reachable). in_list.
Defined.

Definition drill : FireDispatch := nth_of zero_FireDispatch (Dispatches base) 0.
Lemma reachable_dispatch_exclusive_witness : station_enabled base (di_StationID drill).
Proof.
  eapply (reachable_dispatch_exclusive base_next base drill drill "uuuu" base_reachable);
    first [in_list|vm_compute; reflexivity].
Defined.

Definition task0 : FireInspection := nth_of zero_FireInspection (Inspections base) 0.
Lemma reachable_inspection_unique_witness : task_ready base task0.
Proof.
  eapply (reachable_inspection_unique base_next base task0 task0 base_reachable);
    first [in_list|vm_compute; split; discriminate|reflexivity].
Defined.

(** The swap is approved by somebody else than the one who asked for it. *)
Definition approve_body : raw_message := body [("approved", JBool true); ("version", jint 1)].
Definition approved_world : world FireSafetyState :=
  after (history ++ [mk_request "boss" "reviewSwap" "uuuuuuuuuuu" approve_body now0]).
Definition approved_swap : DutySwap := nth_of zero_DutySwap (Swaps (w_state approved_world)) 0.
Lemma reachable_separation_of_duties_witness :
  sw_Status approved_swap = "approved" ∧ sw_ReviewedBy approved_swap ≠ sw_RequestedBy approved_swap.
Proof.
  split; [vm_compute; reflexivity|].
  refine (proj1 (reachable_separation_of_duties (w_next approved_world) (w_state approved_world) _)
    approved_swap _ _).
  - apply after_reachable. vm_compute. exact I.
  - in_list.
  - vm_compute. discriminate.
Defined.

(** ** The service *)

(** The tenant's document at revision 3, an empty cache. *)
Definition db0 : fire_database := mk_database {[ "t" := base <| Revision := 3 |> ]} base_next.
Definition io0 : fire_io := mk_io db0 ∅ 0.

Definition busy : schedule FireSafetyState fire_cache := busy_schedule 5.
Lemma busy_rely : rely 5 busy.
Proof. apply busy_schedule_rely. Qed.

Lemma load_db0 t : LoadFireSafetyState t db0 = base <| Revision := 3 |> ∨ LoadFireSafetyState t db0 = empty_state.
Proof.
  unfold LoadFireSafetyState, load, db0. cbn. destruct (decide (t = "t")) as [->|Hne].
  - left. by rewrite lookup_singleton_eq.
  - right. by rewrite lookup_singleton_ne.
Qed.

Lemma io0_sane : sane_io 5 io0.
Proof.
  unfold sane_io. change (io_db io0) with db0. split.
  - intros t. change (load t db0) with (LoadFireSafetyState t db0). destruct (load_db0 t) as [-> | ->].
    + apply wf_revision, reachable_is_wf, base_reachable.
    + apply empty_state_wf.
  - intros t c Hl. cbn in Hl. by rewrite lookup_empty in Hl.
  - intros t. change (stored_revision t db0) with (Revision (LoadFireSafetyState t db0)).
    cbn [io_tick io0]. destruct (load_db0 t) as [-> | ->]; cbn; lia.
Qed.

Definition busy_run : res response * fire_io :=
  Apply busy "t" "admin" "saveAssignment" "" (q_body extra_duty) io0.
Definition is_ok {A} (r : res A) : bool := match r with Ok _ => true | Err _ => false end.

Lemma Apply_linearizes_witness :
  is_ok busy_run.1 = true ∧ FireSafetyRevision "t" (io_db busy_run.2) = 5 ∧
  io_tick busy_run.2 = 6%nat ∧
  linearized busy "t" (mutate "admin" "saveAssignment" "" (q_body extra_duty)) db0 (io_db busy_run.2) busy_run.1.
Proof.
  split; [vm_compute; reflexivity|]. split; [vm_compute; reflexivity|].
  split; [vm_compute; reflexivity|].
  eapply (Apply_linearizes busy 5 "t" "admin" "saveAssignment" "" (q_body extra_duty) io0 busy_run.1 busy_run.2);
    [exact busy_rely|exact io0_sane|vm_compute; reflexivity|].
  unfold busy_run. destruct (Apply _ _ _ _ _ _ _); reflexivity.
Defined.

Definition read_run : res FireSafetyState * fire_io := Snapshot busy "t" io0.
Lemma Snapshot_current_witness :
  ∃ state, read_run.1 = Ok state ∧ state = LoadFireSafetyState "t" (io_db read_run.2).
Proof.
  exists (base <| Revision := 3 |>). split; [vm_compute; reflexivity|].
  refine (proj1 (Snapshot_current busy 5 "t" io0 _ read_run.2 busy_rely io0_sane _)).
  vm_compute. reflexivity.
Defined.

Definition still : schedule FireSafetyState fire_cache :=
  mk_schedule (λ _ sh, sh) (λ _, None) (λ _, None) (λ _, now0).
Lemma Apply_alone_witness :
  ∃ s' m, match mutate "admin" "saveAssignment" "" (q_body extra_duty) (s_now still m)
      (mk_world (LoadFireSafetyState "t" db0) (db_next db0)) with
  | Ok (resp, w') => Apply still "t" "admin" "saveAssignment" "" (q_body extra_duty) io0 = (Ok resp, s') ∧
      io_db s' = mk_database
        (<[ "t" := (w_state w') <| Revision := wrap64 (FireSafetyRevision "t" db0 + 1) |>]>
          (db_states db0)) (w_next w')
  | Err e => Apply still "t" "admin" "saveAssignment" "" (q_body extra_duty) io0 = (Err e, s') ∧
      io_db s' = db0
  end.
Proof.
  apply (Apply_alone still "t" "admin" "saveAssignment" "" (q_body extra_duty) io0).
  - by split.
  - apply (sane_coherent _ _ _ _ io0_sane).
  - vm_compute. discriminate.
  - vm_compute. discriminate.
  - vm_compute. discriminate.
Defined.

(** ** Single requests *)

Definition run (q : request) : option (response * world FireSafetyState) :=
  match serve q (after history) with Ok p => Some p | Err _ => None end.
Definition resp_of (q : request) : response :=
  match serve q (after history) with Ok (r, _) => r | Err _ => RDeleted end.

Definition checks : json :=
  JArr ((λ name, JObj [("name", JStr name); ("passed", JBool true)]) <$> StandardChecks).
Definition inspect_request : request :=
  mk_request "ann" "inspect" "uuuuuuuuuu" (body [("checks", checks); ("version", jint 1)]) (now0 + 5).

Lemma request_versions_witness :
  versioned (now0 + 5) (Inspections base) (Inspections (w_state (served inspect_request))).
Proof.
  eapply (request_versions "ann" "inspect" "uuuuuuuuuu" (q_body inspect_request) (now0 + 5)
    base_next base (resp_of inspect_request) (served inspect_request)).
  - apply reachable_is_wf, base_reachable.
  - vm_compute. reflexivity.
Defined.

Lemma inspection_lifecycle_witness :
  tracked (now0 + 5) (task_created "ann") (task_step "ann" (now0 + 5)) (Inspections base)
    (Inspections (w_state (served inspect_request))).
Proof.
  eapply (inspection_lifecycle "ann" "inspect" "uuuuuuuuuu" (q_body inspect_request) (now0 + 5)
    base_next base (resp_of inspect_request) (served inspect_request)).
  - apply reachable_is_wf, base_reachable.
  - vm_compute. reflexivity.
Defined.

(** The dispatch is returned first, then another one is made. *)
Definition return_request : request :=
  mk_request "ann" "returnDispatch" "uuuuuuuu" (body [("summary", JStr "done"); ("version", jint 1)]) now0.
Definition done_world : world FireSafetyState := after (history ++ [return_request; inspect_request]).
Definition done_dispatch : FireDispatch := nth_of zero_FireDispatch (Dispatches (w_state done_world)) 0.
Definition final_world : world FireSafetyState :=
  match serve extra_duty done_world with Ok (_, w) => w | Err _ => empty_world end.

Lemma closed_records_final_witness : done_dispatch ∈ Dispatches (w_state final_world).
Proof.
  eapply (closed_records_final "admin" "saveAssignment" "" (q_body extra_duty) now0
    (w_next done_world) (w_state done_world) (match serve extra_duty done_world with Ok (r, _) => r | Err _ => RDeleted end) final_world).
  - apply reachable_is_wf, after_reachable. vm_compute. exact I.
  - vm_compute. reflexivity.
  - in_list.
  - vm_compute. discriminate.
Defined.

Definition batch_body : raw_message :=
  body [("assignments", JArr [JObj (duty ["uuu"] (now0 + hour) (now0 + 2 * hour));
                              JObj (duty ["uuu"] (now0 + 2 * hour) (now0 + 3 * hour))])].
Lemma createAssignments_sequential_witness :
  ∃ items (created : list DutyAssignment), read decode_batch_assignments [] batch_body = Ok items ∧ length created = 2%nat ∧
    length created = length items.
Proof.
  assert (Hok : is_ok (createAssignments batch_body now0 (after history)) = true) by (vm_compute; reflexivity).
  assert (Htwo : match read decode_batch_assignments [] batch_body with
                 | Ok l => length l | Err _ => 0%nat end = 2%nat) by (vm_compute; reflexivity).
  destruct (createAssignments batch_body now0 (after history)) as [[r w']|e] eqn:Hrun; [clear Hok|discriminate Hok].
  destruct (createAssignments_sequential _ _ _ _ _ Hrun) as (items & created & Hread & _ & _ & _ & Hlen & _).
  exists items, created. split; [exact Hread|]. split; [|exact Hlen]. rewrite Hlen.
  rewrite Hread in Htwo. exact Htwo.
Defined.

Definition tasks_body : raw_message :=
  body [("extinguisherIds", JArr [JStr "uuuuuuuuu"; JStr "uuuuuuuuuuuu"]); ("assigneeId", JStr "uu");
        ("dueAt", jint (now0 + hour))].
Definition two_extinguishers : world FireSafetyState := after (history ++
  [mk_request "admin" "saveExtinguisher" ""
     (body [("code", JStr "E2"); ("location", JStr "hall"); ("type", JStr "co2");
            ("status", JStr "active"); ("stationId", JStr "u"); ("inspectionCycleDays", jint 30)]) now0]).
Lemma createInspections_accounts_witness :
  ∃ in_ created skips, read decode_batch_input (mk_batch_input [] "" 0 "") tasks_body = Ok in_ ∧
    bi_ExtinguisherIDs in_ ≡ₚ (in_ExtinguisherID <$> created) ++ (sk_ID <$> skips) ∧ created ≠ [].
Proof.
  assert (Hok : is_ok (createInspections "admin" tasks_body now0 two_extinguishers) = true) by (vm_compute; reflexivity).
  destruct (createInspections "admin" tasks_body now0 two_extinguishers) as [[r w']|e] eqn:Hrun; [clear Hok|discriminate Hok].
  destruct (createInspections_accounts _ _ _ _ _ _ Hrun)
    as (in_ & created & skips & Hread & _ & Hne & _ & Hp & _).
  exists in_, created, skips. split; [exact Hread|split; [exact Hp|exact Hne]].
Defined.

Lemma reviewSwap_effect_witness :
  ∃ v a, get_by (Swaps base) "uuuuuuuuuuu" = Some v ∧ swap_valid base v now0 a.
Proof.
  assert (Hok : is_ok (reviewSwap "boss" "uuuuuuuuuuu" approve_body now0 (mk_world base base_next)) = true) by (vm_compute; reflexivity).
  destruct (reviewSwap "boss" "uuuuuuuuuuu" approve_body now0 (mk_world base base_next)) as [[r w']|e] eqn:Hrun; [clear Hok|discriminate Hok].
  destruct (reviewSwap_effect "boss" "uuuuuuuuuuu" approve_body now0 true "" base_next base r w')
    as (v & Hv & _ & _ & a & Ha & _).
  - apply (wk_assignments _ _ (wf_k _ _ (reachable_is_wf _ _ base_reachable))).
  - vm_compute. reflexivity.
  - exact Hrun.
  - exists v, a. split; [exact Hv|exact Ha].
Defined.
