(* ===== verification/SitesModel.v ===== *)
(** Site data (internal/model/sites.go): units, buildings, floors with plans
    and the points that place devices, as one tenant document; and the list of
    records that differ between two documents, which the stores write. *)
From S2P Require Import Prelude GoText GoJson Keyed Optimistic.

Record SiteRecord := mk_SiteRecord {
  sr_ID : string; sr_Version : Z; sr_CreatedAt : Z; sr_UpdatedAt : Z; sr_UpdatedBy : string }.
#[export] Instance eta_SiteRecord : Settable SiteRecord := λ v,
  mk_SiteRecord (sr_ID v) (sr_Version v) (sr_CreatedAt v) (sr_UpdatedAt v) (sr_UpdatedBy v).
Definition zero_SiteRecord : SiteRecord := mk_SiteRecord "" 0 0 0 "".

Record SiteUnit := mk_SiteUnit {
  un_SiteRecord : SiteRecord; un_Name : string; un_Code : string; un_Address : string;
  un_Contact : string; un_Phone : string; un_Notes : string }.
#[export] Instance eta_SiteUnit : Settable SiteUnit := λ v,
  mk_SiteUnit (un_SiteRecord v) (un_Name v) (un_Code v) (un_Address v) (un_Contact v)
    (un_Phone v) (un_Notes v).

Record SiteBuilding := mk_SiteBuilding {
  bu_SiteRecord : SiteRecord; bu_UnitID : string; bu_Name : string; bu_Address : string;
  bu_AboveFloors : Z; bu_BelowFloors : Z; bu_Notes : string }.
#[export] Instance eta_SiteBuilding : Settable SiteBuilding := λ v,
  mk_SiteBuilding (bu_SiteRecord v) (bu_UnitID v) (bu_Name v) (bu_Address v)
    (bu_AboveFloors v) (bu_BelowFloors v) (bu_Notes v).

Record FloorPlan := mk_FloorPlan {
  fp_ContentType : string; fp_SHA256 : string; fp_Size : Z; fp_Width : Z; fp_Height : Z;
  fp_UploadedAt : Z }.
#[export] Instance eta_FloorPlan : Settable FloorPlan := λ v,
  mk_FloorPlan (fp_ContentType v) (fp_SHA256 v) (fp_Size v) (fp_Width v) (fp_Height v)
    (fp_UploadedAt v).

Record SiteFloor := mk_SiteFloor {
  fl_SiteRecord : SiteRecord; fl_BuildingID : string; fl_Name : string; fl_Level : Z;
  fl_Plan : option FloorPlan }.
#[export] Instance eta_SiteFloor : Settable SiteFloor := λ v,
  mk_SiteFloor (fl_SiteRecord v) (fl_BuildingID v) (fl_Name v) (fl_Level v) (fl_Plan v).

(** The pointers [X], [Y] and [Plan] are options; the code never writes
    through them. *)
Record SitePoint := mk_SitePoint {
  pt_SiteRecord : SiteRecord; pt_UnitID : string; pt_BuildingID : string; pt_FloorID : string;
  pt_DeviceID : string; pt_ComponentID : string; pt_Name : string;
  pt_X : option float64; pt_Y : option float64 }.
#[export] Instance eta_SitePoint : Settable SitePoint := λ v,
  mk_SitePoint (pt_SiteRecord v) (pt_UnitID v) (pt_BuildingID v) (pt_FloorID v) (pt_DeviceID v)
    (pt_ComponentID v) (pt_Name v) (pt_X v) (pt_Y v).

Record SiteState := mk_SiteState {
  ss_Revision : Z;
  Units : list SiteUnit;
  Buildings : list SiteBuilding;
  Floors : list SiteFloor;
  Points : list SitePoint }.
#[export] Instance eta_SiteState : Settable SiteState := λ v,
  mk_SiteState (ss_Revision v) (Units v) (Buildings v) (Floors v) (Points v).
Definition empty_sites : SiteState := mk_SiteState 0 [] [] [] [].

(** The types that embed [SiteRecord]. *)
Class SiteRecorded (A : Type) := srec : A → SiteRecord.
#[export] Instance srec_SiteUnit : SiteRecorded SiteUnit := un_SiteRecord.
#[export] Instance srec_SiteBuilding : SiteRecorded SiteBuilding := bu_SiteRecord.
#[export] Instance srec_SiteFloor : SiteRecorded SiteFloor := fl_SiteRecord.
#[export] Instance srec_SitePoint : SiteRecorded SitePoint := pt_SiteRecord.
#[export] Instance site_keyed `{SiteRecorded A} : Keyed A := λ v, sr_ID (srec v).
Abbreviation ID := key.

(** ** Alarm locations *)

Record AlarmLocation_t := mk_AlarmLocation {
  al_UnitID : string; al_UnitName : string; al_BuildingID : string; al_BuildingName : string;
  al_FloorID : string; al_FloorName : string; al_PointID : string; al_PointName : string;
  al_X : option float64; al_Y : option float64; al_Current : bool }.
#[export] Instance eta_AlarmLocation : Settable AlarmLocation_t := λ v,
  mk_AlarmLocation (al_UnitID v) (al_UnitName v) (al_BuildingID v) (al_BuildingName v)
    (al_FloorID v) (al_FloorName v) (al_PointID v) (al_PointName v) (al_X v) (al_Y v) (al_Current v).

(** ** Changes between two documents *)

Inductive site_value :=
  | VUnit (v : SiteUnit) | VBuilding (v : SiteBuilding) | VFloor (v : SiteFloor)
  | VPoint (v : SitePoint).

(** [Value] is nil for a delete. *)
Record SiteChange := mk_SiteChange {
  sc_Kind : string; sc_ID : string; sc_Value : option site_value }.

Section diff.
Context `{MapOrder} {T : Type}.

(** [same] is Go's [==] on the record type: it compares the pointers of a
    record, so equal records need not be the same, but the same are equal. *)
Context (same : T → T → bool) (inject : T → site_value) (kind : string) (id : T → string).

(** The map of [base] by identity. *)
Definition index_by_id (base : list T) : gmap string T :=
  foldl (λ old v, <[id v := v]> old) ∅ base.

(** The loop over [next]: changed or new records, and the records not seen. *)
Fixpoint diff_next (out : list SiteChange) (old : gmap string T) (next : list T)
    : list SiteChange * gmap string T :=
  match next with
  | [] => (out, old)
  | v :: next =>
    let key := id v in
    let out := match old !! key with
               | Some previous => if same previous v then out
                                  else out ++ [mk_SiteChange kind key (Some (inject v))]
               | None => out ++ [mk_SiteChange kind key (Some (inject v))]
               end in
    diff_next out (delete key old) next
  end.

Definition diffSites (out : list SiteChange) (base next : list T) : list SiteChange :=
  let '(out, old) := diff_next out (index_by_id base) next in
  out ++ ((λ key, mk_SiteChange kind key None) <$> map_range old).
End diff.

(** The pointer comparisons of the four record types. *)
Record pointer_equality := mk_pointer_equality {
  same_unit : SiteUnit → SiteUnit → bool;
  same_building : SiteBuilding → SiteBuilding → bool;
  same_floor : SiteFloor → SiteFloor → bool;
  same_point : SitePoint → SitePoint → bool }.

Definition SiteChanges `{MapOrder} (eqs : pointer_equality) (base next : SiteState)
    : list SiteChange :=
  let out := diffSites (same_unit eqs) VUnit "unit" ID [] (Units base) (Units next) in
  let out := diffSites (same_building eqs) VBuilding "building" ID out
               (Buildings base) (Buildings next) in
  let out := diffSites (same_floor eqs) VFloor "floor" ID out (Floors base) (Floors next) in
  diffSites (same_point eqs) VPoint "point" ID out (Points base) (Points next).
