(* ===== verification/SitesService.v ===== *)
(** The sites service (internal/sites/service.go): every change validates
    against the tenant's whole document and is applied by the
    optimistic-locking loop [apply]; the readers locate devices and alarms. *)
From S2P Require Import Prelude GoText GoJson Keyed Optimistic SitesModel.
From Stdlib Require Import SpecFloat.

Definition sentinel_text (k : err_kind) : string :=
  match k with
  | Validation => "单位建筑数据无效"
  | NotFound => "单位建筑记录不存在"
  | Conflict => "单位建筑数据冲突"
  | _ => ""
  end.
Definition wrap_error (k : err_kind) (message : string) : error :=
  mk_error k (sentinel_text k +:+ ": " +:+ message).
Definition invalid (message : string) : error := wrap_error Validation message.
Definition missing (label : string) : error := wrap_error NotFound (label +:+ "不存在").
Definition conflict (message : string) : error := wrap_error Conflict message.

(** [text(&value, ...)]: the trimmed value it stores back. *)
Definition text (value label : string) (required : bool) (max : Z) : res string :=
  let value := trim_space value in
  _ ← fail_when (required ∧ value = "") (invalid (label +:+ "不能为空"));
  _ ← fail_when (rune_count value > max)
        (invalid (label +:+ "不能超过 " +:+ dec max +:+ " 个字符"));
  mret value.

(** One of the checks of [texts], on the member of [v] it points to. *)
Definition text_of {T} (getter : T → string) `{!Setter getter} (label : string)
    (required : bool) (max : Z) (v : T) : res T :=
  s ← text (getter v) label required max; mret (set getter (λ _, s) v).
#[global] Arguments text_of {T} getter {_} label required max v.

Definition requireVersion (r : SiteRecord) (version : Z) : res unit :=
  fail_when (sr_Version r ≠ version) (conflict "记录已更新，请刷新后重试").

Definition unit_index (state : SiteState) (id : string) : option (nat * SiteUnit) :=
  find_first (λ v, ID v = id) (Units state).
Definition building_index (state : SiteState) (id : string) : option (nat * SiteBuilding) :=
  find_first (λ v, ID v = id) (Buildings state).
Definition floor_index (state : SiteState) (id : string) : option (nat * SiteFloor) :=
  find_first (λ v, ID v = id) (Floors state).
Definition point_index (state : SiteState) (id : string) : option (nat * SitePoint) :=
  find_first (λ v, ID v = id) (Points state).

(** [var old *model.SiteRecord; if index >= 0 { old = &items[index].SiteRecord }] *)
Definition old_record {A} `{SiteRecorded A} (found : option (nat * A)) : option SiteRecord :=
  (λ p, srec p.2) <$> found.

(** The index of the record an edit is about: none for a new record. *)
Definition edited {A} (id label : string) (found : option (nat * A)) : res (option (nat * A)) :=
  if decide (id ≠ "") then
    match found with Some p => Ok (Some p) | None => Err (missing label) end
  else Ok None.

Section with_platform.
Context `{Platform}.

(** [stamp]: a new identity, or the next version of [old]. *)
Definition stamp {S} (in_ : SiteRecord) (old : option SiteRecord) (actor : string) (now : Z)
    : M S SiteRecord :=
  match old with
  | None => i ← new_id; mret (mk_SiteRecord i 1 now now actor)
  | Some old =>
    _ ← lift (fail_when (sr_Version in_ ≠ sr_Version old) (conflict "记录已更新，请刷新后重试"));
    mret (old <| sr_Version := wrap64 (sr_Version old + 1) |>
              <| sr_UpdatedAt := now |> <| sr_UpdatedBy := actor |>)
  end.

(** ** Units *)

Definition unit_texts (in_ : SiteUnit) : res SiteUnit :=
  in_ ← text_of un_Name "单位名称" true 100 in_;
  in_ ← text_of un_Code "单位编码" false 64 in_;
  in_ ← text_of un_Address "地址" false 200 in_;
  in_ ← text_of un_Contact "联系人" false 50 in_;
  in_ ← text_of un_Phone "联系电话" false 32 in_;
  text_of un_Notes "备注" false 500 in_.

Definition save_unit (actor : string) (v : SiteUnit) (now : Z) : M SiteState SiteUnit :=
  state ← get;
  index ← lift (edited (ID v) "单位" (unit_index state (ID v)));
  _ ← lift (for_each (λ other, fail_when (ID other ≠ ID v ∧
          (un_Name other = un_Name v ∨ (un_Code v ≠ "" ∧ un_Code other = un_Code v)))
        (conflict "单位名称或编码已存在")) (Units state));
  r ← stamp (un_SiteRecord v) (old_record index) actor now;
  let v := v <| un_SiteRecord := r |> in
  _ ← put (state <| Units ::= upsert index v |>);
  mret v.

Definition delete_unit (id : string) (version : Z) (now : Z) : M SiteState unit :=
  state ← get;
  match unit_index state id with
  | None => throw (missing "单位")
  | Some (index, u) =>
    _ ← lift (requireVersion (un_SiteRecord u) version);
    _ ← lift (for_each (λ b, fail_when (bu_UnitID b = id) (conflict "请先删除该单位下的建筑"))
          (Buildings state));
    _ ← lift (for_each (λ p, fail_when (pt_UnitID p = id) (conflict "请先删除该单位下的设备点位"))
          (Points state));
    put (state <| Units ::= remove_at index |>)
  end.

(** ** Buildings *)

Definition building_texts (in_ : SiteBuilding) : res SiteBuilding :=
  in_ ← text_of bu_Name "建筑名称" true 100 in_;
  in_ ← text_of bu_Address "地址" false 200 in_;
  in_ ← text_of bu_Notes "备注" false 500 in_;
  _ ← fail_when (bu_AboveFloors in_ < 0 ∨ bu_AboveFloors in_ > 300 ∨ bu_BelowFloors in_ < 0
        ∨ bu_BelowFloors in_ > 20) (invalid "地上层数为 0 至 300，地下层数为 0 至 20");
  mret in_.

Definition hasBuildingPoints (state : SiteState) (id : string) : Prop :=
  Exists (λ p, pt_BuildingID p = id) (Points state).
#[export] Instance hasBuildingPoints_dec state id : Decision (hasBuildingPoints state id).
Proof. unfold hasBuildingPoints. apply _. Defined.

Definition save_building (actor : string) (v : SiteBuilding) (now : Z)
    : M SiteState SiteBuilding :=
  state ← get;
  _ ← lift (fail_when (¬ is_Some (unit_index state (bu_UnitID v))) (missing "所属单位"));
  index ← lift (edited (ID v) "建筑" (building_index state (ID v)));
  _ ← lift (match index with
            | Some (_, b) => fail_when (bu_UnitID b ≠ bu_UnitID v ∧ hasBuildingPoints state (ID v))
                (conflict "建筑下已有设备点位，不能改到其他单位")
            | None => Ok tt
            end);
  _ ← lift (for_each (λ other, fail_when (ID other ≠ ID v ∧ bu_UnitID other = bu_UnitID v
          ∧ bu_Name other = bu_Name v) (conflict "同一单位下建筑名称重复")) (Buildings state));
  r ← stamp (bu_SiteRecord v) (old_record index) actor now;
  let v := v <| bu_SiteRecord := r |> in
  _ ← put (state <| Buildings ::= upsert index v |>);
  mret v.

Definition delete_building (id : string) (version : Z) (now : Z) : M SiteState unit :=
  state ← get;
  match building_index state id with
  | None => throw (missing "建筑")
  | Some (index, b) =>
    _ ← lift (requireVersion (bu_SiteRecord b) version);
    _ ← lift (for_each (λ f, fail_when (fl_BuildingID f = id) (conflict "请先删除该建筑下的楼层"))
          (Floors state));
    _ ← lift (fail_when (hasBuildingPoints state id) (conflict "请先删除该建筑下的设备点位"));
    put (state <| Buildings ::= remove_at index |>)
  end.

(** ** Floors *)

Definition floor_texts (in_ : SiteFloor) : res SiteFloor :=
  in_ ← text_of fl_Name "楼层名称" true 50 in_;
  _ ← fail_when (fl_Level in_ < -20 ∨ fl_Level in_ > 300) (invalid "楼层序号为 -20 至 300");
  mret in_.

Definition save_floor (actor : string) (v : SiteFloor) (now : Z) : M SiteState SiteFloor :=
  state ← get;
  _ ← lift (fail_when (¬ is_Some (building_index state (fl_BuildingID v))) (missing "所属建筑"));
  index ← lift (edited (ID v) "楼层" (floor_index state (ID v)));
  _ ← lift (match index with
            | Some (_, f) => fail_when (fl_BuildingID f ≠ fl_BuildingID v)
                (invalid "楼层不能改到其他建筑")
            | None => Ok tt
            end);
  let v := v <| fl_Plan := match index with Some (_, f) => fl_Plan f | None => None end |> in
  _ ← lift (for_each (λ other, fail_when (ID other ≠ ID v ∧ fl_BuildingID other = fl_BuildingID v
          ∧ fl_Name other = fl_Name v) (conflict "同一建筑下楼层名称重复")) (Floors state));
  r ← stamp (fl_SiteRecord v) (old_record index) actor now;
  let v := v <| fl_SiteRecord := r |> in
  _ ← put (state <| Floors ::= upsert index v |>);
  mret v.

(** The floor with its new plan, and the plan it replaced. *)
Definition set_floor_plan (actor id : string) (version : Z) (plan : FloorPlan) (now : Z)
    : M SiteState (SiteFloor * option FloorPlan) :=
  state ← get;
  match floor_index state id with
  | None => throw (missing "楼层")
  | Some (index, f) =>
    _ ← lift (requireVersion (fl_SiteRecord f) version);
    let v := f <| fl_Plan := Some (plan <| fp_UploadedAt := now |>) |>
               <| fl_SiteRecord ::= (λ r, r <| sr_Version := wrap64 (sr_Version r + 1) |>
                    <| sr_UpdatedAt := now |> <| sr_UpdatedBy := actor |>) |> in
    _ ← put (state <| Floors ::= <[index:=v]> |>);
    mret (v, fl_Plan f)
  end.

Definition delete_floor (id : string) (version : Z) (now : Z) : M SiteState (option FloorPlan) :=
  state ← get;
  match floor_index state id with
  | None => throw (missing "楼层")
  | Some (index, f) =>
    _ ← lift (requireVersion (fl_SiteRecord f) version);
    _ ← lift (for_each (λ p, fail_when (pt_FloorID p = id) (conflict "请先删除该楼层上的设备点位"))
          (Points state));
    _ ← put (state <| Floors ::= remove_at index |>);
    mret (fl_Plan f)
  end.

(** ** Points *)

Definition validFraction (v : option float64) : bool :=
  match v with
  | Some S754_nan | None => false
  | Some f => negb (f64_ltb f (f64_of_Z 0)) && negb (f64_ltb (f64_of_Z 1) f)
  end.

(** The unit and building a point gets from its floor or building. *)
Definition place_floor (state : SiteState) (v : SitePoint) : res SitePoint :=
  if decide (pt_FloorID v ≠ "") then
    match floor_index state (pt_FloorID v) with
    | None => Err (missing "楼层")
    | Some (_, floor) =>
      _ ← fail_when (pt_BuildingID v ≠ "" ∧ pt_BuildingID v ≠ fl_BuildingID floor)
            (invalid "楼层不属于所选建筑");
      mret (v <| pt_BuildingID := fl_BuildingID floor |>)
    end
  else mret v.
Definition place_building (state : SiteState) (v : SitePoint) : res SitePoint :=
  if decide (pt_BuildingID v ≠ "") then
    match building_index state (pt_BuildingID v) with
    | None => Err (missing "建筑")
    | Some (_, b) =>
      _ ← fail_when (pt_UnitID v ≠ "" ∧ pt_UnitID v ≠ bu_UnitID b) (invalid "建筑不属于所选单位");
      mret (v <| pt_UnitID := bu_UnitID b |>)
    end
  else mret v.

Definition placePoint (state : SiteState) (v : SitePoint) : res SitePoint :=
  v ← place_floor state v;
  v ← place_building state v;
  _ ← fail_when (¬ is_Some (unit_index state (pt_UnitID v))) (missing "所属单位");
  _ ← fail_when (is_Some (pt_X v) ∧ ¬ is_Some (pt_Y v) ∨ ¬ is_Some (pt_X v) ∧ is_Some (pt_Y v))
        (invalid "平面图坐标需要同时提供横向和纵向位置");
  _ ← (if decide (is_Some (pt_X v)) then
         _ ← fail_when (¬ validFraction (pt_X v) ∨ ¬ validFraction (pt_Y v))
               (invalid "平面图坐标须在 0 至 1 之间");
         match floor_index state (pt_FloorID v) with
         | Some (_, f) => fail_when (fl_Plan f = None) (invalid "请先为楼层上传平面图再标注位置")
         | None => Err (invalid "请先为楼层上传平面图再标注位置")
         end
       else Ok tt);
  mret v.

Definition point_texts (in_ : SitePoint) : res SitePoint :=
  in_ ← text_of pt_DeviceID "设备编号" true 128 in_;
  in_ ← text_of pt_ComponentID "部件编号" false 128 in_;
  text_of pt_Name "点位名称" false 100 in_.

Definition save_point (actor : string) (v : SitePoint) (now : Z) : M SiteState SitePoint :=
  state ← get;
  v ← lift (placePoint state v);
  index ← lift (edited (ID v) "点位" (point_index state (ID v)));
  _ ← lift (for_each (λ other, fail_when (ID other ≠ ID v ∧ pt_DeviceID other = pt_DeviceID v
          ∧ pt_ComponentID other = pt_ComponentID v) (conflict "该设备或部件已有点位"))
        (Points state));
  r ← stamp (pt_SiteRecord v) (old_record index) actor now;
  let v := v <| pt_SiteRecord := r |> in
  _ ← put (state <| Points ::= upsert index v |>);
  mret v.

Definition delete_point (id : string) (version : Z) (now : Z) : M SiteState SitePoint :=
  state ← get;
  match point_index state id with
  | None => throw (missing "点位")
  | Some (index, p) =>
    _ ← lift (requireVersion (pt_SiteRecord p) version);
    _ ← put (state <| Points ::= remove_at index |>);
    mret p
  end.
End with_platform.

(** ** Locating devices *)

(** DeviceUnits: later points of a device overwrite earlier ones. *)
Definition DeviceUnits (state : SiteState) : gmap string string :=
  foldl (λ out p, if decide (pt_ComponentID p = "") then <[pt_DeviceID p := pt_UnitID p]> out
                  else out) ∅ (Points state).

(** The loop of [locate] over the candidate points. *)
Fixpoint pick_point (componentID : string) (point : option SitePoint) (candidates : list SitePoint)
    : option SitePoint :=
  match candidates with
  | [] => point
  | p :: candidates =>
    if decide (pt_ComponentID p = componentID) then Some p
    else
      let point := match point with
                   | None => if decide (pt_ComponentID p = "") then Some p else None
                   | Some _ => point
                   end in
      pick_point componentID point candidates
  end.

Definition location_of (state : SiteState) (point : SitePoint) : AlarmLocation_t :=
  let marked := pt_FloorID point ≠ "" ∧ is_Some (pt_X point) ∧ is_Some (pt_Y point) in
  mk_AlarmLocation (pt_UnitID point)
    (match unit_index state (pt_UnitID point) with Some (_, u) => un_Name u | None => "" end)
    (pt_BuildingID point)
    (match building_index state (pt_BuildingID point) with Some (_, b) => bu_Name b | None => "" end)
    (pt_FloorID point)
    (match floor_index state (pt_FloorID point) with Some (_, f) => fl_Name f | None => "" end)
    (ID point) (pt_Name point)
    (if decide marked then pt_X point else None) (if decide marked then pt_Y point else None) false.

(** [locate]: [candidates] are indices into the points. *)
Definition locate (state : SiteState) (candidates : list nat) (componentID : string)
    : option AlarmLocation_t :=
  location_of state <$>
    pick_point componentID None (omap (λ i, Points state !! i) candidates).

(** The indices of the points of a device, ascending. *)
Fixpoint device_indices (deviceID : string) (i : nat) (points : list SitePoint) : list nat :=
  match points with
  | [] => []
  | p :: points =>
    if decide (pt_DeviceID p = deviceID) then i :: device_indices deviceID (S i) points
    else device_indices deviceID (S i) points
  end.

Definition Locate (state : SiteState) (deviceID componentID : string) : option AlarmLocation_t :=
  locate state (device_indices deviceID 0 (Points state)) componentID.

(** [pointIndex]: the points of each device in a snapshot. *)
Record pointIndex := mk_pointIndex { ix_revision : Z; ix_byDevice : gmap string (list nat) }.

(** [for i, p := range state.Points { byDevice[p.DeviceID] = append(byDevice[p.DeviceID], i) }] *)
Fixpoint index_points (i : nat) (points : list SitePoint) (m : gmap string (list nat))
    : gmap string (list nat) :=
  match points with
  | [] => m
  | p :: points =>
    index_points (S i) points (<[pt_DeviceID p := default [] (m !! pt_DeviceID p) ++ [i]]> m)
  end.
Definition build_index (state : SiteState) : pointIndex :=
  mk_pointIndex (ss_Revision state) (index_points 0 (Points state) ∅).

Definition maxNearbyDevices : Z := 500.

(** The loop of [DevicesNear] over the points. *)
Fixpoint near_loop (loc : AlarmLocation_t) (seen : gset string) (out : list string)
    (points : list SitePoint) : list string :=
  match points with
  | [] => out
  | p :: points =>
    if decide (pt_BuildingID p ≠ al_BuildingID loc
        ∨ al_FloorID loc ≠ "" ∧ pt_FloorID p ≠ al_FloorID loc ∨ pt_DeviceID p ∈ seen)
    then near_loop loc seen out points
    else
      let out := out ++ [pt_DeviceID p] in
      if decide (Z.of_nat (length out) = maxNearbyDevices) then out
      else near_loop loc ({[pt_DeviceID p]} ∪ seen) out points
  end.
Definition devices_near (state : SiteState) (loc : AlarmLocation_t) (exclude : string)
    : list string :=
  near_loop loc {[exclude]} [] (Points state).
