(* ===== verification/SitesApply.v ===== *)
(** The sites service over the memory store (internal/sites/service.go:
    Snapshot, remember, apply and the exported methods;
    internal/adapters/memory/sites.go). *)
From S2P Require Import Prelude GoText GoJson Keyed Optimistic SitesModel SitesService.

(** ** The store *)

#[export] Instance site_revised : Revised SiteState := {|
  revision := ss_Revision; with_revision z s := s <| ss_Revision := z |>; blank := empty_sites |}.
#[export] Instance site_revised_laws : RevisedLaws SiteState.
Proof. by split. Qed.

(** What the service keeps in memory: snapshots and point indices by tenant. *)
Record site_cache := mk_site_cache {
  sv_cache : gmap string SiteState; sv_points : gmap string pointIndex }.
#[export] Instance eta_site_cache : Settable site_cache := λ v,
  mk_site_cache (sv_cache v) (sv_points v).

Abbreviation site_database := (database SiteState).
Abbreviation site_io := (io_state SiteState site_cache).
Abbreviation SiteIO := (IO SiteState site_cache).

Definition LoadSiteState (tenant : string) (db : site_database) : SiteState := load tenant db.
Definition SiteRevision (tenant : string) (db : site_database) : Z :=
  ss_Revision (LoadSiteState tenant db).
Definition SaveSiteState (tenant : string) (base state : SiteState) (db : site_database)
    : bool * site_database :=
  save tenant (ss_Revision base) state db.

(** ** The service *)

Section service.
Context `{Platform, MapOrder} (sched : schedule SiteState site_cache).

Definition maxCachedTenants : nat := 4096.

(** The cache after [remember]: a tenant without stored sites is not cached, a
    full cache evicts some tenant, and a newer snapshot stays. *)
Definition remembered (tenant : string) (state : SiteState) (cache : gmap string SiteState)
    : gmap string SiteState :=
  match cache !! tenant with
  | None =>
    if decide (ss_Revision state = 0) then cache
    else
      let cache := if decide (maxCachedTenants ≤ size cache)%nat then
                     match map_range cache with evict :: _ => delete evict cache | [] => cache end
                   else cache in
      <[tenant := state]> cache
  | Some previous =>
    if decide (ss_Revision previous ≤ ss_Revision state) then <[tenant := state]> cache else cache
  end.
Definition remember (tenant : string) (state : SiteState) : SiteIO unit :=
  set_cache (λ c, c <| sv_cache ::= remembered tenant state |>).

Definition Snapshot (tenant : string) : SiteIO SiteState :=
  revision ← call sched (λ db, (SiteRevision tenant db, db));
  cache ← cached;
  let reload :=
    state ← call sched (λ db, (LoadSiteState tenant db, db));
    _ ← remember tenant state;
    mret state in
  match sv_cache cache !! tenant with
  | Some hit => if decide (ss_Revision hit = revision) then mret hit else reload
  | None => reload
  end.

Fixpoint apply_attempts {A} (attempts : nat) (tenant : string) (change : Z → M SiteState A)
    : SiteIO A :=
  match attempts with
  | O => io_err (conflict "数据正在被其他操作更新，请刷新重试")
  | S attempts =>
    base ← Snapshot tenant;
    rs ← run_handler sched change base;
    let '(result, next) := rs in
    saved ← call sched (SaveSiteState tenant base next);
    if saved : bool then
      _ ← remember tenant (next <| ss_Revision := wrap64 (ss_Revision base + 1) |>);
      mret result
    else apply_attempts attempts tenant change
  end.
Definition apply {A} (tenant : string) (change : Z → M SiteState A) : SiteIO A :=
  if decide (trim_space tenant = "") then io_err (invalid "租户不能为空")
  else apply_attempts 8 tenant change.

Definition io_lift {A} (r : res A) : SiteIO A := λ s, (r, s).

Definition SaveUnit (tenant actor : string) (in_ : SiteUnit) : SiteIO SiteUnit :=
  in_ ← io_lift (unit_texts in_); apply tenant (save_unit actor in_).
Definition DeleteUnit (tenant id : string) (version : Z) : SiteIO unit :=
  apply tenant (delete_unit id version).
Definition SaveBuilding (tenant actor : string) (in_ : SiteBuilding) : SiteIO SiteBuilding :=
  in_ ← io_lift (building_texts in_); apply tenant (save_building actor in_).
Definition DeleteBuilding (tenant id : string) (version : Z) : SiteIO unit :=
  apply tenant (delete_building id version).
Definition SaveFloor (tenant actor : string) (in_ : SiteFloor) : SiteIO SiteFloor :=
  in_ ← io_lift (floor_texts in_); apply tenant (save_floor actor in_).
Definition SetFloorPlan (tenant actor id : string) (version : Z) (plan : FloorPlan)
    : SiteIO (SiteFloor * option FloorPlan) :=
  apply tenant (set_floor_plan actor id version plan).
Definition DeleteFloor (tenant id : string) (version : Z) : SiteIO (option FloorPlan) :=
  apply tenant (delete_floor id version).
Definition SavePoint (tenant actor : string) (in_ : SitePoint) : SiteIO SitePoint :=
  in_ ← io_lift (point_texts in_); apply tenant (save_point actor in_).
Definition DeletePoint (tenant id : string) (version : Z) : SiteIO SitePoint :=
  apply tenant (delete_point id version).

(** A storage failure leaves the alarm without a location. *)
Definition or_nil {A} (m : SiteIO (option A)) : SiteIO (option A) := λ s,
  match m s with (Err _, s') => (Ok None, s') | r => r end.

(** The index of the tenant's points, rebuilt when it is not of the
    snapshot's revision. *)
Definition current_index (tenant : string) (state : SiteState) : SiteIO pointIndex := λ s,
  match sv_points (io_cache s) !! tenant with
  | Some index =>
    if decide (ix_revision index ≠ ss_Revision state)
    then (Ok (build_index state),
          s <| io_cache ::= (λ c, c <| sv_points ::= <[tenant := build_index state]> |>) |>)
    else (Ok index, s)
  | None => (Ok (build_index state),
             s <| io_cache ::= (λ c, c <| sv_points ::= <[tenant := build_index state]> |>) |>)
  end.

Definition AlarmLocation (tenant deviceID componentID : string)
    : SiteIO (option AlarmLocation_t) :=
  or_nil (state ← Snapshot tenant;
          index ← current_index tenant state;
          mret (locate state (default [] (ix_byDevice index !! deviceID)) componentID)).

Definition DevicesNear (tenant : string) (loc : AlarmLocation_t) (exclude : string)
    : SiteIO (list string) := λ s,
  if decide (al_BuildingID loc = "") then (Ok [], s)
  else match Snapshot tenant s with
       | (Ok state, s') => (Ok (devices_near state loc exclude), s')
       | (Err _, s') => (Ok [], s')
       end.
End service.
