(* ===== verification/SitesInvariant.v ===== *)
(** Well-formedness of the site document: the hierarchy of units, buildings,
    floors and points is closed and consistent, names are unique where they
    must be, and a marked point lies on a floor with a plan.  Every change
    preserves it. *)
From S2P Require Import Prelude Keyed GoText GoJson Optimistic SitesModel SitesService SitesApply.

Section with_platform.
Context `{Platform}.

(** Two units differ in name, and in code when they have one. *)
Definition unit_distinct (a b : SiteUnit) : Prop :=
  un_Name a ≠ un_Name b ∧ (un_Code a ≠ "" → un_Code a ≠ un_Code b).
Definition building_distinct (a b : SiteBuilding) : Prop :=
  bu_UnitID a = bu_UnitID b → bu_Name a ≠ bu_Name b.
Definition floor_distinct (a b : SiteFloor) : Prop :=
  fl_BuildingID a = fl_BuildingID b → fl_Name a ≠ fl_Name b.
(** A device or component has one place. *)
Definition point_distinct (a b : SitePoint) : Prop :=
  pt_DeviceID a = pt_DeviceID b → pt_ComponentID a ≠ pt_ComponentID b.

(** The place of a point: its floor is in its building, its building in its
    unit, and coordinates are fractions on a floor with a plan. *)
Record placed (s : SiteState) (p : SitePoint) : Prop := {
  pl_unit : pt_UnitID p ∈ keys (Units s);
  pl_building : pt_BuildingID p ≠ "" → ∃ b, get_by (Buildings s) (pt_BuildingID p) = Some b ∧
    bu_UnitID b = pt_UnitID p;
  pl_floor : pt_FloorID p ≠ "" → ∃ f, get_by (Floors s) (pt_FloorID p) = Some f ∧
    fl_BuildingID f = pt_BuildingID p;
  pl_marked : is_Some (pt_X p) ∨ is_Some (pt_Y p) →
    validFraction (pt_X p) = true ∧ validFraction (pt_Y p) = true ∧ pt_FloorID p ≠ "" ∧
    ∃ f, get_by (Floors s) (pt_FloorID p) = Some f ∧ is_Some (fl_Plan f) }.

Record wf (n : nat) (s : SiteState) : Prop := {
  wk_units : keyed n (Units s);
  wk_buildings : keyed n (Buildings s);
  wk_floors : keyed n (Floors s);
  wk_points : keyed n (Points s);
  wr_building : refs_to (λ b, [bu_UnitID b]) (Buildings s) (Units s);
  wr_floor : refs_to (λ f, [fl_BuildingID f]) (Floors s) (Buildings s);
  wd_units : distinct unit_distinct (Units s);
  wd_buildings : distinct building_distinct (Buildings s);
  wd_floors : distinct floor_distinct (Floors s);
  wd_points : distinct point_distinct (Points s);
  wp_points : each (placed s) (Points s) }.

Definition preserves {A} (m : M SiteState A) : Prop :=
  ∀ w r w', m w = Ok (r, w') → wf (w_next w) (w_state w) →
    wf (w_next w') (w_state w') ∧ (w_next w ≤ w_next w')%nat.


(** ** Basic lemmas *)

Lemma empty_sites_wf n : wf n empty_sites.
Proof.
  split; cbn; first [apply keyed_nil|intros x; intros; exfalso; by eapply not_elem_of_nil].
Qed.

Lemma placed_ext s s' p :
  Units s' = Units s → Buildings s' = Buildings s → Floors s' = Floors s → placed s p → placed s' p.
Proof. intros Hu Hb Hf []. split; by rewrite ?Hu, ?Hb, ?Hf. Qed.

Lemma site_wf_mono n m s : (n ≤ m)%nat → wf n s → wf m s.
Proof. intros Hm []. split; eauto using keyed_mono. Qed.

Lemma site_wf_revision n z s : wf n s → wf n (s <| ss_Revision := z |>).
Proof.
  intros []. split; cbn; try done. eapply each_impl; [exact wp_points0|]. intros p _.
  by apply placed_ext.
Qed.

Lemma edited_ok {A} id label (found index : option (nat * A)) :
  edited id label found = Ok index →
  (id ≠ "" ∧ index = found ∧ is_Some found) ∨ (id = "" ∧ index = None).
Proof.
  unfold edited. case_decide as Hid; [|intros [= <-]; by right].
  destruct found; [|done]. intros [= <-]. left. eauto.
Qed.

(** What [stamp] gives the record that is saved back over the one that was
    looked up, or appended. *)
Lemma stamp_upsert `{!PlatformLaws} {S A} `{SiteRecorded A} in_ (l : list A) id label index actor
    now (w : world S) r w' (v : A) :
  edited id label (find_first (λ x, ID x = id) l) = Ok index →
  stamp in_ (old_record index) actor now w = Ok (r, w') → keyed (w_next w) l → srec v = r →
  w_state w' = w_state w ∧ (w_next w ≤ w_next w')%nat ∧ upsert_ok index v l ∧
  keyed (w_next w') (upsert index v l) ∧
  (∀ x, x ∈ l → ID x ≠ ID v → ID x ≠ id) ∧
  (ID v ∈ keys l → ∃ j o, index = Some (j, o) ∧ get_by l (ID v) = Some o ∧ ID v = id).
Proof.
  intros Hed Hr Hl Hv. apply edited_ok in Hed as [(Hid & -> & [[i o] Hf])|[-> ->]].
  - rewrite Hf in *. unfold stamp, old_record in Hr. cbn in Hr. inv_ok Hr.
    assert (Hk : key v = key o) by (unfold key, site_keyed; match goal with E : srec v = _ |- _ =>
      by rewrite E end).
    apply find_get_by in Hf as Hfg. destruct Hfg as (Hi & Hko & Hget).
    split; [done|]. split; [lia|].
    destruct (keyed_found (w_next w) (w_next w) _ _ _ _ _ Hl ltac:(lia) Hf Hk) as [Hok Hkd].
    split; [done|]. split; [done|]. split; [intros x _ Hne; by rewrite <-Hko, <-Hk|].
    intros _. exists i, o. split; [done|]. rewrite Hk, Hko. done.
  - unfold stamp, old_record in Hr. cbn in Hr.
    apply M_bind_ok in Hr as (i & w1 & [-> ->]%new_id_ok & Hr). inv_ok Hr.
    destruct (keyed_append (w_next w) v l Hl) as [Hok Hkd].
    { unfold key, site_keyed. match goal with E : srec v = _ |- _ => by rewrite E end. }
    split; [done|]. split; [cbn; lia|]. split; [done|]. split; [done|]. split; [|done].
    intros x Hx _. eapply drawn_nonempty, Hl. by apply list_elem_of_fmap_2.
Qed.
End with_platform.

(** The facts about the record a save writes back. *)
Ltac use_stamp Hwf :=
  match goal with Hrec : stamp _ _ _ _ _ = Ok _, Hed : edited _ _ _ = Ok _
      |- context [upsert _ ?v] =>
    eapply (stamp_upsert _ _ _ _ _ _ _ _ _ _ v) in Hrec; [|exact Hed|apply Hwf|reflexivity];
    destruct Hrec as (_ & Hnext & Hok & Hkeyed & Hother & Hfound)
  end.
Ltac guards :=
  repeat match goal with
  | H : for_each (λ x, fail_when _ _) _ = Ok _ |- _ =>
      apply for_each_fail in H; rewrite Forall_forall in H
  end.
