(* ===== verification/SitesProofs.v ===== *)
(** Every change of the site document preserves its well-formedness. *)
From S2P Require Import Prelude Keyed GoText GoJson Optimistic SitesModel SitesService SitesApply.
From S2P Require Import SitesInvariant.

Section with_platform.
Context `{PlatformLaws}.

(** ** Units *)

Lemma save_unit_preserves actor v now : preserves (save_unit actor v now).
Proof.
  intros w r w' Hr Hwf. unfold save_unit, unit_index in Hr. inv_ok Hr. use_stamp Hwf. guards.
  destruct Hwf. split; [|done]. split; cbn; eauto using keyed_mono with go.
  - apply distinct_upsert; [done|]. intros x Hx Hne.
    assert (Hno : un_Name x ≠ un_Name v ∧ (un_Code v ≠ "" → un_Code x ≠ un_Code v)).
    { specialize (Hother x Hx Hne). split.
      - intros Heq. apply (Hr1 x Hx). auto.
      - intros Hc Heq. apply (Hr1 x Hx). auto. }
    destruct Hno as [Hn Hc]. split; (split; cbn; [congruence|]).
    + intros Hx0 Heq. apply Hc; congruence.
    + intros Hv Heq. apply Hc; congruence.
  - eapply each_impl; [exact wp_points|]. intros p _ []. split; cbn; try done.
    by apply keys_upsert_incl.
Qed.

Lemma delete_unit_preserves id version now : preserves (delete_unit id version now).
Proof.
  intros w r w' Hr Hwf. unfold delete_unit, unit_index in Hr. inv_ok Hr.
  destruct (find_first _ _) as [[i u]|] eqn:Hf; inv_ok Hr. guards.
  apply find_get_by in Hf as (Hi & <- & _). destruct Hwf. split; [|done].
  split; cbn; eauto with go.
  - eapply refs_remove_dst; [done|by apply wk_units|done|].
    intros b Hb Hin%list_elem_of_singleton. by apply (Hr1 b Hb).
  - intros p Hp. destruct (wp_points p Hp). split; cbn; try done.
    eapply keys_remove_ne; [by apply wk_units|done|by apply Hr2|done].
Qed.

(** ** Buildings *)

Lemma save_building_preserves actor v now : preserves (save_building actor v now).
Proof.
  intros w r w' Hr Hwf. unfold save_building, unit_index, building_index in Hr. inv_ok Hr.
  use_stamp Hwf. guards. destruct Hwf. split; [|done].
  split; cbn; eauto using keyed_mono with go.
  - apply refs_upsert_src; [done|]. intros i ->%list_elem_of_singleton.
    apply find_is_Some. by apply dec_stable.
  - apply distinct_upsert; [done|]. intros x Hx Hne. specialize (Hother x Hx Hne).
    split; intros Hu Hn; apply (Hr3 x Hx); cbn in *; auto.
  - intros p Hp. destruct (wp_points p Hp). split; cbn; try done. intros Hb.
    destruct (pl_building Hb) as (b & Hget & Hu).
    rewrite get_by_upsert by (done || apply wk_buildings).
    destruct (decide (_ = ID _)) as [Hid|]; [|by exists b]. eexists. split; [done|]. cbn.
    destruct Hfound as (j & o & -> & Ho & Hv); [rewrite <-Hid; apply get_by_is_Some; by eexists|].
    assert (o = b) as -> by (rewrite <-Hid in Ho; congruence).
    apply fail_when_ok in Hr2. rewrite <-Hu. apply dec_stable. intros Hne. apply Hr2.
    split; [congruence|]. apply Exists_exists. exists p. split; [done|congruence].
Qed.

Lemma delete_building_preserves id version now : preserves (delete_building id version now).
Proof.
  intros w r w' Hr Hwf. unfold delete_building, building_index in Hr. inv_ok Hr.
  destruct (find_first _ _) as [[i b]|] eqn:Hf; inv_ok Hr. guards.
  apply find_get_by in Hf as (Hi & <- & _). destruct Hwf. split; [|done].
  split; cbn; eauto with go.
  - eapply refs_remove_dst; [done|by apply wk_buildings|done|].
    intros f Hf Hin%list_elem_of_singleton. by apply (Hr1 f Hf).
  - intros p Hp. destruct (wp_points p Hp). split; cbn; try done. intros Hb.
    destruct (pl_building Hb) as (b' & Hget & Hu). exists b'. split; [|done].
    rewrite (get_by_remove _ _ b), decide_False; [done| |by apply wk_buildings|done].
    intros Heq. apply Hr2, Exists_exists. by exists p.
Qed.

(** ** Floors *)

(** Replacing a floor by one of the same building that has a plan if the old
    one had keeps every point placed. *)
Lemma placed_floor s old v p :
  NoDup (keys (Floors s)) → upsert_ok old v (Floors s) → placed s p →
  (∀ o, get_by (Floors s) (ID v) = Some o →
     fl_BuildingID v = fl_BuildingID o ∧ (is_Some (fl_Plan o) → is_Some (fl_Plan v))) →
  placed (s <| Floors ::= upsert old v |>) p.
Proof.
  intros Hnd Hok [Hpu Hpb Hpf Hpm] Hv. split; cbn; try done.
  - intros Hf. destruct (Hpf Hf) as (f & Hget & Hb). rewrite get_by_upsert by done.
    destruct (decide (_ = ID v)) as [Hid|]; [|by exists f]. exists v. split; [done|].
    rewrite Hid in Hget. destruct (Hv f Hget) as [-> _]. done.
  - intros Hm. destruct (Hpm Hm) as (? & ? & Hf & f & Hget & Hplan).
    split; [done|]. split; [done|]. split; [done|]. rewrite get_by_upsert by done.
    destruct (decide (_ = ID v)) as [Hid|]; [|by exists f]. exists v. split; [done|].
    rewrite Hid in Hget. destruct (Hv f Hget) as [_ Hp]. by apply Hp.
Qed.

Lemma save_floor_preserves actor v now : preserves (save_floor actor v now).
Proof.
  intros w r w' Hr Hwf. unfold save_floor, building_index, floor_index in Hr. inv_ok Hr.
  use_stamp Hwf. guards. cbn in Hother, Hr3.
  match goal with |- context [upsert _ ?x] => set (v' := x) in * end.
  destruct Hwf. split; [|done]. split; cbn; eauto using keyed_mono with go.
  - apply refs_upsert_src; [done|]. intros i ->%list_elem_of_singleton.
    apply find_is_Some. by apply dec_stable.
  - apply distinct_upsert; [done|]. intros x Hx Hne. specialize (Hother x Hx Hne).
    split; intros Hu Hn; apply (Hr3 x Hx); cbn in *; auto.
  - eapply each_impl; [exact wp_points|]. intros p _ Hp.
    apply placed_floor; [apply wk_floors|done|done|]. intros o Ho.
    destruct Hfound as (j & o' & -> & Ho' & Hv); [apply get_by_is_Some; by eexists|].
    assert (o' = o) as -> by congruence. apply fail_when_ok, dec_stable in Hr2. by split.
Qed.

Lemma set_floor_plan_preserves actor id version plan now :
  preserves (set_floor_plan actor id version plan now).
Proof.
  intros w r w' Hr Hwf. unfold set_floor_plan, floor_index in Hr. inv_ok Hr.
  destruct (find_first _ _) as [[i f]|] eqn:Hf; inv_ok Hr.
  apply find_get_by in Hf as (Hi & <- & Hget).
  match goal with |- context [<[i:=?x]>] => set (v := x);
    change (<[i:=v]>) with (upsert (Some (i, f)) v) in * end.
  assert (Hok : upsert_ok (Some (i, f)) v (Floors (w_state w))) by done.
  assert (Hfl : f ∈ Floors (w_state w)) by (by eapply list_elem_of_lookup_2).
  destruct Hwf. split; [|done]. split; cbn; eauto with go.
  - apply refs_upsert_src; [done|]. intros k Hk. by eapply (wr_floor f).
  - apply distinct_upsert; [done|]. intros x Hx Hne.
    split; intros Hb Hn; [by apply (wd_floors x f)|apply (wd_floors f x); try done; congruence].
  - eapply each_impl; [exact wp_points|]. intros p _ Hp.
    apply placed_floor; [apply wk_floors|done|done|]. intros o Ho.
    change (ID v) with (ID f) in Ho. assert (o = f) as -> by congruence. by split.
Qed.

Lemma delete_floor_preserves id version now : preserves (delete_floor id version now).
Proof.
  intros w r w' Hr Hwf. unfold delete_floor, floor_index in Hr. inv_ok Hr.
  destruct (find_first _ _) as [[i f]|] eqn:Hf; inv_ok Hr. guards.
  apply find_get_by in Hf as (Hi & <- & _). destruct Hwf. split; [|done].
  split; cbn; eauto with go.
  intros p Hp. assert (Hne : pt_FloorID p ≠ ID f) by (by apply Hr1).
  destruct (wp_points p Hp). split; cbn; try done.
  - intros Hfl. destruct (pl_floor Hfl) as (f' & Hget & Hb). exists f'. split; [|done].
    rewrite (get_by_remove _ _ f), decide_False; [done|done|by apply wk_floors|done].
  - intros Hm. destruct (pl_marked Hm) as (? & ? & ? & f' & Hget & Hplan).
    split_and!; try done. exists f'. split; [|done].
    rewrite (get_by_remove _ _ f), decide_False; [done|done|by apply wk_floors|done].
Qed.

(** ** Points *)

Lemma place_floor_ok s v v' :
  place_floor s v = Ok v' →
  (pt_FloorID v ≠ "" → ∃ f, get_by (Floors s) (pt_FloorID v) = Some f ∧
     fl_BuildingID f = pt_BuildingID v') ∧
  (pt_BuildingID v ≠ "" → pt_BuildingID v' = pt_BuildingID v) ∧
  ∃ b, v' = v <| pt_BuildingID := b |>.
Proof.
  unfold place_floor, floor_index. intros Hr. case_decide as Hf.
  - destruct (find_first _ _) as [[i f]|] eqn:Hfind; inv_ok Hr.
    apply find_get_by in Hfind as (_ & _ & Hget). split; [by exists f|]. split; [|by eexists].
    intros Hb. cbn. apply dec_stable. intros Hne. apply Hr0. split; [done|congruence].
  - inv_ok Hr. split; [done|]. split; [done|]. exists (pt_BuildingID v'). by destruct v'.
Qed.

Lemma place_building_ok s v v' :
  place_building s v = Ok v' →
  (pt_BuildingID v ≠ "" → ∃ b, get_by (Buildings s) (pt_BuildingID v) = Some b ∧
     bu_UnitID b = pt_UnitID v') ∧
  (pt_UnitID v ≠ "" → pt_UnitID v' = pt_UnitID v) ∧
  ∃ u, v' = v <| pt_UnitID := u |>.
Proof.
  unfold place_building, building_index. intros Hr. case_decide as Hf.
  - destruct (find_first _ _) as [[i f]|] eqn:Hfind; inv_ok Hr.
    apply find_get_by in Hfind as (_ & _ & Hget). split; [by exists f|]. split; [|by eexists].
    intros Hb. cbn. apply dec_stable. intros Hne. apply Hr0. split; [done|congruence].
  - inv_ok Hr. split; [done|]. split; [done|]. exists (pt_UnitID v'). by destruct v'.
Qed.

(** The point [placePoint] returns is placed, and differs from the request
    only in its building and unit. *)
Lemma placePoint_ok n s v v' :
  keyed n (Floors s) → placePoint s v = Ok v' →
  placed s v' ∧
  (pt_BuildingID v ≠ "" → pt_BuildingID v' = pt_BuildingID v) ∧
  (pt_UnitID v ≠ "" → pt_UnitID v' = pt_UnitID v) ∧
  ∃ b u, v' = v <| pt_BuildingID := b |> <| pt_UnitID := u |>.
Proof.
  intros Hkey Hr. unfold placePoint, unit_index in Hr. inv_ok Hr.
  apply place_floor_ok in Hr0 as (Hfl & Hbk & b & Ha).
  apply place_building_ok in Hr1 as (Hbu & Huk & u & Hv').
  split; [|split; [|split]].
  - split.
    + apply find_is_Some. by apply dec_stable.
    + rewrite Hv'. intros Hb. destruct (Hbu Hb) as (bu & ? & Hu). exists bu. split; [done|].
      by rewrite Hu, Hv'.
    + rewrite Hv', Ha. intros Hf. destruct (Hfl Hf) as (f & ? & Hb). exists f. split; [done|].
      by rewrite Hb, Ha.
    + intros Hm. assert (Hx : is_Some (pt_X v')) by (destruct (pt_X v'); [done|]; destruct Hm as [?|[y Hy]]; [done|];
        exfalso; apply Hr3; right; split; [by intros [? ?]|by exists y]).
      rewrite decide_True in Hr4 by done. unfold floor_index in Hr4.
      destruct (find_first _ (Floors s)) as [[j f]|] eqn:Hfind; inv_ok Hr4.
      apply find_get_by in Hfind as (Hj & Hk & Hget).
      split; [destruct (validFraction (pt_X v')); [done|tauto]|].
      split; [destruct (validFraction (pt_Y v')); [done|tauto]|]. split.
      * rewrite <-Hk. eapply drawn_nonempty, Hkey. apply list_elem_of_fmap_2.
        by eapply list_elem_of_lookup_2.
      * exists f. split; [done|]. destruct (fl_Plan f); [by eexists|done].
  - intros Hb. rewrite Hv'. by apply Hbk.
  - intros Hu. rewrite Huk; by rewrite Ha.
  - exists b, u. by rewrite Hv', Ha.
Qed.

Lemma save_point_preserves actor v now : preserves (save_point actor v now).
Proof.
  intros w r w' Hr Hwf. unfold save_point, point_index in Hr. inv_ok Hr.
  apply (placePoint_ok (w_next w)) in Hr0 as (Hpl & _ & _ & b & u & Ha); [|apply Hwf].
  use_stamp Hwf. guards. destruct Hwf. split; [|done]. split; cbn; eauto using keyed_mono with go.
  - apply distinct_upsert; [done|]. intros x Hx Hne. specialize (Hother x Hx Hne).
    split; intros Hd Hc; apply (Hr2 x Hx); cbn in *; auto.
  - apply each_upsert; [|by destruct Hpl].
    eapply each_impl; [exact wp_points|]. intros p _. by apply placed_ext.
Qed.

Lemma delete_point_preserves id version now : preserves (delete_point id version now).
Proof.
  intros w r w' Hr Hwf. unfold delete_point, point_index in Hr. inv_ok Hr.
  destruct (find_first _ _) as [[i p]|] eqn:Hf; inv_ok Hr. destruct Hwf. split; [|done].
  split; cbn; eauto with go. apply each_remove. eapply each_impl; [exact wp_points|].
  intros x _. by apply placed_ext.
Qed.
End with_platform.
