(* ===== verification/SitesApplyProofs.v ===== *)
(** The loop of [apply] and the caches of the sites service, proved against
    the theory of optimistic locking. *)
From S2P Require Import Prelude Keyed GoText GoJson Optimistic SitesModel SitesService SitesApply.
From S2P Require Import SitesInvariant SitesProofs.

Section with_platform.
Context `{Platform, MapOrder}.

(** A cached snapshot is never newer than the stored document and equals it
    when the revisions agree; a point index of the stored revision is the
    index of the stored points. *)
#[export] Instance site_coherence : Coherence SiteState site_cache := {|
  doc_ok := wf;
  coherent db c :=
    (∀ t x, sv_cache c !! t = Some x →
       ss_Revision x ≤ stored_revision t db ∧ (ss_Revision x = stored_revision t db → x = load t db)) ∧
    (∀ t i, sv_points c !! t = Some i →
       ix_revision i ≤ stored_revision t db ∧
       (ix_revision i = stored_revision t db → i = build_index (load t db))) |}.

#[export] Instance site_coherence_laws : CoherenceLaws SiteState site_cache.
Proof.
  split.
  - intros n m s Hnm. by apply site_wf_mono.
  - intros n z s. apply site_wf_revision.
  - intros db c m Hc. exact Hc.
  - intros t s db c [Hc Hi]. split; intros t' x Hl;
      [destruct (Hc t' x Hl) as [Hle Heq]|destruct (Hi t' x Hl) as [Hle Heq]];
      (destruct (decide (t = t')) as [<-|Hne];
       [rewrite revision_commit; split; [lia|intros ?; lia]
       |by rewrite revision_commit_ne, load_commit_ne]).
Qed.

Lemma remembered_lookup t state cache t' x :
  remembered t state cache !! t' = Some x → (t' = t ∧ x = state) ∨ cache !! t' = Some x.
Proof.
  unfold remembered. destruct (cache !! t) as [p|] eqn:Ht.
  - case_decide; [|by right]. rewrite lookup_insert_Some. naive_solver.
  - case_decide; [by right|]. rewrite lookup_insert_Some. intros [[-> ->]|[_ Hl]]; [by left|right].
    case_decide; [|done]. destruct (map_range cache); [done|].
    by apply lookup_delete_Some in Hl as [_ ?].
Qed.

(** The cache never holds more tenants than its bound. *)
Lemma remembered_bound `{!MapOrderLaws} t state cache :
  (size cache ≤ maxCachedTenants)%nat → (size (remembered t state cache) ≤ maxCachedTenants)%nat.
Proof.
  intros Hsz. unfold remembered. destruct (cache !! t) as [p|] eqn:Ht.
  - case_decide; [|done]. by rewrite map_size_insert_Some.
  - case_decide; [done|]. case_decide as Hfull.
    + destruct (map_range cache) as [|k l] eqn:Hr.
      { pose proof (map_range_keys _ cache) as Hp. rewrite Hr in Hp.
        apply Permutation_nil_l in Hp. symmetry in Hp. apply fmap_nil_inv, map_to_list_empty_iff in Hp. subst.
        unfold maxCachedTenants in Hfull. rewrite map_size_empty in Hfull. lia. }
      assert (Hk : is_Some (cache !! k)).
      { assert (Hin : k ∈ (map_to_list cache).*1) by (rewrite <-map_range_keys, Hr; by left).
        apply list_elem_of_fmap in Hin as ([k' v] & -> & Hin%elem_of_map_to_list). by exists v. }
      destruct Hk as [v Hk].
      rewrite map_size_insert_None by (by rewrite lookup_delete_None; right).
      rewrite map_size_delete_Some by done. unfold maxCachedTenants in *. lia.
    + rewrite map_size_insert_None by done. lia.
Qed.

Section rely.
Context (sched : schedule SiteState site_cache) (k : Z) (Hrely : rely k sched).

Lemma site_remember_ok t state s r s' :
  sane_io k s → state = LoadSiteState t (io_db s) → remember t state s = (r, s') →
  r = Ok tt ∧ io_db s' = io_db s ∧ io_tick s' = io_tick s ∧ sane_io k s'.
Proof.
  intros Hs -> Hr. eapply set_cache_ok in Hr; [exact Hr|done|].
  destruct (sane_coherent _ _ _ _ Hs) as [Hc Hi]. split; [|exact Hi]. cbn.
  intros t' x [[-> ->]|Hl]%remembered_lookup; [done|by apply Hc].
Qed.

(** A snapshot is the document stored when it is returned. *)
Lemma site_Snapshot_ok t s r s' :
  sane_io k s → Snapshot sched t s = (r, s') →
  sane_io k s' ∧ quiet sched (io_db s) (io_db s') ∧ (io_tick s' ≤ io_tick s + 2)%nat ∧
  (∀ a, r = Ok a → a = LoadSiteState t (io_db s')).
Proof.
  intros Hs Hr. unfold Snapshot in Hr.
  apply IO_bind_inv in Hr as [(e & Hc & ->)|(rev & s1 & Hc & Hr)];
    apply (call_read sched k Hrely) in Hc as (Hs1 & Hq1 & Ht1 & Hrev); try done.
  { split; [done|]. split; [done|]. split; [lia|naive_solver]. }
  specialize (Hrev _ eq_refl). subst rev.
  apply IO_bind_inv in Hr as [(e & Hc & ->)|(cache & s2 & Hc & Hr)]; [naive_solver|].
  injection Hc as <- <-.
  assert (Hreload : ∀ r s', (state ← call sched (λ db, (LoadSiteState t db, db));
      _ ← remember t state; mret state) s1 = (r, s') →
    sane_io k s' ∧ quiet sched (io_db s) (io_db s') ∧ (io_tick s' ≤ io_tick s + 2)%nat ∧
    (∀ a, r = Ok a → a = LoadSiteState t (io_db s'))).
  { clear Hr r s'. intros r s' Hr.
    apply IO_bind_inv in Hr as [(e & Hc & ->)|(state & s2 & Hc & Hr)];
      apply (call_read sched k Hrely) in Hc as (Hs2 & Hq2 & Ht2 & Hst); try done.
    { split; [done|]. split; [by etrans|]. split; [lia|naive_solver]. }
    apply IO_bind_inv in Hr as [(e & Hc & ->)|(u & s3 & Hc & Hr)];
      apply site_remember_ok in Hc as (Hu & Hdb & Ht & Hs3); try done; try by apply Hst.
    injection Hr as <- <-. rewrite Hdb. split; [done|]. split; [by etrans|].
    split; [lia|]. intros a [= <-]. by apply Hst. }
  destruct (sv_cache (io_cache s1) !! t) as [c|] eqn:Hcache; [|by apply Hreload].
  case_decide as Hhit; [|by apply Hreload].
  injection Hr as <- <-. split; [done|]. split; [done|]. split; [lia|].
  intros a [= <-]. destruct (sane_coherent _ _ _ _ Hs1) as [Hco _].
  destruct (Hco t c Hcache) as [_ Heq]. apply Heq, Hhit.
Qed.

Lemma site_apply_attempts_ok {A} (change : Z → M SiteState A) attempts t s r s' :
  handler_ok (C := site_cache) change → sane_io k s →
  k + Z.of_nat (io_tick s) + 3 * Z.of_nat attempts < two63 - 1 →
  apply_attempts sched attempts t change s = (r, s') →
  sane_io k s' ∧ (io_tick s' ≤ io_tick s + 3 * attempts)%nat ∧
  linearized sched t change (io_db s) (io_db s') r.
Proof.
  intros Hok. revert s.
  induction attempts as [|attempts IH]; intros s Hs Hk Hr; cbn [apply_attempts] in Hr.
  { injection Hr as <- <-. split; [done|]. split; [lia|apply rtc_refl]. }
  apply IO_bind_inv in Hr as [(e & Hc & ->)|(base & s2 & Hc & Hr)];
    apply site_Snapshot_ok in Hc as (Hs2 & Hq2 & Ht2 & Hbase); try done.
  { split; [done|]. split; [lia|done]. }
  specialize (Hbase _ eq_refl). subst base.
  apply IO_bind_inv in Hr as [(e & Hc & ->)|([a next] & s3 & Hrun & Hr)].
  { apply (run_handler_ok sched k) in Hc as (Hs3 & Hq3 & Ht3 & _); try done.
    split; [done|]. split; [lia|]. cbn. by etrans. }
  apply IO_bind_inv in Hr as [(e & Hc & ->)|(saved & s4 & Hc & Hr)];
    eapply (attempt_ok sched k Hrely) in Hrun as (Hs4 & Ht4 & Hq4); try exact Hc; try done; try lia.
  { split; [done|]. split; [lia|]. cbn. by etrans. }
  destruct saved.
  - destruct Hq4 as [Hlin Hload].
    apply IO_bind_inv in Hr as [(e & Hc' & ->)|(v & s5 & Hc' & Hr)];
      apply site_remember_ok in Hc' as (Hv & Hdb5 & Ht5 & Hs5); try done.
    injection Hr as <- <-. split; [done|]. split; [lia|]. rewrite Hdb5.
    by eapply linearized_quiet.
  - eapply IH in Hr as (Hs5 & Ht5 & Hlin); [|done|lia]. split; [done|]. split; [lia|].
    eapply linearized_quiet; [|exact Hlin]. by etrans.
Qed.
End rely.
End with_platform.
