(* ===== verification/SitesDiff.v ===== *)
(** The changes between two site documents (internal/model/sites.go,
    [SiteChanges]) written to the record table of the store
    (internal/adapters/postgres/sites.go, [SaveSiteState]). *)
From S2P Require Import Prelude GoText GoJson Keyed Optimistic SitesModel.

(** The rows of a tenant in [site_record], by kind and identity. *)
Abbreviation site_table := (gmap (string * string) site_value).

(** One statement of the batch: delete the row, or insert or update it. *)
Definition write_change (rows : site_table) (c : SiteChange) : site_table :=
  match sc_Value c with
  | None => delete (sc_Kind c, sc_ID c) rows
  | Some v => <[(sc_Kind c, sc_ID c) := v]> rows
  end.
Definition write_changes (rows : site_table) (changes : list SiteChange) : site_table :=
  foldl write_change rows changes.

(** The table holds exactly the records of the document. *)
Definition holds_kind {T} (inject : T → site_value) (kind : string) (id : T → string)
    (rows : site_table) (l : list T) : Prop :=
  ∀ k, rows !! (kind, k) = inject <$> index_by_id id l !! k.
Record holds (rows : site_table) (s : SiteState) : Prop := {
  ho_units : holds_kind VUnit "unit" ID rows (Units s);
  ho_buildings : holds_kind VBuilding "building" ID rows (Buildings s);
  ho_floors : holds_kind VFloor "floor" ID rows (Floors s);
  ho_points : holds_kind VPoint "point" ID rows (Points s) }.

(** Records that are the same are equal. *)
Definition sound {T} (same : T → T → bool) : Prop := ∀ a b, same a b = true → a = b.
Record eqs_sound (eqs : pointer_equality) : Prop := {
  so_unit : sound (same_unit eqs);
  so_building : sound (same_building eqs);
  so_floor : sound (same_floor eqs);
  so_point : sound (same_point eqs) }.

Section kind.
Context `{MapOrderLaws} {T : Type} (same : T → T → bool) (inject : T → site_value) (kind : string)
  (id : T → string) (Hsound : sound same).

Abbreviation add l m := (foldl (λ old v, <[id v := v]> old) m l).

(** Changes of one kind leave the rows of the others. *)
Lemma write_other rows changes kind' k :
  Forall (λ c, sc_Kind c = kind) changes → kind' ≠ kind →
  write_changes rows changes !! (kind', k) = rows !! (kind', k).
Proof.
  intros Hk Hne. revert rows. induction Hk as [|c changes Hc _ IH]; intros rows; [done|].
  cbn. rewrite IH. unfold write_change. assert ((sc_Kind c, sc_ID c) ≠ (kind', k)) by congruence.
  destruct (sc_Value c); [by rewrite lookup_insert_ne|by rewrite lookup_delete_ne].
Qed.

Lemma write_deletes rows keys k :
  write_changes rows ((λ key, mk_SiteChange kind key None) <$> keys) !! (kind, k) =
  if decide (k ∈ keys) then None else rows !! (kind, k).
Proof.
  revert rows. induction keys as [|x keys IH]; intros rows; [done|].
  cbn. rewrite IH. unfold write_change; cbn. destruct (decide (k ∈ keys)) as [Hin|Hni].
  - rewrite decide_True; [done|by right].
  - destruct (decide (k = x)) as [->|Hne].
    + rewrite decide_True by (by left). by rewrite lookup_delete_eq.
    + rewrite lookup_delete_ne by congruence. rewrite decide_False; [done|].
      rewrite elem_of_cons. tauto.
Qed.

(** The loop: the changes so far give the records of [next] added to [m],
    and what is left to delete is what [next] does not mention. *)
Lemma diff_next_spec next rows old (m : gmap string T) out :
  (∀ k, write_changes rows out !! (kind, k) = inject <$> m !! k) →
  (∀ k v, old !! k = Some v → m !! k = Some v) →
  Forall (λ c, sc_Kind c = kind) out →
  let '(out', old') := diff_next same inject kind id out old next in
  (∀ k, write_changes rows out' !! (kind, k) = inject <$> add next m !! k) ∧
  (∀ k, old' !! k = if decide (k ∈ id <$> next) then None else old !! k) ∧
  Forall (λ c, sc_Kind c = kind) out'.
Proof.
  revert old m out. induction next as [|v next IH]; intros old m out Hrows Hold Hk.
  { cbn. split_and!; [done| |done]. intros k. by rewrite decide_False by apply not_elem_of_nil. }
  cbn [diff_next foldl]. set (out1 := match old !! id v with Some _ => _ | None => _ end).
  assert (Hout1 : (∀ k, write_changes rows out1 !! (kind, k) = inject <$> <[id v := v]> m !! k)
    ∧ Forall (λ c, sc_Kind c = kind) out1).
  { assert (Hnew : let out2 := out ++ [mk_SiteChange kind (id v) (Some (inject v))] in
      (∀ k, write_changes rows out2 !! (kind, k) = inject <$> <[id v := v]> m !! k)
      ∧ Forall (λ c, sc_Kind c = kind) out2).
    { split; [|by apply Forall_app; split; [|repeat constructor]]. intros k.
      unfold write_changes. rewrite foldl_app. cbn. unfold write_change at 1; cbn.
      destruct (decide (id v = k)) as [<-|Hne]; [by rewrite !lookup_insert_eq|].
      rewrite !lookup_insert_ne by congruence. apply Hrows. }
    unfold out1. destruct (old !! id v) as [previous|] eqn:Hprev; [|done].
    destruct (same previous v) eqn:Hs; [|done]. apply Hsound in Hs as ->. split; [|done].
    rewrite insert_id; [done|]. by apply Hold. }
  destruct Hout1 as [Hrows1 Hk1].
  specialize (IH (delete (id v) old) (<[id v := v]> m) out1 Hrows1).
  destruct (diff_next _ _ _ _ out1 _ next) as [out' old'].
  destruct IH as (Hr & Ho & Hk'); [|done|].
  { intros k x [Hne Hl]%lookup_delete_Some. rewrite lookup_insert_ne by done. by apply Hold. }
  split_and!; [done| |done]. intros k. rewrite Ho. cbn. destruct (decide (k ∈ id <$> next)) as [Hin|Hni].
  - rewrite decide_True; [done|by right].
  - destruct (decide (k = id v)) as [->|Hne].
    + rewrite decide_True by (by left). by rewrite lookup_delete_eq.
    + rewrite lookup_delete_ne by done. rewrite decide_False; [done|]. rewrite elem_of_cons. tauto.
Qed.

Lemma add_lookup l (m : gmap string T) k :
  add l m !! k = match index_by_id id l !! k with Some v => Some v | None => m !! k end.
Proof.
  unfold index_by_id. induction l as [|v l IH] using rev_ind; [cbn; by rewrite lookup_empty|].
  rewrite !foldl_app. cbn. destruct (decide (id v = k)) as [<-|Hne];
    [by rewrite !lookup_insert_eq|by rewrite !lookup_insert_ne].
Qed.

Lemma index_by_id_is_Some l k : is_Some (index_by_id id l !! k) ↔ k ∈ id <$> l.
Proof.
  unfold index_by_id. induction l as [|v l IH] using rev_ind.
  { cbn. rewrite lookup_empty, elem_of_nil. split; [by intros []|done]. }
  rewrite foldl_app, fmap_app, elem_of_app, <-IH. cbn. rewrite list_elem_of_singleton.
  destruct (decide (id v = k)) as [<-|Hne].
  - rewrite lookup_insert_eq. split; [by right|by eexists].
  - rewrite lookup_insert_ne by done. naive_solver.
Qed.

(** The list of changes between two collections, written after [out]. *)
Lemma diffSites_spec rows out base next :
  holds_kind inject kind id rows base →
  ∃ changes, diffSites same inject kind id out base next = out ++ changes ∧
    Forall (λ c, sc_Kind c = kind) changes ∧
    holds_kind inject kind id (write_changes rows changes) next.
Proof.
  intros Hrows. unfold diffSites.
  assert (Hpre : ∀ out old next, diff_next same inject kind id out old next =
    (out ++ (diff_next same inject kind id [] old next).1, (diff_next same inject kind id [] old next).2)).
  { clear. intros out old next. revert out old.
    induction next as [|v next IH]; intros out old; cbn; [by rewrite app_nil_r|].
    rewrite IH. rewrite (IH (match old !! id v with Some _ => _ | None => _ end)). cbn.
    destruct (old !! id v) as [p|]; [destruct (same p v)|]; cbn; by rewrite <-?app_assoc. }
  rewrite Hpre. pose proof (diff_next_spec next rows (index_by_id id base) (index_by_id id base) []) as Hd.
  destruct (diff_next same inject kind id [] _ next) as [out' old']. cbn.
  destruct Hd as (Hr & Ho & Hk); [done|done|by constructor|].
  exists (out' ++ ((λ key, mk_SiteChange kind key None) <$> map_range old')).
  split; [by rewrite app_assoc|]. split.
  { apply Forall_app. split; [done|]. apply Forall_fmap. by apply Forall_true. }
  intros k. unfold write_changes at 1. rewrite foldl_app. fold (write_changes rows out').
  change (foldl write_change ?m ?l) with (write_changes m l). rewrite write_deletes.
  assert (Hin : k ∈ map_range old' ↔ is_Some (old' !! k)).
  { rewrite map_range_keys, list_elem_of_fmap. split.
    - intros ([k' v] & -> & Hv%elem_of_map_to_list). by eexists.
    - intros [v Hv]. exists (k, v). by rewrite elem_of_map_to_list. }
  rewrite Ho in Hin. destruct (decide (k ∈ map_range old')) as [Hr'|Hr'].
  - apply Hin in Hr' as [v Hv]. destruct (decide (k ∈ id <$> next)) as [?|Hni]; [done|].
    destruct (index_by_id id next !! k) eqn:Hl; [|done]. exfalso. apply Hni, index_by_id_is_Some.
    by eexists.
  - rewrite Hr, add_lookup. destruct (index_by_id id next !! k) as [v|] eqn:Hl; [done|]. f_equal.
    destruct (index_by_id id base !! k) as [v|] eqn:Hb; [|done]. exfalso. apply Hr', Hin.
    rewrite decide_False; [by eexists|]. rewrite <-index_by_id_is_Some, Hl. by intros [].
Qed.
End kind.

(** C21: the changes of [SiteChanges], written to the table of the old
    document, give the table of the new one, whatever order the deletes come
    in; rows of other kinds are not touched. *)
Theorem SiteChanges_roundtrip `{MapOrderLaws} eqs rows base next :
  eqs_sound eqs → holds rows base →
  let rows' := write_changes rows (SiteChanges eqs base next) in
  holds rows' next ∧
  (∀ kind k, (kind ∉ ["unit"; "building"; "floor"; "point"]) → rows' !! (kind, k) = rows !! (kind, k)).
Proof.
  intros [Hu Hb Hf Hp] [Ku Kb Kf Kp]. unfold SiteChanges.
  destruct (diffSites_spec (same_unit eqs) VUnit "unit" ID Hu rows [] _ (Units next) Ku)
    as (c1 & -> & F1 & H1).
  assert (Hstep : ∀ {T} (inject : T → _) kind id (l : list T) c kind' r,
    Forall (λ c, sc_Kind c = kind') c → kind ≠ kind' →
    holds_kind inject kind id r l → holds_kind inject kind id (write_changes r c) l).
  { intros T inject kind id l c kind' r Hc Hne Hh k. by rewrite (write_other kind'). }
  destruct (diffSites_spec (same_building eqs) VBuilding "building" ID Hb (write_changes rows c1)
    ([] ++ c1) _ (Buildings next) ltac:(by eapply Hstep)) as (c2 & -> & F2 & H2).
  destruct (diffSites_spec (same_floor eqs) VFloor "floor" ID Hf
    (write_changes (write_changes rows c1) c2) (([] ++ c1) ++ c2) _ (Floors next)
    ltac:(eapply Hstep; [done|done|by eapply Hstep])) as (c3 & -> & F3 & H3).
  destruct (diffSites_spec (same_point eqs) VPoint "point" ID Hp
    (write_changes (write_changes (write_changes rows c1) c2) c3) ((([] ++ c1) ++ c2) ++ c3) _
    (Points next) ltac:(do 2 (eapply Hstep; [done|done|]); by eapply Hstep)) as (c4 & -> & F4 & H4).
  cbn zeta. unfold write_changes in *. rewrite !foldl_app. cbn [foldl].
  split.
  - split; [do 3 (eapply Hstep; [done|done|])|do 2 (eapply Hstep; [done|done|])
           |eapply Hstep; [done|done|]|]; done.
  - intros kind k Hk. rewrite !elem_of_cons, elem_of_nil in Hk.
    by rewrite (write_other "point"), (write_other "floor"), (write_other "building"),
      (write_other "unit") by (done || tauto).
Qed.
