(* ===== verification/SitesTheorems.v ===== *)
(** The properties of the sites service. *)
From S2P Require Import Prelude Keyed GoText GoJson Optimistic SitesModel SitesService SitesApply.
From S2P Require Import SitesInvariant SitesProofs SitesApplyProofs.

(** ** Requests *)

(** The changes the service offers. *)
Inductive site_request :=
  | QSaveUnit (actor : string) (v : SiteUnit)
  | QDeleteUnit (id : string) (version : Z)
  | QSaveBuilding (actor : string) (v : SiteBuilding)
  | QDeleteBuilding (id : string) (version : Z)
  | QSaveFloor (actor : string) (v : SiteFloor)
  | QSetFloorPlan (actor id : string) (version : Z) (plan : FloorPlan)
  | QDeleteFloor (id : string) (version : Z)
  | QSavePoint (actor : string) (v : SitePoint)
  | QDeletePoint (id : string) (version : Z).

Section with_platform.
Context `{PlatformLaws}.

(** The whole request on a document: the checks of the fields and the change. *)
Definition site_change (q : site_request) (now : Z) : M SiteState unit :=
  match q with
  | QSaveUnit actor v => v ← lift (unit_texts v); _ ← save_unit actor v now; mret tt
  | QDeleteUnit id version => delete_unit id version now
  | QSaveBuilding actor v => v ← lift (building_texts v); _ ← save_building actor v now; mret tt
  | QDeleteBuilding id version => delete_building id version now
  | QSaveFloor actor v => v ← lift (floor_texts v); _ ← save_floor actor v now; mret tt
  | QSetFloorPlan actor id version plan => _ ← set_floor_plan actor id version plan now; mret tt
  | QDeleteFloor id version => _ ← delete_floor id version now; mret tt
  | QSavePoint actor v => v ← lift (point_texts v); _ ← save_point actor v now; mret tt
  | QDeletePoint id version => _ ← delete_point id version now; mret tt
  end.

Lemma site_change_preserves q now : preserves (site_change q now).
Proof.
  intros w r w' Hr Hwf. destruct q; cbn in Hr; inv_ok Hr;
    [eapply save_unit_preserves|eapply delete_unit_preserves|eapply save_building_preserves
    |eapply delete_building_preserves|eapply save_floor_preserves|eapply set_floor_plan_preserves
    |eapply delete_floor_preserves|eapply save_point_preserves|eapply delete_point_preserves]; eauto.
Qed.

Lemma grows_stamp {S} in_ old actor now : grows (stamp in_ old actor now : M S SiteRecord).
Proof. unfold stamp. grow. Qed.
#[local] Hint Resolve grows_stamp : grows.

Lemma site_change_grows q now : grows (site_change q now).
Proof.
  destruct q; cbn [site_change]; unfold save_unit, delete_unit, save_building, delete_building,
    save_floor, set_floor_plan, delete_floor, save_point, delete_point; grow.
Qed.

(** The documents a tenant can have. *)
Inductive site_reachable : nat → SiteState → Prop :=
  | site_empty n : site_reachable n empty_sites
  | site_serve n s q now u w' :
      site_reachable n s → site_change q now (mk_world s n) = Ok (u, w') →
      site_reachable (w_next w') (w_state w')
  | site_save n s z : site_reachable n s → site_reachable n (s <| ss_Revision := z |>)
  | site_draw n m s : site_reachable n s → (n ≤ m)%nat → site_reachable m s.

Lemma site_reachable_is_wf n s : site_reachable n s → wf n s.
Proof.
  induction 1 as [n|n s q now u w' _ IH Hs|n s z _ IH|n m s _ IH Hnm].
  - apply empty_sites_wf.
  - by apply (site_change_preserves _ _ _ _ _ Hs).
  - by apply site_wf_revision.
  - by eapply site_wf_mono.
Qed.

Lemma point_unique n s p q :
  wf n s → p ∈ Points s → q ∈ Points s → pt_DeviceID p = pt_DeviceID q →
  pt_ComponentID p = pt_ComponentID q → p = q.
Proof.
  intros [] Hp Hq Hd Hc. destruct (decide (ID p = ID q)) as [Hid|Hne].
  - destruct wk_points as [Hnd _]. apply get_by_elem_of in Hp, Hq; [|done..].
    rewrite Hid in Hp. congruence.
  - by destruct (wd_points p q Hp Hq Hne Hd).
Qed.

End with_platform.

(** ** Locating *)

Lemma device_indices_points d k pts ps :
  length ps = k →
  omap (λ i, (ps ++ pts) !! i) (device_indices d k pts) = filter (λ p, pt_DeviceID p = d) pts.
Proof.
  revert k ps. induction pts as [|p pts IH]; intros k ps Hk; cbn [device_indices]; [done|].
  assert (Hrest : omap (λ i, (ps ++ p :: pts) !! i) (device_indices d (S k) pts)
    = filter (λ p, pt_DeviceID p = d) pts).
  { rewrite <-(IH (S k) (ps ++ [p])); [by rewrite <-app_assoc|]. rewrite length_app. cbn. lia. }
  rewrite filter_cons. case_decide; [|done]. cbn. rewrite Hrest.
  rewrite lookup_app_r, Hk, Nat.sub_diag by lia. done.
Qed.

(** The index lists for each device the positions of its points. *)
Lemma index_points_lookup d k pts m :
  default [] (index_points k pts m !! d) = default [] (m !! d) ++ device_indices d k pts.
Proof.
  revert k m. induction pts as [|p pts IH]; intros k m; cbn [index_points device_indices].
  - by rewrite app_nil_r.
  - rewrite IH. case_decide as Hd.
    + rewrite Hd, lookup_insert_eq. cbn. by rewrite <-app_assoc.
    + by rewrite lookup_insert_ne.
Qed.

Lemma build_index_lookup s d :
  default [] (ix_byDevice (build_index s) !! d) = device_indices d 0 (Points s).
Proof. unfold build_index. cbn. rewrite index_points_lookup. by rewrite lookup_empty. Qed.

Lemma pick_point_spec c acc l :
  pick_point c acc l =
  match find_first (λ p, pt_ComponentID p = c) l with
  | Some (_, p) => Some p
  | None => match acc with Some p => Some p
            | None => snd <$> find_first (λ p, pt_ComponentID p = "") l end
  end.
Proof.
  revert acc. induction l as [|p l IH]; intros acc; cbn; [by destruct acc|].
  case_decide; [done|]. rewrite IH. destruct (find_first _ l) as [[i q]|]; [done|]. cbn.
  destruct acc; [done|]. case_decide; [done|]. by destruct (find_first _ l) as [[]|].
Qed.

(** C17: [Locate] finds the point of the component, and otherwise the point of
    the device itself; it fails only when there is neither.  The location
    carries the names of the point's unit and of its building and floor when
    it has them. *)
Theorem Locate_nearest `{PlatformLaws} n s d c :
  wf n s →
  match Locate s d c with
  | Some loc => ∃ p, p ∈ Points s ∧ pt_DeviceID p = d ∧
      (pt_ComponentID p = c ∨ pt_ComponentID p = "" ∧
         ∀ q, q ∈ Points s → pt_DeviceID q = d → pt_ComponentID q ≠ c) ∧
      loc = location_of s p ∧
      (∃ u, get_by (Units s) (pt_UnitID p) = Some u ∧ al_UnitName loc = un_Name u) ∧
      (pt_BuildingID p ≠ "" → ∃ b, get_by (Buildings s) (pt_BuildingID p) = Some b ∧
         bu_UnitID b = pt_UnitID p ∧ al_BuildingName loc = bu_Name b) ∧
      (pt_FloorID p ≠ "" → ∃ f, get_by (Floors s) (pt_FloorID p) = Some f ∧
         fl_BuildingID f = pt_BuildingID p ∧ al_FloorName loc = fl_Name f)
  | None => ∀ q, q ∈ Points s → pt_DeviceID q = d → pt_ComponentID q ≠ c ∧ pt_ComponentID q ≠ ""
  end.
Proof.
  intros Hwf. unfold Locate, locate.
  pose proof (device_indices_points d 0 (Points s) [] eq_refl) as Hidx. cbn [app] in Hidx.
  rewrite Hidx, pick_point_spec. set (l := filter _ _).
  assert (Hl : ∀ p, p ∈ l ↔ pt_DeviceID p = d ∧ p ∈ Points s) by (intros p; unfold l; by rewrite list_elem_of_filter).
  assert (Hnames : ∀ p, p ∈ Points s →
    (∃ u, get_by (Units s) (pt_UnitID p) = Some u ∧ al_UnitName (location_of s p) = un_Name u) ∧
    (pt_BuildingID p ≠ "" → ∃ b, get_by (Buildings s) (pt_BuildingID p) = Some b ∧
         bu_UnitID b = pt_UnitID p ∧ al_BuildingName (location_of s p) = bu_Name b) ∧
    (pt_FloorID p ≠ "" → ∃ f, get_by (Floors s) (pt_FloorID p) = Some f ∧
         fl_BuildingID f = pt_BuildingID p ∧ al_FloorName (location_of s p) = fl_Name f)).
  { intros p Hp. destruct (wp_points _ _ Hwf p Hp). cbn. unfold unit_index, building_index, floor_index.
    split; [|split].
    - apply get_by_is_Some in pl_unit as [u Hu]. exists u. split; [done|].
      apply get_by_find in Hu as [j ->]. done.
    - intros Hb. destruct (pl_building Hb) as (b & Hget & Hu). exists b. split; [done|].
      split; [done|]. apply get_by_find in Hget as [j ->]. done.
    - intros Hf. destruct (pl_floor Hf) as (f & Hget & Hb). exists f. split; [done|].
      split; [done|]. apply get_by_find in Hget as [j ->]. done. }
  destruct (find_first _ l) as [[i p]|] eqn:Hc; cbn.
  { apply list_find_Some in Hc as (Hp%list_elem_of_lookup_2 & Hpc & _). apply Hl in Hp as [Hd Hp].
    exists p. split_and!; try done; [by left|by apply Hnames..]. }
  apply list_find_None in Hc. rewrite Forall_forall in Hc.
  destruct (find_first _ l) as [[i p]|] eqn:Hdev; cbn.
  - apply list_find_Some in Hdev as (Hp%list_elem_of_lookup_2 & Hpc & _). apply Hl in Hp as [Hd Hp].
    exists p. split_and!; try done; [|by apply Hnames..]. right. split; [done|].
    intros q Hq Hqd. apply Hc, Hl. done.
  - apply list_find_None in Hdev. rewrite Forall_forall in Hdev.
    intros q Hq Hqd. split; [apply Hc|apply Hdev]; by apply Hl.
Qed.

(** ** Neighbours *)

(** A point on the floor of [loc], or in its building when it has no floor. *)
Definition near (loc : AlarmLocation_t) (p : SitePoint) : Prop :=
  pt_BuildingID p = al_BuildingID loc ∧ (al_FloorID loc ≠ "" → pt_FloorID p = al_FloorID loc).

(** Membership in small unions, with nothing but the atoms in the context. *)
#[local] Ltac solve_in :=
  repeat match goal with IH : ∀ _, _ |- _ => clear IH end; set_solver.

Lemma near_loop_spec loc exclude seen out done_ pts :
  seen = {[exclude]} ∪ list_to_set out → NoDup out → exclude ∉ out →
  (length out < 500)%nat →
  (∀ d, d ∈ out → ∃ p, p ∈ done_ ∧ pt_DeviceID p = d ∧ near loc p) →
  (∀ p, p ∈ done_ → near loc p → pt_DeviceID p ≠ exclude → pt_DeviceID p ∈ out) →
  let res := near_loop loc seen out pts in
  NoDup res ∧ (exclude ∉ res) ∧ (length res ≤ 500)%nat ∧
  (∀ d, d ∈ res → ∃ p, p ∈ done_ ++ pts ∧ pt_DeviceID p = d ∧ near loc p) ∧
  ((length res < 500)%nat → ∀ p, p ∈ done_ ++ pts → near loc p → pt_DeviceID p ≠ exclude →
     pt_DeviceID p ∈ res).
Proof.
  revert seen out done_. induction pts as [|p pts IH]; intros seen out done_ Hseen Hnd Hex Hlen Hs Hc.
  { cbn. rewrite app_nil_r. split_and!; auto with lia. }
  cbn [near_loop]. rewrite (cons_middle p done_ pts), app_assoc. case_decide as Hskip.
  - apply IH; try done.
    + intros d Hd. destruct (Hs d Hd) as (q & ? & ?). exists q. solve_in.
    + intros q [Hq| ->%list_elem_of_singleton]%elem_of_app Hn Hne; [by apply Hc|].
      destruct Hn as [Hb Hf]. destruct Hskip as [?|[[? ?]|Hin]]; [done|tauto|]. solve_in.
  - assert (Hn : near loc p ∧ pt_DeviceID p ∉ seen).
    { split; [|tauto]. split; [apply dec_stable; tauto|]. intros Hf. apply dec_stable. tauto. }
    destruct Hn as [Hn Hnew]. rewrite Hseen in Hnew.
    assert (Hnd' : NoDup (out ++ [pt_DeviceID p])).
    { apply NoDup_app. split; [done|]. split; [solve_in|apply NoDup_singleton]. }
    assert (Hs' : ∀ d, d ∈ out ++ [pt_DeviceID p] → ∃ q, q ∈ done_ ++ [p] ∧ pt_DeviceID q = d ∧ near loc q).
    { intros d [Hd| ->%list_elem_of_singleton]%elem_of_app; [|exists p; solve_in].
      destruct (Hs d Hd) as (q & ? & ?). exists q. solve_in. }
    assert (Hex' : exclude ∉ out ++ [pt_DeviceID p]) by solve_in.
    case_decide as Hfull; unfold maxNearbyDevices in Hfull; rewrite length_app in Hfull; cbn in Hfull.
    + split_and!; [done|done|rewrite length_app; cbn; lia| |rewrite length_app; cbn; lia].
      intros d Hd. destruct (Hs' d Hd) as (q & ? & ?). exists q. solve_in.
    + apply IH; try done.
      * rewrite Hseen, list_to_set_app_L. solve_in.
      * rewrite length_app. cbn. lia.
      * intros q [Hq| ->%list_elem_of_singleton]%elem_of_app Hnq Hne; [|solve_in].
        apply elem_of_app. left. by apply Hc.
Qed.

(** The devices near a location are other devices with a point on the
    same floor (or in the same building when the location has no floor), each
    once and at most 500; and when fewer are listed none is missing. *)
Theorem devices_near_spec s loc exclude :
  NoDup (devices_near s loc exclude) ∧ (exclude ∉ devices_near s loc exclude) ∧
  (length (devices_near s loc exclude) ≤ 500)%nat ∧
  (∀ d, d ∈ devices_near s loc exclude → ∃ p, p ∈ Points s ∧ pt_DeviceID p = d ∧ near loc p) ∧
  ((length (devices_near s loc exclude) < 500)%nat → ∀ p, p ∈ Points s → near loc p →
     pt_DeviceID p ≠ exclude → pt_DeviceID p ∈ devices_near s loc exclude).
Proof.
  unfold devices_near. apply (near_loop_spec loc exclude _ _ []); try done; try set_solver.
  - constructor.
  - cbn. lia.
Qed.

(** A device's unit is the one of its device-level point: [DeviceUnits]
    maps a device to a unit exactly when such a point exists. *)
Theorem DeviceUnits_spec `{PlatformLaws} n s d u :
  wf n s → DeviceUnits s !! d = Some u ↔
  ∃ p, p ∈ Points s ∧ pt_DeviceID p = d ∧ pt_ComponentID p = "" ∧ pt_UnitID p = u.
Proof.
  intros Hwf. assert (Hfold : ∀ pts (m : gmap string string),
    (∀ p q, p ∈ pts → q ∈ pts → pt_ComponentID p = "" → pt_ComponentID q = "" →
       pt_DeviceID p = pt_DeviceID q → p = q) →
    (∀ p, p ∈ pts → pt_ComponentID p = "" → m !! pt_DeviceID p = None ∨ m !! pt_DeviceID p = Some (pt_UnitID p)) →
    foldl (λ out p, if decide (pt_ComponentID p = "") then <[pt_DeviceID p := pt_UnitID p]> out else out)
      m pts !! d = Some u ↔ m !! d = Some u ∨
    ∃ p, p ∈ pts ∧ pt_DeviceID p = d ∧ pt_ComponentID p = "" ∧ pt_UnitID p = u).
  { induction pts as [|p pts IH]; intros m Hone Hm; cbn [foldl].
    { split; [by left|]. intros [?|(p & Hp & _)]; [done|]. by apply not_elem_of_nil in Hp. }
    rewrite IH; clear IH.
    - setoid_rewrite elem_of_cons. case_decide as Hc; [|naive_solver].
      rewrite lookup_insert_Some. split.
      + intros [[[<- <-]|[? ?]]|(q & ? & ?)]; [right; exists p; tauto|by left|right; exists q; tauto].
      + intros [Hl|(q & [->|Hq] & Hd & Hqc & Hqu)]; [|by left; left|by right; exists q].
        destruct (decide (pt_DeviceID p = d)) as [Hd|]; [left; left|by left; right].
        split; [done|]. destruct (Hm p ltac:(by left) Hc); rewrite Hd in *; congruence.
    - intros q1 q2 ? ?. apply Hone; by right.
    - intros q Hq Hqc. case_decide as Hc; [|by apply Hm; [right|]].
      destruct (decide (pt_DeviceID p = pt_DeviceID q)) as [Hd|Hne].
      + right. rewrite Hd, lookup_insert_eq. f_equal. f_equal. apply Hone; auto; [by left|by right].
      + rewrite lookup_insert_ne by done. apply Hm; [by right|done]. }
  unfold DeviceUnits. rewrite Hfold; clear Hfold.
  - rewrite lookup_empty. naive_solver.
  - intros p q Hp Hq Hpc Hqc Hd. eapply point_unique; try done. congruence.
  - intros p _ _. left. apply lookup_empty.
Qed.

(** ** The service under interference *)

Section service.
Context `{PlatformLaws, MapOrder}.

(** C20: [apply] is linearizable for every change the service offers: it ends
    within 24 store calls, commits the change of the document stored at that
    moment exactly once or returns an error without a write, and keeps the
    documents well-formed and both caches coherent. *)
Theorem site_apply_linearizes sched k t q s r s' :
  rely k sched → sane_io k s → k + Z.of_nat (io_tick s) + 24 < two63 - 1 →
  apply sched t (site_change q) s = (r, s') →
  sane_io k s' ∧ moves (io_db s) (io_db s') ∧ (io_tick s' ≤ io_tick s + 24)%nat ∧
  linearized sched t (site_change q) (io_db s) (io_db s') r.
Proof.
  intros Hrely Hs Hk Hr. assert (Hok : handler_ok (C := site_cache) (site_change q)).
  { intros now w u w' Hc. split; [|by intros Hwf; eapply site_change_preserves].
    by eapply site_change_grows. }
  unfold apply in Hr. case_decide.
  { injection Hr as <- <-. split; [done|]. split; [done|]. split; [lia|apply rtc_refl]. }
  apply (site_apply_attempts_ok sched k Hrely) in Hr as (Hs' & Ht & Hlin); [|done|done|lia].
  split; [done|]. split; [|by split; [lia|]].
  destruct r as [u|e]; [|by eapply quiet_moves].
  destruct Hlin as (db1 & m & n & w' & Hq & _ & _ & ->).
  etrans; [by eapply quiet_moves|apply moves_commit].
Qed.
(** The index used for a lookup lists the device's points. *)
Lemma current_index_ok k t state s r s' :
  sane_io k s → state = LoadSiteState t (io_db s) → current_index t state s = (r, s') →
  sane_io k s' ∧ io_db s' = io_db s ∧ r = Ok (build_index state).
Proof.
  intros Hs -> Hr. destruct (sane_coherent _ _ _ _ Hs) as [Hc Hi].
  assert (Hset : ∀ r s', (Ok (build_index (LoadSiteState t (io_db s))),
      s <| io_cache ::= (λ c, c <| sv_points ::= <[t := build_index (LoadSiteState t (io_db s))]> |>) |>)
      = (r, s') →
    sane_io k s' ∧ io_db s' = io_db s ∧ r = Ok (build_index (LoadSiteState t (io_db s)))).
  { intros r0 s0 [= <- <-]. split; [|done]. destruct Hs. split; [done| |done]. split; [exact Hc|].
    cbn. intros t' x [[<- <-]|[_ Hl]]%lookup_insert_Some; [done|by apply Hi]. }
  unfold current_index in Hr. destruct (sv_points (io_cache s) !! t) as [ix|] eqn:Hl; [|by apply Hset].
  case_decide as Hrev; [by apply Hset|]. injection Hr as <- <-.
  split; [done|]. split; [done|]. destruct (Hi t ix Hl) as [_ ->]; [done|exact Hrev].
Qed.

Lemma Snapshot_answers sched t s :
  (∀ n, s_fail sched n = None) → ∃ a s', Snapshot sched t s = (Ok a, s').
Proof.
  intros Hf. assert (Hcall : ∀ A (f : site_database → A * site_database) s,
    ∃ a s', call sched f s = (Ok a, s')).
  { intros A f s0. unfold call. destruct (s_env _ _ _). rewrite Hf. destruct (f _). by do 2 eexists. }
  unfold Snapshot, mbind, IO_bind.
  destruct (Hcall _ (λ db, (SiteRevision t db, db)) s) as (rev & s1 & ->). cbn.
  destruct (Hcall _ (λ db, (LoadSiteState t db, db)) s1) as (st & s2 & Hload).
  destruct (sv_cache _ !! t); [case_decide; [by do 2 eexists|]|]; rewrite Hload; by do 2 eexists.
Qed.

(** C22: [AlarmLocation] never fails and never answers from an old document:
    it returns what [Locate] finds in the document stored when it returns,
    whether the index was cached or rebuilt, or nothing after a storage
    failure; without one it is [Locate]. *)
Theorem AlarmLocation_current sched k t d c s r s' :
  rely k sched → sane_io k s → AlarmLocation sched t d c s = (r, s') →
  let found := Locate (LoadSiteState t (io_db s')) d c in
  sane_io k s' ∧ moves (io_db s) (io_db s') ∧ (r = Ok found ∨ r = Ok None) ∧
  ((∀ n, s_fail sched n = None) → r = Ok found).
Proof.
  intros Hrely Hs Hr. unfold AlarmLocation, or_nil, mbind, IO_bind in Hr.
  destruct (Snapshot sched t s) as [[state|e] s1] eqn:Hsn;
    pose proof (site_Snapshot_ok sched k Hrely _ _ _ _ Hs Hsn) as (Hs1 & Hq & _ & Hst).
  - specialize (Hst _ eq_refl). destruct (current_index t state s1) as [ri s2] eqn:Hix.
    apply (current_index_ok k) in Hix as (Hs2 & Hdb & ->); [|done..].
    injection Hr as <- <-. cbn zeta. rewrite Hdb, <-Hst.
    replace (Locate state d c) with (locate state (default [] (ix_byDevice (build_index state) !! d)) c)
      by (unfold Locate; by rewrite build_index_lookup).
    split; [done|]. split; [by eapply quiet_moves|]. split; [by left|done].
  - injection Hr as <- <-. split; [done|]. split; [by eapply quiet_moves|]. split; [by right|].
    intros Hf. destruct (Snapshot_answers sched t s Hf) as (a & s2 & Ha). congruence.
Qed.

(** the snapshots of a process stay within their bound: whatever state a
    tenant is remembered in, at most 4096 tenants are cached. *)
Theorem remember_bounded `{!MapOrderLaws} t state (s : site_io) :
  (size (sv_cache (io_cache s)) ≤ 4096)%nat →
  (size (sv_cache (io_cache (remember t state s).2)) ≤ 4096)%nat.
Proof. apply (remembered_bound t state). Qed.
End service.
