(* ===== verification/SitesWitness.v ===== *)
(** The theorems about the sites service applied to a concrete site. *)
From S2P Require Import Prelude Keyed GoText GoJson Optimistic SitesModel SitesService SitesApply.
From S2P Require Import SitesInvariant SitesProofs SitesApplyProofs SitesDiff SitesTheorems.
From S2P Require Import Scenario.
From Stdlib Require Import SpecFloat.

#[local] Existing Instance ascii_platform.
#[local] Existing Instance ascii_laws.

(** Keys in the order the map library lists them. *)
#[local] Instance list_order : MapOrder := λ A m, (map_to_list m).*1.
#[local] Instance list_order_laws : MapOrderLaws.
Proof. intros A m. reflexivity. Qed.

(** ** A site *)

Definition rec0 (id : string) (version : Z) : SiteRecord := mk_SiteRecord id version 0 0 "".
Definition half : option float64 := Some (S754_finite false 4503599627370496 (-53)).
Definition plant : SiteUnit := mk_SiteUnit (rec0 "" 0) " Plant " "P1" "" "" "" "".
Definition hall : SiteBuilding := mk_SiteBuilding (rec0 "" 0) "u" "Hall" "" 3 1 "".
Definition ground : SiteFloor := mk_SiteFloor (rec0 "" 0) "uu" "F1" 1 None.
Definition plan : FloorPlan := mk_FloorPlan "image/png" "ab" 10 100 100 0.
Definition detector : SitePoint :=
  mk_SitePoint (rec0 "" 0) "" "" "uuu" "dev1" "" "detector" half half.
Definition probe : SitePoint :=
  mk_SitePoint (rec0 "" 0) "" "" "uuu" "dev2" "c1" "probe" None None.
Definition setup : list site_request :=
  [QSaveUnit "ann" plant; QSaveBuilding "ann" hall; QSaveFloor "ann" ground;
   QSetFloorPlan "ann" "uuu" 1 plan; QSavePoint "ann" detector; QSavePoint "ann" probe].

Fixpoint run_changes (qs : list site_request) (w : world SiteState) : world SiteState :=
  match qs with
  | [] => w
  | q :: qs => match site_change q now0 w with Ok (_, w) => run_changes qs w | Err _ => w end
  end.
Lemma run_changes_reachable qs w :
  site_reachable (w_next w) (w_state w) →
  site_reachable (w_next (run_changes qs w)) (w_state (run_changes qs w)).
Proof.
  revert w. induction qs as [|q qs IH]; intros w Hw; cbn [run_changes]; [done|].
  destruct (site_change q now0 w) as [[u w']|e] eqn:Hq; [|done]. apply IH.
  eapply site_serve; [exact Hw|]. destruct w. exact Hq.
Qed.

Definition site_world : world SiteState := run_changes setup (mk_world empty_sites 0).
Definition site : SiteState := w_state site_world.
Lemma site_is_reachable : site_reachable (w_next site_world) site.
Proof. apply run_changes_reachable, site_empty. Qed.
Lemma site_is_wf : wf (w_next site_world) site.
Proof. apply site_reachable_is_wf, site_is_reachable. Qed.

Definition point0 : SitePoint := default detector (Points site !! 0%nat).


Lemma Locate_nearest_witness :
  ∃ loc, Locate site "dev1" "c9" = Some loc ∧ al_UnitName loc = "Plant" ∧ al_X loc = half ∧
    ∃ p, p ∈ Points site ∧ pt_DeviceID p = "dev1" ∧
      (pt_ComponentID p = "c9" ∨ pt_ComponentID p = "").
Proof.
  pose proof (Locate_nearest (w_next site_world) site "dev1" "c9" site_is_wf) as Hl.
  assert (Hv : (λ loc, (al_UnitName loc, al_X loc)) <$> Locate site "dev1" "c9" = Some ("Plant", half))
    by (vm_compute; reflexivity).
  destruct (Locate site "dev1" "c9") as [loc|]; [|discriminate Hv].
  injection Hv as Hn Hx. exists loc. split; [reflexivity|]. split; [exact Hn|]. split; [exact Hx|].
  destruct Hl as (p & Hp & Hd & Hc & _). exists p. split; [exact Hp|]. split; [exact Hd|]. tauto.
Defined.

Lemma DeviceUnits_spec_witness :
  DeviceUnits site !! "dev1" = Some "u" ∧
  ∃ p, p ∈ Points site ∧ pt_DeviceID p = "dev1" ∧ pt_ComponentID p = "" ∧ pt_UnitID p = "u".
Proof.
  assert (Hv : DeviceUnits site !! "dev1" = Some "u") by (vm_compute; reflexivity).
  split; [exact Hv|].
  exact (proj1 (DeviceUnits_spec (w_next site_world) site "dev1" "u" site_is_wf) Hv).
Defined.

(** ** The service *)

(** Revision 4 of the site is stored and nothing is cached. *)
Definition sdb0 : site_database := mk_database {["t" := site <| ss_Revision := 4 |>]} (w_next site_world).
Definition sio0 : site_io := mk_io sdb0 (mk_site_cache ∅ ∅) 0.
Definition sbusy : schedule SiteState site_cache := busy_schedule 6.
Lemma sbusy_rely : rely 6 sbusy.
Proof. apply busy_schedule_rely. Qed.

Lemma sio0_sane : sane_io 6 sio0.
Proof.
  assert (Hload : ∀ t, load t sdb0 = site <| ss_Revision := 4 |> ∨ load t sdb0 = empty_sites).
  { intros t. unfold load, sdb0. cbn. destruct (decide (t = "t")) as [->|Hne];
      [left; by rewrite lookup_singleton_eq|right; by rewrite lookup_singleton_ne]. }
  unfold sane_io. change (io_db sio0) with sdb0. split.
  - intros t. destruct (Hload t) as [-> | ->].
    + apply site_wf_revision, site_is_wf.
    + apply empty_sites_wf.
  - split; intros t c Hl; cbn in Hl; by rewrite lookup_empty in Hl.
  - intros t. unfold stored_revision. cbn [io_tick sio0].
    destruct (Hload t) as [-> | ->]; cbn; lia.
Qed.

(** A second building, saved while another request commits. *)
Definition annex : site_request :=
  QSaveBuilding "bob" (mk_SiteBuilding (rec0 "" 0) "u" "Annex" "" 1 0 "").
Definition site_run : res unit * site_io := apply sbusy "t" (site_change annex) sio0.

Lemma site_apply_linearizes_witness :
  site_run.1 = Ok tt ∧ SiteRevision "t" (io_db site_run.2) = 6 ∧ io_tick site_run.2 = 6%nat ∧
  linearized sbusy "t" (site_change annex) sdb0 (io_db site_run.2) site_run.1.
Proof.
  split; [vm_compute; reflexivity|]. split; [vm_compute; reflexivity|].
  split; [vm_compute; reflexivity|].
  eapply (site_apply_linearizes sbusy 6 "t" annex sio0 site_run.1 site_run.2);
    [exact sbusy_rely|exact sio0_sane|vm_compute; reflexivity|].
  unfold site_run. destruct (apply _ _ _ _); reflexivity.
Defined.

Definition alarm_run : res (option AlarmLocation_t) * site_io :=
  AlarmLocation sbusy "t" "dev2" "c1" sio0.
Lemma AlarmLocation_current_witness :
  (∃ loc, alarm_run.1 = Ok (Some loc) ∧ al_PointName loc = "probe") ∧
  alarm_run.1 = Ok (Locate (LoadSiteState "t" (io_db alarm_run.2)) "dev2" "c1").
Proof.
  split; [eexists; vm_compute; by split|].
  refine (proj2 (proj2 (proj2 (AlarmLocation_current sbusy 6 "t" "dev2" "c1" sio0 alarm_run.1
    alarm_run.2 sbusy_rely sio0_sane _))) _).
  - unfold alarm_run. destruct (AlarmLocation _ _ _ _ _); reflexivity.
  - intros n. reflexivity.
Defined.

Lemma remember_bounded_witness :
  (size (sv_cache (io_cache (remember "t" (site <| ss_Revision := 4%Z |>) sio0).2)) ≤ 4096)%nat.
Proof. apply (remember_bounded "t" (site <| ss_Revision := 4 |>) sio0). cbn. rewrite map_size_empty. lia. Defined.

(** ** The record table *)

(** Records are the same when their identities and versions are, on documents
    of one history; here decided by a comparison that never says so. *)
Definition never_same : pointer_equality :=
  mk_pointer_equality (λ _ _, false) (λ _ _, false) (λ _ _, false) (λ _ _, false).
Definition site_without_probe : SiteState := site <| Points ::= take 1 |>.

Lemma SiteChanges_roundtrip_witness :
  length (SiteChanges never_same empty_sites site) = 5%nat ∧
  holds (write_changes ∅ (SiteChanges never_same empty_sites site)) site.
Proof.
  split; [vm_compute; reflexivity|].
  refine (proj1 (SiteChanges_roundtrip never_same ∅ empty_sites site _ _)).
  - split; intros a b Hab; discriminate Hab.
  - split; intros k; reflexivity.
Defined.
