(* ===== verification/GbCodec.v ===== *)
(** The GB/T 26875.3 frame codec (internal/parser/gb26875.go): frames,
    checksums, BCD times, and the frames the platform and the test devices
    build. *)
From S2P Require Import Prelude GoText GoTime.

(** Raw and standard messages (internal/model/model.go). *)

(** The dynamic types the modelled code stores in a [map[string]any]. *)
Inductive any :=
  | AInt (z : Z) | AInt64 (z : Z) | AUint16 (z : Z) | AString (s : string) | ABool (b : bool)
  | AMaps (l : list (gmap string any)).
Abbreviation any_map := (gmap string any).

Abbreviation PropertyReport := "PROPERTY_REPORT".
Abbreviation EventReport := "EVENT_REPORT".
Abbreviation StateChange := "STATE_CHANGE".
Abbreviation AlarmReport := "ALARM_REPORT".
Abbreviation CommandReply := "COMMAND_REPLY".

(** [Payload] is the text of the raw JSON value. *)
Record RawMessage := mk_RawMessage {
  rm_MessageID : string; rm_Source : string; rm_TenantID : string; rm_ProductID : string;
  rm_DeviceID : string; rm_DeviceName : string; rm_GatewayID : string; rm_Protocol : string;
  rm_Transport : string; rm_ReceivedAt : Z; rm_PayloadFormat : string; rm_Payload : string;
  rm_ClientID : string; rm_RemoteAddress : string; rm_Headers : gmap string string;
  rm_ParserVersion : string; rm_ProtocolID : string; rm_ProtocolVersion : string;
  rm_PointTableVersion : string; rm_CollectorID : string; rm_Metadata : any_map }.
#[export] Instance eta_RawMessage : Settable RawMessage := λ v,
  mk_RawMessage (rm_MessageID v) (rm_Source v) (rm_TenantID v) (rm_ProductID v) (rm_DeviceID v)
    (rm_DeviceName v) (rm_GatewayID v) (rm_Protocol v) (rm_Transport v) (rm_ReceivedAt v)
    (rm_PayloadFormat v) (rm_Payload v) (rm_ClientID v) (rm_RemoteAddress v) (rm_Headers v)
    (rm_ParserVersion v) (rm_ProtocolID v) (rm_ProtocolVersion v) (rm_PointTableVersion v)
    (rm_CollectorID v) (rm_Metadata v).
Definition zero_RawMessage : RawMessage :=
  mk_RawMessage "" "" "" "" "" "" "" "" "" 0 "" "" "" "" ∅ "" "" "" "" "" ∅.

(** The JSON text of a raw message ([json.Marshal] and [json.Unmarshal]), and
    SHA-256 in hexadecimal. *)
Class RawCodec := {
  marshal : RawMessage → option (list Z);
  unmarshal : list Z → option RawMessage;
  sha256_hex : string → string }.
Definition ErrRawConflict : error := mk_error Conflict "message id already exists with different content".

Record StandardMessage := mk_StandardMessage {
  MessageID : string; RawMessageID : string; TenantID : string; ProductID : string;
  DeviceID : string; MessageType : string; Timestamp : Z; Properties : any_map; Event : any_map;
  Tags : gmap string string; Raw : any_map; Parser : string; ParserVersion : string }.
#[export] Instance eta_StandardMessage : Settable StandardMessage := λ v,
  mk_StandardMessage (MessageID v) (RawMessageID v) (TenantID v) (ProductID v) (DeviceID v)
    (MessageType v) (Timestamp v) (Properties v) (Event v) (Tags v) (Raw v) (Parser v)
    (ParserVersion v).

Definition gb26875ControlLength : nat := 25.
Definition gb26875MaxDataLength : Z := 512.

Record gb26875Frame := mk_frame {
  Sequence : Z; VersionMajor : Z; VersionMinor : Z; Source : string; Destination : string;
  Command : Z; Data : list Z; FrameTime : Z }.

(** [errors.New], [fmt.Errorf] without a wrapped error *)
Definition error_text (s : string) : error := mk_error Other s.
(** ["%02X"] *)
Definition hex2 (b : Z) : string := hex_upper [b].

(** ** Times *)

Definition encodeBCD (value : Z) : Z :=
  wrap8 (Z.lor (Z.shiftl (Z.quot value 10) 4) (Z.rem value 10)).

Definition decodeBCD (value : Z) : Z :=
  if decide (Z.shiftr value 4 ≤ 9 ∧ Z.land value 15 ≤ 9)
  then Z.shiftr value 4 * 10 + Z.land value 15 else value.

(** [at] is the civil time of a [time.Time] in its own location. *)
Definition encodeGB26875Time (at_ : civil) : list Z :=
  [encodeBCD (c_second at_); encodeBCD (c_minute at_); encodeBCD (c_hour at_);
   encodeBCD (c_day at_); encodeBCD (c_month at_); encodeBCD (Z.rem (c_year at_) 100)].

(** The six fields of a BCD time as the code reads them. *)
Definition bcd_civil (data : list Z) : civil :=
  let values := decodeBCD <$> data in
  mk_civil (2000 + byte_at values 5) (byte_at values 4) (byte_at values 3) (byte_at values 2)
    (byte_at values 1) (byte_at values 0).

Section with_platform.
Context `{Platform}.

Definition decodeGB26875Time (data : list Z) : Z :=
  if decide (length data ≠ 6%nat) then 0
  else
    let v := bcd_civil data in
    let t := date_in local_offset v in
    if decide (c_month v < 1 ∨ c_month v > 12 ∨ c_day v < 1 ∨ c_day v > 31 ∨ c_hour v > 23
        ∨ c_minute v > 59 ∨ c_second v > 59 ∨ c_year (civil_in local_offset t) ≠ c_year v)
    then 0 else t * 1000.

(** ** Frames *)

Definition decodeGB26875Frame (data : list Z) : res gb26875Frame :=
  _ ← fail_when (length data < 2 + gb26875ControlLength + 1 + 2)%nat
        (error_text "GB26875 frame is too short");
  _ ← fail_when (byte_at data 0 ≠ 64 ∨ byte_at data 1 ≠ 64)
        (error_text "GB26875 start marker must be @@");
  _ ← fail_when (byte_at data (length data - 2) ≠ 35 ∨ byte_at data (length data - 1) ≠ 35)
        (error_text "GB26875 end marker must be ##");
  let dataLength := le_uint16 (slice data 24 26) in
  _ ← fail_when (dataLength > gb26875MaxDataLength)
        (error_text ("GB26875 application data length " +:+ dec dataLength +:+ " exceeds "
           +:+ dec gb26875MaxDataLength));
  let dataLength := Z.to_nat dataLength in
  let wantLength := (2 + gb26875ControlLength + dataLength + 1 + 2)%nat in
  _ ← fail_when (length data ≠ wantLength)
        (error_text ("GB26875 frame length mismatch: header says " +:+ dec (Z.of_nat dataLength)
           +:+ " application bytes, frame has " +:+ dec (Z.of_nat (length data)) +:+ " bytes"));
  let sum := byte_sum (slice data 2 (27 + dataLength)) in
  let got := byte_at data (27 + dataLength) in
  _ ← fail_when (got ≠ sum)
        (error_text ("GB26875 checksum mismatch: got " +:+ hex2 got +:+ ", want " +:+ hex2 sum));
  mret (mk_frame (le_uint16 (slice data 2 4)) (byte_at data 4) (byte_at data 5)
    (hex_upper (slice data 12 18)) (hex_upper (slice data 18 24)) (byte_at data 26)
    (slice data 27 (27 + dataLength)) (decodeGB26875Time (slice data 6 12))).
End with_platform.

Definition buildGB26875Frame (sequence : Z) (source destination : list Z) (command : Z)
    (application : list Z) (at_ : civil) : list Z :=
  let n := length application in
  let frame := zeros (2 + gb26875ControlLength + n + 1 + 2) in
  let frame := write_at 0 [64; 64] frame in
  let frame := write_at 2 (put_le_uint16 sequence) frame in
  let frame := write_at 4 [1; 3] frame in
  let frame := write_at 6 (encodeGB26875Time at_) frame in
  let frame := write_at 12 source frame in
  let frame := write_at 18 destination frame in
  let frame := write_at 24 (put_le_uint16 (wrap16 (Z.of_nat n))) frame in
  let frame := write_at 26 [command] frame in
  let frame := write_at 27 application frame in
  let sum := byte_sum (slice frame 2 (27 + n)) in
  let frame := write_at (27 + n) [sum] frame in
  write_at (28 + n) [35; 35] frame.

(** The address of the platform, all ones. *)
Definition all_ones : list Z := replicate 6 255.

Definition BuildGB26875RegistrationFrame (sequence : Z) (source : list Z) (at_ : civil) : list Z :=
  let application := zeros 112 in
  let application := write_at 0 [0; 1] application in
  let application := write_at 2 [1; 3] application in
  (* copy of the twelve digits into application[18:34] *)
  let application := write_at 18 (bytes_of (hex_upper source)) application in
  buildGB26875Frame sequence source all_ones 0 application at_.

Definition BuildGB26875ComponentStatusFrame (sequence : Z) (source : list Z)
    (systemType systemAddress componentType circuitAddress nodeAddress status : Z)
    (description : string) (at_ : civil) : list Z :=
  let object := zeros 46 in
  let object := write_at 0 [systemType; systemAddress; componentType] object in
  let object := write_at 3 (put_le_uint16 circuitAddress) object in
  let object := write_at 5 (put_le_uint16 nodeAddress) object in
  let object := write_at 7 (put_le_uint16 status) object in
  (* copy stops at the end of object[9:40] *)
  let object := write_at 9 (take 31 (bytes_of description)) object in
  let object := write_at 40 (encodeGB26875Time at_) object in
  buildGB26875Frame sequence source all_ones 2 ([2; 1] ++ object) at_.

Definition BuildGB26875AckFrame (sequence : Z) (destination : list Z) (at_ : civil) : list Z :=
  buildGB26875Frame sequence all_ones destination 3 [] at_.

Definition BuildGB26875TimeSyncFrame (sequence : Z) (destination : list Z) (at_ : civil)
    : list Z :=
  buildGB26875Frame sequence all_ones destination 1 ([90; 1] ++ encodeGB26875Time at_) at_.

Definition BuildGB26875TimeSyncRequestFrame (sequence : Z) (source : list Z) (at_ : civil)
    : list Z :=
  buildGB26875Frame sequence source all_ones 1 ([90; 1] ++ encodeGB26875Time at_) at_.
