(* ===== verification/GbProofs.v ===== *)
(** Lemmas on the frame codec: the layout of a frame on the wire, and what
    the encoder and the decoder make of it. *)
From S2P Require Import Prelude GoText GoTime GbCodec.

(** ** Layout *)

(** The bytes the checksum covers: control unit, command and application
    data. *)
Definition wire_body (seq : list Z) (major minor : Z) (time source destination : list Z)
    (command : Z) (adu : list Z) : list Z :=
  seq ++ [major; minor] ++ time ++ source ++ destination
    ++ put_le_uint16 (Z.of_nat (length adu)) ++ [command] ++ adu.
Definition wire (body : list Z) : list Z := [64; 64] ++ body ++ [byte_sum body] ++ [35; 35].

Lemma wire_length body : length (wire body) = (length body + 5)%nat.
Proof. unfold wire. rewrite !length_app. cbn. lia. Qed.

Lemma wire_body_length seq major minor time source destination command adu :
  length seq = 2%nat → length time = 6%nat → length source = 6%nat → length destination = 6%nat →
  length (wire_body seq major minor time source destination command adu) = (25 + length adu)%nat.
Proof. intros. unfold wire_body. rewrite !length_app. cbn. lia. Qed.

Lemma encode_time_length t : length (encodeGB26875Time t) = 6%nat.
Proof. done. Qed.

(** The buffer the encoder fills is the frame of the layout. *)
Lemma build_wire seq source destination command adu t :
  length source = 6%nat → length destination = 6%nat → Z.of_nat (length adu) < 65536 →
  buildGB26875Frame seq source destination command adu t =
  wire (wire_body (put_le_uint16 seq) 1 3 (encodeGB26875Time t) source destination command adu).
Proof.
  intros Hs Hd Ha. unfold buildGB26875Frame, gb26875ControlLength.
  set (n := length adu). rewrite <-(app_nil_l (zeros _)).
  pose proof (encode_time_length t) as Ht.
  set (time := encodeGB26875Time t) in *. clearbody time.
  assert (Hw : wrap16 (Z.of_nat n) = Z.of_nat n) by (apply Z.mod_small; lia). rewrite Hw.
  assert (Hp : ∀ v, length (put_le_uint16 v) = 2%nat) by done.
  repeat (rewrite write_next; [|rewrite ?length_app, ?Hp; cbn [length]; lia..]).
  match goal with |- context [slice (?pre ++ zeros ?m) 2 (27 + n)] =>
    assert (Hsl : slice (pre ++ zeros m) 2 (27 + n) =
      wire_body (put_le_uint16 seq) 1 3 time source destination command adu) end.
  { unfold wire_body. fold n. rewrite !app_nil_l, <-!app_assoc.
    rewrite (slice_app_r [64; 64] _ 0 (25 + n)). rewrite !app_assoc, slice_app_l;
      [done|rewrite !length_app, !Hp; cbn [length]; fold n; lia]. }
  rewrite Hsl.
  repeat (rewrite write_next; [|rewrite ?length_app, ?Hp; cbn [length]; fold n; lia..]).
  match goal with |- _ ++ zeros ?m = _ => replace m with 0%nat
    by (rewrite ?Hp; cbn [length]; fold n; lia) end.
  unfold wire, wire_body, zeros. cbn [replicate]. by rewrite app_nil_r, app_nil_l, <-!app_assoc.
Qed.

(** ** Decoding *)

(** What a frame of the layout decodes to. *)
Definition frame_of `{Platform} (seq : list Z) (major minor : Z) (time source destination : list Z)
    (command : Z) (adu : list Z) : gb26875Frame :=
  mk_frame (le_uint16 seq) major minor (hex_upper source) (hex_upper destination) command adu
    (decodeGB26875Time time).

(** The 27 bytes before the application data. *)
Definition wire_head (seq : list Z) (major minor : Z) (time source destination : list Z) (size : Z)
    (command : Z) : list Z :=
  [64; 64] ++ seq ++ [major; minor] ++ time ++ source ++ destination ++ put_le_uint16 size ++ [command].

Lemma wire_split seq major minor time source destination command adu :
  let body := wire_body seq major minor time source destination command adu in
  wire body = wire_head seq major minor time source destination (Z.of_nat (length adu)) command
    ++ adu ++ [byte_sum body; 35; 35].
Proof. cbn zeta. unfold wire, wire_head. unfold wire_body at 1. by rewrite <-!app_assoc. Qed.

Ltac explode l := repeat (destruct l as [|?x l]; try discriminate).

(** Guards that do not fail. *)
Lemma fail_when_pass P `{Decision P} e : ¬ P → fail_when P e = Ok tt.
Proof. intros. by apply fail_when_ok. Qed.

Section with_platform.
Context `{Platform}.

Lemma decode_wire seq major minor time source destination command adu :
  length seq = 2%nat → length time = 6%nat → length source = 6%nat → length destination = 6%nat →
  Z.of_nat (length adu) ≤ 512 →
  decodeGB26875Frame (wire (wire_body seq major minor time source destination command adu)) =
  Ok (frame_of seq major minor time source destination command adu).
Proof.
  intros Hq Ht Hs Hd Ha.
  pose proof (wire_body_length seq major minor time source destination command adu Hq Ht Hs Hd) as Hb.
  pose proof (wire_split seq major minor time source destination command adu) as Hw. cbn zeta in Hw.
  set (body := wire_body _ _ _ _ _ _ _ _) in *. set (n := length adu) in *.
  set (h := wire_head _ _ _ _ _ _ _ _) in *.
  assert (Hh : length h = 27%nat) by (unfold h, wire_head; rewrite !length_app; cbn; lia).
  assert (Hbody : slice (wire body) 2 (27 + n) = body).
  { unfold wire. rewrite (slice_app_r [64; 64] _ 0 (25 + n)). by apply slice_app_l. }
  assert (Hadu : slice (wire body) 27 (27 + n) = adu).
  { rewrite Hw. pose proof (slice_app_r h (adu ++ [byte_sum body; 35; 35]) 0 n) as Hr.
    rewrite Hh in Hr. change (27 + 0)%nat with 27%nat in Hr. rewrite Hr. by apply slice_app_l. }
  assert (Htail : ∀ k, byte_at (wire body) (27 + n + k) = byte_at [byte_sum body; 35; 35] k).
  { intros k. rewrite Hw, app_assoc. unfold byte_at. rewrite app_nth2; rewrite length_app, Hh; [|lia].
    f_equal. unfold n. lia. }
  assert (Hlen : length (wire body) = (30 + n)%nat) by (rewrite wire_length; lia).
  assert (Hsize : le_uint16 (slice (wire body) 24 26) = Z.of_nat n).
  { transitivity (le_uint16 (put_le_uint16 (Z.of_nat n)));
      [|rewrite le_put_uint16; apply Z.mod_small; lia].
    f_equal. rewrite Hw. clear -Hq Ht Hs Hd. unfold h, wire_head. explode seq. explode time.
    explode source. by explode destination. }
  unfold decodeGB26875Frame, gb26875ControlLength, gb26875MaxDataLength. cbn zeta.
  rewrite Hsize, Nat2Z.id, Hbody, Hadu, Hlen.
  replace (30 + n - 2)%nat with (27 + n + 1)%nat by lia.
  replace (30 + n - 1)%nat with (27 + n + 2)%nat by lia.
  rewrite !Htail. pose proof (Htail 0%nat) as Hsum. rewrite Nat.add_0_r in Hsum. rewrite Hsum.
  cbn [byte_at nth].
  rewrite !fail_when_pass by (try lia; try (by intros [?|?]); by intros []).
  cbn [mbind res_bind]. unfold frame_of. rewrite Hw. clear -Hq Ht Hs Hd. unfold h, wire_head.
  explode seq. explode time. explode source. by explode destination.
Qed.

(** A buffer of 30 + n bytes, taken apart at the positions the decoder reads. *)
Lemma layout_of (data : list Z) n :
  length data = (30 + n)%nat →
  ∃ m1 m2 seq major minor time source destination l1 l2 command adu sum e1 e2,
    length seq = 2%nat ∧ length time = 6%nat ∧ length source = 6%nat ∧ length destination = 6%nat ∧
    length adu = n ∧
    data = ([m1; m2] ++ seq ++ [major; minor] ++ time ++ source ++ destination ++ [l1; l2; command])
      ++ adu ++ [sum; e1; e2].
Proof.
  intros Hlen. do 27 (destruct data as [|? data]; [discriminate Hlen|]). cbn in Hlen.
  assert (Hd : ∃ a b c, drop n data = [a; b; c]).
  { assert (Hl : length (drop n data) = 3%nat) by (rewrite length_drop; lia).
    destruct (drop n data) as [|a [|b [|c [|]]]]; try discriminate. by exists a, b, c. }
  destruct Hd as (a & b & c & Hd). rewrite <-(take_drop n data), Hd.
  eexists _, _, [_; _], _, _, [_; _; _; _; _; _], [_; _; _; _; _; _], [_; _; _; _; _; _], _, _, _,
    (take n data), a, b, c.
  split_and!; [done..| |reflexivity]. rewrite length_take. lia.
Qed.

(** Every frame the decoder accepts has the layout. *)
Lemma decode_inv data f :
  bytes_ok data → decodeGB26875Frame data = Ok f →
  ∃ seq major minor time source destination command adu,
    length seq = 2%nat ∧ length time = 6%nat ∧ length source = 6%nat ∧ length destination = 6%nat ∧
    Z.of_nat (length adu) ≤ 512 ∧
    data = wire (wire_body seq major minor time source destination command adu) ∧
    f = frame_of seq major minor time source destination command adu.
Proof.
  intros Hok Hdec. assert (Hf := Hdec). unfold decodeGB26875Frame, gb26875ControlLength in Hdec.
  inv_ok Hdec.
  set (n := Z.to_nat (le_uint16 (slice data 24 26))) in *.
  assert (Hlen : length data = (30 + n)%nat) by (apply dec_stable; intros Hne; apply Hr3; lia).
  assert (Hn : le_uint16 (slice data 24 26) = Z.of_nat n).
  { pose proof (le_uint16_range (slice data 24 26) ltac:(by apply bytes_ok_slice)).
    unfold n. by rewrite Z2Nat.id by lia. }
  destruct (layout_of data n Hlen) as (m1 & m2 & seq & major & minor & time & source & destination
    & l1 & l2 & command & adu & sum & e1 & e2 & Hq & Ht & Hs & Hd & Ha & Hdata).
  exists seq, major, minor, time, source, destination, command, adu.
  split; [done|]. split; [done|]. split; [done|]. split; [done|].
  unfold gb26875MaxDataLength in Hr2. split; [lia|].
  enough (Hw : data = wire (wire_body seq major minor time source destination command adu)).
  { split; [done|]. rewrite Hw, decode_wire in Hf by (try done; lia). congruence. }
  set (h := [m1; m2] ++ _) in Hdata. assert (Hh : length h = 27%nat) by (unfold h; rewrite !length_app; cbn; lia).
  assert (Htail : ∀ k, byte_at data (27 + n + k) = byte_at [sum; e1; e2] k).
  { intros k. rewrite Hdata, app_assoc. unfold byte_at. rewrite app_nth2; rewrite length_app, Hh; [|lia].
    f_equal. lia. }
  rewrite Hlen in Hr1. replace (30 + n - 2)%nat with (27 + n + 1)%nat in Hr1 by lia.
  replace (30 + n - 1)%nat with (27 + n + 2)%nat in Hr1 by lia. rewrite !Htail in Hr1.
  pose proof (Htail 0%nat) as Hsum. rewrite Nat.add_0_r in Hsum. rewrite Hsum in Hr4.
  cbn [byte_at nth] in Hr1, Hr4. clear Htail Hsum.
  assert (He1 : e1 = 35) by (apply dec_stable; tauto).
  assert (He2 : e2 = 35) by (apply dec_stable; tauto).
  assert (Hm : m1 = 64 ∧ m2 = 64) by (rewrite Hdata in Hr0; cbn in Hr0; split; apply dec_stable; tauto).
  destruct Hm as [-> ->]. apply dec_stable in Hr4.
  assert (Hl : [l1; l2] = put_le_uint16 (Z.of_nat n)).
  { rewrite <-Hn. assert (Hsl : slice data 24 26 = [l1; l2]).
    { rewrite Hdata. clear -Hq Ht Hs Hd. unfold h. explode seq. explode time. explode source.
      by explode destination. }
    rewrite Hsl. assert (Hlo : bytes_ok [l1; l2]) by (rewrite <-Hsl; by apply bytes_ok_slice).
    inversion Hlo as [|? ? ? Hlo']; inversion Hlo'. by rewrite put_le_uint16_le. }
  set (body := wire_body _ _ _ _ _ _ _ _).
  assert (Hpre : data = [64; 64] ++ body ++ [sum; e1; e2]).
  { rewrite Hdata. unfold h, body, wire_body. rewrite Ha, <-Hl, <-!app_assoc. done. }
  assert (Hsl : slice data 2 (27 + n) = body).
  { rewrite Hpre. rewrite (slice_app_r [64; 64] _ 0 (25 + n)). apply slice_app_l.
    unfold body. rewrite wire_body_length by done. lia. }
  rewrite Hpre. unfold wire. by rewrite <-Hsl, <-Hr4, He1, He2.
Qed.

(** Two frames that decode and differ in at most one byte are equal. *)
Lemma wire_one_byte body1 body2 i b :
  byte_ok b → bytes_ok body1 → bytes_ok body2 → length body1 = length body2 →
  <[i:=b]> (wire body1) = wire body2 → body1 = body2.
Proof.
  intros Hb H1 H2 Hlen Heq. unfold wire in Heq.
  destruct (decide (i < 2)%nat) as [Hi|Hi].
  { rewrite insert_app_l in Heq by done. apply app_inj_1 in Heq as [_ Heq]; [|by rewrite length_insert].
    by apply app_inj_1 in Heq as [? _]. }
  rewrite insert_app_r_alt in Heq by (cbn; lia). apply app_inj_1 in Heq as [_ Heq]; [|done].
  change (i - _)%nat with (i - 2)%nat in Heq. generalize dependent (i - 2)%nat. intros j Heq.
  destruct (decide (j < length body1)%nat) as [Hj|Hj].
  - rewrite insert_app_l in Heq by done.
    apply app_inj_1 in Heq as [Hb2 Heq]; [|by rewrite length_insert].
    injection Heq as Hsum. destruct (lookup_lt_is_Some_2 body1 j Hj) as [a Ha].
    rewrite (insert_take_drop _ _ _ Hj) in Hb2. pose proof (take_drop_middle _ _ _ Ha) as Hmid.
    rewrite <-Hmid in Hsum. rewrite <-Hb2 in Hsum. apply byte_sum_one in Hsum as ->; [congruence| |done].
    unfold bytes_ok in H1. rewrite Forall_lookup in H1. by eapply H1.
  - rewrite (insert_app_r_alt body1) in Heq by lia. by apply app_inj_1 in Heq as [? _].
Qed.
End with_platform.

(** ** Times *)

Definition bcd_ok (v : Z) : bool := decodeBCD (encodeBCD v) =? v.
Lemma decode_encode_BCD v : 0 ≤ v < 100 → decodeBCD (encodeBCD v) = v.
Proof.
  intros Hv. apply Z.eqb_eq. change (bcd_ok v = true).
  by apply (forallb_seqZ bcd_ok 0 100); [vm_compute|].
Qed.

(** A time of the years 2000 to 2099. *)
Definition gb_time (t : civil) : Prop := valid_time t = true ∧ 2000 ≤ c_year t < 2100.

Lemma bcd_civil_encode t : gb_time t → bcd_civil (encodeGB26875Time t) = t.
Proof.
  intros [Hv Hy]. destruct t as [y m d h mi s]. unfold valid_time, valid_civil in Hv.
  cbn [c_year c_month c_day c_hour c_minute c_second] in *.
  rewrite !andb_true_iff, !in_range_iff in Hv. destruct Hv as [[[[Hm Hd] Hh] Hmi] Hs].
  assert (Hd' : d ≤ 31) by (unfold days_in in Hd; repeat case_match; lia).
  unfold bcd_civil, encodeGB26875Time, byte_at.
  cbn [c_year c_month c_day c_hour c_minute c_second fmap list_fmap nth].
  assert (Hr : Z.rem y 100 = y - 2000).
  { rewrite Z.rem_mod_nonneg by lia. symmetry. apply (Z.mod_unique_pos _ _ 20); lia. }
  rewrite Hr, !decode_encode_BCD by lia. f_equal. lia.
Qed.

Lemma days_from_civil_day y m d : days_from_civil y m d = days_from_civil y m 1 + (d - 1).
Proof. unfold days_from_civil, day_of_era. lia. Qed.

(** In a zone of constant offset every civil time exists. *)
Lemma civil_in_fixed o t : valid_time t = true → civil_in (λ _, o) (date_in (λ _, o) t) = t.
Proof.
  intros Hv. unfold civil_in, date_in. cbn beta zeta.
  replace (_ + o) with (utc_seconds t); [by apply utc_civil_seconds|].
  unfold utc_seconds. cbn. rewrite (days_from_civil_day _ _ (c_day t)).
  destruct (Z.eqb_spec o 0); lia.
Qed.

Lemma decode_encode_time `{Platform} t :
  gb_time t → c_year (civil_in local_offset (date_in local_offset t)) = c_year t →
  decodeGB26875Time (encodeGB26875Time t) = date_in local_offset t * 1000.
Proof.
  intros Ht Hy. unfold decodeGB26875Time. rewrite decide_False by auto.
  rewrite bcd_civil_encode by done. cbn zeta. rewrite decide_False; [done|].
  destruct Ht as [Hv _]. unfold valid_time, valid_civil in Hv.
  rewrite !andb_true_iff, !in_range_iff in Hv. destruct Hv as [[[[Hm Hd] Hh] Hmi] Hs].
  assert (Hd' : c_day t ≤ 31) by (unfold days_in in Hd; repeat case_match; lia). lia.
Qed.
