(* ===== verification/GbParser.v ===== *)
(** The GB/T 26875.3 parser (internal/parser/gb26875.go): raw messages whose
    payload is a frame in hexadecimal become standard messages.

    A Go [map[string]any] is a [gmap] into the dynamic values the parser puts
    there. *)
From S2P Require Import Prelude GoText GoTime GbCodec.

(** ** Component status *)

Fixpoint bytesIndex (data : list Z) (value : Z) : option nat :=
  match data with
  | [] => None
  | b :: data => if decide (b = value) then Some 0%nat else S <$> bytesIndex data value
  end.

Definition gb26875ComponentName (value : Z) : string :=
  if value =? 23 then "手动火灾报警按钮"
  else if value =? 30 then "感温火灾探测器"
  else if value =? 40 then "感烟火灾探测器"
  else if value =? 137 then "声光报警器"
  else "部件类型" +:+ dec value.

(** [status&(1<<i) != 0] and [status&mask != 0] *)
Definition bit (status : Z) (i : Z) : bool := negb (Z.land status (Z.shiftl 1 i) =? 0).
(** [1<<2|1<<8|1<<9|1<<10|1<<11|1<<12|1<<14|1<<15] *)
Definition fault_mask : Z :=
  foldr Z.lor 0 (Z.shiftl 1 <$> [2; 8; 9; 10; 11; 12; 14; 15]).
Definition fault_status (status : Z) : bool := negb (Z.land status fault_mask =? 0).

Definition objectLength : nat := 46.

Section with_platform.
Context `{Platform}.

(** The text of [v[9:40]] up to the first zero byte. *)
Definition object_description (v : list Z) : string :=
  let descriptionBytes := slice v 9 40 in
  let descriptionBytes :=
    match bytesIndex descriptionBytes 0 with
    | Some cut => take cut descriptionBytes
    | None => descriptionBytes
    end in
  let description := trim_space (string_of_bytes descriptionBytes) in
  if valid_utf8 (bytes_of description) then description else hex_upper descriptionBytes.

Definition object_status (v : list Z) : Z := le_uint16 (slice v 7 9).

(** One component object of 46 bytes. *)
Definition component_object (v : list Z) : any_map :=
  let status := object_status v in
  list_to_map [
    ("systemType", AInt (byte_at v 0)); ("systemAddress", AInt (byte_at v 1));
    ("componentType", AInt (byte_at v 2));
    ("componentTypeName", AString (gb26875ComponentName (byte_at v 2)));
    ("circuitAddress", AInt (le_uint16 (slice v 3 5)));
    ("nodeAddress", AInt (le_uint16 (slice v 5 7))); ("statusWord", AInt status);
    ("description", AString (object_description v));
    ("occurredAt", AInt64 (decodeGB26875Time (slice v 40 46)));
    ("test", ABool (bit status 0)); ("fireAlarm", ABool (bit status 1));
    ("fault", ABool (bit status 2)); ("shielded", ABool (bit status 3));
    ("supervision", ABool (bit status 4)); ("started", ABool (bit status 5));
    ("feedback", ABool (bit status 6)); ("delayed", ABool (bit status 7));
    ("powerFault", ABool (bit status 8)); ("offline", ABool (bit status 9));
    ("openCircuit", ABool (bit status 10)); ("shortCircuit", ABool (bit status 11));
    ("removed", ABool (bit status 12)); ("sensorFault", ABool (bit status 14));
    ("upgradeFault", ABool (bit status 15))].

(** The loop over the [count] objects. *)
Fixpoint component_loop (count : nat) (data : list Z) (objects : list any_map)
    (anyAlarm anyFault : bool) : list any_map * bool * bool :=
  match count with
  | O => (objects, anyAlarm, anyFault)
  | S count =>
    let v := slice data 0 objectLength in
    component_loop count (drop objectLength data) (objects ++ [component_object v])
      (anyAlarm || bit (object_status v) 1) (anyFault || fault_status (object_status v))
  end.

(** The members of the first object that are repeated in the properties. *)
Definition first_members : list string :=
  ["componentType"; "componentTypeName"; "circuitAddress"; "nodeAddress"; "statusWord"; "started";
   "feedback"; "shielded"; "supervision"; "offline"; "powerFault"; "openCircuit"; "shortCircuit";
   "removed"; "sensorFault"].

Definition applyGB26875ComponentStatus (msg : StandardMessage) (data : list Z) (count : nat)
    : res StandardMessage :=
  _ ← fail_when (count < 1 ∨ length data ≠ count * objectLength)%nat
        (error_text ("GB26875 component status expects " +:+ dec (Z.of_nat count) +:+ " objects ("
           +:+ dec (Z.of_nat (count * objectLength)) +:+ " bytes), got "
           +:+ dec (Z.of_nat (length data)) +:+ " bytes"));
  let '(objects, anyAlarm, anyFault) := component_loop count data [] false false in
  let first := default ∅ (head objects) in
  mret (msg
    <| Properties := <["fireAlarm" := ABool anyAlarm]> (<["fault" := ABool anyFault]>
         (<["objects" := AMaps objects]>
           (list_to_map (omap (λ k, pair k <$> first !! k) first_members)))) |>
    <| Event := list_to_map [("type", AString "COMPONENT_STATUS"); ("alarm", ABool anyAlarm);
         ("fault", ABool anyFault); ("objects", AMaps objects)] |>
    <| MessageType := if anyAlarm || anyFault then AlarmReport else StateChange |>).

(** ** Messages *)

Definition isGB26875PlatformAddress (value : string) : bool :=
  equal_fold value "FFFFFFFFFFFF" || equal_fold value "000000000000".

Definition applyGB26875Data (msg : StandardMessage) (frame : gb26875Frame) : res StandardMessage :=
  let data := Data frame in
  if decide (Command frame = 7 ∧ length data = 0%nat) then
    mret (msg <| Event := {["type" := AString "KEEPALIVE"]} |>)
  else if decide (Command frame = 3 ∧ length data = 0%nat) then
    mret (msg <| MessageType := CommandReply |> <| Event := {["type" := AString "ACK"]} |>)
  else if decide (length data < 2)%nat then
    Err (error_text ("GB26875 command 0x" +:+ hex2 (Command frame)
           +:+ " requires an application data header"))
  else
    let typeFlag := byte_at data 0 in
    let count := byte_at data 1 in
    let msg := msg <| Raw ::= λ raw, <["objectCount" := AInt count]>
                        (<["typeFlag" := AString ("0x" +:+ hex2 typeFlag)]> raw) |> in
    let rest := drop 2 data in
    if decide (Command frame = 0 ∧ typeFlag = 0) then
      _ ← fail_when (count ≠ 1 ∨ length data ≠ 112%nat)
            (error_text "GB26875 registration expects one 110-byte object");
      mret (msg <| MessageType := StateChange |>
                <| Event := list_to_map [("type", AString "REGISTER"); ("objectCount", AInt count)] |>
                <| Properties := list_to_map [("registered", ABool true);
                     ("registrationObjectLength", AInt (Z.of_nat (length rest)));
                     ("registrationPayload", AString (hex_upper rest))] |>)
    else if decide (Command frame = 1 ∧ typeFlag = 90) then
      _ ← fail_when (count ≠ 1 ∨ length data ≠ 8%nat)
            (error_text "GB26875 time synchronization expects one 6-byte time object");
      let at_ := decodeGB26875Time rest in
      let msg :=
        if isGB26875PlatformAddress (Source frame) then
          msg <| MessageType := CommandReply |>
              <| Event := list_to_map [("type", AString "TIME_SYNC"); ("synchronizedAt", AInt64 at_)] |>
        else
          msg <| MessageType := EventReport |>
              <| Event := list_to_map [("type", AString "TIME_SYNC_REQUEST"); ("requestedAt", AInt64 at_)] |> in
      mret (msg <| Properties := {["requestedAt" := AInt64 at_]} |>)
    else if decide (Command frame = 2 ∧ typeFlag = 2) then
      applyGB26875ComponentStatus msg rest (Z.to_nat count)
    else
      Err (error_text ("unsupported GB26875 command/type combination 0x" +:+ hex2 (Command frame)
             +:+ "/0x" +:+ hex2 typeFlag)).

(** [strings.Trim(s, q)] for a one-byte cutset *)
Fixpoint strip_byte (q : Z) (l : list Z) : list Z :=
  match l with [] => [] | b :: l' => if b =? q then strip_byte q l' else l end.
Definition trim_byte (q : Z) (l : list Z) : list Z :=
  reverse (strip_byte q (reverse (strip_byte q l))).
(** [strings.NewReplacer(" ", "", "\r", "", "\n", "", "\t", "").Replace] *)
Definition drop_blanks (l : list Z) : list Z :=
  filter (λ b, b ∉ [32; 13; 10; 9]) l.
(** [strings.ToUpper] on ASCII text *)
Definition ascii_upper (l : list Z) : list Z :=
  (λ b, if in_range 97 122 b then b - 32 else b) <$> l.

(** The text of the payload without its quotes and blanks. *)
Definition payload_text (payload : string) : string :=
  string_of_bytes (drop_blanks (bytes_of (trim_space (string_of_bytes
    (trim_byte 34 (bytes_of payload)))))).

(** The message before the application data is read. *)
Definition base_message (raw : RawMessage) (text : string) (frame : gb26875Frame) : StandardMessage :=
  let msg := mk_StandardMessage ("msg_" +:+ trim_prefix (rm_MessageID raw) "raw_")
    (rm_MessageID raw) (rm_TenantID raw) (rm_ProductID raw) (rm_DeviceID raw) PropertyReport
    (rm_ReceivedAt raw) ∅ ∅
    (list_to_map [("protocol", "GB/T 26875.3-2011"); ("terminalVendor", "Dahua")])
    (list_to_map [("payloadFormat", AString "hex");
      ("payload", AString (string_of_bytes (ascii_upper (bytes_of text))));
      ("sequence", AUint16 (Sequence frame));
      ("protocolVersion", AString (dec (VersionMajor frame) +:+ "." +:+ dec2 (VersionMinor frame)));
      ("sourceAddress", AString (Source frame)); ("destinationAddress", AString (Destination frame));
      ("command", AString ("0x" +:+ hex2 (Command frame)))]) "" "" in
  if decide (FrameTime frame > 0) then msg <| Timestamp := FrameTime frame |> else msg.

Definition Parse (raw : RawMessage) : res StandardMessage :=
  let text := payload_text (rm_Payload raw) in
  match hex_decode text with
  | None => Err (error_text "invalid hex payload")
  | Some data =>
    frame ← decodeGB26875Frame data;
    applyGB26875Data (base_message raw text frame) frame
  end.
End with_platform.
