(* ===== verification/GbTheorems.v ===== *)
(** The properties of the GB/T 26875.3 codec and parser. *)
From S2P Require Import Prelude GoText GoTime GbCodec GbProofs GbParser.

(** ** Text of the payload *)

(** Printable ASCII: one rune per byte and no white space. *)
Definition graphic (b : Z) : Prop := 33 ≤ b ≤ 126.

Lemma runes_of_ascii l : Forall graphic l → runes_of l = (λ b, (b, 1%nat)) <$> l.
Proof.
  unfold runes_of. induction 1 as [|b l Hb Hl IH]; [done|]. cbn [length runes_fuel decode_rune].
  unfold graphic in Hb. rewrite (proj2 (Z.ltb_lt b 128)) by lia. cbn [drop fmap list_fmap].
  by rewrite drop_0, IH.
Qed.

Lemma graphic_not_space b : graphic b → is_space b = false.
Proof.
  unfold graphic, is_space, in_range. intros Hb.
  rewrite !orb_false_iff, !andb_false_iff, !Z.leb_gt, !Z.eqb_neq. lia.
Qed.

Lemma drop_spaces_graphic l :
  Forall graphic l → drop_spaces ((λ b, (b, 1%nat)) <$> l) = (λ b, (b, 1%nat)) <$> l.
Proof. intros [|b l' Hb _]; [done|]. cbn. by rewrite graphic_not_space. Qed.

Lemma widths_ascii l : widths ((λ b : Z, (b, 1%nat)) <$> l) = length l.
Proof. unfold widths. induction l as [|b l IH]; cbn; [done|]. by rewrite <-IH. Qed.

Lemma bytes_of_length s : length (bytes_of s) = String.length s.
Proof. induction s as [|c s IH]; cbn; [done|]. by f_equal. Qed.

(** Text without white space is its own trimmed form. *)
Lemma trim_space_graphic s : Forall graphic (bytes_of s) → trim_space s = s.
Proof.
  intros Hs. unfold trim_space. rewrite runes_of_ascii, drop_spaces_graphic by done.
  rewrite <-fmap_reverse, drop_spaces_graphic by (by apply Forall_reverse).
  rewrite <-fmap_reverse, reverse_involutive, !widths_ascii, Nat.sub_diag, drop_0, take_ge by lia.
  apply string_of_bytes_of.
Qed.

Lemma bytes_of_string_of l : bytes_ok l → bytes_of (string_of_bytes l) = l.
Proof. induction 1 as [|b l Hb _ IH]; [done|]. cbn. by rewrite byte_of_of_byte, IH. Qed.

Lemma hex_digit_byte n : 0 ≤ n < 16 → byte_of (hex_digit n) = if n <? 10 then 48 + n else 55 + n.
Proof. intros Hn. unfold hex_digit. rewrite byte_of_of_byte; [done|]. destruct (n <? 10); lia. Qed.

(** The bytes of upper-case hexadecimal text. *)
Definition hex_byte (b : Z) : Prop := 48 ≤ b ≤ 57 ∨ 65 ≤ b ≤ 70.
Lemma hex_upper_bytes l : bytes_ok l → Forall hex_byte (bytes_of (hex_upper l)).
Proof.
  assert (Hn : ∀ n, 0 ≤ n < 16 → hex_byte (byte_of (hex_digit n))).
  { intros n Hn. rewrite hex_digit_byte by done. unfold hex_byte. destruct (Z.ltb_spec n 10); lia. }
  induction 1 as [|z l Hz _ IH]; cbn; [done|]. unfold byte_ok in Hz.
  assert (Hs : Z.shiftr z 4 = z / 16) by (by rewrite Z.shiftr_div_pow2).
  assert (Ha : Z.land z 15 = z mod 16) by (by apply (Z.land_ones z 4)).
  constructor; [|constructor; [|done]]; apply Hn; rewrite ?Hs, ?Ha.
  - pose proof (Z.div_mod z 16). pose proof (Z.mod_pos_bound z 16). lia.
  - apply Z.mod_pos_bound. lia.
Qed.

(** The JSON string of a hexadecimal text. *)
Definition quoted (s : string) : string := string_of_bytes ([34] ++ bytes_of s ++ [34]).

Lemma payload_text_quoted l : bytes_ok l → payload_text (quoted (hex_upper l)) = hex_upper l.
Proof.
  intros Hl. pose proof (hex_upper_bytes l Hl) as Hh. set (s := hex_upper l) in *.
  assert (Hg : Forall graphic (bytes_of s)).
  { eapply Forall_impl; [exact Hh|]. unfold hex_byte, graphic. lia. }
  assert (Hok : bytes_ok ([34] ++ bytes_of s ++ [34])).
  { repeat constructor; [lia..|]. apply Forall_app. split; [|repeat constructor; lia].
    eapply Forall_impl; [exact Hg|]. unfold graphic, byte_ok. lia. }
  unfold payload_text, quoted. rewrite bytes_of_string_of by done.
  assert (Htrim : trim_byte 34 ([34] ++ bytes_of s ++ [34]) = bytes_of s).
  { assert (Hno : ∀ l', Forall hex_byte l' → strip_byte 34 l' = l').
    { intros l' [|x l'' Hx _]; [done|]. cbn. unfold hex_byte in Hx.
      by rewrite (proj2 (Z.eqb_neq x 34)) by lia. }
    unfold trim_byte. change ([34] ++ ?l) with (34 :: l). cbn [strip_byte]. change (34 =? 34) with true.
    cbn iota. destruct (bytes_of s) as [|x l'] eqn:Hb; [done|].
    assert (Hx : strip_byte 34 ((x :: l') ++ [34]) = (x :: l') ++ [34]).
    { cbn. inversion Hh. unfold hex_byte in *. by rewrite (proj2 (Z.eqb_neq x 34)) by lia. }
    rewrite Hx, reverse_app. change (reverse [34] ++ ?l) with (34 :: l). cbn [strip_byte].
    change (34 =? 34) with true. cbn iota.
    by rewrite Hno, reverse_involutive by (by apply Forall_reverse). }
  rewrite Htrim, string_of_bytes_of, trim_space_graphic by done.
  unfold drop_blanks. rewrite filter_all; [apply string_of_bytes_of|].
  eapply Forall_impl; [exact Hg|]. unfold graphic. intros x Hx. rewrite !elem_of_cons, elem_of_nil. lia.
Qed.

(** ** Frames *)

Section with_platform.
Context `{Platform}.

(** Decoding inverts building: a frame of at most 512 application bytes
    between two six-byte addresses decodes to the sequence number (modulo
    2^16), version 1.03, the addresses in hexadecimal, the command, the
    application data and, for a time of this century that the local zone has,
    the instant it was built at. *)
Theorem frame_roundtrip sequence source destination command application t :
  length source = 6%nat → length destination = 6%nat → Z.of_nat (length application) ≤ 512 →
  gb_time t → c_year (civil_in local_offset (date_in local_offset t)) = c_year t →
  decodeGB26875Frame (buildGB26875Frame sequence source destination command application t) =
  Ok (mk_frame (sequence mod 65536) 1 3 (hex_upper source) (hex_upper destination) command
        application (date_in local_offset t * 1000)).
Proof.
  intros Hs Hd Ha Ht Hy. rewrite build_wire, decode_wire by (done || lia).
  unfold frame_of. by rewrite le_put_uint16, decode_encode_time.
Qed.

(** The decoder accepts exactly the frames of the layout: markers,
    little-endian sequence and length, two six-byte addresses, at most 512
    application bytes and the sum of everything between; and it reads each
    field from its place. *)
Theorem frame_layout data f :
  bytes_ok data →
  decodeGB26875Frame data = Ok f ↔
  ∃ seq major minor time source destination command adu,
    length seq = 2%nat ∧ length time = 6%nat ∧ length source = 6%nat ∧ length destination = 6%nat ∧
    Z.of_nat (length adu) ≤ 512 ∧
    (let body := seq ++ [major; minor] ++ time ++ source ++ destination
       ++ put_le_uint16 (Z.of_nat (length adu)) ++ [command] ++ adu in
     data = [64; 64] ++ body ++ [byte_sum body] ++ [35; 35]) ∧
    f = mk_frame (le_uint16 seq) major minor (hex_upper source) (hex_upper destination) command adu
          (decodeGB26875Time time).
Proof.
  intros Hok. split; [intros Hd; by apply decode_inv|].
  intros (seq & major & minor & time & source & destination & command & adu
    & Hq & Ht & Hs & Hd & Ha & -> & ->).
  by apply (decode_wire seq major minor time source destination command adu).
Qed.

(** C26: no single corrupted byte goes unnoticed: changing any byte of an
    accepted frame to any other value makes the decoder refuse it. *)
Theorem corruption_detected data f i b :
  bytes_ok data → byte_ok b → decodeGB26875Frame data = Ok f →
  (i < length data)%nat → data !! i ≠ Some b →
  ∃ e, decodeGB26875Frame (<[i:=b]> data) = Err e.
Proof.
  intros Hok Hb Hf Hi Hne. destruct (decodeGB26875Frame (<[i:=b]> data)) as [f'|e] eqn:Hf'; [|by exists e].
  assert (Hok' : bytes_ok (<[i:=b]> data)) by (by apply Forall_insert_list).
  pose proof (length_insert data i b) as Hlen.
  apply decode_inv in Hf as (q1 & j1 & n1 & t1 & s1 & d1 & c1 & a1 & ? & ? & ? & ? & ? & Hd1 & _); [|done].
  apply decode_inv in Hf' as (q2 & j2 & n2 & t2 & s2 & d2 & c2 & a2 & ? & ? & ? & ? & ? & Hd2 & _); [|done].
  set (b1 := wire_body q1 _ _ _ _ _ _ _) in *. set (b2 := wire_body q2 _ _ _ _ _ _ _) in *.
  assert (Heq : b1 = b2).
  { apply (wire_one_byte b1 b2 i b); [done| | | |by rewrite <-Hd1, <-Hd2].
    - rewrite Hd1 in Hok. unfold wire, bytes_ok in Hok. rewrite !Forall_app in Hok. tauto.
    - rewrite Hd2 in Hok'. unfold wire, bytes_ok in Hok'. rewrite !Forall_app in Hok'. tauto.
    - rewrite Hd2, Hd1, !wire_length in Hlen. lia. }
  destruct Hne. rewrite Hd1, Heq, <-Hd2. by apply list_lookup_insert_eq.
Qed.

(** ** Status words *)

Lemma bit_testbit s i : 0 ≤ i → bit s i = Z.testbit s i.
Proof.
  intros Hi. unfold bit. destruct (Z.testbit s i) eqn:Ht.
  - apply negb_true_iff, Z.eqb_neq. intros Hz. apply (f_equal (λ z, Z.testbit z i)) in Hz.
    rewrite Z.land_spec, Ht, Z.shiftl_spec, Z.sub_diag, Z.bits_0 in Hz by lia. discriminate Hz.
  - apply negb_false_iff, Z.eqb_eq, Z.bits_inj'. intros n Hn.
    rewrite Z.land_spec, Z.shiftl_spec, Z.bits_0 by lia.
    destruct (decide (n = i)) as [->|Hne]; [by rewrite Ht|].
    apply andb_false_intro2. destruct (decide (n < i)); [by apply Z.testbit_neg_r; lia|].
    apply (Z.bits_above_log2 1); cbn; lia.
Qed.

(** A status is a fault when one of the fault bits is set. *)
Lemma fault_status_bits s :
  fault_status s = existsb (Z.testbit s) [2; 8; 9; 10; 11; 12; 14; 15].
Proof.
  unfold fault_status, fault_mask.
  assert (Hl : ∀ l, Forall (λ i, 0 ≤ i) l →
    negb (Z.land s (foldr Z.lor 0 (Z.shiftl 1 <$> l)) =? 0) = existsb (Z.testbit s) l).
  { induction 1 as [|i l Hi _ IH]; cbn; [by rewrite Z.land_0_r|].
    rewrite <-IH, <-(bit_testbit s i), Z.land_lor_distr_r by done. unfold bit.
    apply eq_iff_eq_true. rewrite orb_true_iff, !negb_true_iff, !Z.eqb_neq, Z.lor_eq_0_iff.
    destruct (decide (Z.land s (1 ≪ i) = 0)); tauto. }
  apply Hl. repeat constructor; lia.
Qed.

(** The loop reads the blocks of 46 bytes one after the other. *)
Lemma component_loop_spec vs objects alarm fault :
  Forall (λ v, length v = objectLength) vs →
  component_loop (length vs) (concat vs) objects alarm fault =
  (objects ++ (component_object <$> vs),
   alarm || existsb (λ v, bit (object_status v) 1) vs,
   fault || existsb (λ v, fault_status (object_status v)) vs).
Proof.
  intros Hvs. revert objects alarm fault. induction Hvs as [|v vs Hv _ IH]; intros; cbn [length component_loop concat].
  { by rewrite app_nil_r, !orb_false_r. }
  rewrite slice_app_l, <-Hv, drop_app_length, IH by done. cbn [existsb fmap list_fmap].
  by rewrite <-app_assoc, !orb_assoc.
Qed.

(** A component report of [n] objects is accepted exactly when it has
    [n] blocks of 46 bytes, and then lists every object; the message is an
    alarm report exactly when some object has its fire bit or one of its fault
    bits set, and says which of the two. *)
Theorem component_report msg vs count :
  Forall (λ v, length v = objectLength) vs →
  match applyGB26875ComponentStatus msg (concat vs) count with
  | Err _ => count ≠ length vs ∨ vs = []
  | Ok msg' =>
    let alarm := existsb (λ v, Z.testbit (object_status v) 1) vs in
    let fault := existsb (λ v, existsb (Z.testbit (object_status v)) [2; 8; 9; 10; 11; 12; 14; 15]) vs in
    count = length vs ∧ vs ≠ [] ∧
    MessageType msg' = (if alarm || fault then AlarmReport else StateChange) ∧
    Properties msg' !! "fireAlarm" = Some (ABool alarm) ∧
    Properties msg' !! "fault" = Some (ABool fault) ∧
    Properties msg' !! "objects" = Some (AMaps (component_object <$> vs)) ∧
    Event msg' !! "objects" = Some (AMaps (component_object <$> vs)) ∧
    (DeviceID msg', TenantID msg', Timestamp msg', Raw msg') =
      (DeviceID msg, TenantID msg, Timestamp msg, Raw msg)
  end.
Proof.
  intros Hvs. assert (Hlen : length (concat vs) = (length vs * objectLength)%nat).
  { induction Hvs as [|v vs Hv _ IH]; [done|]. cbn [concat length]. rewrite length_app, Hv, IH. lia. }
  unfold applyGB26875ComponentStatus, fail_when. rewrite Hlen. case_decide as Hbad; cbn [mbind res_bind].
  { destruct (decide (vs = [])) as [|Hne]; [by right|left]. intros ->.
    destruct vs; [done|]. cbn [length] in Hbad. lia. }
  assert (Hcount : count = length vs) by (unfold objectLength in *; lia). subst count.
  rewrite component_loop_spec by done. cbn [orb app mret res_ret].
  assert (Hne : vs ≠ []) by (intros ->; cbn in Hbad; lia).
  assert (Ha : existsb (λ v, bit (object_status v) 1) vs = existsb (λ v, Z.testbit (object_status v) 1) vs).
  { clear. induction vs as [|v vs IH]; cbn; [done|]. by rewrite IH, bit_testbit. }
  assert (Hf : existsb (λ v, fault_status (object_status v)) vs =
    existsb (λ v, existsb (Z.testbit (object_status v)) [2; 8; 9; 10; 11; 12; 14; 15]) vs).
  { clear. induction vs as [|v vs IH]; cbn [existsb]; [done|]. by rewrite IH, fault_status_bits. }
  cbn zeta. rewrite <-Ha, <-Hf. split; [done|]. split; [done|]. cbn [set MessageType Properties Event].
  split; [done|]. split_and!; by (rewrite ?lookup_insert_eq; repeat first [by rewrite lookup_insert_eq|rewrite lookup_insert_ne by done]).
Qed.
End with_platform.
