(* ===== verification/GbMessages.v ===== *)
(** From a built frame to the standard message it becomes: the exchanges of
    the protocol end to end; and the theorems about the codec on concrete
    frames. *)
From S2P Require Import Prelude GoText GoTime GbCodec GbProofs GbParser GbTheorems Scenario.

Section with_platform.
Context `{Platform}.

(** ** Built frames as payloads *)

Lemma encodeBCD_byte v : byte_ok (encodeBCD v).
Proof. unfold byte_ok, encodeBCD, wrap8. apply Z.mod_pos_bound. lia. Qed.

Lemma encode_time_bytes t : bytes_ok (encodeGB26875Time t).
Proof. unfold encodeGB26875Time. repeat constructor; apply encodeBCD_byte. Qed.

Lemma wire_bytes seq major minor time source destination command adu :
  bytes_ok seq → byte_ok major → byte_ok minor → bytes_ok time → bytes_ok source →
  bytes_ok destination → byte_ok command → bytes_ok adu →
  bytes_ok (wire (wire_body seq major minor time source destination command adu)).
Proof.
  intros. unfold wire. set (body := wire_body _ _ _ _ _ _ _ _).
  assert (Hb : bytes_ok body).
  { unfold body, wire_body, bytes_ok in *. rewrite !Forall_app.
    split_and!; first [done|apply put_le_uint16_ok|repeat (constructor; [done|]); constructor]. }
  unfold bytes_ok in *. rewrite !Forall_app. split_and!;
    repeat (constructor; [first [apply byte_sum_ok|done]|]); first [constructor|done].
Qed.

(** The frame of an accepted payload. *)
Definition built_frame (sequence : Z) (source destination : list Z) (command : Z)
    (application : list Z) (t : civil) : gb26875Frame :=
  mk_frame (sequence mod 65536) 1 3 (hex_upper source) (hex_upper destination) command application
    (date_in local_offset t * 1000).

(** What the frames built below have in common. *)
Record sendable (source : list Z) (t : civil) : Prop := {
  se_source : length source = 6%nat;
  se_bytes : bytes_ok source;
  se_time : gb_time t;
  se_exists : c_year (civil_in local_offset (date_in local_offset t)) = c_year t }.

Lemma Parse_built raw sequence source destination command application t :
  sendable source t → length destination = 6%nat → bytes_ok destination → byte_ok command →
  bytes_ok application → Z.of_nat (length application) ≤ 512 →
  rm_Payload raw =
    quoted (hex_upper (buildGB26875Frame sequence source destination command application t)) →
  let frame := built_frame sequence source destination command application t in
  ∃ text, Parse raw = applyGB26875Data (base_message raw text frame) frame.
Proof.
  intros [Hs Hsb Ht Hy] Hd Hdb Hc Hab Ha Hp. cbn zeta.
  pose proof (encode_time_length t) as Hl. pose proof (encode_time_bytes t) as Htb.
  assert (Hok : bytes_ok (buildGB26875Frame sequence source destination command application t)).
  { rewrite build_wire by (done || lia). apply wire_bytes; try done. apply put_le_uint16_ok. }
  eexists. unfold Parse. rewrite Hp, payload_text_quoted, hex_roundtrip by done.
  rewrite build_wire, decode_wire by (done || lia). cbn [mbind res_bind]. unfold frame_of.
  rewrite le_put_uint16, decode_encode_time by done. reflexivity.
Qed.

(** ** Requests and replies *)

Lemma all_ones_ok : length all_ones = 6%nat ∧ bytes_ok all_ones.
Proof. split; [done|]. repeat constructor; lia. Qed.

Lemma platform_address : isGB26875PlatformAddress (hex_upper all_ones) = true.
Proof. unfold isGB26875PlatformAddress, equal_fold. by rewrite bool_decide_true. Qed.

(** A time synchronization, by the address it comes from. *)
Lemma apply_time_sync msg frame t :
  Command frame = 1 → Data frame = [90; 1] ++ encodeGB26875Time t →
  ∃ m, applyGB26875Data msg frame = Ok m ∧
    let at_ := AInt64 (decodeGB26875Time (encodeGB26875Time t)) in
    Properties m !! "requestedAt" = Some at_ ∧
    if isGB26875PlatformAddress (Source frame)
    then MessageType m = CommandReply ∧ Event m !! "type" = Some (AString "TIME_SYNC") ∧
      Event m !! "synchronizedAt" = Some at_
    else MessageType m = EventReport ∧ Event m !! "type" = Some (AString "TIME_SYNC_REQUEST") ∧
      Event m !! "requestedAt" = Some at_.
Proof.
  intros Hc Hd. unfold applyGB26875Data. rewrite Hc, Hd.
  pose proof (encode_time_length t) as Hl. set (time := encodeGB26875Time t) in *. clearbody time.
  rewrite (decide_False (P := _ ∧ _)) by lia. rewrite (decide_False (P := _ ∧ _)) by lia.
  rewrite decide_False by (rewrite length_app, Hl; cbn; lia).
  cbn [byte_at nth app drop]. rewrite decide_False by lia. rewrite decide_True by done.
  rewrite fail_when_pass by (cbn [length]; lia). cbn [mbind res_bind mret res_ret].
  eexists. split; [reflexivity|]. destruct (isGB26875PlatformAddress (Source frame)); by split_and!.
Qed.

Lemma hex_upper_length l : length (bytes_of (hex_upper l)) = (2 * length l)%nat.
Proof. induction l as [|z l IH]; cbn [hex_upper bytes_of length]; [done|]. rewrite IH. lia. Qed.

(** The registration unit: its identifier and an object of 110 bytes. *)
Lemma registration_unit sequence source t :
  length source = 6%nat → bytes_ok source →
  ∃ adu, BuildGB26875RegistrationFrame sequence source t =
    buildGB26875Frame sequence source all_ones 0 ([0; 1] ++ adu) t ∧ length adu = 110%nat ∧ bytes_ok adu.
Proof.
  intros Hs Hb. unfold BuildGB26875RegistrationFrame.
  pose proof (hex_upper_length source) as Hl. rewrite Hs in Hl.
  assert (Hd : bytes_ok (bytes_of (hex_upper source))).
  { eapply Forall_impl; [by apply hex_upper_bytes|]. unfold hex_byte, byte_ok. lia. }
  set (digits := bytes_of (hex_upper source)) in *. clearbody digits.
  exists ([1; 3] ++ zeros 14 ++ digits ++ zeros 82). split; [|split].
  - cbn zeta. f_equal. explode digits. done.
  - rewrite !length_app, Hl. done.
  - unfold bytes_ok in *. rewrite !Forall_app. split_and!; try done;
      [by repeat (constructor; [done|])|by apply Forall_replicate..].
Qed.

Lemma apply_registration msg frame adu :
  Command frame = 0 → Data frame = [0; 1] ++ adu → length adu = 110%nat →
  ∃ m, applyGB26875Data msg frame = Ok m ∧ MessageType m = StateChange ∧
    Event m !! "type" = Some (AString "REGISTER") ∧
    Properties m !! "registrationObjectLength" = Some (AInt 110).
Proof.
  intros Hc Hd Hl. unfold applyGB26875Data. rewrite Hc, Hd.
  rewrite (decide_False (P := _ ∧ _)) by lia. rewrite (decide_False (P := _ ∧ _)) by lia.
  rewrite decide_False by (rewrite length_app, Hl; cbn; lia).
  cbn [byte_at nth app drop]. rewrite decide_True by done. rewrite fail_when_pass by (cbn [length]; lia).
  cbn [mbind res_bind mret res_ret]. rewrite ?drop_0, Hl. eexists. split; [reflexivity|]. by split_and!.
Qed.

#[local] Ltac side :=
  first [done | by constructor | by (repeat (constructor; [done|])) | cbn; lia].

(** The exchanges of the protocol end to end: an acknowledgement and a
    time synchronization built by the platform parse as command replies, a
    synchronization request of a device as an event with the time it was built
    at, and a registration as a state change with its 110-byte object. *)
Theorem exchanges raw sequence address t :
  sendable address t → sendable all_ones t →
  let instant := date_in local_offset t * 1000 in
  let sent frame := rm_Payload raw = quoted (hex_upper frame) in
  (sent (BuildGB26875AckFrame sequence address t) →
     ∃ m, Parse raw = Ok m ∧ MessageType m = CommandReply ∧ Event m !! "type" = Some (AString "ACK")) ∧
  (sent (BuildGB26875TimeSyncFrame sequence address t) →
     ∃ m, Parse raw = Ok m ∧ MessageType m = CommandReply ∧
       Event m !! "type" = Some (AString "TIME_SYNC") ∧
       Event m !! "synchronizedAt" = Some (AInt64 instant)) ∧
  (sent (BuildGB26875TimeSyncRequestFrame sequence address t) →
     isGB26875PlatformAddress (hex_upper address) = false →
     ∃ m, Parse raw = Ok m ∧ MessageType m = EventReport ∧
       Event m !! "type" = Some (AString "TIME_SYNC_REQUEST") ∧
       Properties m !! "requestedAt" = Some (AInt64 instant)) ∧
  (sent (BuildGB26875RegistrationFrame sequence address t) →
     ∃ m, Parse raw = Ok m ∧ MessageType m = StateChange ∧
       Event m !! "type" = Some (AString "REGISTER") ∧
       Properties m !! "registrationObjectLength" = Some (AInt 110)).
Proof.
  intros Hd Hp. cbn zeta. pose proof all_ones_ok as [Ho1 Ho2]. pose proof Hd as [Hl Hb Ht Hy].
  pose proof (encode_time_bytes t) as Htb. pose proof (decode_encode_time t Ht Hy) as Hdec.
  split_and!; intros Hsent.
  - apply Parse_built in Hsent as [text ->]; [|side..].
    eexists. split; [reflexivity|]. by split.
  - apply Parse_built in Hsent as [text ->]; [|side..]. set (frame := built_frame _ _ _ _ _ _).
    destruct (apply_time_sync (base_message raw text frame) frame t) as (m & -> & _ & Hm); [done..|].
    change (Source frame) with (hex_upper all_ones) in Hm.
    rewrite platform_address, Hdec in Hm. by exists m.
  - intros Hdev. apply Parse_built in Hsent as [text ->]; [|side..]. set (frame := built_frame _ _ _ _ _ _).
    destruct (apply_time_sync (base_message raw text frame) frame t) as (m & -> & Hpr & Hm); [done..|].
    change (Source frame) with (hex_upper address) in Hm. rewrite Hdev, Hdec in *. destruct Hm as (? & ? & _). by exists m.
  - destruct (registration_unit sequence address t Hl Hb) as (adu & Hr & Hal & Hab). rewrite Hr in Hsent.
    apply Parse_built in Hsent as [text ->]; [|side..|rewrite length_app, Hal; cbn; lia].
    by eapply apply_registration.
Qed.

(** ** Component reports *)

Lemma write_last i src pre n :
  i = (length pre + (n - length src))%nat → (length src ≤ n)%nat →
  write_at i src (pre ++ zeros n) = pre ++ zeros (n - length src) ++ src.
Proof.
  intros -> Hn. assert (Hz : zeros n = zeros (n - length src) ++ zeros (length src)).
  { unfold zeros. rewrite <-replicate_add. f_equal. lia. }
  rewrite Hz, app_assoc, write_next; [by rewrite Nat.sub_diag, app_nil_r, <-app_assoc| |done].
  rewrite length_app. unfold zeros. by rewrite length_replicate.
Qed.

(** The object of a component report. *)
Definition status_object (systemType systemAddress componentType circuit node status : Z)
    (description : list Z) (time : list Z) : list Z :=
  [systemType; systemAddress; componentType] ++ put_le_uint16 circuit ++ put_le_uint16 node
    ++ put_le_uint16 status ++ (description ++ zeros (31 - length description)) ++ time.

Lemma status_frame sequence source st sa ct circuit node status description t :
  BuildGB26875ComponentStatusFrame sequence source st sa ct circuit node status description t =
  buildGB26875Frame sequence source all_ones 2
    ([2; 1] ++ status_object st sa ct circuit node status (take 31 (bytes_of description))
      (encodeGB26875Time t)) t.
Proof.
  unfold BuildGB26875ComponentStatusFrame, status_object. cbn zeta. do 2 f_equal.
  assert (Hb : (length (take 31 (bytes_of description)) ≤ 31)%nat) by (rewrite length_take; lia).
  set (d := take 31 (bytes_of description)) in *. clearbody d.
  pose proof (encode_time_length t) as Ht. set (time := encodeGB26875Time t) in *. clearbody time.
  rewrite <-(app_nil_l (zeros 46)).
  assert (Hp : ∀ v, length (put_le_uint16 v) = 2%nat) by done.
  do 5 (rewrite write_next; [|rewrite ?length_app, ?Hp; cbn [length]; lia..]).
  rewrite write_last by (rewrite ?length_app, ?Hp; cbn [length]; lia).
  rewrite app_nil_l, <-!app_assoc, !Hp, Ht. cbn [length]. by replace (46 - 3 - 2 - 2 - 2 - length d - 6)%nat with (31 - length d)%nat by lia.
Qed.

(** Where the fields of an object are. *)
Lemma status_object_fields st sa ct circuit node status d time :
  (length d ≤ 31)%nat → length time = 6%nat →
  let v := status_object st sa ct circuit node status d time in
  length v = objectLength ∧ byte_at v 0 = st ∧ byte_at v 2 = ct ∧
  slice v 3 5 = put_le_uint16 circuit ∧ slice v 5 7 = put_le_uint16 node ∧
  slice v 7 9 = put_le_uint16 status ∧ slice v 9 40 = d ++ zeros (31 - length d) ∧ slice v 40 46 = time.
Proof.
  intros Hd Ht. cbn zeta. unfold status_object.
  assert (Hz : length (d ++ zeros (31 - length d)) = 31%nat).
  { rewrite length_app. unfold zeros. rewrite length_replicate. lia. }
  set (desc := d ++ zeros _) in *. clearbody desc. split; [rewrite !length_app, Hz, Ht; done|].
  do 5 (split; [done|]). split.
  - change (slice (desc ++ time) 0 31 = desc). by apply slice_app_l.
  - change (slice (desc ++ time) 31 37 = time). pose proof (slice_app_r desc time 0 6) as Hr.
    rewrite Hz in Hr. change (31 + 0)%nat with 31%nat in Hr. change (31 + 6)%nat with 37%nat in Hr.
    rewrite Hr. unfold slice. rewrite drop_0. apply take_ge. lia.
Qed.

(** How a description field is read: up to its first zero byte and without the
    white space around it; as hexadecimal digits when that is not UTF-8. *)
Fixpoint before_nul (l : list Z) : list Z :=
  match l with [] => [] | b :: l => if decide (b = 0) then [] else b :: before_nul l end.
Definition field_text (field : list Z) : string :=
  let text := trim_space (string_of_bytes (before_nul field)) in
  if valid_utf8 (bytes_of text) then text else hex_upper (before_nul field).

Lemma cut_zeros d n :
  match bytesIndex (d ++ zeros n) 0 with Some cut => take cut (d ++ zeros n) | None => d ++ zeros n end
  = before_nul d.
Proof.
  induction d as [|b d IH]; cbn [app bytesIndex before_nul].
  - by destruct n.
  - case_decide; [done|]. rewrite <-IH. by destruct (bytesIndex (d ++ zeros n) 0).
Qed.

Lemma before_nul_all l : 0 ∉ l → before_nul l = l.
Proof.
  induction l as [|b l IH]; cbn [before_nul]; [done|]. intros [Hb Hl]%not_elem_of_cons.
  rewrite decide_False by done. by rewrite IH.
Qed.

(** A text that fits the field is read back as it was written. *)
Lemma field_text_fits s :
  0 ∉ bytes_of s → valid_utf8 (bytes_of s) = true → trim_space s = s → field_text (bytes_of s) = s.
Proof.
  intros Hz Hv Ht. unfold field_text. by rewrite before_nul_all, string_of_bytes_of, Ht, Hv.
Qed.

Lemma description_back st sa ct circuit node status d time :
  (length d ≤ 31)%nat → length time = 6%nat →
  object_description (status_object st sa ct circuit node status d time) = field_text d.
Proof.
  intros Hl Ht. unfold object_description.
  destruct (status_object_fields st sa ct circuit node status d time Hl Ht) as (_ & _ & _ & _ & _ & _ & -> & _).
  cbn zeta. by rewrite cut_zeros.
Qed.

Lemma bytes_of_ok s : bytes_ok (bytes_of s).
Proof. induction s as [|c s IH]; cbn; constructor; [apply byte_of_range|done]. Qed.

Lemma apply_status msg frame v :
  Command frame = 2 → Data frame = [2; 1] ++ v →
  ∃ m1, applyGB26875Data msg frame = applyGB26875ComponentStatus m1 v 1 ∧
    (DeviceID m1, TenantID m1, Timestamp m1) = (DeviceID msg, TenantID msg, Timestamp msg).
Proof.
  intros Hc Hd. unfold applyGB26875Data. rewrite Hc, Hd.
  rewrite (decide_False (P := _ ∧ _)) by lia. rewrite (decide_False (P := _ ∧ _)) by lia.
  rewrite decide_False by (rewrite length_app; cbn; lia).
  cbn [byte_at nth app drop]. rewrite decide_False by lia. rewrite decide_False by lia.
  rewrite decide_True by done. rewrite drop_0. by eexists.
Qed.

(** C29: a component report end to end: the frame a device builds for a
    component parses into a message with one object that has the component's
    addresses, status word, description and time; it is an alarm report
    exactly when the fire bit or a fault bit is set, and it is attributed to
    the device that sent it at the time it was built.  The description may be
    any string: the first 31 bytes are carried and read up to a zero byte,
    without the white space around, as hexadecimal digits when that is not
    UTF-8; so a text that fits - UTF-8 of at most 31 bytes, without zero bytes
    and surrounding white space - comes back as it was.  The time is one that
    the format carries ([gb_time]: a date and time of the years 2000 to 2099),
    to which the local zone gives an instant of the same year after 1970. *)
Theorem component_report_end_to_end raw sequence source st sa ct circuit node status description t :
  sendable source t → byte_ok st → byte_ok sa → byte_ok ct →
  0 ≤ circuit < 65536 → 0 ≤ node < 65536 → 0 ≤ status < 65536 →
  date_in local_offset t > 0 →
  rm_Payload raw = quoted (hex_upper (BuildGB26875ComponentStatusFrame sequence source st sa ct
    circuit node status description t)) →
  ∃ m o, Parse raw = Ok m ∧ Properties m !! "objects" = Some (AMaps [o]) ∧
    o !! "componentType" = Some (AInt ct) ∧ o !! "circuitAddress" = Some (AInt circuit) ∧
    o !! "nodeAddress" = Some (AInt node) ∧ o !! "statusWord" = Some (AInt status) ∧
    o !! "description" = Some (AString (field_text (take 31 (bytes_of description)))) ∧
    ((String.length description ≤ 31)%nat → 0 ∉ bytes_of description →
     valid_utf8 (bytes_of description) = true → trim_space description = description →
     field_text (take 31 (bytes_of description)) = description) ∧
    o !! "occurredAt" = Some (AInt64 (date_in local_offset t * 1000)) ∧
    (let alarm := Z.testbit status 1 in
     let fault := existsb (Z.testbit status) [2; 8; 9; 10; 11; 12; 14; 15] in
     MessageType m = if alarm || fault then AlarmReport else StateChange) ∧
    DeviceID m = rm_DeviceID raw ∧ TenantID m = rm_TenantID raw ∧
    Timestamp m = date_in local_offset t * 1000.
Proof.
  intros Hsend Hst Hsa Hct Hci Hno Hs Hpos Hp. pose proof Hsend as [Hsl Hsb Ht Hy].
  assert (Hb : (length (take 31 (bytes_of description)) ≤ 31)%nat) by (rewrite length_take; lia).
  pose proof (encode_time_length t) as Htl. pose proof (encode_time_bytes t) as Htb.
  rewrite status_frame in Hp. set (v := status_object _ _ _ _ _ _ _ _) in Hp.
  destruct (status_object_fields st sa ct circuit node status (take 31 (bytes_of description))
    (encodeGB26875Time t) Hb Htl) as (Hvl & _ & Hv2 & Hv3 & Hv5 & Hv7 & _ & Hv40).
  fold v in Hvl, Hv2, Hv3, Hv5, Hv7, Hv40.
  assert (Hvb : bytes_ok v).
  { unfold v, status_object, bytes_ok. rewrite !Forall_app. split_and!; try apply put_le_uint16_ok; try done.
    - by repeat (constructor; [done|]).
    - apply Forall_take, bytes_of_ok.
    - by apply Forall_replicate. }
  assert (Hob : bytes_ok ([2; 1] ++ v)) by (do 2 (constructor; [done|]); exact Hvb).
  apply Parse_built in Hp as [text Hparse];
    [|done|apply all_ones_ok|apply all_ones_ok|done|done|rewrite length_app, Hvl; unfold objectLength; cbn; lia].
  set (frame := built_frame _ _ _ _ _ _) in Hparse. set (m0 := base_message raw text frame) in Hparse.
  assert (Happ : ∃ m1, applyGB26875Data m0 frame = applyGB26875ComponentStatus m1 (concat [v]) 1 ∧
    (DeviceID m1, TenantID m1, Timestamp m1) = (DeviceID m0, TenantID m0, Timestamp m0)).
  { cbn [concat]. rewrite app_nil_r. by apply apply_status. }
  destruct Happ as (m1 & Happ & Hm1). rewrite Happ in Hparse. clear Happ.
  pose proof (component_report m1 [v] 1 ltac:(by constructor)) as Hrep.
  destruct (applyGB26875ComponentStatus m1 (concat [v]) 1) as [m|e]; [|by destruct Hrep].
  destruct Hrep as (_ & _ & Hty & _ & _ & Hobj & _ & Hm). exists m, (component_object v).
  assert (Hstatus : object_status v = status).
  { unfold object_status. rewrite Hv7, le_put_uint16. by apply Z.mod_small. }
  assert (Htime : decodeGB26875Time (slice v 40 46) = date_in local_offset t * 1000).
  { rewrite Hv40. by apply decode_encode_time. }
  cbn [existsb] in Hty. rewrite Hstatus, !orb_false_r in Hty.
  assert (Hts : Timestamp m0 = date_in local_offset t * 1000).
  { unfold m0, base_message. cbn zeta. by rewrite decide_True by (cbn; lia). }
  assert (Hid : DeviceID m0 = rm_DeviceID raw ∧ TenantID m0 = rm_TenantID raw).
  { unfold m0, base_message. cbn zeta. by destruct (decide _). }
  injection Hm as Hm2 Hm3 Hm4 _. injection Hm1 as Hm5 Hm6 Hm7. destruct Hid as [Hid1 Hid2].
  split; [done|]. split; [exact Hobj|]. unfold component_object. cbn zeta.
  rewrite Hstatus, Htime, Hv2, Hv3, Hv5, !le_put_uint16.
  assert (Hdesc : object_description v = field_text (take 31 (bytes_of description)))
    by (by apply description_back).
  rewrite Hdesc. unfold wrap16. rewrite !Z.mod_small by done.
  split_and!; try done; [| |congruence|congruence|congruence].
  { intros Hlen Hz Hutf Htrim. rewrite take_ge by (by rewrite bytes_of_length). by apply field_text_fits. }
  cbn [existsb]. by rewrite !orb_false_r.
Qed.
End with_platform.

(** ** Concrete frames *)

#[local] Existing Instance ascii_platform.

Definition noon : civil := mk_civil 2024 5 6 12 30 9.
Definition terminal : list Z := [1; 2; 3; 4; 5; 171].

Ltac byte_list := repeat constructor; discriminate.
Lemma noon_ok : gb_time noon.
Proof. split; [vm_compute; reflexivity|split; [discriminate|reflexivity]]. Qed.
Lemma noon_exists : c_year (civil_in local_offset (date_in local_offset noon)) = c_year noon.
Proof. vm_compute. reflexivity. Qed.
Lemma terminal_ok : bytes_ok terminal.
Proof. by repeat (constructor; [done|]). Qed.
Lemma terminal_sendable : sendable terminal noon.
Proof. split; [reflexivity|exact terminal_ok|exact noon_ok|exact noon_exists]. Qed.
Lemma platform_sendable : sendable all_ones noon.
Proof. split; [reflexivity|apply all_ones_ok|exact noon_ok|exact noon_exists]. Qed.

Definition ack : list Z := buildGB26875Frame 65537 all_ones terminal 3 [] noon.
Definition ack_frame : gb26875Frame :=
  mk_frame 1 1 3 "FFFFFFFFFFFF" "0102030405AB" 3 [] 1714969809000.

Lemma frame_roundtrip_witness : decodeGB26875Frame ack = Ok ack_frame.
Proof.
  refine (eq_trans (frame_roundtrip 65537 all_ones terminal 3 [] noon eq_refl eq_refl _ noon_ok
    noon_exists) _).
  - discriminate.
  - vm_compute. reflexivity.
Defined.

Lemma ack_bytes : bytes_ok ack.
Proof.
  unfold ack. rewrite build_wire by first [reflexivity|discriminate].
  apply (wire_bytes (put_le_uint16 65537) 1 3 (encodeGB26875Time noon) all_ones terminal 3 []).
  - apply put_le_uint16_ok.
  - done.
  - done.
  - apply encode_time_bytes.
  - exact (proj2 all_ones_ok).
  - exact terminal_ok.
  - done.
  - constructor.
Qed.

Lemma ack_decodes : decodeGB26875Frame ack = Ok ack_frame.
Proof. vm_compute. reflexivity. Qed.

Lemma frame_layout_witness : ∃ seq time source destination adu,
  length seq = 2%nat ∧ ack = wire (wire_body seq 1 3 time source destination 3 adu).
Proof.
  destruct (proj1 (frame_layout ack ack_frame ack_bytes) ack_decodes)
    as (seq & major & minor & time & source & destination & command & adu & Hq & _ & _ & _ & _ & Hd & Hf).
  injection Hf as _ <- <- _ _ <- _ _. exists seq, time, source, destination, adu.
  split; [exact Hq|exact Hd].
Defined.

Lemma corruption_detected_witness :
  ∃ e, decodeGB26875Frame (<[15%nat:=7]> ack) = Err e.
Proof.
  refine (corruption_detected ack ack_frame 15 7 ack_bytes _ _ _ _).
  - by split.
  - exact ack_decodes.
  - vm_compute. lia.
  - vm_compute. discriminate.
Defined.

(** Two detectors of which the second is on fire. *)
Definition detector_object (status : Z) : list Z :=
  status_object 1 1 40 5 7 status (bytes_of "hall") (encodeGB26875Time noon).
Definition blank_message : StandardMessage :=
  mk_StandardMessage "" "" "t" "p" "d" PropertyReport 0 ∅ ∅ ∅ ∅ "" "".

Lemma component_report_witness :
  ∃ m, applyGB26875ComponentStatus blank_message
      (concat [detector_object 0; detector_object 2]) 2 = Ok m ∧
    MessageType m = AlarmReport ∧ Properties m !! "fireAlarm" = Some (ABool true) ∧
    Properties m !! "fault" = Some (ABool false).
Proof.
  pose proof (component_report blank_message [detector_object 0; detector_object 2] 2
    ltac:(by repeat constructor)) as Hr.
  destruct (applyGB26875ComponentStatus _ _ _) as [m|e].
  - exists m. destruct Hr as (_ & _ & Hty & Ha & Hf & _).
    split; [reflexivity|]. split; [rewrite Hty; vm_compute; reflexivity|].
    split; [rewrite Ha|rewrite Hf]; vm_compute; reflexivity.
  - exfalso. destruct Hr as [Hr|Hr]; [by apply Hr|discriminate Hr].
Defined.

Definition sent (frame : list Z) : RawMessage :=
  zero_RawMessage <| rm_MessageID := "raw_1" |> <| rm_TenantID := "t" |> <| rm_DeviceID := "d" |>
    <| rm_ReceivedAt := 1 |> <| rm_Payload := quoted (hex_upper frame) |>.

Lemma exchanges_witness :
  ∃ m, Parse (sent (BuildGB26875AckFrame 9 terminal noon)) = Ok m ∧ MessageType m = CommandReply ∧
    Event m !! "type" = Some (AString "ACK").
Proof.
  exact (proj1 (exchanges (sent (BuildGB26875AckFrame 9 terminal noon)) 9 terminal noon
    terminal_sendable platform_sendable) eq_refl).
Defined.

(** A Chinese text with a space. *)
Definition place : string := "一号楼 hall 3".
Definition place_report : RawMessage :=
  sent (BuildGB26875ComponentStatusFrame 3 terminal 1 2 40 5 7 18 place noon).
Lemma component_report_end_to_end_witness :
  ∃ m o, Parse place_report = Ok m ∧ Properties m !! "objects" = Some (AMaps [o]) ∧
    o !! "description" = Some (AString place) ∧
    MessageType m = AlarmReport ∧ DeviceID m = "d" ∧ Timestamp m = 1714969809000.
Proof.
  assert (Hpos : date_in local_offset noon > 0) by (vm_compute; reflexivity).
  assert (Hts0 : date_in local_offset noon * 1000 = 1714969809000) by (vm_compute; reflexivity).
  destruct (component_report_end_to_end place_report 3 terminal 1 2 40 5 7 18 place noon terminal_sendable
    ltac:(by split) ltac:(by split) ltac:(by split) ltac:(by split) ltac:(by split) ltac:(by split) Hpos eq_refl)
    as (m & o & Hm & Ho & _ & _ & _ & _ & Hdesc & Hfits & _ & Hty & Hd & _ & Hts).
  exists m, o. split; [exact Hm|]. split; [exact Ho|]. split.
  - rewrite Hdesc, Hfits; [reflexivity|vm_compute; lia| |vm_compute; reflexivity..].
    apply (bool_decide_unpack (0 ∉ bytes_of place)). vm_compute. exact I.
  - split; [exact Hty|]. split; [exact Hd|]. by rewrite Hts.
Defined.

(** The range check of a time is by field: the 31st of a short month is
    accepted and read as a day of the next month. *)
Lemma short_month_accepted :
  decodeGB26875Time (encodeGB26875Time (mk_civil 2023 2 31 12 0 0)) =
  decodeGB26875Time (encodeGB26875Time (mk_civil 2023 3 3 12 0 0)) ∧
  decodeGB26875Time (encodeGB26875Time (mk_civil 2023 2 31 12 0 0)) ≠ 0.
Proof. vm_compute. split; [reflexivity|discriminate]. Qed.
