(* ===== verification/Queue.v ===== *)
(** The durable queue (internal/durablequeue/queue.go): a directory of
    messages that survive a restart, with a capacity, quarantine of entries
    that cannot be delivered, and delivery in order of reception.

    The directory is a map from names to files.  Every system call may fail,
    as the operating system [os] decides; a failed call has no effect.  The
    methods hold the queue's mutex, so each is one step. *)
From S2P Require Import Prelude GoText GbCodec.

(** ** Operating system *)

(** [SysLstat] and [SysStat] are the calls of [os.Lstat] and [os.Stat];
    [SysStatWritten] is the [os.Stat] that [put] makes after a failed write. *)
Inductive syscall :=
  | SysReadDir | SysRead | SysLstat | SysStat | SysStatWritten | SysWrite | SysRename | SysRemove | SysSync.

(** The error of the n-th call, the clock in milliseconds, and whether the
    n-th [ctx.Err()] reports a cancelled context. *)
Record os := mk_os {
  os_fail : nat → syscall → option error;
  os_now : nat → Z;
  os_ctx : nat → option error }.

Record file := mk_file { f_data : list Z; f_mtime : Z; f_regular : bool }.
Definition f_size (f : file) : Z := Z.of_nat (length (f_data f)).

(** ** The queue *)

Record Queue := mk_Queue {
  q_maxBytes : Z; q_used : Z; q_maxItems : Z; q_items : Z; q_closed : bool;
  q_order : list string; q_active : gset string }.
#[export] Instance eta_Queue : Settable Queue := λ v,
  mk_Queue (q_maxBytes v) (q_used v) (q_maxItems v) (q_items v) (q_closed v) (q_order v) (q_active v).

(** The process and its directory; [d_tick] counts the system calls. *)
Record disk := mk_disk { d_queue : Queue; d_files : gmap string file; d_tick : nat }.
#[export] Instance eta_disk : Settable disk := λ v, mk_disk (d_queue v) (d_files v) (d_tick v).

(** An error keeps what was done before it. *)
Definition Q (A : Type) : Type := disk → res A * disk.
#[export] Instance Q_ret : MRet Q := λ A a d, (Ok a, d).
#[export] Instance Q_bind : MBind Q := λ A B f m d,
  match m d with (Ok a, d') => f a d' | (Err e, d') => (Err e, d') end.

Definition fail {A} (e : error) : Q A := λ d, (Err e, d).
Definition Q_lift {A} (r : res A) : Q A := λ d, (r, d).
(** [v, err := m()], with the error in hand *)
Definition Q_try {A} (m : Q A) : Q (res A) := λ d, let '(r, d') := m d in (Ok r, d').
Definition get_queue : Q Queue := λ d, (Ok (d_queue d), d).
Definition modify (f : Queue → Queue) : Q unit := λ d, (Ok tt, d <| d_queue ::= f |>).

Definition queue_error (s : string) : error := mk_error Other s.
Definition ErrQuarantined : error := queue_error "raw is quarantined; operator review is required".
Definition ErrQueueFull : error := queue_error "durable queue is full; data was not acknowledged".
Definition ErrClosed : error := queue_error "file already closed".
(** [os.IsNotExist] asks for the class of the error. *)
Definition not_exist : error := mk_error NotFound "file does not exist".
Definition is_not_exist (e : error) : bool := bool_decide (err_is e = NotFound).

Section os.
Context `{RawCodec} (o : os).

(** One system call on the files. *)
Definition sys {A} (k : syscall) (f : gmap string file → res A * gmap string file) : Q A := λ d,
  let d' := d <| d_tick ::= S |> in
  match os_fail o (d_tick d) k with
  | Some e => (Err e, d')
  | None => let '(r, files) := f (d_files d) in (r, d' <| d_files := files |>)
  end.

(** [time.Now().UnixMilli()] and [ctx.Err()] *)
Definition now : Q Z := λ d, (Ok (os_now o (d_tick d)), d).
Definition ctx_err : Q (option error) := λ d, (Ok (os_ctx o (d_tick d)), d).

Definition lookup_file (files : gmap string file) (name : string) : res file :=
  match files !! name with Some f => Ok f | None => Err not_exist end.

Definition os_stat (k : syscall) (name : string) : Q file := sys k (λ fs, (lookup_file fs name, fs)).
Definition os_read (name : string) : Q (list Z) := sys SysRead (λ fs,
  (f ← lookup_file fs name;
   _ ← fail_when (f_regular f = false) (queue_error "is a directory");
   mret (f_data f), fs)).
Definition os_remove (name : string) : Q unit := sys SysRemove (λ fs,
  match fs !! name with Some _ => (Ok tt, delete name fs) | None => (Err not_exist, fs) end).
Definition os_rename (from to : string) : Q unit := sys SysRename (λ fs,
  match fs !! from with
  | Some f => (Ok tt, <[to := f]> (delete from fs))
  | None => (Err not_exist, fs)
  end).
Definition syncDirectory : Q unit := sys SysSync (λ fs, (Ok tt, fs)).
(** [os.ReadDir]: the entries sorted by name. *)
Definition name_le (a b : string * file) : Prop := String.leb a.1 b.1 = true.
#[export] Instance name_le_dec a b : Decision (name_le a b).
Proof. unfold name_le. apply _. Defined.
Definition read_dir : Q (list (string * file)) := sys SysReadDir (λ fs,
  (Ok (merge_sort name_le (map_to_list fs)), fs)).

(** [atomicFile]: a pending file is written and flushed, then renamed over
    [name], then the directory is flushed. *)
Definition atomicFile (name : string) (b : list Z) : Q unit :=
  _ ← sys SysWrite (λ fs, (Ok tt, fs));
  mtime ← now;
  _ ← sys SysRename (λ fs, (Ok tt, <[name := mk_file b mtime true]> fs));
  syncDirectory.

(** ** Names *)

Definition queueName (raw : RawMessage) : string :=
  sha256_hex (rm_TenantID raw +:+ String (of_byte 0) (rm_MessageID raw)) +:+ ".json".
Definition rejected (name : string) : string := name +:+ ".rejected".
Definition corrupt (name : string) : string := name +:+ ".corrupt".
Definition queueEntry (name : string) : bool :=
  has_suffix name ".json" || has_suffix name ".rejected" || has_suffix name ".corrupt".

(** ** Opening *)

(** The loop over the directory: counters and the active entries with their
    modification times. *)
Fixpoint open_entries (entries : list (string * file)) (q : Queue) (written : list (string * Z))
    : res (Queue * list (string * Z)) :=
  match entries with
  | [] => Ok (q, written)
  | (name, f) :: entries =>
    if negb (queueEntry name) then open_entries entries q written
    else
      _ ← fail_when (f_regular f = false) (queue_error "invalid queue entry");
      let q := q <| q_used ::= λ u, wrap64 (u + f_size f) |> <| q_items ::= λ i, wrap64 (i + 1) |> in
      if has_suffix name ".json"
      then open_entries entries (q <| q_active ::= λ a, {[name]} ∪ a |>) (written ++ [(name, f_mtime f)])
      else open_entries entries q written
  end.

(** The order of reception: by modification time, then by name. *)
Definition written_le (a b : string * Z) : Prop :=
  a.2 < b.2 ∨ a.2 = b.2 ∧ String.leb a.1 b.1 = true.
#[export] Instance written_le_dec a b : Decision (written_le a b).
Proof. unfold written_le. apply _. Defined.

(** [entry.Info()] of the entries of the queue: any failure refuses the
    directory, like an entry that is not a regular file. *)
Fixpoint entry_infos (entries : list (string * file)) : Q unit :=
  match entries with
  | [] => mret tt
  | (name, _) :: entries =>
    if queueEntry name then
      info ← Q_try (os_stat SysLstat name);
      match info with
      | Ok _ => entry_infos entries
      | Err _ => fail (queue_error "invalid queue entry")
      end
    else entry_infos entries
  end.

(** [OpenQueue] after the directory is created and locked. *)
Definition OpenQueue (maxBytes maxItems : Z) : Q unit :=
  _ ← Q_lift (fail_when (maxBytes < 1 ∨ maxItems < 1) (queue_error "invalid queue limits"));
  entries ← read_dir;
  _ ← entry_infos entries;
  opened ← Q_lift (open_entries entries (mk_Queue maxBytes 0 maxItems 0 false [] ∅) []);
  let '(q, written) := opened in
  modify (λ _, q <| q_order := (merge_sort written_le written).*1 |>).

Definition Close : Q unit := modify (λ q, q <| q_closed := true |>).

(** ** Receiving *)

Definition enqueue (name : string) : Q unit := modify (λ q,
  if decide (name ∈ q_active q) then q
  else q <| q_active ::= λ a, {[name]} ∪ a |> <| q_order ::= λ l, l ++ [name] |>).

Definition check_open : Q unit :=
  q ← get_queue; Q_lift (fail_when (q_closed q = true) ErrClosed).

(** The reception time of a retransmission is the first one. *)
Definition stamp_reception (target : string) (raw : RawMessage) : Q RawMessage :=
  old ← Q_try (os_read target);
  match old with
  | Ok b => match unmarshal b with
            | None => fail ErrQuarantined
            | Some saved => mret (raw <| rm_ReceivedAt := rm_ReceivedAt saved |>)
            end
  | Err e => if is_not_exist e
             then time ← now; mret (raw <| rm_ReceivedAt := time |>)
             else fail e
  end.

(** [os.Lstat(target + suffix)] must not find a file. *)
Definition not_quarantined (name : string) : Q unit :=
  st ← Q_try (os_stat SysLstat name);
  match st with
  | Ok _ => fail ErrQuarantined
  | Err e => if is_not_exist e then mret tt else fail e
  end.

(** Writing a new entry, with the capacity accounting of a flush that failed
    after the rename. *)
Definition write_entry (target : string) (b : list Z) : Q unit :=
  w ← Q_try (atomicFile target b);
  match w with
  | Ok _ =>
    _ ← modify (λ q, q <| q_used ::= λ u, wrap64 (u + Z.of_nat (length b)) |>
                       <| q_items ::= λ i, wrap64 (i + 1) |>);
    enqueue target
  | Err e =>
    st ← Q_try (os_stat SysStatWritten target);
    _ ← match st with
        | Ok info =>
          _ ← modify (λ q, q <| q_used ::= λ u, wrap64 (u + f_size info) |>
                             <| q_items ::= λ i, wrap64 (i + 1) |>);
          enqueue target
        | Err _ => mret tt
        end;
    fail e
  end.

(** The rest of [put] for the bytes of the message: refused when it is in
    quarantine, already received when the same bytes are stored. *)
Definition store_entry (target : string) (b : list Z) : Q unit :=
  _ ← Q_lift (fail_when (Z.of_nat (length b) > 1048576) (queue_error "raw exceeds 1 MiB"));
  _ ← not_quarantined (rejected target);
  _ ← not_quarantined (corrupt target);
  old ← Q_try (os_read target);
  match old with
  | Ok old => if decide (old ≠ b) then fail ErrRawConflict else syncDirectory
  | Err e =>
    if is_not_exist e then
      q ← get_queue;
      _ ← Q_lift (fail_when (q_maxItems q ≤ q_items q ∨
            wrap64 (q_used q + Z.of_nat (length b)) > q_maxBytes q) ErrQueueFull);
      write_entry target b
    else fail e
  end.

Definition put (raw : RawMessage) (stamp : bool) : Q unit :=
  _ ← Q_lift (fail_when (rm_TenantID raw = "" ∨ rm_MessageID raw = "")
        (queue_error "raw identity is required"));
  let target := queueName raw in
  _ ← check_open;
  raw ← (if stamp then stamp_reception target raw else mret raw);
  match marshal raw with
  | None => fail (queue_error "json: unsupported value")
  | Some b => store_entry target b
  end.
Definition Put (raw : RawMessage) : Q unit := put raw false.
Definition PutReceived (raw : RawMessage) : Q unit := put raw true.

(** ** Delivering *)

(** The loop of [Next] with [head]: names that are not active any more are
    dropped from the front of the order, and an active entry whose file was
    removed outside the queue stops being active. *)
Fixpoint next_entry (order : list string) : Q (option (string * file)) :=
  match order with
  | [] => _ ← modify (λ q, q <| q_order := [] |>); mret None
  | name :: rest =>
    q ← get_queue;
    if decide (name ∈ q_active q) then
      _ ← modify (λ q, q <| q_order := name :: rest |>);
      st ← Q_try (os_stat SysLstat name);
      match st with
      | Ok info => mret (Some (name, info))
      | Err e =>
        if is_not_exist e then
          _ ← modify (λ q, q <| q_active ::= λ a, a ∖ {[name]} |>);
          next_entry rest
        else fail e
      end
    else next_entry rest
  end.

(** Why the bytes of an entry cannot be delivered. *)
Definition entry_message (name : string) (b : list Z) : RawMessage + string :=
  if decide (Z.of_nat (length b) > 1048576) then inr "entry exceeds 1 MiB"
  else match unmarshal b with
       | None => inr "invalid JSON"
       | Some raw =>
         if decide (rm_TenantID raw = "" ∨ rm_MessageID raw = "" ∨ queueName raw ≠ name)
         then inr "identity checksum mismatch" else inl raw
       end.

Definition quarantine (name reason : string) : Q (option RawMessage) :=
  st ← Q_try (os_stat SysLstat (corrupt name));
  match st with
  | Ok _ => fail (queue_error "corrupt quarantine already exists")
  | Err e =>
    if is_not_exist e then
      _ ← os_rename name (corrupt name);
      _ ← modify (λ q, q <| q_active ::= λ a, a ∖ {[name]} |>);
      _ ← syncDirectory;
      fail (queue_error ("queue entry " +:+ name +:+ " quarantined: " +:+ reason))
    else fail e
  end.

(** [None] for an empty queue. *)
Definition Next : Q (option RawMessage) :=
  _ ← check_open;
  q ← get_queue;
  found ← next_entry (q_order q);
  match found with
  | None => mret None
  | Some (name, info) =>
    _ ← Q_lift (fail_when (f_regular info = false)
          (queue_error "queue entry is not a regular file"));
    b ← os_read name;
    match entry_message name b with
    | inl raw => mret (Some raw)
    | inr reason => quarantine name reason
    end
  end.

(** ** Settling *)

Definition Ack (raw : RawMessage) : Q unit :=
  _ ← check_open;
  let name := queueName raw in
  st ← Q_try (os_stat SysStat name);
  match st with
  | Err e => if is_not_exist e then mret tt else fail e
  | Ok info =>
    _ ← os_remove name;
    _ ← modify (λ q, q <| q_active ::= λ a, a ∖ {[name]} |>
                       <| q_used ::= λ u, wrap64 (u - f_size info) |>
                       <| q_items ::= λ i, wrap64 (i - 1) |>);
    syncDirectory
  end.

Definition Reject (raw : RawMessage) : Q unit :=
  _ ← check_open;
  let name := queueName raw in
  _ ← os_rename name (rejected name);
  _ ← modify (λ q, q <| q_active ::= λ a, a ∖ {[name]} |>);
  syncDirectory.

(** The loop of [RetryRejected] over the directory. *)
Fixpoint retry_entries (entries : list (string * file)) : Q unit :=
  match entries with
  | [] => syncDirectory
  | (name, _) :: entries =>
    if has_suffix name ".json.rejected" then
      let target := trim_suffix name ".rejected" in
      st ← Q_try (os_stat SysStat target);
      match st with
      | Ok _ => fail (queue_error "active queue already contains rejected id")
      | Err _ =>
        _ ← os_rename name target;
        _ ← enqueue target;
        retry_entries entries
      end
    else retry_entries entries
  end.
Definition RetryRejected : Q unit :=
  _ ← check_open; entries ← read_dir; retry_entries entries.

(** Whether the bytes of [name] are a message that [match] selects. *)
Definition selected (match_ : RawMessage → bool) (name : string) (data : list Z) : bool :=
  let base := trim_suffix (trim_suffix name ".rejected") ".corrupt" in
  match unmarshal data with
  | None => false
  | Some raw => negb (bool_decide (rm_TenantID raw = "" ∨ rm_MessageID raw = "" ∨ queueName raw ≠ base))
                && match_ raw
  end.

(** The loop of [DiscardMatching]; the counts are returned with an error
    too. *)
Fixpoint discard_entries (match_ : RawMessage → bool) (entries : list (string * file))
    (removed skipped : Z) : Q (Z * Z * option error) :=
  match entries with
  | [] => mret (removed, skipped, None)
  | (name, _) :: entries =>
    cancelled ← ctx_err;
    let stop e := mret (removed, skipped, Some e) in
    match cancelled with
    | Some e => stop e
    | None =>
      if negb (queueEntry name) then discard_entries match_ entries removed skipped
      else
        st ← Q_try (os_stat SysLstat name);
        match st with
        | Err e => stop e
        | Ok info =>
          if negb (f_regular info) || (f_size info >? 1048576)
          then discard_entries match_ entries removed (skipped + 1)
          else
            data ← Q_try (os_read name);
            match data with
            | Err e => stop e
            | Ok data =>
              if negb (selected match_ name data)
              then discard_entries match_ entries removed (skipped + 1)
              else
                rm ← Q_try (os_remove name);
                match rm with
                | Err e => stop e
                | Ok _ =>
                  _ ← modify (λ q, q <| q_active ::= λ a, a ∖ {[name]} |>
                                     <| q_used ::= λ u, wrap64 (u - f_size info) |>
                                     <| q_items ::= λ i, wrap64 (i - 1) |>);
                  sy ← Q_try syncDirectory;
                  match sy with
                  | Err e => mret (removed + 1, skipped, Some e)
                  | Ok _ => discard_entries match_ entries (removed + 1) skipped
                  end
                end
            end
        end
    end
  end.
Definition DiscardMatching (match_ : RawMessage → bool) : Q (Z * Z * option error) :=
  _ ← check_open;
  entries ← read_dir;
  discard_entries match_ entries 0 0.

(** ** Counts *)

Definition Depth : Q Z := q ← get_queue; mret (Z.of_nat (size (q_active q))).
Definition count_suffix (suffix : string) : Q Z :=
  entries ← Q_try read_dir;
  mret (match entries with
        | Ok entries => Z.of_nat (length (filter (λ e, has_suffix e.1 suffix = true) entries))
        | Err _ => 0
        end).
Definition Rejected : Q Z := count_suffix ".rejected".
Definition Corrupt : Q Z := count_suffix ".corrupt".
End os.
