(* ===== verification/QueueInvariant.v ===== *)
(** What a queue keeps true of its directory, and a small program logic for
    the methods that change both. *)
From S2P Require Import Prelude GoText GbCodec Queue.

(** ** Suffixes *)

Lemma bytes_of_app s1 s2 : bytes_of (s1 +:+ s2) = bytes_of s1 ++ bytes_of s2.
Proof. induction s1 as [|c s1 IH]; [done|].
  change (String c s1 +:+ s2) with (String c (s1 +:+ s2)). cbn. by f_equal. Qed.

Lemma has_suffix_app s p : has_suffix (s +:+ p) p = true.
Proof. apply bool_decide_eq_true. rewrite bytes_of_app. by exists (bytes_of s). Qed.

Lemma has_suffix_last s p1 p2 b1 b2 :
  last (bytes_of p1) = Some b1 → last (bytes_of p2) = Some b2 → b1 ≠ b2 →
  has_suffix (s +:+ p1) p2 = false.
Proof.
  intros H1 H2 Hne. apply bool_decide_eq_false. rewrite bytes_of_app. intros [k Hk].
  apply (f_equal last) in Hk. rewrite !last_app, H1, H2 in Hk. congruence.
Qed.

Lemma trim_suffix_app s p : trim_suffix (s +:+ p) p = s.
Proof.
  unfold trim_suffix. rewrite has_suffix_app, bytes_of_app, length_app.
  rewrite Nat.add_sub, take_app_length. apply string_of_bytes_of.
Qed.

Lemma trim_suffix_other s p : has_suffix s p = false → trim_suffix s p = s.
Proof. intros Hs. unfold trim_suffix. by rewrite Hs. Qed.

Lemma has_suffix_inv s p : has_suffix s p = true → s = trim_suffix s p +:+ p.
Proof.
  intros Hs. unfold trim_suffix. rewrite Hs. apply bool_decide_eq_true in Hs as [k Hk].
  rewrite Hk, length_app, Nat.add_sub, take_app_length.
  rewrite <-(string_of_bytes_of s), Hk. clear. induction k as [|b k IH]; cbn.
  - by rewrite string_of_bytes_of.
  - by rewrite IH.
Qed.

Lemma rejected_not_json name : has_suffix (rejected name) ".json" = false.
Proof. by eapply has_suffix_last. Qed.
Lemma corrupt_not_json name : has_suffix (corrupt name) ".json" = false.
Proof. by eapply has_suffix_last. Qed.
Lemma corrupt_not_rejected name : has_suffix (corrupt name) ".rejected" = false.
Proof. by eapply has_suffix_last. Qed.
Lemma rejected_not_corrupt name : has_suffix (rejected name) ".corrupt" = false.
Proof. by eapply has_suffix_last. Qed.
Lemma entry_rejected name : queueEntry (rejected name) = true.
Proof. unfold queueEntry, rejected. by rewrite (has_suffix_app name ".rejected"), orb_true_r. Qed.
Lemma entry_corrupt name : queueEntry (corrupt name) = true.
Proof. unfold queueEntry, corrupt. by rewrite (has_suffix_app name ".corrupt"), orb_true_r. Qed.
Lemma entry_json name : has_suffix name ".json" = true → queueEntry name = true.
Proof. intros Hs. unfold queueEntry. by rewrite Hs. Qed.

Lemma bytes_of_inj s1 s2 : bytes_of s1 = bytes_of s2 → s1 = s2.
Proof. intros Heq. by rewrite <-(string_of_bytes_of s1), Heq, string_of_bytes_of. Qed.
Lemma string_app_inj s p1 p2 : s +:+ p1 = s +:+ p2 → p1 = p2.
Proof.
  intros Heq%(f_equal bytes_of). rewrite !bytes_of_app in Heq. apply app_inv_head in Heq.
  by rewrite <-(string_of_bytes_of p1), Heq, string_of_bytes_of.
Qed.
Lemma string_app_inj_r s1 s2 p : s1 +:+ p = s2 +:+ p → s1 = s2.
Proof.
  intros Heq%(f_equal bytes_of). rewrite !bytes_of_app in Heq. apply app_inv_tail in Heq.
  by rewrite <-(string_of_bytes_of s1), Heq, string_of_bytes_of.
Qed.
Lemma rejected_ne name : rejected name ≠ name.
Proof. intros Heq. apply (f_equal bytes_of), (f_equal length) in Heq.
  unfold rejected in Heq. rewrite bytes_of_app, length_app in Heq. cbn in Heq. lia. Qed.
Lemma corrupt_ne name : corrupt name ≠ name.
Proof. intros Heq. apply (f_equal bytes_of), (f_equal length) in Heq.
  unfold corrupt in Heq. rewrite bytes_of_app, length_app in Heq. cbn in Heq. lia. Qed.
Lemma rejected_corrupt_ne n1 n2 : rejected n1 ≠ corrupt n2.
Proof. intros Heq. pose proof (rejected_not_corrupt n1) as Hf. rewrite Heq in Hf.
  unfold corrupt in Hf. by rewrite has_suffix_app in Hf. Qed.

(** ** Totals over the directory *)

Definition total (g : file → Z) (fs : gmap string file) : Z :=
  map_fold (λ name f acc, (if queueEntry name then g f else 0) + acc) 0 fs.
Abbreviation count_entries := (total (λ _, 1)).
Abbreviation bytes_entries := (total f_size).

Section total.
Variable g : file → Z.
Implicit Types fs : gmap string file.

Lemma total_insert fs name f :
  fs !! name = None → total g (<[name:=f]> fs) = (if queueEntry name then g f else 0) + total g fs.
Proof. intros Hn. unfold total. rewrite map_fold_insert_L; [done|intros; lia|done]. Qed.

Lemma total_delete fs name f :
  fs !! name = Some f → total g fs = (if queueEntry name then g f else 0) + total g (delete name fs).
Proof. intros Hn. unfold total. rewrite (map_fold_delete_L _ _ name f); [done|intros; lia|done]. Qed.

Lemma total_delete_entry fs name f :
  fs !! name = Some f → queueEntry name = true → total g (delete name fs) = total g fs - g f.
Proof. intros Hn He. rewrite (total_delete fs name f Hn), He. lia. Qed.

Lemma total_nonneg fs : (∀ f, 0 ≤ g f) → 0 ≤ total g fs.
Proof.
  intros Hg. induction fs as [|name f fs Hn IH] using map_ind; [done|].
  rewrite total_insert by done. specialize (Hg f). destruct (queueEntry name); lia.
Qed.

(** Renaming an entry to a free name of an entry. *)
Lemma total_rename fs from to f :
  fs !! from = Some f → fs !! to = None → queueEntry from = true → queueEntry to = true →
  total g (<[to:=f]> (delete from fs)) = total g fs.
Proof.
  intros Hf Ht Hef Het. rewrite total_insert, (total_delete_entry fs from f), Het; [lia|done..|].
  rewrite lookup_delete_ne; [done|]. intros ->. congruence.
Qed.
End total.

Lemma f_size_nonneg f : 0 ≤ f_size f.
Proof. unfold f_size. lia. Qed.

(** ** The invariant *)

(** A queue and its directory: the counters are those of the directory and
    within the capacity, the active entries are its [.json] files and are all
    in the order, and a message is active, rejected or corrupt, not several of
    them. *)
Record queue_ok (q : Queue) (fs : gmap string file) : Prop := {
  qi_items : q_items q = count_entries fs;
  qi_used : q_used q = bytes_entries fs;
  qi_max_items : q_items q ≤ q_maxItems q < two63;
  qi_max_bytes : q_used q ≤ q_maxBytes q < two63 - 1048576;
  qi_active name : name ∈ q_active q ↔ is_Some (fs !! name) ∧ has_suffix name ".json" = true;
  qi_order name : name ∈ q_active q → name ∈ q_order q;
  qi_one name : has_suffix name ".json" = true → is_Some (fs !! name) →
    fs !! rejected name = None ∧ fs !! corrupt name = None;
  qi_one_rejected name : is_Some (fs !! rejected name) → fs !! corrupt name = None }.

(** ** A program logic *)

(** [wp m R d]: running [m] on [d] ends in a result and state with [R]. *)
Definition wp {A} (m : Q A) (R : res A → disk → Prop) (d : disk) : Prop := R (m d).1 (m d).2.

Section wp.
Context `{RawCodec} (o : os).

(** What the operating system promises: a call that fails does not report a
    missing file ([os.IsNotExist]); a file is missing when it is not in the
    directory. *)
Class os_laws : Prop := {
  ol_fail n k e : os_fail o n k = Some e → is_not_exist e = false }.
Context {Hos : os_laws}.

Lemma wp_bind {A B} (m : Q A) (f : A → Q B) R d :
  wp m (λ r d', match r with Ok a => wp (f a) R d' | Err e => R (Err e) d' end) d → wp (m ≫= f) R d.
Proof. unfold wp, mbind, Q_bind. by destruct (m d) as [[a|e] d']. Qed.

Lemma wp_ret {A} (a : A) R d : R (Ok a) d → wp (mret a) R d.
Proof. done. Qed.
Lemma wp_fail {A} e (R : res A → disk → Prop) d : R (Err e) d → wp (fail e) R d.
Proof. done. Qed.
Lemma wp_lift {A} (r : res A) R d : R r d → wp (Q_lift r) R d.
Proof. done. Qed.
Lemma wp_try {A} (m : Q A) R d : wp m (λ r d', R (Ok r) d') d → wp (Q_try m) R d.
Proof. unfold wp, Q_try. by destruct (m d). Qed.
Lemma wp_get R q fs t : R (Ok q) (mk_disk q fs t) → wp get_queue R (mk_disk q fs t).
Proof. done. Qed.
Lemma wp_modify f R q fs t : R (Ok tt) (mk_disk (f q) fs t) → wp (modify f) R (mk_disk q fs t).
Proof. done. Qed.

Lemma wp_guard (P : Prop) `{Decision P} e (R : res unit → disk → Prop) d :
  (P → R (Err e) d) → (¬ P → R (Ok tt) d) → wp (Q_lift (fail_when P e)) R d.
Proof. intros H1 H2. unfold wp, Q_lift, fail_when. cbn. case_decide; auto. Qed.

(** A system call fails with an error of the system or acts on the files. *)
Lemma wp_sys {A} k (f : gmap string file → res A * gmap string file) R q fs t :
  (∀ e, os_fail o t k = Some e → R (Err e) (mk_disk q fs (S t))) →
  R (f fs).1 (mk_disk q (f fs).2 (S t)) → wp (sys o k f) R (mk_disk q fs t).
Proof.
  intros He Hf. unfold wp, sys. cbn. destruct (os_fail o t k) as [e|]; [by apply He|].
  by destruct (f fs).
Qed.

Lemma wp_now R q fs t : R (Ok (os_now o t)) (mk_disk q fs t) → wp (now o) R (mk_disk q fs t).
Proof. done. Qed.
Lemma wp_ctx R q fs t : (∀ c, R (Ok c) (mk_disk q fs t)) → wp (ctx_err o) R (mk_disk q fs t).
Proof. intros HR. apply HR. Qed.

Lemma wp_stat k name R q fs t :
  (∀ e, os_fail o t k = Some e → is_not_exist e = false → R (Err e) (mk_disk q fs (S t))) →
  R (lookup_file fs name) (mk_disk q fs (S t)) → wp (os_stat o k name) R (mk_disk q fs t).
Proof.
  intros He HR. apply wp_sys; [|done]. intros e Hf. apply He; [done|]. by eapply ol_fail.
Qed.

Lemma wp_read name R q fs t :
  (∀ e, is_not_exist e = false → R (Err e) (mk_disk q fs (S t))) →
  (∀ f, fs !! name = Some f → f_regular f = true → R (Ok (f_data f)) (mk_disk q fs (S t))) →
  (fs !! name = None → R (Err not_exist) (mk_disk q fs (S t))) →
  wp (os_read o name) R (mk_disk q fs t).
Proof.
  intros He Hs Hn. apply wp_sys; [intros e Hf; by eapply He, ol_fail|].
  cbn. unfold lookup_file. destruct (fs !! name) as [f|] eqn:Hl; [|by apply Hn]. cbn.
  destruct (f_regular f) eqn:Hr; cbn; [by apply Hs|by apply He].
Qed.

Lemma wp_remove name f R q fs t :
  fs !! name = Some f →
  (∀ e, is_not_exist e = false → R (Err e) (mk_disk q fs (S t))) →
  R (Ok tt) (mk_disk q (delete name fs) (S t)) → wp (os_remove o name) R (mk_disk q fs t).
Proof.
  intros Hl He Hs. apply wp_sys; [intros e Hf; by eapply He, ol_fail|]. cbn. by rewrite Hl.
Qed.

Lemma wp_rename from to R q fs t :
  (∀ e, R (Err e) (mk_disk q fs (S t))) →
  (∀ f, fs !! from = Some f → R (Ok tt) (mk_disk q (<[to:=f]> (delete from fs)) (S t))) →
  wp (os_rename o from to) R (mk_disk q fs t).
Proof.
  intros He Hs. apply wp_sys; [intros e Hf; by apply He|]. cbn.
  destruct (fs !! from) as [f|] eqn:Hl; [by apply Hs|by apply He].
Qed.

Lemma wp_sync R q fs t :
  (∀ e, is_not_exist e = false → R (Err e) (mk_disk q fs (S t))) → R (Ok tt) (mk_disk q fs (S t)) →
  wp (syncDirectory o) R (mk_disk q fs t).
Proof. intros He Hs. apply wp_sys; [intros e Hf; by eapply He, ol_fail|done]. Qed.

Lemma wp_read_dir R q fs t :
  (∀ e, is_not_exist e = false → R (Err e) (mk_disk q fs (S t))) →
  R (Ok (merge_sort name_le (map_to_list fs))) (mk_disk q fs (S t)) →
  wp (read_dir o) R (mk_disk q fs t).
Proof. intros He Hs. apply wp_sys; [intros e Hf; by eapply He, ol_fail|done]. Qed.

(** A write leaves the files as they are or has the new file, and returns
    only after the flush. *)
Lemma wp_atomic name b R q fs t :
  (∀ e t', R (Err e) (mk_disk q fs t')) →
  (∀ e t' z, R (Err e) (mk_disk q (<[name := mk_file b z true]> fs) t')) →
  (∀ t' z, R (Ok tt) (mk_disk q (<[name := mk_file b z true]> fs) t')) →
  wp (atomicFile o name b) R (mk_disk q fs t).
Proof.
  intros H1 H2 H3. unfold atomicFile. apply wp_bind, wp_sys; [intros; apply H1|]. cbn.
  apply wp_bind, wp_now, wp_bind, wp_sys; [intros; apply H1|]. cbn.
  apply wp_sync; [intros; apply H2|apply H3].
Qed.

Lemma wp_open R q fs t :
  R (Err ErrClosed) (mk_disk q fs t) → (q_closed q = false → R (Ok tt) (mk_disk q fs t)) →
  wp check_open R (mk_disk q fs t).
Proof.
  intros H1 H2. apply wp_bind, wp_get. apply wp_guard; [done|]. intros Hc. apply H2.
  by destruct (q_closed q).
Qed.
End wp.
