(* ===== verification/QueueProofs.v ===== *)
(** Every method keeps the invariant of the queue, whatever fails. *)
From S2P Require Import Prelude GoText GbCodec Queue QueueInvariant.

Implicit Types (q : Queue) (fs : gmap string file).

(** ** Changes of the directory and the counters *)

Definition enqueued (name : string) (q : Queue) : Queue :=
  if decide (name ∈ q_active q) then q
  else q <| q_active ::= λ a, {[name]} ∪ a |> <| q_order ::= λ l, l ++ [name] |>.

Lemma enqueued_active name q n : n ∈ q_active (enqueued name q) ↔ n = name ∨ n ∈ q_active q.
Proof. unfold enqueued. case_decide; cbn; set_solver. Qed.
Lemma enqueued_order name q n :
  (n ∈ q_active q → n ∈ q_order q) → n ∈ q_active (enqueued name q) → n ∈ q_order (enqueued name q).
Proof. unfold enqueued. case_decide; cbn; [done|]. set_solver. Qed.
Lemma enqueued_fields name q :
  (q_items (enqueued name q), q_used (enqueued name q), q_maxItems (enqueued name q),
   q_maxBytes (enqueued name q)) = (q_items q, q_used q, q_maxItems q, q_maxBytes q).
Proof. unfold enqueued. by case_decide. Qed.

Lemma wp_enqueue name R q fs t :
  R (Ok tt) (mk_disk (enqueued name q) fs t) → wp (enqueue name) R (mk_disk q fs t).
Proof. done. Qed.

Lemma ok_nonneg q fs : queue_ok q fs → 0 ≤ q_items q ∧ 0 ≤ q_used q.
Proof.
  intros []. rewrite qi_items, qi_used. split; apply total_nonneg; [done|apply f_size_nonneg].
Qed.

(** Adding an entry under a free name. *)
Definition counted (z : Z) (q : Queue) : Queue :=
  q <| q_used ::= λ u, wrap64 (u + z) |> <| q_items ::= λ i, wrap64 (i + 1) |>.

Lemma ok_written q fs name b mtime :
  queue_ok q fs → has_suffix name ".json" = true → fs !! name = None →
  fs !! rejected name = None → fs !! corrupt name = None → Z.of_nat (length b) ≤ 1048576 →
  q_items q < q_maxItems q → wrap64 (q_used q + Z.of_nat (length b)) ≤ q_maxBytes q →
  queue_ok (enqueued name (counted (Z.of_nat (length b)) q)) (<[name := mk_file b mtime true]> fs).
Proof.
  intros Hok Hs Hn Hr Hc Hb Hi Hu. pose proof (ok_nonneg q fs Hok) as [Hi0 Hu0]. destruct Hok.
  assert (Hw1 : wrap64 (q_used q + Z.of_nat (length b)) = q_used q + Z.of_nat (length b))
    by (apply wrap64_small; unfold in_int64, two63 in *; lia).
  assert (Hw2 : wrap64 (q_items q + 1) = q_items q + 1)
    by (apply wrap64_small; unfold in_int64, two63 in *; lia).
  set (q' := counted _ q). pose proof (enqueued_fields name q') as Hf. injection Hf as F1 F2 F3 F4.
  assert (Hother : ∀ n, is_Some (<[name:=mk_file b mtime true]> fs !! n) ↔ n = name ∨ is_Some (fs !! n)).
  { intros n. rewrite lookup_insert_is_Some. split; [intros [?|[_ ?]]; auto|].
    intros [->|?]; [by left|]. destruct (decide (name = n)); auto. }
  split.
  - rewrite F1, total_insert, (entry_json name Hs) by done. cbn. lia.
  - rewrite F2, total_insert, (entry_json name Hs) by done. cbn. unfold f_size at 1. cbn. lia.
  - rewrite F1, F3. cbn. lia.
  - rewrite F2, F4. cbn. lia.
  - intros n. rewrite enqueued_active, Hother. cbn. rewrite qi_active. naive_solver.
  - intros n. apply enqueued_order. apply qi_order.
  - intros n Hsn Hin. rewrite !lookup_insert_ne.
    + apply Hother in Hin as [->|Hin]; [done|by apply qi_one].
    + intros Heq. rewrite Heq in Hs. by rewrite corrupt_not_json in Hs.
    + intros Heq. rewrite Heq in Hs. by rewrite rejected_not_json in Hs.
  - intros n Hin. rewrite lookup_insert_ne by (intros Heq; rewrite Heq in Hs; by rewrite corrupt_not_json in Hs).
    apply Hother in Hin as [Heq|Hin]; [|by apply qi_one_rejected].
    rewrite <-Heq in Hs. by rewrite rejected_not_json in Hs.
Qed.

(** Removing an entry. *)
Definition uncounted (name : string) (z : Z) (q : Queue) : Queue :=
  q <| q_active ::= λ a, a ∖ {[name]} |> <| q_used ::= λ u, wrap64 (u - z) |>
    <| q_items ::= λ i, wrap64 (i - 1) |>.

Lemma lookup_delete_Some_is fs name n :
  is_Some (delete name fs !! n) ↔ n ≠ name ∧ is_Some (fs !! n).
Proof. rewrite lookup_delete_is_Some. naive_solver. Qed.

Lemma ok_removed q fs name f :
  queue_ok q fs → fs !! name = Some f → queueEntry name = true →
  queue_ok (uncounted name (f_size f) q) (delete name fs).
Proof.
  intros Hok Hl He. pose proof (ok_nonneg q fs Hok) as [Hi0 Hu0]. pose proof (f_size_nonneg f) as Hf.
  destruct Hok.
  assert (Ht1 : count_entries (delete name fs) = q_items q - 1)
    by (rewrite (total_delete_entry (λ _, 1) fs name f) by done; lia).
  assert (Ht2 : bytes_entries (delete name fs) = q_used q - f_size f)
    by (rewrite (total_delete_entry f_size fs name f) by done; lia).
  pose proof (total_nonneg (λ _, 1) (delete name fs) ltac:(done)).
  pose proof (total_nonneg f_size (delete name fs) f_size_nonneg).
  assert (Hw1 : wrap64 (q_used q - f_size f) = q_used q - f_size f)
    by (apply wrap64_small; unfold in_int64, two63 in *; lia).
  assert (Hw2 : wrap64 (q_items q - 1) = q_items q - 1)
    by (apply wrap64_small; unfold in_int64, two63 in *; lia).
  assert (Hnone : ∀ n, fs !! n = None → delete name fs !! n = None).
  { intros n Hn. rewrite lookup_delete_None. by right. }
  split; cbn; try lia.
  - intros n. rewrite elem_of_difference, qi_active, lookup_delete_Some_is, elem_of_singleton. tauto.
  - intros n [Hn _]%elem_of_difference. by apply qi_order.
  - intros n Hs [_ Hn]%lookup_delete_Some_is. destruct (qi_one n Hs Hn). auto.
  - intros n [_ Hn]%lookup_delete_Some_is. auto.
Qed.

(** Setting an active entry aside. *)
Definition inactive (name : string) (q : Queue) : Queue := q <| q_active ::= λ a, a ∖ {[name]} |>.

Lemma rename_is_Some fs from to f n :
  fs !! from = Some f → is_Some (<[to:=f]> (delete from fs) !! n) ↔ n = to ∨ n ≠ from ∧ is_Some (fs !! n).
Proof.
  intros Hf. rewrite lookup_insert_is_Some, lookup_delete_Some_is.
  destruct (decide (n = to)); naive_solver.
Qed.

Lemma ok_set_aside q fs name to f :
  queue_ok q fs → fs !! name = Some f → has_suffix name ".json" = true →
  (to = rejected name ∨ to = corrupt name) →
  queue_ok (inactive name q) (<[to:=f]> (delete name fs)).
Proof.
  intros Hok Hl Hs Hto. destruct Hok.
  destruct (qi_one name Hs ltac:(by eexists)) as [Hr Hc].
  assert (Hfree : fs !! to = None) by (by destruct Hto as [->| ->]).
  assert (Het : queueEntry to = true)
    by (destruct Hto as [->| ->]; [apply entry_rejected|apply entry_corrupt]).
  assert (Hnj : has_suffix to ".json" = false)
    by (destruct Hto as [->| ->]; [apply rejected_not_json|apply corrupt_not_json]).
  pose proof (entry_json name Hs) as Hen.
  assert (Hnone : ∀ n, n ≠ to → fs !! n = None → <[to:=f]> (delete name fs) !! n = None).
  { intros n Hne Hn. rewrite lookup_insert_ne by done. rewrite lookup_delete_None. by right. }
  split; cbn; try done.
  - by rewrite total_rename.
  - by rewrite total_rename.
  - intros n. rewrite elem_of_difference, qi_active, (rename_is_Some fs name to f n Hl), elem_of_singleton.
    split; [tauto|]. intros [[->|[? ?]] ?]; [congruence|tauto].
  - intros n [Hn _]%elem_of_difference. by apply qi_order.
  - intros n Hsn [->|[Hne Hn]]%rename_is_Some; [congruence| |done].
    destruct (qi_one n Hsn Hn) as [? ?]. split; apply Hnone; try done;
      destruct Hto as [->| ->]; intros Heq.
    + by apply string_app_inj_r in Heq.
    + by apply rejected_corrupt_ne in Heq.
    + by symmetry in Heq; apply rejected_corrupt_ne in Heq.
    + by apply string_app_inj_r in Heq.
  - intros n [Heq|[Hne Hn]]%rename_is_Some; [| |done].
    + destruct Hto as [->| ->]; [|by apply rejected_corrupt_ne in Heq].
      apply string_app_inj_r in Heq as ->. apply Hnone; [|done].
      intros Heq. by symmetry in Heq; apply rejected_corrupt_ne in Heq.
    + apply Hnone; [|by apply qi_one_rejected]. destruct Hto as [->| ->]; intros Heq.
      * by symmetry in Heq; apply rejected_corrupt_ne in Heq.
      * apply string_app_inj_r in Heq as ->. destruct Hn. congruence.
Qed.

(** Taking a rejected entry back. *)
Lemma ok_retried q fs name f :
  queue_ok q fs → has_suffix name ".json" = true → fs !! rejected name = Some f → fs !! name = None →
  queue_ok (enqueued name q) (<[name:=f]> (delete (rejected name) fs)).
Proof.
  intros Hok Hs Hl Hfree. destruct Hok. pose proof (enqueued_fields name q) as Hf.
  injection Hf as F1 F2 F3 F4. pose proof (entry_json name Hs) as Hen.
  pose proof (entry_rejected name) as Her.
  pose proof (qi_one_rejected name ltac:(by eexists)) as Hc.
  assert (Hnone : ∀ n, n ≠ name → fs !! n = None → <[name:=f]> (delete (rejected name) fs) !! n = None).
  { intros n Hne Hn. rewrite lookup_insert_ne by done. rewrite lookup_delete_None. by right. }
  assert (Hrn : ∀ n, rejected n ≠ name) by (intros n Heq; rewrite <-Heq in Hs; by rewrite rejected_not_json in Hs).
  assert (Hcn : ∀ n, corrupt n ≠ name) by (intros n Heq; rewrite <-Heq in Hs; by rewrite corrupt_not_json in Hs).
  split; rewrite ?F1, ?F2, ?F3, ?F4; try done.
  - by rewrite total_rename.
  - by rewrite total_rename.
  - intros n. rewrite enqueued_active, qi_active, (rename_is_Some fs _ name f n Hl).
    split; [intros [->|[? Hn]]|intros [[->|[? ?]] ?]]; try tauto. split; [|done]. right. split; [|done].
    intros ->. by rewrite rejected_not_json in Hn.
  - intros n. apply enqueued_order. apply qi_order.
  - intros n Hsn [->|[Hne Hn]]%rename_is_Some; [| |done].
    + split; [|by apply Hnone]. rewrite lookup_insert_ne by done. apply lookup_delete_eq.
    + destruct (qi_one n Hsn Hn). split; by apply Hnone.
  - intros n [Heq|[Hne Hn]]%rename_is_Some; [by destruct (Hrn n)| |done].
    apply Hnone; [done|by apply qi_one_rejected].
Qed.

Lemma ok_order q fs l :
  queue_ok q fs → (∀ n, n ∈ q_active q → n ∈ l) → queue_ok (q <| q_order := l |>) fs.
Proof. intros [] Hl. by split. Qed.
Lemma ok_closed q fs : queue_ok q fs → queue_ok (q <| q_closed := true |>) fs.
Proof. intros []. by split. Qed.

(** ** Methods *)

Section with_codec.
Context `{RawCodec} (o : os) {Hos : os_laws o}.

Definition keeps {A} (r : res A) (d : disk) : Prop := queue_ok (d_queue d) (d_files d).

Lemma queueName_json raw : has_suffix (queueName raw) ".json" = true.
Proof. apply has_suffix_app. Qed.

Lemma lookup_file_ok fs name f : lookup_file fs name = Ok f → fs !! name = Some f.
Proof. unfold lookup_file. destruct (fs !! name); naive_solver. Qed.
Lemma lookup_file_err fs name e :
  lookup_file fs name = Err e → fs !! name = None ∧ is_not_exist e = true.
Proof. unfold lookup_file. destruct (fs !! name); [done|]. by intros [= <-]. Qed.

Lemma not_quarantined_keeps name q fs t (R : res unit → disk → Prop) :
  (∀ e, R (Err e) (mk_disk q fs (S t))) → (fs !! name = None → R (Ok tt) (mk_disk q fs (S t))) →
  wp (not_quarantined o name) R (mk_disk q fs t).
Proof.
  intros He Hn. unfold not_quarantined. apply wp_bind, wp_try, wp_stat; [exact Hos|intros e _ ->; apply He|].
  destruct (lookup_file fs name) eqn:Hl; [apply He|].
  apply lookup_file_err in Hl as [Hl ->]. by apply Hn.
Qed.

Lemma stamp_reception_keeps target raw q fs t (R : res RawMessage → disk → Prop) :
  (∀ r t', R r (mk_disk q fs t')) → wp (stamp_reception o target raw) R (mk_disk q fs t).
Proof.
  intros HR. unfold stamp_reception. apply wp_bind, wp_try, wp_read; [exact Hos|..].
  - intros e ->. apply HR.
  - intros f _ _. destruct (unmarshal (f_data f)); apply HR.
  - intros _. change (is_not_exist not_exist) with true. apply wp_bind, wp_now, HR.
Qed.

Lemma write_entry_keeps target b q fs t :
  (∀ n, os_fail o n SysStatWritten = None) →
  queue_ok q fs → has_suffix target ".json" = true → fs !! target = None →
  fs !! rejected target = None → fs !! corrupt target = None → Z.of_nat (length b) ≤ 1048576 →
  q_items q < q_maxItems q → wrap64 (q_used q + Z.of_nat (length b)) ≤ q_maxBytes q →
  wp (write_entry o target b) keeps (mk_disk q fs t).
Proof.
  intros Hst Hok Hs Hn Hr Hc Hb Hi Hu. unfold write_entry. apply wp_bind, wp_try, wp_atomic; [exact Hos|..].
  - intros e t'. apply wp_bind, wp_try, wp_stat; [exact Hos|intros; exact Hok|].
    unfold lookup_file. rewrite Hn. exact Hok.
  - intros e t' z. apply wp_bind, wp_try, wp_stat; [exact Hos|intros ? Hf; by rewrite Hst in Hf|].
    unfold lookup_file. rewrite lookup_insert_eq.
    by apply (ok_written q fs target b z).
  - intros t' z. by apply (ok_written q fs target b z).
Qed.

Lemma store_entry_keeps target b q fs t :
  (∀ n, os_fail o n SysStatWritten = None) → queue_ok q fs → has_suffix target ".json" = true →
  wp (store_entry o target b) keeps (mk_disk q fs t).
Proof.
  intros Hst Hok Hs. unfold store_entry. apply wp_bind, wp_guard; [intros _; exact Hok|]. intros Hb.
  apply wp_bind, not_quarantined_keeps; [intros ?; exact Hok|]. intros Hr.
  apply wp_bind, not_quarantined_keeps; [intros ?; exact Hok|]. intros Hc.
  apply wp_bind, wp_try, wp_read; [exact Hos|..].
  - intros e ->. exact Hok.
  - intros f _ _. case_decide; [exact Hok|]. apply wp_sync; [exact Hos|intros; exact Hok|exact Hok].
  - intros Hn. change (is_not_exist not_exist) with true. cbn iota. apply wp_bind, wp_get.
    apply wp_bind, wp_guard; [intros _; exact Hok|]. intros Hcap.
    apply write_entry_keeps; try done; lia.
Qed.

Lemma put_keeps raw stamp q fs t :
  (∀ n, os_fail o n SysStatWritten = None) → queue_ok q fs → wp (put o raw stamp) keeps (mk_disk q fs t).
Proof.
  intros Hst Hok. unfold put. apply wp_bind, wp_guard; [intros _; exact Hok|]. intros _.
  apply wp_bind, wp_open; [exact Hok|]. intros _. apply wp_bind.
  assert (Hstore : ∀ raw' t', wp (match marshal raw' with
    | None => fail (queue_error "json: unsupported value")
    | Some b => store_entry o (queueName raw) b end) keeps (mk_disk q fs t')).
  { intros raw' t'. destruct (marshal raw'); [|exact Hok]. by apply store_entry_keeps, queueName_json. }
  destruct stamp; [|apply Hstore]. apply stamp_reception_keeps. intros [raw'|e] t'; [apply Hstore|exact Hok].
Qed.

Lemma next_entry_keeps order q fs t (R : res (option (string * file)) → disk → Prop) :
  queue_ok q fs → (∀ n, n ∈ q_active q → n ∈ order) →
  (∀ l t' e, queue_ok (q <| q_order := l |>) fs → R (Err e) (mk_disk (q <| q_order := l |>) fs t')) →
  (∀ t', queue_ok (q <| q_order := [] |>) fs → R (Ok None) (mk_disk (q <| q_order := [] |>) fs t')) →
  (∀ l t' name f, queue_ok (q <| q_order := l |>) fs → name ∈ q_active q → fs !! name = Some f →
     R (Ok (Some (name, f))) (mk_disk (q <| q_order := l |>) fs t')) →
  wp (next_entry o order) R (mk_disk q fs t).
Proof.
  intros Hok. revert t. induction order as [|name rest IH]; intros t Hin He Hn Hs; cbn [next_entry].
  { apply Hn. by apply ok_order. }
  apply wp_bind, wp_get. case_decide as Ha.
  - apply wp_bind, wp_modify, wp_bind, wp_try, wp_stat; [exact Hos|intros e _ ->; by apply He, ok_order|].
    assert (Hl : is_Some (fs !! name)) by (by apply (qi_active q fs Hok)). destruct Hl as [f Hl].
    unfold lookup_file. rewrite Hl. apply Hs; try done. by apply ok_order.
  - apply IH; try done. intros n Hn'. pose proof (Hin n Hn') as Hc. apply elem_of_cons in Hc as [->|?]; done.
Qed.

Lemma quarantine_keeps name reason q fs t :
  queue_ok q fs → name ∈ q_active q → wp (quarantine o name reason) keeps (mk_disk q fs t).
Proof.
  intros Hok Ha. unfold quarantine. apply wp_bind, wp_try, wp_stat; [exact Hos|intros e _ ->; exact Hok|].
  destruct (lookup_file fs (corrupt name)) eqn:Hl; [exact Hok|].
  apply lookup_file_err in Hl as [Hl ->]. apply (qi_active q fs Hok) in Ha as [_ Hs].
  apply wp_bind, wp_rename; [intros; exact Hok|]. intros f Hf.
  assert (Hok' : queue_ok (inactive name q) (<[corrupt name:=f]> (delete name fs)))
    by (apply ok_set_aside; auto).
  apply wp_bind, wp_modify, wp_bind, wp_sync; [exact Hos|intros; exact Hok'|exact Hok'].
Qed.

Lemma Next_keeps q fs t : queue_ok q fs → wp (Next o) keeps (mk_disk q fs t).
Proof.
  intros Hok. unfold Next. apply wp_bind, wp_open; [exact Hok|]. intros _.
  apply wp_bind, wp_get, wp_bind, next_entry_keeps; try done; [by apply (qi_order q fs)|].
  intros l t' name f Hok' Ha Hl. apply wp_bind, wp_guard; [intros _; exact Hok'|]. intros _.
  apply wp_bind, wp_read; [exact Hos|intros; exact Hok'|..|intros; exact Hok'].
  intros f' _ _. destruct (entry_message name (f_data f')); [exact Hok'|]. by apply quarantine_keeps.
Qed.

Lemma Ack_keeps raw q fs t : queue_ok q fs → wp (Ack o raw) keeps (mk_disk q fs t).
Proof.
  intros Hok. unfold Ack. apply wp_bind, wp_open; [exact Hok|]. intros _.
  apply wp_bind, wp_try, wp_stat; [exact Hos|intros e _ ->; exact Hok|].
  destruct (lookup_file fs (queueName raw)) as [f|e] eqn:Hl.
  - apply lookup_file_ok in Hl. apply wp_bind, (wp_remove o _ f); [done|intros; exact Hok|].
    pose proof (ok_removed q fs _ f Hok Hl (entry_json _ (queueName_json raw))) as Hok'.
    apply wp_bind, wp_modify, wp_sync; [exact Hos|intros; exact Hok'|exact Hok'].
  - destruct (is_not_exist e); exact Hok.
Qed.

Lemma Reject_keeps raw q fs t : queue_ok q fs → wp (Reject o raw) keeps (mk_disk q fs t).
Proof.
  intros Hok. unfold Reject. apply wp_bind, wp_open; [exact Hok|]. intros _.
  apply wp_bind, wp_rename; [intros; exact Hok|]. intros f Hf.
  pose proof (ok_set_aside q fs _ _ f Hok Hf (queueName_json raw) ltac:(by left)) as Hok'.
  apply wp_bind, wp_modify, wp_sync; [exact Hos|intros; exact Hok'|exact Hok'].
Qed.

Lemma rejected_entry name :
  has_suffix name ".json.rejected" = true →
  name = rejected (trim_suffix name ".rejected") ∧ has_suffix (trim_suffix name ".rejected") ".json" = true.
Proof.
  intros Hs%has_suffix_inv. set (base := trim_suffix name ".json.rejected") in *.
  assert (Hn : name = rejected (base +:+ ".json")).
  { rewrite Hs. unfold rejected. apply bytes_of_inj. by rewrite !bytes_of_app, <-app_assoc. }
  clearbody base. assert (Ht : trim_suffix name ".rejected" = base +:+ ".json")
    by (rewrite Hn; apply trim_suffix_app).
  rewrite Ht. split; [done|apply has_suffix_app].
Qed.

Lemma retry_entries_keeps entries q fs t :
  queue_ok q fs → wp (retry_entries o entries) keeps (mk_disk q fs t).
Proof.
  revert q fs t. induction entries as [|[name f0] entries IH]; intros q fs t Hok; cbn [retry_entries].
  { apply wp_sync; [exact Hos|intros; exact Hok|exact Hok]. }
  destruct (has_suffix name ".json.rejected") eqn:Hs; [|by apply IH].
  apply rejected_entry in Hs as [Hname Hj]. set (target := trim_suffix name ".rejected") in *.
  (* whatever [Stat] says, a rejected entry has no active one beside it *)
  assert (Hmove : ∀ t', wp (_ ← os_rename o name target; _ ← enqueue target; retry_entries o entries)
    keeps (mk_disk q fs t')).
  { intros t'. apply wp_bind, wp_rename; [intros; exact Hok|]. intros f Hf.
    apply wp_bind, wp_enqueue, IH. rewrite Hname in *. apply ok_retried; try done.
    destruct (fs !! target) eqn:Hl; [|done].
    destruct (qi_one q fs Hok target Hj ltac:(by eexists)) as [Hr _]. congruence. }
  apply wp_bind, wp_try, wp_stat; [exact Hos|intros; apply Hmove|].
  destruct (lookup_file fs target); [exact Hok|apply Hmove].
Qed.

Lemma RetryRejected_keeps q fs t : queue_ok q fs → wp (RetryRejected o) keeps (mk_disk q fs t).
Proof.
  intros Hok. unfold RetryRejected. apply wp_bind, wp_open; [exact Hok|]. intros _.
  apply wp_bind, wp_read_dir; [exact Hos|intros; exact Hok|]. by apply retry_entries_keeps.
Qed.

Lemma discard_entries_keeps match_ entries removed skipped q fs t :
  queue_ok q fs → wp (discard_entries o match_ entries removed skipped) keeps (mk_disk q fs t).
Proof.
  revert removed skipped q fs t. induction entries as [|[name f0] entries IH];
    intros removed skipped q fs t Hok; cbn [discard_entries]; [exact Hok|].
  apply wp_bind, wp_ctx. intros [e|]; [exact Hok|].
  destruct (queueEntry name) eqn:He; cbn [negb]; [|by apply IH].
  apply wp_bind, wp_try, wp_stat; [exact Hos|intros; exact Hok|].
  destruct (lookup_file fs name) as [f|] eqn:Hl; [|exact Hok]. apply lookup_file_ok in Hl.
  destruct (_ || _); [by apply IH|].
  apply wp_bind, wp_try, wp_read; [exact Hos|intros; exact Hok| |intros; exact Hok]. intros f' _ _.
  destruct (negb _); [by apply IH|].
  apply wp_bind, wp_try, (wp_remove o _ f); [done|intros; exact Hok|].
  pose proof (ok_removed q fs _ f Hok Hl He) as Hok'.
  apply wp_bind, wp_modify, wp_bind, wp_try, wp_sync; [exact Hos|intros; exact Hok'|]. by apply IH.
Qed.

Lemma DiscardMatching_keeps match_ q fs t :
  queue_ok q fs → wp (DiscardMatching o match_) keeps (mk_disk q fs t).
Proof.
  intros Hok. unfold DiscardMatching. apply wp_bind, wp_open; [exact Hok|]. intros _.
  apply wp_bind, wp_read_dir; [exact Hos|intros; exact Hok|]. by apply discard_entries_keeps.
Qed.
End with_codec.
