(* ===== verification/QueueTheorems.v ===== *)
(** The properties of the durable queue. *)
From S2P Require Import Prelude GoText GbCodec Queue QueueInvariant QueueProofs.

Implicit Types (q : Queue) (fs : gmap string file).

(** ** Reopening *)

(** The sum over listed entries. *)
Definition listed (g : file → Z) (entries : list (string * file)) : Z :=
  foldr (λ e acc, (if queueEntry e.1 then g e.2 else 0) + acc) 0 entries.

Lemma listed_perm g l1 l2 : l1 ≡ₚ l2 → listed g l1 = listed g l2.
Proof. unfold listed. induction 1; cbn in *; lia. Qed.

Lemma listed_total g fs l : l ≡ₚ map_to_list fs → listed g l = total g fs.
Proof.
  intros ->%(listed_perm g). unfold listed, total. rewrite map_fold_foldr.
  induction (map_to_list fs) as [|[n f] l' IH]; [done|]. cbn. by rewrite IH.
Qed.

Lemma listed_nonneg g l : (∀ f, 0 ≤ g f) → 0 ≤ listed g l.
Proof. intros Hg. unfold listed. induction l as [|[n f] l IH]; cbn; [lia|]. specialize (Hg f). case_match; lia. Qed.

#[local] Ltac member Hs n name :=
  rewrite ?fmap_app, ?elem_of_app, ?elem_of_cons, ?elem_of_union, ?elem_of_singleton;
  cbn [fmap list_fmap fst]; rewrite ?list_elem_of_singleton;
  destruct (decide (n = name)) as [->|]; rewrite ?Hs; intuition congruence.

(** What the loop of [OpenQueue] collects. *)
Lemma open_entries_spec entries q written q' written' :
  open_entries entries q written = Ok (q', written') →
  0 ≤ q_items q → 0 ≤ q_used q →
  q_items q + listed (λ _, 1) entries < two63 → q_used q + listed f_size entries < two63 →
  q_items q' = q_items q + listed (λ _, 1) entries ∧ q_used q' = q_used q + listed f_size entries ∧
  (∀ n, n ∈ q_active q' ↔ n ∈ q_active q ∨ n ∈ entries.*1 ∧ has_suffix n ".json" = true) ∧
  (∀ n, n ∈ written'.*1 ↔ n ∈ written.*1 ∨ n ∈ entries.*1 ∧ has_suffix n ".json" = true) ∧
  (q_maxItems q', q_maxBytes q', q_closed q') = (q_maxItems q, q_maxBytes q, q_closed q).
Proof.
  revert q written. induction entries as [|[name f] entries IH]; intros q written Hr Hi Hu Hi' Hu'; cbn in Hr.
  { injection Hr as <- <-. cbn. rewrite !Z.add_0_r. split_and!; try done; intros n; rewrite elem_of_nil; tauto. }
  cbn [listed foldr fst snd fmap list_fmap] in *. fold (listed (λ _, 1) entries) in *. fold (listed f_size entries) in *.
  pose proof (f_size_nonneg f) as Hf. pose proof (listed_nonneg (λ _, 1) entries ltac:(done)).
  pose proof (listed_nonneg f_size entries f_size_nonneg).
  destruct (queueEntry name) eqn:He; cbn [negb] in Hr.
  - apply res_bind_ok in Hr as ([] & _ & Hr).
    assert (Hw1 : wrap64 (q_used q + f_size f) = q_used q + f_size f)
      by (apply wrap64_small; unfold in_int64, two63 in *; lia).
    assert (Hw2 : wrap64 (q_items q + 1) = q_items q + 1)
      by (apply wrap64_small; unfold in_int64, two63 in *; lia).
    destruct (has_suffix name ".json") eqn:Hs; apply IH in Hr as (H1 & H2 & H3 & H4 & H5);
      cbn in *; try lia; (split; [lia|]); (split; [lia|]); (split; [|split; [|done]]); intros n;
      first [rewrite H3|rewrite H4]; member Hs n name.
  - assert (Hs : has_suffix name ".json" = false).
    { unfold queueEntry in He. by destruct (has_suffix name ".json"). }
    apply IH in Hr as (H1 & H2 & H3 & H4 & H5); try lia. split; [lia|]. split; [lia|].
    split; [|split; [|done]]; intros n; first [rewrite H3|rewrite H4]; member Hs n name.
Qed.

Section with_codec.
Context `{RawCodec} (o : os) {Hos : os_laws o}.

Lemma entry_infos_keeps entries q fs t (R : res unit → disk → Prop) :
  (∀ e t', R (Err e) (mk_disk q fs t')) → (∀ t', R (Ok tt) (mk_disk q fs t')) →
  wp (entry_infos o entries) R (mk_disk q fs t).
Proof.
  intros He Hok. revert t. induction entries as [|[name f] entries IH]; intros t; cbn [entry_infos]; [apply Hok|].
  destruct (queueEntry name); [|apply IH].
  apply wp_bind, wp_try, wp_stat; [exact Hos|intros; apply He|].
  destruct (lookup_file fs name); [apply IH|apply He].
Qed.

(** Opening a directory whose entries fit the limits. *)
Lemma OpenQueue_ok maxBytes maxItems q0 fs t (R : res unit → disk → Prop) :
  count_entries fs ≤ maxItems < two63 → bytes_entries fs ≤ maxBytes < two63 - 1048576 →
  (∀ name, has_suffix name ".json" = true → is_Some (fs !! name) →
     fs !! rejected name = None ∧ fs !! corrupt name = None) →
  (∀ name, is_Some (fs !! rejected name) → fs !! corrupt name = None) →
  (∀ e t', R (Err e) (mk_disk q0 fs t')) →
  (∀ q t', queue_ok q fs → q_closed q = false →
     (q_maxItems q, q_maxBytes q) = (maxItems, maxBytes) → R (Ok tt) (mk_disk q fs t')) →
  wp (OpenQueue o maxBytes maxItems) R (mk_disk q0 fs t).
Proof.
  intros Hi Hu Hone Honer He Hok. unfold OpenQueue. apply wp_bind, wp_guard; [intros; apply He|].
  intros Hlim. apply wp_bind, wp_read_dir; [exact Hos|intros; apply He|].
  set (entries := merge_sort name_le (map_to_list fs)).
  assert (Hperm : entries ≡ₚ map_to_list fs) by apply merge_sort_Permutation.
  apply wp_bind, entry_infos_keeps; [intros; apply He|]. intros t'.
  apply wp_bind, wp_lift. destruct (open_entries entries _ []) as [[q written]|e] eqn:Ho; [|apply He].
  apply open_entries_spec in Ho as (H1 & H2 & H3 & H4 & H5); cbn in *; try lia.
  - apply wp_modify, Hok; [|cbn; congruence|cbn; congruence].
    rewrite !(listed_total _ fs) in * by done. injection H5 as E1 E2 E3.
    assert (Hact : ∀ n, n ∈ q_active q ↔ is_Some (fs !! n) ∧ has_suffix n ".json" = true).
    { intros n. rewrite H3, Hperm. rewrite list_elem_of_fmap. split.
      - intros [Hn|[([n' f] & -> & Hf%elem_of_map_to_list) ?]]; [set_solver|]. by split; [eexists|].
      - intros [[f Hf] ?]. right. split; [|done]. exists (n, f). by rewrite elem_of_map_to_list. }
    split; cbn; rewrite ?E1, ?E2; try done; [lia|lia|].
    intros n Hn. rewrite merge_sort_Permutation. apply H4. right. apply H3 in Hn. set_solver.
  - rewrite !(listed_total _ fs) by done. unfold two63 in *. lia.
  - rewrite !(listed_total _ fs) by done. unfold two63 in *. lia.
Qed.

(** ** Histories *)

(** The calls of the service, and a restart with the same limits. *)
Inductive queue_call :=
  | CPut (raw : RawMessage) | CPutReceived (raw : RawMessage) | CNext | CAck (raw : RawMessage)
  | CReject (raw : RawMessage) | CRetryRejected | CDiscardMatching (match_ : RawMessage → bool)
  | CClose | CReopen.

Definition run_call (c : queue_call) : Q unit :=
  match c with
  | CPut raw => Put o raw
  | CPutReceived raw => PutReceived o raw
  | CNext => _ ← Next o; mret tt
  | CAck raw => Ack o raw
  | CReject raw => Reject o raw
  | CRetryRejected => RetryRejected o
  | CDiscardMatching match_ => _ ← DiscardMatching o match_; mret tt
  | CClose => Close
  | CReopen => q ← get_queue; OpenQueue o (q_maxBytes q) (q_maxItems q)
  end.

(** The states of a queue that was opened on an empty directory. *)
Inductive queue_reachable (maxBytes maxItems : Z) : disk → Prop :=
  | reach_open q t d' :
      OpenQueue o maxBytes maxItems (mk_disk q ∅ t) = (Ok tt, d') → queue_reachable maxBytes maxItems d'
  | reach_call d c r d' :
      queue_reachable maxBytes maxItems d → run_call c d = (r, d') → queue_reachable maxBytes maxItems d'.

Lemma wp_elim {A} (m : Q A) R d r d' : wp m R d → m d = (r, d') → R r d'.
Proof. unfold wp. intros HR Hm. by rewrite Hm in HR. Qed.

(** [_ ← m; mret tt] keeps what [m] keeps. *)
Lemma keeps_ignore {A} (m : Q A) d : wp m keeps d → wp (_ ← m; mret tt) keeps d.
Proof. unfold wp, mbind, Q_bind. by destruct (m d) as [[a|e] d']. Qed.

Lemma run_call_keeps c q fs t :
  (∀ n, os_fail o n SysStatWritten = None) → queue_ok q fs → wp (run_call c) keeps (mk_disk q fs t).
Proof.
  intros Hst Hok. destruct c; cbn [run_call];
    [by apply put_keeps|by apply put_keeps|by apply keeps_ignore, Next_keeps|by apply Ack_keeps
    |by apply Reject_keeps|by apply RetryRejected_keeps|by apply keeps_ignore, DiscardMatching_keeps
    |by apply wp_modify, ok_closed|].
  apply wp_bind, wp_get, OpenQueue_ok.
  - destruct Hok. lia.
  - destruct Hok. lia.
  - apply Hok.
  - apply Hok.
  - intros e t2. exact Hok.
  - intros q' t2 Hok' _ _. exact Hok'.
Qed.

(** C30: in every history of calls, failures of system calls and restarts in
    which one call does not fail - the [os.Stat] that [put] makes after a
    failed write (queue.go:177) - the accounting of the queue is that of its
    directory: the item and byte counters are exact and within the limits, the
    active entries are the [.json] files and all of them will be served, and
    no message is in two states at once.  When that call fails as well, the
    stored file is counted nowhere: [QueueWitness.unserved_after_failed_stat]. *)
Theorem queue_accounting maxBytes maxItems d :
  (∀ n, os_fail o n SysStatWritten = None) →
  0 ≤ maxItems < two63 → 0 ≤ maxBytes < two63 - 1048576 → queue_reachable maxBytes maxItems d →
  let q := d_queue d in
  q_items q = count_entries (d_files d) ∧ q_items q ≤ q_maxItems q ∧
  q_used q = bytes_entries (d_files d) ∧ q_used q ≤ q_maxBytes q ∧
  (∀ name, name ∈ q_active q ↔ is_Some (d_files d !! name) ∧ has_suffix name ".json" = true) ∧
  (∀ name, name ∈ q_active q → name ∈ q_order q) ∧
  (∀ name, name ∈ q_active q → d_files d !! rejected name = None ∧ d_files d !! corrupt name = None).
Proof.
  intros Hst Hi Hb Hr. cbn zeta. assert (Hok : queue_ok (d_queue d) (d_files d)).
  { induction Hr as [q t d' Ho|d c r d' _ IH Hc].
    - assert (Hw : wp (OpenQueue o maxBytes maxItems)
        (λ r d', r = Ok tt → queue_ok (d_queue d') (d_files d')) (mk_disk q ∅ t));
        [|by apply (wp_elim _ _ _ _ _ Hw Ho)].
      apply OpenQueue_ok; [exact Hi|exact Hb|..]; try done.
    - destruct d as [q fs t]. by apply (wp_elim _ _ _ _ _ (run_call_keeps c q fs t Hst IH) Hc). }
  destruct Hok. split_and!; try done; try lia. intros name Ha. apply qi_active in Ha as [Hn Hs].
  by apply qi_one.
Qed.
End with_codec.
