(* ===== verification/QueueFifo.v ===== *)
(** Delivery: what is pending, in which order it is served, and that nothing
    is lost on the way. *)
From S2P Require Import Prelude GoText GbCodec Queue QueueInvariant QueueProofs QueueTheorems.

Implicit Types (q : Queue) (fs : gmap string file).

(** ** The abstract queue *)

(** The active names at their first position in the order; later positions
    and settled names are what [head] skips. *)
Fixpoint pending_from (active : gset string) (order : list string) : list string :=
  match order with
  | [] => []
  | name :: order =>
    if decide (name ∈ active) then name :: pending_from (active ∖ {[name]}) order
    else pending_from active order
  end.
Definition pending (q : Queue) : list string := pending_from (q_active q) (q_order q).

Lemma pending_from_elem active order n :
  n ∈ pending_from active order ↔ n ∈ active ∧ n ∈ order.
Proof.
  revert active. induction order as [|m order IH]; intros active; cbn [pending_from].
  { rewrite !elem_of_nil. tauto. }
  case_decide as Hm; rewrite ?elem_of_cons, IH, ?elem_of_difference, ?elem_of_singleton.
  - destruct (decide (n = m)) as [->|]; tauto.
  - split; [tauto|]. intros [Hn [->|?]]; tauto.
Qed.

Lemma pending_from_ext a1 a2 order : a1 ≡ a2 → pending_from a1 order = pending_from a2 order.
Proof. intros Heq. apply leibniz_equiv in Heq. by subst. Qed.

(** A settled name is no longer pending, the others keep their order. *)
Lemma pending_settle active order n :
  pending_from (active ∖ {[n]}) order = filter (λ m, m ≠ n) (pending_from active order).
Proof.
  revert active. induction order as [|m order IH]; intros active; cbn [pending_from]; [done|].
  destruct (decide (m ∈ active)) as [Hm|Hm].
  - destruct (decide (m = n)) as [->|Hne].
    + rewrite decide_False by set_solver. rewrite filter_cons_False by tauto.
      rewrite <-IH. apply pending_from_ext. set_solver.
    + rewrite decide_True by set_solver. rewrite filter_cons_True by done. f_equal.
      rewrite <-IH. apply pending_from_ext. set_solver.
  - rewrite decide_False by set_solver. apply IH.
Qed.

(** A name that is new to the order comes last. *)
Lemma pending_enqueue active order n :
  n ∉ order → n ∉ active →
  pending_from ({[n]} ∪ active) (order ++ [n]) = pending_from active order ++ [n].
Proof.
  intros Ho. revert active. induction order as [|m order IH]; intros active Ha; cbn [pending_from app].
  { by rewrite decide_True by set_solver. }
  apply not_elem_of_cons in Ho as [Hne Ho]. destruct (decide (m ∈ active)) as [Hm|Hm].
  - rewrite decide_True by set_solver. cbn. f_equal. rewrite <-IH by set_solver.
    apply pending_from_ext. set_solver.
  - rewrite decide_False by set_solver. by apply IH.
Qed.

Section with_codec.
Context `{RawCodec} (o : os) {Hos : os_laws o}.

(** The head of the order that [Next] looks at is the oldest pending entry,
    and skipping settled names changes nothing. *)
Lemma next_entry_pending q fs t (R : res (option (string * file)) → disk → Prop) :
  queue_ok q fs →
  (∀ t', pending q = [] → R (Ok None) (mk_disk (q <| q_order := [] |>) fs t')) →
  (∀ l t' t2 e, os_fail o t2 SysLstat = Some e → pending (q <| q_order := l |>) = pending q → R (Err e) (mk_disk (q <| q_order := l |>) fs t')) →
  (∀ l t' name rest f, pending q = name :: rest → pending (q <| q_order := l |>) = name :: rest →
     queue_ok (q <| q_order := l |>) fs → fs !! name = Some f → name ∈ q_active q →
     R (Ok (Some (name, f))) (mk_disk (q <| q_order := l |>) fs t')) →
  wp (next_entry o (q_order q)) R (mk_disk q fs t).
Proof.
  intros Hok Hn He Hs.
  assert (Hgen : ∀ order t, pending_from (q_active q) order = pending q →
    (∀ n, n ∈ q_active q → n ∈ order) → wp (next_entry o order) R (mk_disk q fs t)).
  { clear t. induction order as [|name rest IH]; intros t Hp Hin; cbn [next_entry].
    { apply wp_bind, wp_modify, wp_ret, Hn. by rewrite <-Hp. }
    apply wp_bind, wp_get. cbn [pending_from] in Hp. case_decide as Ha.
    - assert (Hp' : pending (q <| q_order := name :: rest |>) = pending q)
        by (unfold pending at 1; cbn [q_order q_active set pending_from]; by rewrite decide_True).
      apply wp_bind, wp_modify, wp_bind, wp_try, wp_stat; [exact Hos|intros e Hf ->; by eapply He|].
      assert (Hl : is_Some (fs !! name)) by (by apply (qi_active q fs Hok)). destruct Hl as [f Hl].
      unfold lookup_file. rewrite Hl. apply (Hs (name :: rest) _ name _ f (eq_sym Hp)); try done.
      + by rewrite Hp', <-Hp.
      + by apply ok_order.
    - apply IH; [done|]. intros n Hn'. pose proof (Hin n Hn') as Hc. by apply elem_of_cons in Hc as [->|?]. }
  apply Hgen; [done|apply (qi_order q fs Hok)].
Qed.

(** What [Next] may do to a queue with the files [fs]. *)
Definition served (q : Queue) (fs : gmap string file) (r : res (option RawMessage)) (d' : disk)
    : Prop :=
  match r with
  | Ok (Some raw) => ∃ rest f, pending q = queueName raw :: rest ∧ pending (d_queue d') = pending q ∧
      fs !! queueName raw = Some f ∧ unmarshal (f_data f) = Some raw ∧ d_files d' = fs
  | Ok None => pending q = [] ∧ d_files d' = fs
  | Err _ => d_files d' = fs ∧ pending (d_queue d') = pending q ∨
      ∃ name rest f, pending q = name :: rest ∧ fs !! name = Some f ∧
        d_files d' = <[corrupt name := f]> (delete name fs) ∧ pending (d_queue d') = rest
  end.

Lemma pending_head_settled q l name rest :
  pending (q <| q_order := l |>) = name :: rest → pending (inactive name (q <| q_order := l |>)) = rest.
Proof.
  unfold pending. cbn [q_order q_active set inactive]. intros Hp. rewrite pending_settle, Hp.
  assert (Hnd : ∀ active order, NoDup (pending_from active order)).
  { intros active order. revert active. induction order as [|m order IH]; intros active; cbn; [constructor|].
    case_decide; [|done]. constructor; [|done]. rewrite pending_from_elem. set_solver. }
  pose proof (Hnd (q_active q) l) as Hn. rewrite Hp in Hn. apply NoDup_cons in Hn as [Hni _].
  rewrite filter_cons_False by tauto. apply filter_all, Forall_forall. intros x Hx ->. done.
Qed.

Lemma entry_message_inl name b raw :
  entry_message name b = inl raw → unmarshal b = Some raw ∧ queueName raw = name.
Proof.
  unfold entry_message. case_decide; [done|]. destruct (unmarshal b) as [raw'|]; [|done].
  case_decide as Hbad; [done|]. intros [= ->]. split; [done|]. apply dec_stable. tauto.
Qed.


(** ** Receiving *)

Lemma pending_elem q fs n : queue_ok q fs → n ∈ pending q ↔ n ∈ q_active q.
Proof.
  intros Hok. unfold pending. rewrite pending_from_elem. split; [tauto|].
  intros Hn. split; [done|]. by apply (qi_order q fs).
Qed.

(** What a reception of the bytes [b] under [name] may do. *)
Definition received (name : string) (b : list Z) (q : Queue) (fs : gmap string file) (r : res unit)
    (d' : disk) : Prop :=
  let stored mtime := <[name := mk_file b mtime true]> fs in
  match r with
  | Ok _ => Z.of_nat (length b) ≤ 1048576 ∧
      ((∃ f, fs !! name = Some f ∧ f_regular f = true ∧ f_data f = b) ∧ d' = mk_disk q fs (d_tick d') ∨
       fs !! name = None ∧ ∃ mtime, d_files d' = stored mtime ∧ name ∈ pending (d_queue d') ∧
         filter (λ m, m ≠ name) (pending (d_queue d')) = pending q ∧
         (name ∉ q_order q → pending (d_queue d') = pending q ++ [name]) ∧
         q_closed (d_queue d') = q_closed q)
  | Err _ => d_files d' = fs ∧ pending (d_queue d') = pending q ∨
      fs !! name = None ∧ ∃ mtime, d_files d' = stored mtime ∧
        (name ∈ pending (d_queue d') ∧ filter (λ m, m ≠ name) (pending (d_queue d')) = pending q ∨
         (∃ n, is_Some (os_fail o n SysStatWritten)) ∧ d_queue d' = q)
  end.

Lemma pending_from_app_other active order n :
  n ∉ active → pending_from active (order ++ [n]) = pending_from active order.
Proof.
  revert active. induction order as [|m order IH]; intros active Ha; cbn [pending_from app].
  { by rewrite decide_False. }
  case_decide; [|by apply IH]. f_equal. apply IH. set_solver.
Qed.

Lemma pending_enqueued name q fs fs' z :
  queue_ok q fs → fs !! name = None →
  queue_ok (enqueued name (counted z q)) fs' →
  name ∈ pending (enqueued name (counted z q)) ∧
  filter (λ m, m ≠ name) (pending (enqueued name (counted z q))) = pending q ∧
  (name ∉ q_order q → pending (enqueued name (counted z q)) = pending q ++ [name]).
Proof.
  intros Hok Hn Hok'. assert (Hna : name ∉ q_active q).
  { rewrite (qi_active q fs Hok), Hn. by intros [[] _]. }
  split; [rewrite (pending_elem _ fs') by done; apply enqueued_active; by left|].
  unfold pending, enqueued. rewrite decide_False by done. cbn [q_active q_order set counted].
  split; [|intros Ho; by apply pending_enqueue].
  rewrite <-pending_settle, <-(pending_from_app_other (q_active q) (q_order q) name Hna).
  apply pending_from_ext. set_solver.
Qed.

Lemma store_entry_received name b q fs t :
  queue_ok q fs → has_suffix name ".json" = true →
  wp (store_entry o name b) (received name b q fs) (mk_disk q fs t).
Proof.
  intros Hok Hs. assert (Hsame : ∀ e t', received name b q fs (Err e) (mk_disk q fs t')) by (intros; by left).
  unfold store_entry. apply wp_bind, wp_guard; [intros _; apply Hsame|]. intros Hb.
  apply wp_bind, not_quarantined_keeps; [exact Hos|intros; apply Hsame|]. intros Hr.
  apply wp_bind, not_quarantined_keeps; [exact Hos|intros; apply Hsame|]. intros Hc.
  apply wp_bind, wp_try, wp_read; [exact Hos|..].
  - intros e ->. apply Hsame.
  - intros f Hl Hreg. case_decide as Hd; [apply Hsame|].
    apply wp_sync; [exact Hos|intros; apply Hsame|]. split; [lia|]. left. split; [by exists f|done].
  - intros Hn. change (is_not_exist not_exist) with true. cbn iota. apply wp_bind, wp_get.
    apply wp_bind, wp_guard; [intros _; apply Hsame|]. intros Hcap.
    assert (Hnew : ∀ z, queue_ok (enqueued name (counted (Z.of_nat (length b)) q))
      (<[name := mk_file b z true]> fs)) by (intros z; apply ok_written; try done; lia).
    unfold write_entry. apply wp_bind, wp_try, wp_atomic; [exact Hos|intros e t'|intros e t' z|intros t' z].
    + apply wp_bind, wp_try, wp_stat; [exact Hos|intros; apply Hsame|].
      unfold lookup_file. rewrite Hn. apply Hsame.
    + apply wp_bind, wp_try, wp_stat; [exact Hos|intros e' He' _|].
      { right. split; [done|]. exists z. split; [done|]. right. split; [by eexists _, _|done]. }
      unfold lookup_file. rewrite lookup_insert_eq. right. split; [done|]. exists z. split; [done|].
      left. by destruct (pending_enqueued name q fs _ _ Hok Hn (Hnew z)) as (? & ? & _).
    + split; [lia|]. right. split; [done|]. exists z. split; [done|].
      destruct (pending_enqueued name q fs _ _ Hok Hn (Hnew z)) as (? & ? & ?). split_and!; try done.
      change (q_closed (enqueued name (counted (Z.of_nat (length b)) q)) = q_closed q).
      unfold enqueued. by case_decide.
Qed.

(** C32: in a state with the accounting of C30, whatever call fails, a message
    is acknowledged to its sender only when it is durable: when [Put] succeeds
    the file of the message holds exactly its bytes; it was there before and
    nothing changed, or it is new, no other file changed, it is pending and the
    others are pending in the order they were.  It comes last unless its name
    is still in the order from before it was settled: then it takes its old
    place ([QueueWitness.requeued_overtakes]).  When [Put] fails nothing
    changed, except that a write whose flush failed may have stored the
    message: as pending, or, when the [os.Stat] after it failed too, without
    counting it or making it pending ([QueueWitness.unserved_after_failed_stat]). *)
Theorem Put_durable q fs t raw r d' :
  queue_ok q fs → Put o raw (mk_disk q fs t) = (r, d') →
  match marshal raw with
  | Some b => received (queueName raw) b q fs r d'
  | None => (∃ e, r = Err e) ∧ d_files d' = fs ∧ d_queue d' = q
  end.
Proof.
  intros Hok. apply (wp_elim (Put o raw) (λ r d', match marshal raw with
    | Some b => received (queueName raw) b q fs r d'
    | None => (∃ e, r = Err e) ∧ d_files d' = fs ∧ d_queue d' = q end)).
  assert (Hsame : ∀ e t', match marshal raw with
    | Some b => received (queueName raw) b q fs (Err e) (mk_disk q fs t')
    | None => (∃ e', Err e = Err e' :> res unit) ∧ d_files (mk_disk q fs t') = fs ∧ d_queue (mk_disk q fs t') = q
    end) by (intros; destruct (marshal raw); [by left|by split; [eexists|]]).
  unfold Put, put. apply wp_bind, wp_guard; [intros _; apply Hsame|]. intros _.
  apply wp_bind, wp_open; [apply Hsame|]. intros _. apply wp_bind, wp_ret.
  destruct (marshal raw) as [b|]; [|by split; [eexists|]].
  apply store_entry_received; [done|apply queueName_json].
Qed.
End with_codec.

(** The queue on a disk that works: retransmissions are recognised and the
    backlog drains completely and in order. *)

Lemma pending_nil_order q : pending (q <| q_order := [] |>) = [].
Proof. done. Qed.

Section with_codec.
Context `{RawCodec} (o : os).

(** No call fails. *)
Class os_calm : Prop := { oc_fail n k : os_fail o n k = None }.
Context {Hcalm : os_calm}.

#[export] Instance calm_laws : os_laws o.
Proof. split. intros n k e He. by rewrite oc_fail in He. Qed.

Lemma wp_sys_calm {A} k (f : gmap string file → res A * gmap string file) R q fs t :
  R (f fs).1 (mk_disk q (f fs).2 (S t)) → wp (sys o k f) R (mk_disk q fs t).
Proof. intros HR. apply wp_sys; [|done]. intros e He. by rewrite oc_fail in He. Qed.

Lemma wp_read_calm name f R q fs t :
  fs !! name = Some f → f_regular f = true → R (Ok (f_data f)) (mk_disk q fs (S t)) →
  wp (os_read o name) R (mk_disk q fs t).
Proof. intros Hl Hr HR. apply wp_sys_calm. cbn. unfold lookup_file. rewrite Hl. cbn. by rewrite Hr. Qed.

Lemma wp_remove_calm name f R q fs t :
  fs !! name = Some f → R (Ok tt) (mk_disk q (delete name fs) (S t)) →
  wp (os_remove o name) R (mk_disk q fs t).
Proof. intros Hl HR. apply wp_sys_calm. cbn. by rewrite Hl. Qed.

(** ** Draining *)

(** A consumer that settles every message it gets. *)
Fixpoint drain (fuel : nat) : Q (list RawMessage) :=
  match fuel with
  | O => mret []
  | S fuel =>
    m ← Next o;
    match m with
    | None => mret []
    | Some raw => _ ← Ack o raw; rest ← drain fuel; mret (raw :: rest)
    end
  end.

(** An entry that decodes to the message it is named after. *)
Definition deliverable (fs : gmap string file) (name : string) : Prop :=
  ∃ f raw, fs !! name = Some f ∧ f_regular f = true ∧ entry_message name (f_data f) = inl raw.

Lemma Next_calm q fs t name rest (R : res (option RawMessage) → disk → Prop) :
  queue_ok q fs → q_closed q = false → pending q = name :: rest → deliverable fs name →
  (∀ l t' raw, queueName raw = name → queue_ok (q <| q_order := l |>) fs →
     pending (q <| q_order := l |>) = name :: rest →
     R (Ok (Some raw)) (mk_disk (q <| q_order := l |>) fs t')) →
  wp (Next o) R (mk_disk q fs t).
Proof.
  intros Hok Hopen Hp (f & raw & Hl & Hreg & He) HR. unfold Next.
  unfold check_open. apply wp_bind, wp_bind, wp_get, wp_guard; [by rewrite Hopen|]. intros _.
  apply wp_bind, wp_get, wp_bind, next_entry_pending;
    [apply _|done|by rewrite Hp|intros ? ? ? ? Hf; by rewrite oc_fail in Hf|].
  intros l t' name' rest' f' Hp1 Hp2 Hok' Hl' _. rewrite Hp in Hp1. injection Hp1 as <- <-.
  assert (f' = f) as -> by congruence. apply wp_bind, wp_guard; [by rewrite Hreg|]. intros _.
  apply wp_bind, (wp_read_calm _ f); [done..|]. rewrite He. apply entry_message_inl in He as [_ <-].
  by apply HR.
Qed.

Lemma Ack_calm q fs t raw f (R : res unit → disk → Prop) :
  q_closed q = false → fs !! queueName raw = Some f →
  (∀ t', R (Ok tt) (mk_disk (uncounted (queueName raw) (f_size f) q) (delete (queueName raw) fs) t')) →
  wp (Ack o raw) R (mk_disk q fs t).
Proof.
  intros Hopen Hl HR. unfold Ack, check_open.
  apply wp_bind, wp_bind, wp_get, wp_guard; [by rewrite Hopen|]. intros _.
  apply wp_bind, wp_try, wp_stat; [apply _|intros e He; by rewrite oc_fail in He|].
  unfold lookup_file. rewrite Hl.
  apply wp_bind, (wp_remove_calm _ f); [done|]. apply wp_bind, wp_modify, wp_sys_calm, HR.
Qed.

Lemma drain_pending fuel q fs t :
  queue_ok q fs → q_closed q = false → (length (pending q) ≤ fuel)%nat →
  (∀ name, name ∈ pending q → deliverable fs name) →
  wp (drain fuel) (λ r d', ∃ raws, r = Ok raws ∧ queueName <$> raws = pending q ∧
    pending (d_queue d') = [] ∧ queue_ok (d_queue d') (d_files d') ∧
    ∀ name, d_files d' !! name = if decide (name ∈ pending q) then None else fs !! name) (mk_disk q fs t).
Proof.
  revert q fs t. induction fuel as [|fuel IH]; intros q fs t Hok Hopen Hlen Hdel; cbn [drain].
  { destruct (pending q) as [|name rest] eqn:Hp; [|cbn in Hlen; lia].
    apply wp_ret. exists []. by split_and!. }
  destruct (pending q) as [|name rest] eqn:Hp.
  { apply wp_bind. unfold Next, check_open. apply wp_bind, wp_bind, wp_get, wp_guard; [by rewrite Hopen|].
    intros _. apply wp_bind, wp_get, wp_bind, next_entry_pending; [apply _|done| |intros ? ? ? ? Hf; by rewrite oc_fail in Hf|by rewrite Hp].
    intros t' _. exists []. split_and!; [done|done|by apply pending_nil_order| |done].
    apply ok_order; [done|]. intros n Hn%(pending_elem q fs n Hok). by rewrite Hp in Hn. }
  apply wp_bind, (Next_calm q fs t name rest); [done..|apply Hdel; by left|].
  intros l t' raw <- Hok' Hp'. set (q' := q <| q_order := l |>) in *.
  assert (Ha : is_Some (fs !! queueName raw)).
  { apply (qi_active q' fs Hok'), (pending_elem q' fs); [done|]. rewrite Hp'. by left. }
  destruct Ha as [f Hl]. apply wp_bind, (Ack_calm _ _ _ _ f); [done..|]. intros t2.
  pose proof (ok_removed q' fs _ f Hok' Hl (entry_json _ (queueName_json raw))) as Hok2.
  assert (Hp2 : pending (uncounted (queueName raw) (f_size f) q') = rest)
    by apply (pending_head_settled o q l (queueName raw) rest Hp').
  assert (Hni : queueName raw ∉ rest).
  { rewrite <-Hp2. rewrite (pending_elem _ _ _ Hok2). cbn. set_solver. }
  apply wp_bind. unfold wp. pose proof (IH (uncounted (queueName raw) (f_size f) q') (delete (queueName raw) fs) t2)
    as Hd. unfold wp in Hd. rewrite Hp2 in Hd. destruct Hd as (raws & Hr & Hn & He & Hokd & Hfiles); try done.
  { cbn in Hlen. lia. }
  { intros n Hn. destruct (Hdel n) as (f' & raw' & Hl' & ? & ?); [by right|].
    exists f', raw'. rewrite lookup_delete_ne by (intros <-; done). done. }
  rewrite Hr. cbn. exists (raw :: raws). split_and!; try done; [cbn; by rewrite Hn|].
  intros n. rewrite Hfiles. destruct (decide (n = queueName raw)) as [->|Hne].
  - rewrite decide_False, decide_True by (done || by left). apply lookup_delete_eq.
  - rewrite lookup_delete_ne by done. destruct (decide (n ∈ rest)); 
      [rewrite decide_True by (by right); done|rewrite decide_False; [done|]].
    rewrite elem_of_cons. tauto.
Qed.

(** C33: the backlog drains completely and first in, first out: when every
    pending entry is readable and the disk works, a consumer that settles what
    it gets receives exactly the pending messages in their order, in as many
    rounds as there are messages; afterwards nothing is pending and the files
    of the other entries are as before. *)
Theorem drain_complete q fs t :
  queue_ok q fs → q_closed q = false → (∀ name, name ∈ pending q → deliverable fs name) →
  ∃ raws d', drain (length (pending q)) (mk_disk q fs t) = (Ok raws, d') ∧
    queueName <$> raws = pending q ∧ pending (d_queue d') = [] ∧
    ∀ name, d_files d' !! name = if decide (name ∈ pending q) then None else fs !! name.
Proof.
  intros Hok Hopen Hdel. pose proof (drain_pending (length (pending q)) q fs t Hok Hopen ltac:(done) Hdel)
    as (raws & Hr & Hn & Hp & _ & Hf).
  exists raws, (drain (length (pending q)) (mk_disk q fs t)).2. split_and!; try done.
  rewrite <-Hr. apply surjective_pairing.
Qed.

(** ** Retransmission *)

(** What a successful [PutReceived] leaves. *)
Lemma PutReceived_stored q fs t raw d1 :
  queue_ok q fs → PutReceived o raw (mk_disk q fs t) = (Ok tt, d1) →
  rm_TenantID raw ≠ "" ∧ rm_MessageID raw ≠ "" ∧ q_closed (d_queue d1) = false ∧
  ∃ z f, marshal (raw <| rm_ReceivedAt := z |>) = Some (f_data f) ∧
    d_files d1 !! queueName raw = Some f ∧ f_regular f = true ∧ Z.of_nat (length (f_data f)) ≤ 1048576.
Proof.
  intros Hok Hr.
  set (R := λ (r : res unit) (d1 : disk), r = Ok tt →
    rm_TenantID raw ≠ "" ∧ rm_MessageID raw ≠ "" ∧ q_closed (d_queue d1) = false ∧
    ∃ z f, marshal (raw <| rm_ReceivedAt := z |>) = Some (f_data f) ∧
      d_files d1 !! queueName raw = Some f ∧ f_regular f = true ∧ Z.of_nat (length (f_data f)) ≤ 1048576).
  enough (Hw : wp (PutReceived o raw) R (mk_disk q fs t)) by by apply (wp_elim _ _ _ _ _ Hw Hr).
  unfold PutReceived, put. apply wp_bind, wp_guard; [done|]. intros Hid.
  apply wp_bind, wp_open; [done|]. intros Hopen. apply wp_bind.
  assert (Hstore : ∀ z t', wp (match marshal (raw <| rm_ReceivedAt := z |>) with
    | None => fail (queue_error "json: unsupported value")
    | Some b => store_entry o (queueName raw) b end) R (mk_disk q fs t')).
  { intros z t'. destruct (marshal _) as [b|] eqn:Hm; [|done].
    pose proof (store_entry_received o (queueName raw) b q fs t' Hok (queueName_json raw)) as Hs.
    unfold wp in *. set (rd := store_entry o (queueName raw) b _) in *. intros Hrd. rewrite Hrd in Hs.
    split; [tauto|]. split; [tauto|]. destruct Hs as [Hb [((f & Hl & Hreg & <-) & Hd)|(_ & mt & Hf & _ & _ & _ & Hc)]].
    - rewrite Hd. cbn. split; [done|]. by exists z, f.
    - rewrite Hc, Hf. split; [done|]. exists z, (mk_file b mt true). by rewrite lookup_insert_eq. }
  unfold stamp_reception. apply wp_bind, wp_try, wp_read; [apply _|..].
  - intros e ->. done.
  - intros f _ _. destruct (unmarshal (f_data f)) as [saved|]; [|done]. apply Hstore.
  - intros _. change (is_not_exist not_exist) with true. apply wp_bind, wp_now, Hstore.
Qed.

(** A retransmission is recognised whenever it comes: after [PutReceived]
    succeeded, receiving the same message again succeeds and changes nothing,
    as long as JSON reads the stored message back; in particular the time of
    the first reception is kept. *)
Theorem retransmission q fs t raw d1 t' :
  queue_ok q fs → (∀ z b, marshal (raw <| rm_ReceivedAt := z |>) = Some b →
    unmarshal b = Some (raw <| rm_ReceivedAt := z |>)) →
  PutReceived o raw (mk_disk q fs t) = (Ok tt, d1) →
  ∃ t'', PutReceived o raw (mk_disk (d_queue d1) (d_files d1) t') =
    (Ok tt, mk_disk (d_queue d1) (d_files d1) t'').
Proof.
  intros Hok Hjson Hr.
  destruct (PutReceived_stored q fs t raw d1 Hok Hr) as (Ht & Hm & Hopen & z & f & Hb & Hl & Hreg & Hlen).
  assert (Hok1 : queue_ok (d_queue d1) (d_files d1))
    by apply (wp_elim _ _ _ _ _ (put_keeps o raw true q fs t (λ n, oc_fail n SysStatWritten) Hok) Hr).
  destruct d1 as [q1 fs1 t1]. cbn [d_queue d_files] in *.
  set (R := λ (r : res unit) d', ∃ t'', (r, d') = (Ok tt, mk_disk q1 fs1 t'')).
  enough (Hw : wp (PutReceived o raw) R (mk_disk q1 fs1 t')).
  { unfold wp, R in Hw. destruct Hw as [t'' Hw]. exists t''. rewrite <-Hw. apply surjective_pairing. }
  destruct (qi_one q1 fs1 Hok1 _ (queueName_json raw) ltac:(by eexists)) as [Hrej Hcor].
  assert (Hfree : ∀ name t (R : res unit → disk → Prop), fs1 !! name = None →
    R (Ok tt) (mk_disk q1 fs1 (S t)) → wp (not_quarantined o name) R (mk_disk q1 fs1 t)).
  { intros name t2 R' Hn HR. unfold not_quarantined. apply wp_bind, wp_try, wp_stat; [apply _|intros e He; by rewrite oc_fail in He|].
    unfold lookup_file. by rewrite Hn. }
  unfold PutReceived, put, check_open. apply wp_bind, wp_guard; [by intros [?|?]|]. intros _.
  apply wp_bind, wp_bind, wp_get, wp_guard; [by rewrite Hopen|]. intros _.
  apply wp_bind. unfold stamp_reception. apply wp_bind, wp_try, (wp_read_calm _ f); [done..|].
  rewrite (Hjson z _ Hb). apply wp_ret. cbn [rm_ReceivedAt set]. rewrite Hb.
  unfold store_entry. apply wp_bind, wp_guard; [lia|]. intros _.
  apply wp_bind, Hfree; [done|]. apply wp_bind, Hfree; [done|].
  apply wp_bind, wp_try, (wp_read_calm _ f); [done..|]. rewrite decide_False by tauto.
  apply wp_sys_calm. by eexists.
Qed.
End with_codec.
