(* ===== verification/QueueWitness.v ===== *)
(** The theorems about the durable queue on a concrete codec and disk. *)
From S2P Require Import Prelude GoText GbCodec Queue QueueInvariant QueueProofs QueueTheorems.
From S2P Require Import QueueFifo.

(** ** A codec and a disk *)

(** The reception time, the tenant and the identity, separated by a zero. *)
Definition tiny_marshal (raw : RawMessage) : option (list Z) :=
  Some (rm_ReceivedAt raw :: bytes_of (rm_TenantID raw) ++ [0] ++ bytes_of (rm_MessageID raw)).
Fixpoint split_zero (acc l : list Z) : option (list Z * list Z) :=
  match l with
  | [] => None
  | b :: l => if decide (b = 0) then Some (acc, l) else split_zero (acc ++ [b]) l
  end.
Definition tiny_unmarshal (l : list Z) : option RawMessage :=
  match l with
  | [] => None
  | z :: l =>
    '(tenant, id) ← split_zero [] l;
    Some (zero_RawMessage <| rm_TenantID := string_of_bytes tenant |>
            <| rm_MessageID := string_of_bytes id |> <| rm_ReceivedAt := z |>)
  end.
#[local] Instance tiny_codec : RawCodec :=
  {| marshal := tiny_marshal; unmarshal := tiny_unmarshal; sha256_hex := λ s, s |}.

Definition good_os : os := mk_os (λ _ _, None) (λ n, Z.of_nat n) (λ _, None).
#[local] Instance good_calm : os_calm good_os.
Proof. by split. Qed.
#[local] Instance good_laws : os_laws good_os := calm_laws good_os.

Definition message (id : string) : RawMessage :=
  zero_RawMessage <| rm_TenantID := "t" |> <| rm_MessageID := id |>.

Definition empty_queue : Queue := mk_Queue 0 0 0 0 false [] ∅.
Definition opened : disk := (OpenQueue good_os 1000 10 (mk_disk empty_queue ∅ 0)).2.
Fixpoint calls (cs : list queue_call) (d : disk) : disk :=
  match cs with [] => d | c :: cs => calls cs (run_call good_os c d).2 end.
Definition full : disk :=
  calls [CPut (message "a"); CPut (message "b"); CPut (message "c"); CReject (message "b")] opened.

Lemma calls_reachable cs d :
  queue_reachable good_os 1000 10 d → queue_reachable good_os 1000 10 (calls cs d).
Proof.
  revert d. induction cs as [|c cs IH]; intros d Hd; cbn [calls]; [done|]. apply IH.
  eapply reach_call; [exact Hd|]. apply surjective_pairing.
Qed.
Lemma opened_reachable : queue_reachable good_os 1000 10 opened.
Proof. by apply (reach_open good_os 1000 10 empty_queue 0). Qed.
Lemma full_reachable : queue_reachable good_os 1000 10 full.
Proof. apply calls_reachable, opened_reachable. Qed.

Lemma queue_accounting_witness :
  q_items (d_queue full) = 3 ∧ size (q_active (d_queue full)) = 2%nat ∧
  q_items (d_queue full) = count_entries (d_files full).
Proof.
  split; [vm_compute; reflexivity|]. split; [vm_compute; reflexivity|].
  refine (proj1 (queue_accounting good_os 1000 10 full (λ _, eq_refl) _ _ full_reachable));
    vm_compute; split; discriminate || reflexivity.
Defined.

(** The invariant of a concrete state, from its history. *)
Lemma full_ok : queue_ok (d_queue full) (d_files full).
Proof.
  assert (Hkeep : ∀ cs d, queue_ok (d_queue d) (d_files d) → queue_ok (d_queue (calls cs d)) (d_files (calls cs d))).
  { induction cs as [|c cs IH]; intros d Hd; cbn [calls]; [done|]. apply IH.
    destruct d as [q fs t]. exact (run_call_keeps good_os c q fs t (λ _, eq_refl) Hd). }
  apply Hkeep. pose proof (OpenQueue_ok good_os 1000 10 empty_queue ∅ 0
    (λ r d', r = Ok tt → queue_ok (d_queue d') (d_files d'))) as Hw.
  apply Hw; try done.
Qed.

Definition full_queue : Queue := d_queue full.
Definition full_files : gmap string file := d_files full.
Definition next_run : res (option RawMessage) * disk := Next good_os (mk_disk full_queue full_files 100).

Definition delivered (r : res (option RawMessage)) : string :=
  match r with Ok (Some raw) => rm_MessageID raw | _ => "" end.

Definition put_run : res unit * disk := Put good_os (message "d") (mk_disk full_queue full_files 100).
Lemma Put_durable_witness :
  put_run.1 = Ok tt ∧ length (pending (d_queue put_run.2)) = 3%nat ∧
  received good_os (queueName (message "d")) (0 :: bytes_of "t" ++ [0] ++ bytes_of "d") full_queue full_files
    put_run.1 put_run.2.
Proof.
  split; [vm_compute; reflexivity|]. split; [vm_compute; reflexivity|].
  exact (Put_durable good_os full_queue full_files 100 (message "d") put_run.1 put_run.2 full_ok
    (surjective_pairing put_run)).
Defined.

Lemma full_pending :
  pending full_queue = [queueName (message "a"); queueName (message "c")].
Proof. vm_compute. reflexivity. Qed.

Lemma drain_complete_witness :
  ∃ raws d', drain good_os 2 (mk_disk full_queue full_files 100) = (Ok raws, d') ∧
    rm_MessageID <$> raws = ["a"; "c"] ∧ pending (d_queue d') = [].
Proof.
  destruct (drain_complete good_os full_queue full_files 100 full_ok) as (raws & d' & Hd & _ & Hp & _).
  - vm_compute. reflexivity.
  - intros name Hn. rewrite full_pending in Hn.
    apply elem_of_cons in Hn as [->|Hn%list_elem_of_singleton]; [|subst name]; eexists _, _;
      (split; [vm_compute; reflexivity|]); split; vm_compute; reflexivity.
  - rewrite full_pending in Hd. exists raws, d'. split; [exact Hd|]. split; [|exact Hp].
    assert (Hv : (drain good_os 2 (mk_disk full_queue full_files 100)).1 = Ok [message "a"; message "c"])
      by (vm_compute; reflexivity).
    pose proof (f_equal fst Hd) as Hd1. cbn [fst] in Hd1.
    pose proof (eq_trans (eq_sym Hd1) Hv) as Hraws. injection Hraws as ->. reflexivity.
Defined.

Definition received_once : res unit * disk := PutReceived good_os (message "e") (mk_disk full_queue full_files 100).
Lemma retransmission_witness :
  ∃ t'', PutReceived good_os (message "e") (mk_disk (d_queue received_once.2) (d_files received_once.2) 500) =
    (Ok tt, mk_disk (d_queue received_once.2) (d_files received_once.2) t'').
Proof.
  apply (retransmission good_os full_queue full_files 100 (message "e") received_once.2 500 full_ok).
  - intros z b [= <-]. reflexivity.
  - vm_compute. reflexivity.
Defined.

(** A settled name stays in the order until [head] passes it.  A message that
    is received again in between is served from its old position, before
    messages that were received earlier; after a restart the same entries are
    served in the order of reception. *)
Definition written_at (d : disk) (id : string) : Z :=
  match d_files d !! queueName (message id) with Some f => f_mtime f | None => 0 end.
Lemma requeued_overtakes :
  let d := calls [CPut (message "a"); CPut (message "b"); CAck (message "a"); CPut (message "a")] opened in
  pending (d_queue d) = [queueName (message "a"); queueName (message "b")] ∧
  written_at d "b" < written_at d "a" ∧
  pending (d_queue (calls [CReopen] d)) = [queueName (message "b"); queueName (message "a")].
Proof. vm_compute. by split_and!. Qed.

(** A disk that fails the flush of a write and the [os.Stat] after it. *)
Definition flaky_os : os :=
  mk_os (λ n k, match k with
                | SysSync | SysStatWritten => if (n <? 12)%nat then Some (mk_error Other "input/output error") else None
                | _ => None end) (λ n, Z.of_nat n) (λ _, None).
#[local] Instance flaky_laws : os_laws flaky_os.
Proof.
  split. intros n k e. cbv [flaky_os os_fail].
  destruct k; try discriminate; destruct (n <? 12)%nat; intros He; try discriminate;
    injection He as <-; reflexivity.
Qed.

(** A message whose flush failed, and whose file [put] could not look at
    afterwards, is counted nowhere and not pending.  Its retransmission is
    acknowledged, as the bytes are stored, and still it is not served: nothing
    is pending until the queue is opened again. *)
Lemma unserved_after_failed_stat :
  let d := mk_disk (d_queue opened) (d_files opened) 0 in
  let first := Put flaky_os (message "a") d in
  let second := Put flaky_os (message "a") (mk_disk (d_queue first.2) (d_files first.2) 20) in
  first.1 = Err (mk_error Other "input/output error") ∧ second.1 = Ok tt ∧
  is_Some (d_files second.2 !! queueName (message "a")) ∧
  q_items (d_queue second.2) = 0 ∧ delivered (Next flaky_os second.2).1 = "" ∧
  delivered (Next flaky_os (run_call flaky_os CReopen second.2).2).1 = "a".
Proof. vm_compute. split_and!; try reflexivity. by eexists. Qed.
