(* ===== verification/RateLimit.v ===== *)
(** Fixed-window budgets (internal/ratelimit/ratelimit.go): the in-process
    limiter and the cluster limiter that falls back to it.

    Times and durations are in nanoseconds, counted from Go's zero time.  The
    methods hold the limiter's mutex, so each is one step at the instant its
    clock reads. *)
From S2P Require Import Prelude GoText.

(** ** The local limiter *)

(** [tableLimit] bounds tracked keys. *)
Definition tableLimit : Z := 100000.
Definition second : Z := 1000000000.

Record window := mk_window { w_start : Z; w_end : Z; w_count : Z }.
#[export] Instance eta_window : Settable window := λ v, mk_window (w_start v) (w_end v) (w_count v).
Definition zero_window : window := mk_window 0 0 0.

Record Local := mk_Local { l_keys : gmap string window; l_lastSweep : Z }.
#[export] Instance eta_Local : Settable Local := λ v, mk_Local (l_keys v) (l_lastSweep v).
Definition NewLocal : Local := mk_Local ∅ 0.

(** [now.Truncate(d)] *)
Definition truncate (now d : Z) : Z := if decide (d ≤ 0) then now else now - now mod d.

Definition current (l : Local) (key : string) (d now : Z) : window :=
  let w := default zero_window (l_keys l !! key) in
  let start := truncate now d in
  if decide (w_start w ≠ start) then mk_window start (start + d) 0 else w.

(** Deleting the windows that have ended, at most once a second. *)
Definition sweep (l : Local) (now : Z) : Local :=
  if decide (second ≤ now - l_lastSweep l)
  then mk_Local (filter (λ kv : string * window, now < w_end kv.2) (l_keys l)) now else l.

Definition Allow (l : Local) (key : string) (limit d now : Z) : bool * Local :=
  let w := current l key d now in
  if decide (limit ≤ w_count w) then (false, l)
  else
    let take l := (true, l <| l_keys ::= <[key := w <| w_count ::= λ c, wrap64 (c + 1) |>]> |>) in
    if decide (l_keys l !! key = None ∧ tableLimit ≤ Z.of_nat (size (l_keys l))) then
      let l := sweep l now in
      if decide (tableLimit ≤ Z.of_nat (size (l_keys l))) then (false, l) else take l
    else take l.

Definition Hits (l : Local) (key : string) (d now : Z) : Z * Z :=
  let w := current l key d now in (w_count w, w_start w + d - now).

Definition Reset_ (l : Local) (key : string) : Local := l <| l_keys ::= delete key |>.

(** ** The cluster limiter *)

(** The shared store behind the [Limiter] interface; any call may fail. *)
Class SharedLimiter (S : Type) := {
  shared_Allow : string → Z → Z → S → res bool * S;
  shared_Hits : string → Z → S → res (Z * Z) * S;
  shared_Reset : string → Z → S → res unit * S }.

Record Cluster := mk_Cluster {
  c_shared : bool;             (* Shared is not nil *)
  c_local : Local;
  c_instances : Z;
  c_errors : Z }.
#[export] Instance eta_Cluster : Settable Cluster := λ v,
  mk_Cluster (c_shared v) (c_local v) (c_instances v) (c_errors v).

Definition NewCluster (shared : bool) (instances : Z) : Cluster :=
  mk_Cluster shared NewLocal (if decide (instances < 1) then 1 else instances) 0.
Definition SharedErrors (c : Cluster) : Z := c_errors c.
Definition share (c : Cluster) (limit : Z) : Z :=
  if c_shared c then Z.max 1 (Z.quot limit (c_instances c)) else limit.
Definition boolInt (b : bool) : Z := if b then 1 else 0.
(** [c.errors.Add(1)] *)
Definition count_error (c : Cluster) : Cluster := c <| c_errors ::= λ e, wrap64 (e + 1) |>.

Section cluster.
Context {S : Type} `{SharedLimiter S}.

Definition allow_locally (c : Cluster) (key : string) (limit d now : Z) : bool * Cluster :=
  let '(ok, l) := Allow (c_local c) key (share c limit) d now in (ok, c <| c_local := l |>).
Definition cluster_Allow (c : Cluster) (key : string) (limit d now : Z) (s : S)
    : bool * Cluster * S :=
  if c_shared c then
    match shared_Allow key limit d s with
    | (Ok ok, s) => (ok, c, s)
    | (Err _, s) => (allow_locally (count_error c) key limit d now, s)
    end
  else (allow_locally c key limit d now, s).

Definition cluster_Hits (c : Cluster) (key : string) (d now : Z) (s : S) : Z * Z * Cluster * S :=
  let locally c :=
    let '(n, reset) := Hits (c_local c) key d now in
    (wrap64 (n * Z.max 1 (c_instances c * boolInt (c_shared c))), reset, c) in
  if c_shared c then
    match shared_Hits key d s with
    | (Ok (n, reset), s) => (n, reset, c, s)
    | (Err _, s) => (locally (count_error c), s)
    end
  else (locally c, s).

Definition cluster_Reset (c : Cluster) (key : string) (d : Z) (s : S) : res unit * Cluster * S :=
  let c := c <| c_local ::= λ l, Reset_ l key |> in
  if c_shared c then
    match shared_Reset key d s with
    | (Ok _, s) => (Ok tt, c, s)
    | (Err e, s) => (Err e, count_error c, s)
    end
  else (Ok tt, c, s).
End cluster.
