(* ===== verification/RateLimitTheorems.v ===== *)
(** The budget of the local limiter and of the cluster limiter. *)
From S2P Require Import Prelude GoText RateLimit.

(** The properties of the rate limiters. *)

(** ** Runs of the local limiter *)

Record budget_call := mk_budget_call { k_key : string; k_limit : Z; k_window : Z; k_now : Z }.

Definition allow_call (l : Local) (c : budget_call) : bool * Local :=
  Allow l (k_key c) (k_limit c) (k_window c) (k_now c).

(** How many calls about [key] in the window that starts at [s] a run
    admits. *)
Fixpoint admitted (key : string) (s : Z) (cs : list budget_call) (l : Local) : Z :=
  match cs with
  | [] => 0
  | c :: cs =>
    let '(ok, l) := allow_call l c in
    (if decide (ok = true ∧ k_key c = key ∧ truncate (k_now c) (k_window c) = s) then 1 else 0)
      + admitted key s cs l
  end.

(** A run whose clock does not go back and whose calls about [key] agree on
    the window and the limit. *)
Fixpoint steady (key : string) (d limit t0 : Z) (cs : list budget_call) : Prop :=
  match cs with
  | [] => True
  | c :: cs => t0 ≤ k_now c ∧ (k_key c = key → k_window c = d ∧ k_limit c = limit) ∧
      steady key d limit (k_now c) cs
  end.

Lemma truncate_bounds now d : 0 < d → truncate now d ≤ now < truncate now d + d.
Proof.
  intros Hd. unfold truncate. rewrite decide_False by lia.
  pose proof (Z.mod_pos_bound now d). lia.
Qed.

Lemma truncate_step t1 t2 d : 0 < d → truncate t1 d < truncate t2 d → truncate t1 d + d ≤ truncate t2 d.
Proof.
  intros Hd. unfold truncate. rewrite !decide_False by lia.
  rewrite !Z.mod_eq by lia. intros Hlt.
  assert (t1 / d < t2 / d) by (apply (Z.mul_lt_mono_pos_l d); lia).
  assert (d * (t1 / d + 1) ≤ d * (t2 / d)) by (apply Z.mul_le_mono_nonneg_l; lia). lia.
Qed.

Lemma sweep_lookup l now key :
  l_keys (sweep l now) !! key = l_keys l !! key ∨
  l_keys (sweep l now) !! key = None ∧ ∃ w, l_keys l !! key = Some w ∧ w_end w ≤ now.
Proof.
  unfold sweep. case_decide; [|by left]. cbn. rewrite map_lookup_filter.
  destruct (l_keys l !! key) as [w|]; [|by left]. cbn.
  destruct (decide (now < w_end w)) as [Hlt|Hge]; [left|right].
  - rewrite option_guard_True by exact Hlt. done.
  - rewrite option_guard_False by exact Hge. split; [done|]. exists w. split; [done|lia].
Qed.

(** What a call does to the window of a key. *)
Lemma allow_lookup l c key :
  let '(ok, l') := allow_call l c in
  if decide (k_key c = key) then
    if ok then
      let w := current l key (k_window c) (k_now c) in
      l_keys l' !! key = Some (w <| w_count := wrap64 (w_count w + 1) |>) ∧ w_count w < k_limit c
    else l_keys l' !! key = l_keys l !! key
  else l_keys l' !! key = l_keys l !! key ∨
    l_keys l' !! key = None ∧ ∃ w, l_keys l !! key = Some w ∧ w_end w ≤ k_now c.
Proof.
  unfold allow_call, Allow. case_decide as Hlim.
  { case_decide; [done|by left]. }
  pose proof (sweep_lookup l (k_now c) key) as Hs.
  case_decide as Hfull; [case_decide as Hfull2|].
  - case_decide as Hk; [|done]. subst. destruct Hs as [?|(_ & w & Hw & _)]; [done|].
    destruct Hfull as [Hn _]. congruence.
  - cbn. case_decide as Hk.
    + subst. rewrite lookup_insert_eq. split; [done|lia].
    + rewrite lookup_insert_ne by done. exact Hs.
  - cbn. case_decide as Hk.
    + subst. rewrite lookup_insert_eq. split; [done|lia].
    + rewrite lookup_insert_ne by done. by left.
Qed.

(** The units of the window [s] that the table has counted. *)
Definition units_kept (key : string) (s : Z) (l : Local) : Z :=
  match l_keys l !! key with
  | Some w => if decide (w_start w = s) then w_count w else 0
  | None => 0
  end.

(** The stored window of [key] began no later than [t] and is within the
    limit. *)
Definition window_ok (key : string) (d limit t : Z) (l : Local) : Prop :=
  ∀ w, l_keys l !! key = Some w → w_start w ≤ t ∧ w_end w = w_start w + d ∧
    0 ≤ w_count w ≤ Z.max 0 limit ∧ w_start w = truncate (w_start w) d.

(** What is left of the window [s] at the instant [t]: nothing once it has
    ended. *)
Definition units_left (key : string) (s d limit t : Z) (l : Local) : Z :=
  if decide (s + d ≤ t) then 0 else Z.max 0 limit - units_kept key s l.

(** One unit, when the call takes one from the window [s] of [key]. *)
Definition unit_of (key : string) (s : Z) (ok : bool) (c : budget_call) : Z :=
  if decide (ok = true ∧ k_key c = key ∧ truncate (k_now c) (k_window c) = s) then 1 else 0.

Lemma units_kept_bounds key s d limit t l :
  window_ok key d limit t l → 0 ≤ units_kept key s l ≤ Z.max 0 limit.
Proof.
  intros Hok. unfold units_kept. destruct (l_keys l !! key) as [w|] eqn:Hw; [|lia].
  destruct (Hok w Hw) as (_ & _ & ? & _). case_decide; lia.
Qed.

Lemma units_left_nonneg key s d limit t l :
  window_ok key d limit t l → 0 ≤ units_left key s d limit t l.
Proof.
  intros Hok%(units_kept_bounds key s). unfold units_left. case_decide; lia.
Qed.

Lemma window_ok_later key d limit t t' l :
  t ≤ t' → window_ok key d limit t l → window_ok key d limit t' l.
Proof. intros Ht Hok w (? & ? & ? & ?)%Hok. repeat split; try done; lia. Qed.

Lemma units_left_later key s d limit t t' l :
  t ≤ t' → window_ok key d limit t l →
  units_left key s d limit t' l ≤ units_left key s d limit t l.
Proof.
  intros Ht Hok%(units_kept_bounds key s). unfold units_left. repeat case_decide; lia.
Qed.

Lemma truncate_idem now d : 0 < d → truncate (truncate now d) d = truncate now d.
Proof.
  intros Hd. unfold truncate. rewrite !decide_False by lia.
  rewrite Zminus_mod_idemp_r, Z.sub_diag, Z.mod_0_l; lia.
Qed.

Lemma truncate_mono t1 t2 d : 0 < d → t1 ≤ t2 → truncate t1 d ≤ truncate t2 d.
Proof.
  intros Hd Ht. destruct (decide (truncate t2 d < truncate t1 d)) as [Hlt|]; [|lia].
  apply truncate_step in Hlt; [|done].
  pose proof (truncate_bounds t1 d Hd). pose proof (truncate_bounds t2 d Hd). lia.
Qed.

Lemma truncate_pos now d : 0 < d ≤ now → 0 < truncate now d.
Proof. intros [Hd Ht]. pose proof (truncate_bounds now d Hd). nia || lia. Qed.

(** The window a call counts in, read off the table. *)
Lemma current_spec l key d limit t now :
  0 < d → d ≤ now → window_ok key d limit t l →
  let w := current l key d now in
  w_start w = truncate now d ∧ w_end w = w_start w + d ∧
  w_count w = units_kept key (truncate now d) l.
Proof.
  intros Hd Ht Hok. unfold current, units_kept. cbn.
  destruct (l_keys l !! key) as [w|] eqn:Hw; cbn.
  - destruct (Hok w Hw) as (_ & He & _ & _). repeat case_decide; done.
  - rewrite decide_True; [done|]. pose proof (truncate_pos now d (conj Hd Ht)). lia.
Qed.

Section step.
Context (key : string) (s d limit t : Z) (l : Local) (c : budget_call).
Context (Hd : 0 < d) (Hdt : d ≤ t) (Ht : t ≤ k_now c) (Hlim : limit < two63).
Context (Hsame : k_key c = key → k_window c = d ∧ k_limit c = limit).
Context (Hok : window_ok key d limit t l).

(** A call about [key] that goes through rewrites the window of its key. *)
Lemma admitted_window :
  k_key c = key → (allow_call l c).1 = true →
  let n := units_kept key (truncate (k_now c) d) l in
  n < limit ∧
  l_keys (allow_call l c).2 !! key =
    Some (mk_window (truncate (k_now c) d) (truncate (k_now c) d + d) (n + 1)).
Proof using Hd Hdt Ht Hlim Hsame Hok.
  intros Hk Hyes. pose proof (allow_lookup l c key) as Hl.
  destruct (allow_call l c) as [ok l']. cbn in *. subst ok. rewrite decide_True in Hl by done.
  destruct (Hsame Hk) as [Hw Hli]. rewrite Hw, Hli in Hl. destruct Hl as [-> Hlt].
  destruct (current_spec l key d limit t (k_now c) Hd ltac:(lia) Hok) as (Es & Ee & Ec).
  pose proof (units_kept_bounds key (truncate (k_now c) d) _ _ _ _ Hok) as Hb.
  destruct (current l key d (k_now c)) as [ws we wc]. cbn in *. rewrite <-Ec in Hb |- *.
  rewrite wrap64_small by (unfold in_int64, two63 in *; lia). by subst.
Qed.

Lemma window_step : window_ok key d limit (k_now c) (allow_call l c).2.
Proof using Hd Hdt Ht Hlim Hsame Hok.
  pose proof (allow_lookup l c key) as Hl. pose proof admitted_window as Hadm.
  pose proof (window_ok_later _ _ _ _ _ _ Ht Hok) as Hok'.
  destruct (allow_call l c) as [ok l']. cbn in *. case_decide as Hk; [destruct ok|].
  - destruct (Hadm Hk eq_refl) as [Hlt Hw]. intros w. rewrite Hw. intros [= <-]. cbn.
    rewrite truncate_idem by done. pose proof (truncate_bounds (k_now c) d Hd).
    pose proof (units_kept_bounds key (truncate (k_now c) d) _ _ _ _ Hok). repeat split; lia.
  - intros w. rewrite Hl. apply Hok'.
  - intros w. destruct Hl as [->|(-> & _)]; [apply Hok'|done].
Qed.

(** The count of an open window grows by the unit the call takes. *)
Lemma kept_step :
  units_kept key s (allow_call l c).2 = units_kept key s l + unit_of key s (allow_call l c).1 c ∨
  s + d ≤ k_now c ∧ unit_of key s (allow_call l c).1 c = 0.
Proof using Hd Hdt Ht Hlim Hsame Hok.
  pose proof (allow_lookup l c key) as Hl. pose proof admitted_window as Hadm.
  destruct (allow_call l c) as [ok l']. cbn in *. unfold unit_of. case_decide as Hk; [destruct ok|].
  - destruct (Hadm Hk eq_refl) as [Hlt Hw]. destruct (Hsame Hk) as [-> _].
    unfold units_kept at 1. rewrite Hw. cbn.
    destruct (decide (truncate (k_now c) d = s)) as [<-|Hne].
    { left. by rewrite (decide_True (P := _ ∧ _)) by done. }
    rewrite (decide_False (P := _ ∧ _)) by tauto.
    unfold units_kept. destruct (l_keys l !! key) as [w0|] eqn:Hw0; [|by left].
    destruct (Hok w0 Hw0) as (Hs0 & _ & _ & Htr0).
    destruct (decide (w_start w0 = s)) as [E|]; [right|left; lia]. rewrite <-E.
    pose proof (truncate_mono (w_start w0) (k_now c) d Hd ltac:(lia)).
    pose proof (truncate_step (w_start w0) (k_now c) d Hd ltac:(lia)).
    pose proof (truncate_bounds (k_now c) d Hd). lia.
  - left. rewrite decide_False by (by intros [? _]). unfold units_kept. rewrite Hl. lia.
  - rewrite decide_False by tauto.
    destruct Hl as [Hl|(Hn & w & Hw & Hend)]; [left; unfold units_kept; rewrite Hl; lia|].
    destruct (Hok w Hw) as (_ & He & _ & _). unfold units_kept. rewrite Hn, Hw.
    case_decide; [right; lia|by left].
Qed.

(** One call pays for the unit it takes. *)
Lemma budget_step :
  unit_of key s (allow_call l c).1 c + units_left key s d limit (k_now c) (allow_call l c).2
    ≤ units_left key s d limit t l.
Proof using Hd Hdt Ht Hlim Hsame Hok.
  pose proof (units_kept_bounds key s _ _ _ _ Hok). pose proof window_step as Hok'.
  apply (units_kept_bounds key s) in Hok'. unfold units_left.
  destruct kept_step as [E|[? E]]; rewrite E in *; repeat case_decide; try lia.
  unfold unit_of in *. case_decide as Hu; [|lia]. destruct Hu as (_ & Hk & Htr).
  destruct (Hsame Hk) as [Hw _]. rewrite Hw in Htr. pose proof (truncate_bounds (k_now c) d Hd). lia.
Qed.
End step.

(** ** Exactness when the table has room *)

(** How many calls a run offers to the window [s] of [key]. *)
Fixpoint offered (key : string) (s : Z) (cs : list budget_call) : Z :=
  match cs with
  | [] => 0
  | c :: cs => unit_of key s true c + offered key s cs
  end.

(** The keys tracked and the keys still to come fit the table. *)
Definition fits (l : Local) (cs : list budget_call) : Prop :=
  Z.of_nat (size (dom (l_keys l) ∪ list_to_set (map k_key cs) : gset string)) ≤ tableLimit.

Lemma offered_nonneg key s cs : 0 ≤ offered key s cs.
Proof. induction cs as [|c cs IH]; cbn; [lia|]. unfold unit_of. case_decide; lia. Qed.

Lemma offered_ended key s d limit t cs :
  0 < d → s + d ≤ t → steady key d limit t cs → offered key s cs = 0.
Proof.
  intros Hd. revert t. induction cs as [|c cs IH]; intros t Hs; cbn; [done|].
  intros (Ht & Hsame & Hst). rewrite (IH (k_now c)) by (done || lia).
  unfold unit_of. rewrite decide_False; [lia|]. intros (_ & Hk & Htr).
  destruct (Hsame Hk) as [Hw _]. rewrite Hw in Htr.
  pose proof (truncate_bounds (k_now c) d Hd). lia.
Qed.

Lemma tracked_size l key :
  l_keys l !! key = None →
  (size (l_keys l) < size (dom (l_keys l) ∪ {[key]} : gset string))%nat.
Proof.
  intros Hn. rewrite size_union by (apply disjoint_singleton_r; by apply not_elem_of_dom).
  rewrite size_dom, size_singleton. lia.
Qed.

(** With room in the table only the count decides. *)
Lemma allow_room l c cs :
  fits l (c :: cs) →
  (allow_call l c).1 = bool_decide (w_count (current l (k_key c) (k_window c) (k_now c)) < k_limit c) ∧
  fits (allow_call l c).2 cs.
Proof.
  unfold fits, allow_call, Allow. cbn. intros Hfit. case_decide as Hlim.
  - cbn. split; [by rewrite bool_decide_eq_false_2 by lia|].
    etransitivity; [|exact Hfit]. apply inj_le,  subseteq_size. set_solver.
  - rewrite decide_False.
    + cbn. split; [by rewrite bool_decide_eq_true_2 by lia|].
      etransitivity; [|exact Hfit]. apply inj_le,  subseteq_size. rewrite dom_insert. set_solver.
    + intros [Hn Hfull]. pose proof (tracked_size _ _ Hn) as Hsz.
      assert (size (dom (l_keys l) ∪ {[k_key c]} : gset string) ≤
        size (dom (l_keys l) ∪ ({[k_key c]} ∪ list_to_set (map k_key cs)) : gset string))%nat
        by (apply subseteq_size; set_solver).
      lia.
Qed.

Lemma exact_step key s d limit t l c cs :
  0 < d → d ≤ t → limit < two63 → steady key d limit t (c :: cs) → window_ok key d limit t l →
  fits l (c :: cs) →
  unit_of key s (allow_call l c).1 c +
    Z.min (units_left key s d limit (k_now c) (allow_call l c).2) (offered key s cs) =
  Z.min (units_left key s d limit t l) (offered key s (c :: cs)).
Proof.
  intros Hd Hdt Hlim (Ht & Hsame & Hst) Hok Hfit. cbn [offered].
  pose proof (kept_step key s d limit t l c Hd Hdt Ht Hlim Hsame Hok) as Hkept.
  pose proof (budget_step key s d limit t l c Hd Hdt Ht Hlim Hsame Hok) as Hb.
  pose proof (units_left_nonneg key s _ _ _ _ (window_step key d limit t l c Hd Hdt Ht Hlim Hsame Hok)).
  pose proof (units_kept_bounds key s _ _ _ _ Hok) as Hkb. pose proof (offered_nonneg key s cs).
  destruct (allow_room l c cs Hfit) as [Hroom _].
  destruct (allow_call l c) as [ok l'] eqn:Hc. cbn [fst snd] in *.
  destruct (decide (k_key c = key ∧ truncate (k_now c) (k_window c) = s)) as [[Hk Htr]|Hno].
  - destruct (Hsame Hk) as [Hw Hli]. rewrite Hk, Hw, Hli in Hroom. rewrite Hw in Htr. subst s.
    destruct (current_spec l key d limit t (k_now c) Hd ltac:(lia) Hok) as (_ & _ & Ec).
    rewrite Ec in Hroom. pose proof (truncate_bounds (k_now c) d Hd).
    unfold unit_of, units_left in *. rewrite Hw, Hk in *.
    rewrite (decide_True (P := true = true ∧ _)) by done.
    destruct ok; [rewrite (decide_True (P := true = true ∧ _)) in * by done
      |rewrite (decide_False (P := false = true ∧ _)) in * by (by intros [? _])].
    + symmetry in Hroom. apply bool_decide_eq_true in Hroom. repeat case_decide; lia.
    + symmetry in Hroom. apply bool_decide_eq_false in Hroom. repeat case_decide; lia.
  - assert (∀ b, unit_of key s b c = 0) as Hu
      by (intros b; unfold unit_of; rewrite decide_False; [done|tauto]).
    rewrite !Hu in *. unfold units_left in *. destruct (decide (s + d ≤ k_now c)) as [He|He].
    + rewrite (offered_ended key s d limit (k_now c) cs) by done. repeat case_decide; lia.
    + destruct Hkept as [E|[? _]]; [|done]. repeat case_decide; lia.
Qed.

(** ** The table is bounded *)

Lemma sweep_size l now : (size (l_keys (sweep l now)) ≤ size (l_keys l))%nat.
Proof.
  unfold sweep. case_decide; [|done]. cbn.
  rewrite <-!size_dom. apply subseteq_size, dom_filter_subseteq.
Qed.

Lemma insert_size (m : gmap string window) key w :
  Z.of_nat (size m) ≤ tableLimit → ¬ (m !! key = None ∧ tableLimit ≤ Z.of_nat (size m)) →
  Z.of_nat (size (<[key := w]> m)) ≤ tableLimit.
Proof.
  intros Hm Hroom. destruct (m !! key) as [w0|] eqn:Hk.
  - by rewrite map_size_insert_Some by eauto.
  - rewrite map_size_insert_None by done. destruct (decide (tableLimit ≤ Z.of_nat (size m))); [tauto|lia].
Qed.

Lemma allow_size l c :
  Z.of_nat (size (l_keys l)) ≤ tableLimit →
  Z.of_nat (size (l_keys (allow_call l c).2)) ≤ tableLimit.
Proof.
  intros Hl. unfold allow_call, Allow. case_decide; [done|].
  pose proof (sweep_size l (k_now c)). case_decide as Hfull; [case_decide as Hstill|]; cbn.
  - lia.
  - apply insert_size; [lia|tauto].
  - by apply insert_size.
Qed.

(** The limiter after a run. *)
Fixpoint run_calls (l : Local) (cs : list budget_call) : Local :=
  match cs with
  | [] => l
  | c :: cs => run_calls (allow_call l c).2 cs
  end.

Lemma run_size cs l :
  Z.of_nat (size (l_keys l)) ≤ tableLimit → Z.of_nat (size (l_keys (run_calls l cs))) ≤ tableLimit.
Proof. revert l. induction cs as [|c cs IH]; intros l Hl; cbn; [done|]. by apply IH, allow_size. Qed.

Lemma admitted_cons key s c cs l :
  admitted key s (c :: cs) l =
  unit_of key s (allow_call l c).1 c + admitted key s cs (allow_call l c).2.
Proof. cbn. by destruct (allow_call l c). Qed.

Lemma admitted_bound key s d limit t l cs :
  0 < d → d ≤ t → limit < two63 → steady key d limit t cs → window_ok key d limit t l →
  admitted key s cs l ≤ units_left key s d limit t l.
Proof.
  intros Hd Hdt Hlim. revert t l Hdt. induction cs as [|c cs IH]; intros t l Hdt Hst Hok.
  { by apply units_left_nonneg. }
  destruct Hst as (Ht & Hsame & Hst). rewrite admitted_cons.
  pose proof (budget_step key s d limit t l c Hd Hdt Ht Hlim Hsame Hok).
  pose proof (window_step key d limit t l c Hd Hdt Ht Hlim Hsame Hok) as Hok'.
  pose proof (IH (k_now c) _ ltac:(lia) Hst Hok'). lia.
Qed.

Lemma admitted_exact key s d limit t l cs :
  0 < d → d ≤ t → limit < two63 → steady key d limit t cs → window_ok key d limit t l → fits l cs →
  admitted key s cs l = Z.min (units_left key s d limit t l) (offered key s cs).
Proof.
  intros Hd Hdt Hlim. revert t l Hdt. induction cs as [|c cs IH]; intros t l Hdt Hst Hok Hfit.
  { pose proof (units_left_nonneg key s _ _ _ _ Hok). cbn. lia. }
  rewrite admitted_cons, <-(exact_step key s d limit t l c cs) by done.
  destruct Hst as (Ht & Hsame & Hst).
  pose proof (window_step key d limit t l c Hd Hdt Ht Hlim Hsame Hok) as Hok'.
  rewrite (IH (k_now c)); [done|lia|done|done|apply allow_room, Hfit].
Qed.

Lemma window_ok_new key d limit t : window_ok key d limit t NewLocal.
Proof. intros w. cbn. by rewrite lookup_empty. Qed.

(** C35: a fixed-window budget.  Over any run of calls on a fresh limiter
    whose clock does not go back, in which the calls about a key agree on the
    window length and the limit, the calls about that key admitted in any one
    window never exceed the limit, whatever the other keys do, and the table
    never tracks more than [tableLimit] keys.  When the keys of the run fit the
    table the limiter is exact: it admits as many calls as were offered in the
    window, up to the limit. *)
Theorem Allow_budget key s d limit t cs :
  0 < d ≤ t → limit < two63 → steady key d limit t cs →
  admitted key s cs NewLocal ≤ Z.max 0 limit ∧
  Z.of_nat (size (l_keys (run_calls NewLocal cs))) ≤ tableLimit ∧
  (fits NewLocal cs →
   admitted key s cs NewLocal = Z.min (Z.max 0 limit) (offered key s cs)).
Proof.
  intros [Hd Hdt] Hlim Hst. pose proof (window_ok_new key d limit t) as Hok.
  assert (units_kept key s NewLocal = 0) as Hk by done. split; [|split].
  - pose proof (admitted_bound key s d limit t NewLocal cs Hd Hdt Hlim Hst Hok) as Hb.
    unfold units_left in Hb. case_decide; lia.
  - by apply run_size.
  - intros Hfit. rewrite (admitted_exact key s d limit t) by done.
    pose proof (offered_ended key s d limit t cs Hd).
    unfold units_left. case_decide as He; [rewrite H by done|]; lia.
Qed.
