(* ===== verification/RateLimitCluster.v ===== *)
(** The cluster limiter: a fleet of instances over one shared store, with the
    outages the store may have; and concrete runs of both limiters. *)
From S2P Require Import Prelude GoText RateLimit RateLimitTheorems.

Section fleet.
Context {S : Type} `{SharedLimiter S}.
Context (key : string) (w : Z).

(** One call on instance [i] of a fleet. *)
Definition fleet_call (fleet : list Cluster) (i : nat) (c : budget_call) (s : S)
    : bool * list Cluster * S :=
  match fleet !! i with
  | Some cl =>
    let '(ok, cl, s) := cluster_Allow cl (k_key c) (k_limit c) (k_window c) (k_now c) s in
    (ok, <[i := cl]> fleet, s)
  | None => (false, fleet, s)
  end.

(** The units of the window [w] of [key] that the whole fleet grants. *)
Fixpoint granted (es : list (nat * budget_call)) (fleet : list Cluster) (s : S) : Z :=
  match es with
  | [] => 0
  | (i, c) :: es =>
    let '(ok, fleet, s) := fleet_call fleet i c s in
    unit_of key w ok c + granted es fleet s
  end.

(** The units of that window that the shared store itself grants. *)
Fixpoint store_granted (es : list (nat * budget_call)) (fleet : list Cluster) (s : S) : Z :=
  match es with
  | [] => 0
  | (i, c) :: es =>
    let '(_, fleet', s') := fleet_call fleet i c s in
    match (shared_Allow (k_key c) (k_limit c) (k_window c) s).1 with
    | Ok ok => unit_of key w ok c
    | Err _ => 0
    end + store_granted es fleet' s'
  end.

(** Every instance's own clock does not go back, and the calls about [key]
    agree on the window and the limit. *)
Fixpoint fleet_steady (d limit : Z) (ts : list Z) (es : list (nat * budget_call)) : Prop :=
  match es with
  | [] => True
  | (i, c) :: es => ∃ t, ts !! i = Some t ∧ t ≤ k_now c ∧
      (k_key c = key → k_window c = d ∧ k_limit c = limit) ∧
      fleet_steady d limit (<[i := k_now c]> ts) es
  end.

(** What the instances together may still grant on their own. *)
Fixpoint fleet_left (d limit : Z) (ts : list Z) (fleet : list Cluster) : Z :=
  match ts, fleet with
  | t :: ts, cl :: fleet =>
    units_left key w d (share cl limit) t (c_local cl) + fleet_left d limit ts fleet
  | _, _ => 0
  end.

(** Instances of one fleet: made for the shared store and [n] instances. *)
Definition instance_ok (n d limit t : Z) (cl : Cluster) : Prop :=
  c_shared cl = true ∧ c_instances cl = n ∧ d ≤ t ∧
  window_ok key d (share cl limit) t (c_local cl).

Lemma fleet_left_insert d limit ts fleet i t t' cl cl' :
  ts !! i = Some t → fleet !! i = Some cl →
  fleet_left d limit (<[i := t']> ts) (<[i := cl']> fleet) =
  fleet_left d limit ts fleet - units_left key w d (share cl limit) t (c_local cl)
    + units_left key w d (share cl' limit) t' (c_local cl').
Proof.
  revert fleet i. induction ts as [|t0 ts IH]; intros [|cl0 fleet] [|i] Ht Hcl; try done.
  - injection Ht as ->. injection Hcl as ->. cbn. lia.
  - change (units_left key w d (share cl0 limit) t0 (c_local cl0) +
      fleet_left d limit (<[i := t']> ts) (<[i := cl']> fleet) =
      fleet_left d limit (t0 :: ts) (cl0 :: fleet) - units_left key w d (share cl limit) t (c_local cl)
      + units_left key w d (share cl' limit) t' (c_local cl')).
    rewrite (IH fleet i Ht Hcl). cbn. lia.
Qed.

Lemma share_eq cl cl' limit :
  c_shared cl = c_shared cl' → c_instances cl = c_instances cl' → share cl limit = share cl' limit.
Proof. unfold share. by intros -> ->. Qed.

(** One call of one instance. *)
Lemma instance_step n d limit t cl c s :
  0 < d → limit < two63 → 1 ≤ n → t ≤ k_now c →
  (k_key c = key → k_window c = d ∧ k_limit c = limit) → instance_ok n d limit t cl →
  let '(ok, cl', s') := cluster_Allow cl (k_key c) (k_limit c) (k_window c) (k_now c) s in
  instance_ok n d limit (k_now c) cl' ∧
  unit_of key w ok c + units_left key w d (share cl' limit) (k_now c) (c_local cl') ≤
    match (shared_Allow (k_key c) (k_limit c) (k_window c) s).1 with
    | Ok ok => unit_of key w ok c
    | Err _ => 0
    end + units_left key w d (share cl limit) t (c_local cl).
Proof.
  intros Hd Hlim Hn Ht Hsame (Hsh & Hin & Hdt & Hok). unfold cluster_Allow. rewrite Hsh.
  destruct (shared_Allow _ _ _ _) as [[ok|e] s'] eqn:E; cbn.
  - pose proof (units_left_later key w _ _ _ _ _ Ht Hok). split; [|lia].
    split; [done|split; [done|split; [lia|by eapply window_ok_later]]].
  - unfold allow_locally. change (c_local (count_error cl)) with (c_local cl).
    rewrite (share_eq (count_error cl) cl) by done.
    set (c' := mk_budget_call (k_key c) (share cl (k_limit c)) (k_window c) (k_now c)).
    change (Allow _ _ _ _ _) with (allow_call (c_local cl) c').
    assert (share cl limit < two63) as Hlim'.
    { unfold share. rewrite Hsh, Hin. unfold two63 in *. 
      destruct (decide (0 ≤ limit)); [pose proof (Z.quot_le_upper_bound limit n limit); nia|].
      pose proof (Z.quot_le_mono limit 0 n). rewrite Z.quot_0_l in *; lia. }
    assert (k_key c' = key → k_window c' = d ∧ k_limit c' = share cl limit) as Hsame'.
    { cbn. intros Hk. destruct (Hsame Hk) as [-> ->]. done. }
    pose proof (budget_step key w d (share cl limit) t (c_local cl) c' Hd Hdt Ht Hlim' Hsame' Hok) as Hb.
    pose proof (window_step key d (share cl limit) t (c_local cl) c' Hd Hdt Ht Hlim' Hsame' Hok) as Hok'.
    destruct (allow_call (c_local cl) c') as [ok l']. cbn in *. split; [|exact Hb].
    split; [done|split; [done|split; [lia|exact Hok']]].
Qed.

Lemma granted_bound n d limit ts es fleet s :
  0 < d → limit < two63 → 1 ≤ n →
  fleet_steady d limit ts es → Forall2 (instance_ok n d limit) ts fleet →
  granted es fleet s ≤ store_granted es fleet s + fleet_left d limit ts fleet.
Proof.
  intros Hd Hlim Hn. revert ts fleet s. induction es as [|[i c] es IH]; intros ts fleet s.
  - intros _ Hall. cbn. induction Hall as [|t cl ts fleet (? & ? & ? & Hok) _ IHf]; cbn; [done|].
    pose proof (units_left_nonneg key w _ _ _ _ Hok). lia.
  - intros (t & Ht & Hle & Hsame & Hst) Hall.
    destruct (Forall2_lookup_l _ _ _ _ _ Hall Ht) as (cl & Hcl & Hok). cbn.
    unfold fleet_call. rewrite Hcl.
    pose proof (instance_step n d limit t cl c s Hd Hlim Hn Hle Hsame Hok) as Hstep.
    destruct (cluster_Allow _ _ _ _ _ _) as [[ok cl'] s'] eqn:E. destruct Hstep as [Hok' Hstep].
    pose proof (IH _ (<[i := cl']> fleet) s' Hst) as Hrest.
    rewrite (fleet_left_insert _ _ _ _ _ _ _ _ _ Ht Hcl) in Hrest.
    assert (Forall2 (instance_ok n d limit) (<[i:=k_now c]> ts) (<[i:=cl']> fleet)) as Hall'
      by (by apply Forall2_insert).
    specialize (Hrest Hall'). lia.
Qed.
End fleet.

Section outage.
Context {S : Type} `{SharedLimiter S}.

Lemma fleet_left_new key w d limit t n m :
  fleet_left key w d limit (replicate m t) (replicate m (NewCluster true n)) ≤
  Z.of_nat m * share (NewCluster true n) limit.
Proof.
  induction m as [|m IH]; cbn [replicate fleet_left]; [lia|].
  assert (units_left key w d (share (NewCluster true n) limit) t (c_local (NewCluster true n)) ≤
    share (NewCluster true n) limit) as Hu.
  { unfold units_left, share. cbn. change (units_kept key w NewLocal) with 0. case_decide; lia. }
  lia.
Qed.

Lemma new_instances_ok key n d limit t m :
  1 ≤ n → d ≤ t →
  Forall2 (instance_ok key n d limit) (replicate m t) (replicate m (NewCluster true n)).
Proof.
  intros Hn Hd. induction m as [|m IH]; cbn; constructor; [|done].
  unfold instance_ok, NewCluster. cbn. rewrite decide_False by lia. repeat split; try done; try lia.
  all: intros ?; cbn; by rewrite lookup_empty.
Qed.

Lemma store_granted_down key w es fleet s :
  (∀ k l d s, ∃ e, (shared_Allow k l d s).1 = Err e) → store_granted key w es fleet s = 0.
Proof.
  intros Hdown. revert fleet s. induction es as [|[i c] es IH]; intros fleet s; cbn; [done|].
  destruct (Hdown (k_key c) (k_limit c) (k_window c) s) as [e ->].
  destruct (fleet_call _ _ _ _) as [[??]?]. by rewrite IH.
Qed.

(** C36: what an outage of the shared store can cost.  [n] instances are made
    for a shared store that may fail at any call, and serve any interleaving of
    calls.  Then the fleet never grants, in one window of a key, more than what
    the store itself granted there plus [n] times the local share; in
    particular, while the store is down all along, no more than the limit, or
    the number of instances where that is larger. *)
Theorem cluster_outage key w d limit t (n : nat) es (s : S) :
  0 < d ≤ t → limit < two63 → (1 ≤ n)%nat →
  fleet_steady key d limit (replicate n t) es →
  let fleet := replicate n (NewCluster true (Z.of_nat n)) in
  granted key w es fleet s ≤
    store_granted key w es fleet s + Z.of_nat n * Z.max 1 (Z.quot limit (Z.of_nat n)) ∧
  ((∀ k l d s, ∃ e, (shared_Allow k l d s).1 = Err e) →
   granted key w es fleet s ≤ Z.max limit (Z.of_nat n)).
Proof.
  intros [Hd Hdt] Hlim Hn Hst fleet.
  assert (share (NewCluster true (Z.of_nat n)) limit = Z.max 1 (Z.quot limit (Z.of_nat n))) as Hshare
    by (unfold share, NewCluster; cbn; by rewrite decide_False by lia).
  pose proof (granted_bound key w (Z.of_nat n) d limit (replicate n t) es fleet s Hd Hlim ltac:(lia)
    Hst (new_instances_ok key (Z.of_nat n) d limit t n ltac:(lia) Hdt)) as Hb.
  pose proof (fleet_left_new key w d limit t (Z.of_nat n) n) as Hl. rewrite Hshare in Hl.
  split; [unfold fleet in *; lia|]. intros Hdown.
  rewrite (store_granted_down key w es fleet s Hdown) in Hb.
  assert (Z.of_nat n * Z.max 1 (Z.quot limit (Z.of_nat n)) ≤ Z.max limit (Z.of_nat n)); [|unfold fleet in *; lia].
  destruct (decide (0 ≤ limit)).
  - pose proof (Z.mul_quot_le limit (Z.of_nat n) ltac:(done) ltac:(lia)) as Hq.
    destruct (Z.max_spec 1 (Z.quot limit (Z.of_nat n))) as [[_ ->]|[_ ->]]; lia.
  - pose proof (Z.quot_le_mono limit 0 (Z.of_nat n)) as Hq. rewrite Z.quot_0_l in Hq by lia.
    rewrite Z.max_l; lia.
Qed.
End outage.

(** ** Concrete runs *)

(** Five calls in and past one minute, another key among them, a limit of 2. *)
Definition minute : Z := 60 * second.
Definition five_calls : list budget_call :=
  let at_ n := 2000000000 * second + n * second in
  [mk_budget_call "login" 2 minute (at_ 1); mk_budget_call "other" 1 second (at_ 2);
   mk_budget_call "login" 2 minute (at_ 3); mk_budget_call "login" 2 minute (at_ 4);
   mk_budget_call "login" 2 minute (at_ 45)].

Lemma Allow_budget_witness :
  admitted "login" (1999999980 * second) five_calls NewLocal = 2 ∧
  admitted "login" (2000000040 * second) five_calls NewLocal = 1 ∧
  Z.of_nat (size (l_keys (run_calls NewLocal five_calls))) ≤ tableLimit.
Proof.
  assert (0 < minute ≤ minute) as Hd by (vm_compute; split; [done|intros ?; done]).
  assert (steady "login" minute 2 minute five_calls) as Hst
    by (repeat split; try (vm_compute; done); intros [=]).
  assert (fits NewLocal five_calls) as Hfit by (unfold fits; vm_compute; done).
  destruct (Allow_budget "login" (1999999980 * second) minute 2 minute five_calls Hd eq_refl Hst)
    as (_ & Hsize & Hexact).
  destruct (Allow_budget "login" (2000000040 * second) minute 2 minute five_calls Hd eq_refl Hst)
    as (_ & _ & Hexact').
  split; [|split; [|exact Hsize]].
  - exact (eq_trans (Hexact Hfit) eq_refl).
  - exact (eq_trans (Hexact' Hfit) eq_refl).
Defined.

(** A store that is down. *)
Definition refused : error := mk_error Other "connection refused".
#[local] Instance down : SharedLimiter unit := {
  shared_Allow _ _ _ s := (Err refused, s);
  shared_Hits _ _ s := (Err refused, s);
  shared_Reset _ _ s := (Err refused, s) }.

(** Three instances asked for a budget of one: each grants it. *)
Definition outage_calls : list (nat * budget_call) :=
  let c n := mk_budget_call "login" 1 minute (2000000000 * second + n) in
  [(0%nat, c 1); (1%nat, c 2); (0%nat, c 3); (2%nat, c 4)].

Lemma cluster_outage_witness :
  granted "login" (1999999980 * second) outage_calls (replicate 3 (NewCluster true 3)) tt = 3 ∧
  granted "login" (1999999980 * second) outage_calls (replicate 3 (NewCluster true 3)) tt ≤ Z.max 1 3.
Proof.
  split; [vm_compute; reflexivity|].
  refine (proj2 (cluster_outage "login" (1999999980 * second) minute 1 minute 3 outage_calls tt _ _ _ _) _).
  - vm_compute. split; [done|intros ?; done].
  - done.
  - lia.
  - repeat (eexists; split; [reflexivity|split; [vm_compute; done|split; [done|]]]). done.
  - intros k l d s. eexists. reflexivity.
Defined.
