(* ===== verification/StoreIO.v ===== *)
(** Calls of the engine to a repository that other goroutines and replicas use
    at the same time.  Before the n-th call the others act on the repository;
    the call itself is one step, and may fail and leave it as it is. *)
From S2P Require Import Prelude.

Record store_schedule (W : Type) := mk_store_schedule {
  sc_env : nat → W → W;
  sc_fail : nat → option error }.
#[global] Arguments mk_store_schedule {W} _ _.
#[global] Arguments sc_env {W} _ _ _.
#[global] Arguments sc_fail {W} _ _.

Definition StoreIO (W A : Type) : Type := W * nat → res A * (W * nat).
#[export] Instance StoreIO_ret {W} : MRet (StoreIO W) := λ A a s, (Ok a, s).
#[export] Instance StoreIO_bind {W} : MBind (StoreIO W) := λ A B f m s,
  match m s with (Ok a, s) => f a s | (Err e, s) => (Err e, s) end.

Section calls.
Context {W : Type} (sched : store_schedule W).

Definition store_call {A} (f : W → res A * W) : StoreIO W A := λ '(w, n),
  let w := sc_env sched n w in
  match sc_fail sched n with
  | Some e => (Err e, (w, S n))
  | None => let '(a, w) := f w in (a, (w, S n))
  end.
(** A step on state of the process, under its mutex. *)
Definition local_step {A} (f : W → A * W) : StoreIO W A := λ '(w, n),
  let '(a, w) := f (sc_env sched n w) in (Ok a, (w, S n)).
Definition store_fails {A} (e : error) : StoreIO W A := λ s, (Err e, s).

(** The result of a call whose error the code looks at. *)
Definition store_try {A} (m : StoreIO W A) : StoreIO W (res A) := λ s,
  let '(r, s) := m s in (Ok r, s).

Lemma store_call_eq {A} (f : W → res A * W) w n :
  store_call f (w, n) =
  match sc_fail sched n with
  | Some e => (Err e, (sc_env sched n w, S n))
  | None => ((f (sc_env sched n w)).1, ((f (sc_env sched n w)).2, S n))
  end.
Proof. unfold store_call. destruct (sc_fail sched n); [done|]. by destruct (f _). Qed.

Lemma local_step_eq {A} (f : W → A * W) w n :
  local_step f (w, n) = (Ok (f (sc_env sched n w)).1, ((f (sc_env sched n w)).2, S n)).
Proof. unfold local_step. by destruct (f _). Qed.
End calls.

(** What a clock, or any other observation, says when [n] calls were made. *)
Definition observe {W A} (f : nat → A) : StoreIO W A := λ '(w, n), (Ok (f n), (w, n)).

(** Nobody else acts and nothing fails. *)
Definition calm {W} (sched : store_schedule W) : Prop :=
  (∀ n w, sc_env sched n w = w) ∧ ∀ n, sc_fail sched n = None.

Lemma calm_call {W A} (sched : store_schedule W) (f : W → res A * W) w n :
  calm sched → store_call sched f (w, n) = ((f w).1, ((f w).2, S n)).
Proof. intros [He Hf]. by rewrite store_call_eq, Hf, He. Qed.

(** ** Postconditions *)

Definition yields {W A} (m : StoreIO W A) (s : W * nat) (Q : res A → W * nat → Prop) : Prop :=
  Q (m s).1 (m s).2.

Section yields.
Context {W : Type} (sched : store_schedule W).

Lemma yields_bind {A B} (m : StoreIO W A) (f : A → StoreIO W B) s Q :
  yields m s (λ r s', match r with Ok a => yields (f a) s' Q | Err e => Q (Err e) s' end) →
  yields (m ≫= f) s Q.
Proof. unfold yields, mbind, StoreIO_bind. by destruct (m s) as [[a|e] s']. Qed.
Lemma yields_ret {A} (a : A) s (Q : res A → W * nat → Prop) : Q (Ok a) s → yields (mret a) s Q.
Proof. done. Qed.
Lemma yields_fails {A} e s (Q : res A → W * nat → Prop) : Q (Err e) s → yields (store_fails e) s Q.
Proof. done. Qed.
Lemma yields_try {A} (m : StoreIO W A) s Q :
  yields m s (λ r s', Q (Ok r) s') → yields (store_try m) s Q.
Proof. unfold yields, store_try. by destruct (m s). Qed.
Lemma yields_observe {A} (f : nat → A) w n (Q : res A → W * nat → Prop) :
  Q (Ok (f n)) (w, n) → yields (observe f) (w, n) Q.
Proof. done. Qed.
Lemma yields_call {A} (f : W → res A * W) w n (Q : res A → W * nat → Prop) :
  (∀ e, sc_fail sched n = Some e → Q (Err e) (sc_env sched n w, S n)) →
  (let w := sc_env sched n w in sc_fail sched n = None → Q (f w).1 ((f w).2, S n)) →
  yields (store_call sched f) (w, n) Q.
Proof.
  intros Hfail Hok. unfold yields. rewrite store_call_eq.
  destruct (sc_fail sched n); cbn; [by apply Hfail|by apply Hok].
Qed.
Lemma yields_local {A} (f : W → A * W) w n (Q : res A → W * nat → Prop) :
  (let w := sc_env sched n w in Q (Ok (f w).1) ((f w).2, S n)) → yields (local_step sched f) (w, n) Q.
Proof. intros HQ. unfold yields. by rewrite local_step_eq. Qed.
Lemma yields_mono {A} (m : StoreIO W A) s (Q Q' : res A → W * nat → Prop) :
  yields m s Q → (∀ r s', Q r s' → Q' r s') → yields m s Q'.
Proof. unfold yields. auto. Qed.
End yields.
