(* ===== verification/AlarmModel.v ===== *)
(** Alarms, their dispositions and attachments, the state of a component's
    alarm and the report events (internal/model/model.go,
    internal/model/component.go, internal/model/alarm_attachment.go). *)
From S2P Require Import Prelude GoText GoJson SitesModel.
From Stdlib Require Import SpecFloat.

(** [unicode.ToUpper], data of the Go distribution; [strings.ToUpper] is only
    compared with a literal here, so the rune sequence stands for the string. *)
Class UpperCase := rune_to_upper : Z → Z.
Definition to_upper `{UpperCase} (s : string) : list Z := rune_to_upper <$> runes s.

(** An event of a video platform. *)
Record VideoAlarmEvent (value : Type) := mk_VideoAlarmEvent {
  ve_EventID : string; ve_Source : string; ve_TenantID : string; ve_ProjectID : string;
  ve_CameraID : string; ve_CameraName : string; ve_AreaID : string; ve_AlarmType : string;
  ve_AlarmName : string; ve_AlarmLevel : string; ve_Confidence : float64; ve_EventTime : Z;
  ve_ReceivedAt : Z; ve_SnapshotURL : string; ve_VideoClipURL : string; ve_CityCode : string;
  ve_DistrictCode : string; ve_BuildingID : string; ve_Location : gmap string value;
  ve_Raw : gmap string value }.
#[global] Arguments mk_VideoAlarmEvent {value}.
#[global] Arguments ve_EventID {value} _.
#[global] Arguments ve_TenantID {value} _.
#[global] Arguments ve_SnapshotURL {value} _.

(** The details of an alarm are a [map[string]any] of whatever the message
    held.  The modelled code copies the values and looks for video events
    among them: [event_detail] is a video event as a value of the map, and
    [detail_event] the video event of a value, itself or through JSON, when
    there is one ([json.Marshal] and [json.Unmarshal] on values of the map). *)
Class AlarmDetails := {
  detail : Type;
  event_detail : VideoAlarmEvent detail → detail;
  detail_event : detail → option (VideoAlarmEvent detail) }.
Definition details `{AlarmDetails} : Type := gmap string detail.

Record AlarmDisposition := mk_AlarmDisposition {
  ad_Result : string; ad_Notes : string; ad_Handler : string; ad_ArrivedAt : Z;
  ad_DispatchID : string; ad_VerifiedAt : Z; ad_AIAnalysisAt : Z; ad_AIRiskLevel : string;
  ad_AIPromptVersion : string }.
#[export] Instance eta_AlarmDisposition : Settable AlarmDisposition := λ v,
  mk_AlarmDisposition (ad_Result v) (ad_Notes v) (ad_Handler v) (ad_ArrivedAt v) (ad_DispatchID v)
    (ad_VerifiedAt v) (ad_AIAnalysisAt v) (ad_AIRiskLevel v) (ad_AIPromptVersion v).

Record AlarmAttachment := mk_AlarmAttachment {
  at_ID : string; at_Name : string; at_ContentType : string; at_Size : Z; at_SHA256 : string;
  at_UploadedBy : string; at_UploadedAt : Z }.
#[export] Instance eta_AlarmAttachment : Settable AlarmAttachment := λ v,
  mk_AlarmAttachment (at_ID v) (at_Name v) (at_ContentType v) (at_Size v) (at_SHA256 v)
    (at_UploadedBy v) (at_UploadedAt v).

Record CameraSummary := mk_CameraSummary {
  cs_CameraID : string; cs_Brand : string; cs_CameraName : string; cs_CameraPoint : string;
  cs_DeviceID : string; cs_Building : string; cs_Floor : string; cs_Room : string; cs_Enabled : bool }.

Record Alarm `{AlarmDetails} := mk_Alarm {
  a_Version : Z; a_ComponentID : string; a_ComponentName : string; a_ComponentLocation : string;
  a_ID : string; a_TenantID : string; a_RuleID : string; a_TriggerID : string; a_DeviceID : string;
  a_DeviceName : string; a_AlarmType : string; a_Content : string; a_AlarmLevel : string;
  a_Status : string; a_Source : string; a_CityCode : string; a_DistrictCode : string;
  a_BuildingID : string; a_DeviceType : string; a_AreaID : string; a_FirstTriggeredAt : Z;
  a_LastTriggeredAt : Z; a_TriggerCount : Z; a_RecoveredAt : Z; a_AckedAt : Z; a_ClosedAt : Z;
  a_Confidence : float64; a_MultiSource : bool; a_Cameras : list CameraSummary;
  a_Details : details; a_Disposition : option AlarmDisposition;
  a_Location : option AlarmLocation_t; a_Attachments : list AlarmAttachment }.
#[export] Instance eta_Alarm `{AlarmDetails} : Settable Alarm := λ v,
  mk_Alarm _ (a_Version v) (a_ComponentID v) (a_ComponentName v) (a_ComponentLocation v) (a_ID v)
    (a_TenantID v) (a_RuleID v) (a_TriggerID v) (a_DeviceID v) (a_DeviceName v) (a_AlarmType v)
    (a_Content v) (a_AlarmLevel v) (a_Status v) (a_Source v) (a_CityCode v) (a_DistrictCode v)
    (a_BuildingID v) (a_DeviceType v) (a_AreaID v) (a_FirstTriggeredAt v) (a_LastTriggeredAt v)
    (a_TriggerCount v) (a_RecoveredAt v) (a_AckedAt v) (a_ClosedAt v) (a_Confidence v)
    (a_MultiSource v) (a_Cameras v) (a_Details v) (a_Disposition v) (a_Location v) (a_Attachments v).
Definition zero_Alarm `{AlarmDetails} : Alarm :=
  mk_Alarm _ 0 "" "" "" "" "" "" "" "" "" "" "" "" "" "" "" "" "" "" "" 0 0 0 0 0 0 (S754_zero false)
    false [] ∅ None None [].

(** Verification results. *)
Abbreviation DispositionRealFire := "REAL_FIRE".
Abbreviation DispositionFalseAlarm := "FALSE_ALARM".
Abbreviation DispositionTest := "TEST".
Abbreviation DispositionMaintenance := "MAINTENANCE".
Abbreviation DispositionFault := "FAULT".
Definition ValidDispositionResult (v : string) : Prop :=
  v = DispositionRealFire ∨ v = DispositionFalseAlarm ∨ v = DispositionTest
  ∨ v = DispositionMaintenance ∨ v = DispositionFault.
#[export] Instance ValidDispositionResult_dec v : Decision (ValidDispositionResult v).
Proof. unfold ValidDispositionResult. apply _. Defined.

Definition fireAlarmTypes : list string :=
  ["FIRE"; "FIRE_RISK"; "SMOKE_DETECTED"; "FLAME_DETECTED"; "ELECTRICAL_FIRE"; "MANUAL_ALARM"; "GAS_LEAK"].

Definition MaxAlarmAttachments : nat := 10.

Definition invalid_alarm (text : string) : error := mk_error Validation text.
Definition ErrDispositionRequired : error := invalid_alarm "火警及紧急告警须先填写核实结论再关闭".
Definition ErrAlarmClosed : error := invalid_alarm "已关闭的告警不能再修改附件".
Definition ErrTooManyAttachments : error := invalid_alarm "每条告警最多 10 个附件".
Definition ErrAttachmentNotFound : error := mk_error Other "附件不存在".

(** The bus topic of every accepted report. *)
Abbreviation TopicAlarmReported := "iot.alarm.reported".

Section alarms.
Context `{AlarmDetails}.

Definition RequiresVerification `{Platform, UpperCase} (a : Alarm) : Prop :=
  equal_fold (a_AlarmLevel a) "CRITICAL" ∨ to_upper (a_AlarmType a) ∈ runes <$> fireAlarmTypes.
#[export] Instance RequiresVerification_dec `{Platform, UpperCase} a : Decision (RequiresVerification a).
Proof. unfold RequiresVerification. apply _. Defined.

(** ** Report events *)

Record OutboxEvent := mk_OutboxEvent {
  oe_Seq : Z; oe_Topic : string; oe_Key : string; oe_Payload : string }.
#[export] Instance eta_OutboxEvent : Settable OutboxEvent := λ v,
  mk_OutboxEvent (oe_Seq v) (oe_Topic v) (oe_Key v) (oe_Payload v).

(** [json.Marshal] of an alarm, whose error the code drops. *)
Class AlarmJson := marshal_alarm : Alarm → string.

(** [json.Unmarshal] into an alarm, and what subscribers rely on: an alarm
    that could be encoded, its texts UTF-8, is read back with its texts and
    counts. *)
Class AlarmDecode := unmarshal_alarm : string → res Alarm.
Record reads_as (a b : Alarm) : Prop := {
  ra_id : a_ID b = a_ID a; ra_tenant : a_TenantID b = a_TenantID a;
  ra_device : a_DeviceID b = a_DeviceID a; ra_type : a_AlarmType b = a_AlarmType a;
  ra_level : a_AlarmLevel b = a_AlarmLevel a; ra_status : a_Status b = a_Status a;
  ra_count : a_TriggerCount b = a_TriggerCount a }.
Definition utf8_texts (a : Alarm) : Prop :=
  Forall (λ s, valid_utf8 (bytes_of s) = true)
    [a_ID a; a_TenantID a; a_DeviceID a; a_AlarmType a; a_AlarmLevel a; a_Status a].
Definition encodable `{AlarmJson} (a : Alarm) : Prop := marshal_alarm a ≠ "" ∧ utf8_texts a.
Class AlarmJsonLaws `{AlarmJson, AlarmDecode} : Prop :=
  alarm_read_back : ∀ a, encodable a → ∃ b, unmarshal_alarm (marshal_alarm a) = Ok b ∧ reads_as a b.

Definition AlarmReportEvent `{AlarmJson} (saved report : Alarm) : OutboxEvent :=
  let report := report <| a_ID := a_ID saved |> <| a_FirstTriggeredAt := a_FirstTriggeredAt saved |>
    <| a_TriggerCount := a_TriggerCount saved |> <| a_Status := a_Status saved |> in
  mk_OutboxEvent 0 TopicAlarmReported (a_ID saved) (marshal_alarm report).

(** ** Component alarms *)

Record ComponentAlarmState := mk_ComponentAlarmState {
  ca_Timestamp : Z; ca_MessageID : string; ca_Active : bool; ca_AlarmID : string; ca_Event : string }.
#[export] Instance eta_ComponentAlarmState : Settable ComponentAlarmState := λ v,
  mk_ComponentAlarmState (ca_Timestamp v) (ca_MessageID v) (ca_Active v) (ca_AlarmID v) (ca_Event v).
Definition zero_ComponentAlarmState : ComponentAlarmState := mk_ComponentAlarmState 0 "" false "" "".

Definition Supersedes (next old : ComponentAlarmState) : bool :=
  if decide (ca_Timestamp next < ca_Timestamp old
             ∨ ca_MessageID next = ca_MessageID old ∧ ca_MessageID old ≠ "") then false
  else bool_decide (ca_Timestamp next ≠ ca_Timestamp old) || (negb (ca_Active old) && ca_Active next).

(** The alarm is open. *)
Definition active_alarm (a : Alarm) : Prop := a_Status a = "ACTIVE" ∨ a_Status a = "ACKED".
#[export] Instance active_alarm_dec a : Decision (active_alarm a).
Proof. unfold active_alarm. apply _. Defined.

Definition TransitionComponentAlarm (candidate old : Alarm) (state : ComponentAlarmState)
    : Alarm * string :=
  if ca_Active state then
    if decide (active_alarm old) then
      let old := old <| a_LastTriggeredAt := a_LastTriggeredAt candidate |>
        <| a_TriggerCount ::= (λ n, wrap64 (n + 1)) |> <| a_TriggerID := a_TriggerID candidate |>
        <| a_Details := a_Details candidate |> in
      let old := if decide (a_ComponentName candidate ≠ "")
                 then old <| a_ComponentName := a_ComponentName candidate |> else old in
      let old := if decide (a_ComponentLocation candidate ≠ "")
                 then old <| a_ComponentLocation := a_ComponentLocation candidate |> else old in
      (old, "")
    else (candidate, "raised")
  else if decide (active_alarm old) then
    (old <| a_Status := "RECOVERED" |> <| a_RecoveredAt := a_LastTriggeredAt candidate |>, "recovered")
  else (old, "").
End alarms.
