(* ===== verification/AlarmStore.v ===== *)
(** The alarm store of the memory adapter: alarms, component states and the
    outbox of report events (internal/adapters/memory/repository.go,
    component.go, external_alarm.go).

    Every method but [DrainOutbox] holds the repository's mutex and is one
    step.  [cloneAlarm] copies, which is the identity on values. *)
From S2P Require Import Prelude GoText GoJson AlarmModel.

(** [key(parts...)]: the parts joined by NUL bytes. *)
Definition nul : string := String (of_byte 0) "".
Definition store_key (parts : list string) : string := join nul parts.

(** [strings.Contains] *)
Fixpoint contains_text (s sub : string) : bool :=
  has_prefix s sub || match s with EmptyString => false | String _ s => contains_text s sub end.

Record alarm_repo `{AlarmDetails} := mk_alarm_repo {
  ar_alarms : gmap string Alarm;
  ar_componentAlarms : gmap string ComponentAlarmState;
  ar_outbox : list OutboxEvent;
  ar_outboxSeq : Z }.
#[export] Instance eta_alarm_repo `{AlarmDetails} : Settable alarm_repo := λ v,
  mk_alarm_repo _ (ar_alarms v) (ar_componentAlarms v) (ar_outbox v) (ar_outboxSeq v).

Section store.
Context `{AlarmDetails, !AlarmJson}.

Definition empty_alarm_repo : alarm_repo := mk_alarm_repo _ ∅ ∅ [] 0.

Definition alarm_key (a : Alarm) : string := store_key [a_TenantID a; a_ID a].
Definition component_key (a : Alarm) : string := store_key [a_TenantID a; a_DeviceID a; a_RuleID a].
Definition put_alarm (k : string) (a : Alarm) (r : alarm_repo) : alarm_repo :=
  r <| ar_alarms ::= <[k := a]> |>.

Definition addOutbox (v : OutboxEvent) (r : alarm_repo) : alarm_repo :=
  let seq := wrap64 (ar_outboxSeq r + 1) in
  r <| ar_outboxSeq := seq |> <| ar_outbox ::= (λ l, l ++ [v <| oe_Seq := seq |>]) |>.

(** ** Components *)

Definition ApplyComponentAlarm (candidate : Alarm) (state : ComponentAlarmState) (r : alarm_repo)
    : Alarm * string * alarm_repo :=
  let k := component_key candidate in
  let previous := default zero_ComponentAlarmState (ar_componentAlarms r !! k) in
  let old := default zero_Alarm
               (ar_alarms r !! store_key [a_TenantID candidate; ca_AlarmID previous]) in
  if decide (ca_MessageID state = ca_MessageID previous ∧ ca_Timestamp state = ca_Timestamp previous)
  then (old, ca_Event previous, r)
  else if negb (Supersedes state previous) then (old, "", r)
  else
    let '(alarm, event) := TransitionComponentAlarm candidate old state in
    let state := state <| ca_AlarmID := a_ID alarm |> <| ca_Event := event |> in
    let '(alarm, r) :=
      if decide (a_ID alarm ≠ "") then
        let stored := default zero_Alarm (ar_alarms r !! alarm_key alarm) in
        let alarm := alarm <| a_Version := wrap64 (a_Version stored + 1) |> in
        let r := put_alarm (alarm_key alarm) alarm r in
        (alarm, if ca_Active state then addOutbox (AlarmReportEvent alarm candidate) r else r)
      else (alarm, r) in
    (alarm, event, r <| ar_componentAlarms ::= <[k := state]> |>).

(** ** Rule and device alarms *)

(** The open alarm of the same rule and device. *)
Definition same_open (v a : Alarm) : Prop :=
  a_TenantID a = a_TenantID v ∧ a_DeviceID a = a_DeviceID v ∧ a_RuleID a = a_RuleID v ∧ active_alarm a.
#[export] Instance same_open_dec v a : Decision (same_open v a).
Proof. unfold same_open. apply _. Defined.

(** The first alarm that satisfies [P] as [range] visits the map. *)
Definition first_alarm `{MapOrder} (P : Alarm → Prop) `{∀ a, Decision (P a)} (r : alarm_repo)
    : option (string * Alarm) :=
  head (filter (λ ka, P ka.2)
    (omap (λ k, a ← ar_alarms r !! k; Some (k, a)) (map_range (ar_alarms r)))).

Definition UpsertAlarm `{MapOrder} (v : Alarm) (r : alarm_repo) : Alarm * bool * alarm_repo :=
  match first_alarm (same_open v) r with
  | Some (k, a) =>
    if decide (a_TriggerID v ≠ "" ∧ a_TriggerID a = a_TriggerID v) then (a, false, r)
    else
      let a := a <| a_LastTriggeredAt := a_LastTriggeredAt v |>
        <| a_TriggerCount ::= (λ n, wrap64 (n + 1)) |> in
      let a := if f64_ltb (a_Confidence a) (a_Confidence v)
               then a <| a_Confidence := a_Confidence v |> else a in
      let a := a <| a_Version ::= (λ n, wrap64 (n + 1)) |> in
      (a, false, addOutbox (AlarmReportEvent a v) (put_alarm k a r))
  | None =>
    let v := v <| a_Version := 1 |> in
    (v, true, addOutbox (AlarmReportEvent v v) (put_alarm (alarm_key v) v r))
  end.

(** ** External events *)

Definition invalid_ingress (text : string) : error :=
  mk_error Validation ("invalid ingress message: " +:+ text).

Definition UpsertExternalAlarm (report : Alarm) (r : alarm_repo)
    : res (Alarm * bool * bool) * alarm_repo :=
  if decide (a_TenantID report = "" ∨ a_ID report = "" ∨ a_DeviceID report = ""
             ∨ a_TriggerID report = "" ∨ ¬ contains_text (a_RuleID report) ":external:")
  then (Err (invalid_ingress "external alarm identity is incomplete"), r)
  else
    let k := alarm_key report in
    match ar_alarms r !! k with
    | Some saved =>
      if decide (a_DeviceID saved ≠ a_DeviceID report ∨ a_RuleID saved ≠ a_RuleID report)
      then (Err (invalid_ingress "external alarm identity belongs to a different device or rule"), r)
      else if decide (a_TriggerID saved = a_TriggerID report ∨ a_Status saved = "CLOSED"
                      ∨ a_Status saved = "RECOVERED")
      then (Ok (saved, false, false), r)
      else
        let saved := saved <| a_Details := a_Details report |> <| a_Content := a_Content report |>
          <| a_LastTriggeredAt := a_LastTriggeredAt report |>
          <| a_AlarmLevel := a_AlarmLevel report |> <| a_Confidence := a_Confidence report |>
          <| a_TriggerID := a_TriggerID report |> <| a_TriggerCount ::= (λ n, wrap64 (n + 1)) |>
          <| a_Version ::= (λ n, wrap64 (n + 1)) |> in
        (Ok (saved, false, true), addOutbox (AlarmReportEvent saved report) (put_alarm k saved r))
    | None =>
      let saved := report <| a_TriggerCount := 1 |> <| a_Version := 1 |> in
      (Ok (saved, true, true), addOutbox (AlarmReportEvent saved report) (put_alarm k saved r))
    end.

(** ** Reads and updates *)

Definition alarm_not_found : error := mk_error NotFound "not found".

Definition GetAlarm (tenant id : string) (r : alarm_repo) : res Alarm :=
  match ar_alarms r !! store_key [tenant; id] with
  | Some v => Ok v
  | None => Err alarm_not_found
  end.

Definition UpdateAlarm (v : Alarm) (r : alarm_repo) : res unit * alarm_repo :=
  match ar_alarms r !! alarm_key v with
  | Some old => (Ok tt, put_alarm (alarm_key v) (v <| a_Version := wrap64 (a_Version old + 1) |>) r)
  | None => (Err alarm_not_found, r)
  end.

(** Writes only if the stored version equals [v.Version]. *)
Definition UpdateAlarmIf (v : Alarm) (r : alarm_repo) : res bool * alarm_repo :=
  match ar_alarms r !! alarm_key v with
  | Some old =>
    if decide (a_Version old ≠ a_Version v) then (Ok false, r)
    else (Ok true, put_alarm (alarm_key v) (v <| a_Version ::= (λ n, wrap64 (n + 1)) |>) r)
  | None => (Err alarm_not_found, r)
  end.

Definition HasOpenAlarm (tenant device : string) (r : alarm_repo) : bool :=
  bool_decide (map_Exists (λ _ v, a_TenantID v = tenant ∧ a_DeviceID v = device ∧ active_alarm v)
    (ar_alarms r)).

(** ** The outbox *)

(** Publishing a batch in order, up to the first failure: the events sent and
    the error, if any. *)
Fixpoint publish_batch (publish : OutboxEvent → option error) (batch : list OutboxEvent)
    : list OutboxEvent * option error :=
  match batch with
  | [] => ([], None)
  | v :: batch =>
    match publish v with
    | Some e => ([], Some e)
    | None => let '(sent, e) := publish_batch publish batch in (v :: sent, e)
    end
  end.

(** Publishing runs without the mutex: [meanwhile] is what other calls do to
    the store before the sent events are deleted. *)
Definition DrainOutbox (limit : nat) (publish : OutboxEvent → option error)
    (meanwhile : alarm_repo → alarm_repo) (r : alarm_repo)
    : list OutboxEvent * option error * alarm_repo :=
  let '(sent, e) := publish_batch publish (take limit (ar_outbox r)) in
  (sent, e, (meanwhile r) <| ar_outbox ::= filter (λ v, oe_Seq v ∉ oe_Seq <$> sent) |>).
End store.
