(* ===== verification/AlarmEngine.v ===== *)
(** The engine's changes of a stored alarm (internal/core/alarm_lifecycle.go,
    alarm_rules.go, video_media.go) and the optimistic loop that applies them
    (internal/core/consistency.go, mutateAlarm).

    The audit entries, bus and realtime messages and the device status that
    follow a committed change are not modelled. *)
From S2P Require Import Prelude GoText GoJson StoreIO AlarmModel AlarmStore.

Definition engine_error (text : string) : error := mk_error Other text.

(** What [mutateAlarm] is given: an error, nothing to write, or the alarm to
    write. *)
Definition alarm_fn `{AlarmDetails} : Type := Alarm → res (option Alarm).

Section changes.
Context `{AlarmDetails, Platform, UpperCase}.

(** The change [SetAlarmStatus] makes at the instant [now]. *)
Definition set_status (status : string) (now : Z) : alarm_fn := λ a,
  if decide (status = "ACKED") then
    if decide (a_Status a ≠ "ACTIVE") then Err (engine_error "only active alarms can be acknowledged")
    else Ok (Some (a <| a_Status := status |> <| a_AckedAt := now |>))
  else if decide (status = "RECOVERED") then
    if decide (¬ active_alarm a)
    then Err (engine_error "only active or acknowledged alarms can be recovered")
    else Ok (Some (a <| a_Status := status |> <| a_RecoveredAt := now |>))
  else if decide (status = "CLOSED") then
    if decide (RequiresVerification a ∧ a_Disposition a = None) then Err ErrDispositionRequired
    else Ok (Some (a <| a_Status := status |> <| a_ClosedAt := now |>))
  else if decide (status = "SUPPRESSED") then
    if decide (¬ active_alarm a)
    then Err (engine_error "only active or acknowledged alarms can be suppressed")
    else Ok (Some (a <| a_Status := status |>))
  else Err (engine_error ("unsupported status " +:+ status)).

(** The newest analysis as [VerifyAlarm] copies it: when it was made, its risk
    level and the version of its prompt. *)
Record ai_snapshot := mk_ai_snapshot { ai_at : Z; ai_risk : string; ai_prompt : string }.

(** The disposition [VerifyAlarm] records: the handler, the time and the
    analysis come from the platform, never from the request. *)
Definition stamp_disposition (d : AlarmDisposition) (actor : string) (now : Z)
    (analysis : option ai_snapshot) : AlarmDisposition :=
  let d := d <| ad_Handler := actor |> <| ad_VerifiedAt := now |> <| ad_AIAnalysisAt := 0 |>
    <| ad_AIRiskLevel := "" |> <| ad_AIPromptVersion := "" |> in
  match analysis with
  | Some v => d <| ad_AIAnalysisAt := ai_at v |> <| ad_AIRiskLevel := ai_risk v |>
      <| ad_AIPromptVersion := ai_prompt v |>
  | None => d
  end.
Definition verify_alarm (d : AlarmDisposition) (now : Z) : alarm_fn := λ a,
  if decide (a_Status a = "CLOSED") then Err (engine_error "closed alarms cannot be verified again")
  else if decide (ad_ArrivedAt d ≠ 0 ∧ (ad_ArrivedAt d < a_FirstTriggeredAt a ∨ now < ad_ArrivedAt d))
  then Err (engine_error "arrival time must be between the alarm and now")
  else Ok (Some (a <| a_Disposition := Some d |>)).

Definition changeAttachments (change : Alarm → res Alarm) : alarm_fn := λ a,
  if decide (a_Status a = "CLOSED") then Err ErrAlarmClosed
  else match change a with Ok a => Ok (Some a) | Err e => Err e end.
Definition add_attachment (att : AlarmAttachment) : Alarm → res Alarm := λ a,
  if decide (MaxAlarmAttachments ≤ length (a_Attachments a))%nat then Err ErrTooManyAttachments
  else Ok (a <| a_Attachments ::= (λ l, l ++ [att]) |>).
Definition remove_attachment (attachmentID : string) : Alarm → res Alarm := λ a,
  match find_first (λ v, at_ID v = attachmentID) (a_Attachments a) with
  | Some (index, _) => Ok (a <| a_Attachments ::= remove_at index |>)
  | None => Err ErrAttachmentNotFound
  end.

(** The recovery of an alarm whose rule or device reports the normal state. *)
Definition recover_alarm (now : Z) : alarm_fn := λ a,
  if decide (¬ active_alarm a) then Ok None
  else Ok (Some (a <| a_Status := "RECOVERED" |> <| a_RecoveredAt := now |>)).

(** Whether a value of the details holds the event; a value that is missing
    holds none. *)
Definition sameVideoEvent (value : option detail) (event : VideoAlarmEvent detail) : bool :=
  match value ≫= detail_event with
  | Some linked =>
    bool_decide (ve_EventID linked ≠ "" ∧ ve_EventID linked = ve_EventID event
                 ∧ ve_TenantID linked = ve_TenantID event)
  | None => false
  end.

(** Where the rules attach video events to an alarm. *)
Definition video_slots : list string := ["videoEvent"; "latestVideoEvent"; "videoConfirmation"].

(** The archived event is put in the slots that hold it, whatever the status
    of the alarm. *)
Fixpoint put_media (event : VideoAlarmEvent detail) (slots : list string) (d : details) : details * bool :=
  match slots with
  | [] => (d, false)
  | slot :: slots =>
    if sameVideoEvent (d !! slot) event
    then ((put_media event slots (<[slot := event_detail event]> d)).1, true)
    else put_media event slots d
  end.
Definition attach_media (event : VideoAlarmEvent detail) : alarm_fn := λ a,
  let '(d, changed) := put_media event video_slots (a_Details a) in
  if changed : bool then Ok (Some (a <| a_Details := d |>)) else Ok None.
End changes.

(** ** The optimistic loop *)

Section mutate.
Context `{AlarmDetails} (sched : store_schedule alarm_repo).
Abbreviation AlarmIO := (StoreIO alarm_repo).

Definition casAttempts : nat := 8.
Definition concurrent_update (alarmID : string) : error :=
  mk_error Conflict ("alarm " +:+ alarmID +:+ ": concurrent update; retry").

Fixpoint mutate_attempts (attempts : nat) (tenant alarmID : string) (fn : alarm_fn)
    : AlarmIO (Alarm * bool) :=
  match attempts with
  | O => store_fails (concurrent_update alarmID)
  | S attempts =>
    current ← store_call sched (λ r, (GetAlarm tenant alarmID r, r));
    match fn current with
    | Err e => store_fails e
    | Ok None => mret (current, false)
    | Ok (Some next) =>
      let next := next <| a_Version := a_Version current |> in
      ok ← store_call sched (UpdateAlarmIf next);
      if ok : bool then mret (next <| a_Version ::= (λ n, wrap64 (n + 1)) |>, true)
      else mutate_attempts attempts tenant alarmID fn
    end
  end.
Definition mutateAlarm : string → string → alarm_fn → AlarmIO (Alarm * bool) :=
  mutate_attempts casAttempts.

Definition SetAlarmStatus_change `{Platform, UpperCase} (tenant alarmID status : string) (now : Z)
    : AlarmIO (Alarm * bool) := mutateAlarm tenant alarmID (set_status status now).
(** The quotes and escapes of the verb [%q] are left out of the error. *)
Definition VerifyAlarm_change (tenant alarmID : string) (d : AlarmDisposition) (actor : string)
    (now : Z) (analysis : option ai_snapshot) : AlarmIO (Alarm * bool) :=
  if decide (¬ ValidDispositionResult (ad_Result d))
  then store_fails (engine_error ("unknown verification result " +:+ ad_Result d))
  else mutateAlarm tenant alarmID (verify_alarm (stamp_disposition d actor now analysis) now).
Definition AddAlarmAttachment_change (tenant alarmID : string) (att : AlarmAttachment)
    (actor : string) (now : Z) : AlarmIO (Alarm * bool) :=
  mutateAlarm tenant alarmID (changeAttachments
    (add_attachment (att <| at_UploadedBy := actor |> <| at_UploadedAt := now |>))).
(** One round of [updateVideoAlarmMedia], for an alarm that holds the event. *)
Definition updateVideoAlarmMedia_change (tenant alarmID : string) (event : VideoAlarmEvent detail)
    : AlarmIO (Alarm * bool) := mutateAlarm tenant alarmID (attach_media event).
Definition RemoveAlarmAttachment_change (tenant alarmID attachmentID : string)
    : AlarmIO (Alarm * bool) :=
  mutateAlarm tenant alarmID (changeAttachments (remove_attachment attachmentID)).
End mutate.
