(* ===== verification/AlarmRuns.v ===== *)
(** Histories of the alarm store: the calls of the engine as steps, what may be
    assumed of the alarms it hands in, the invariant of the store and the kinds
    of effect a step has. *)
From S2P Require Import Prelude GoText GoJson AlarmModel AlarmStore AlarmEngine.

(** ** Keys *)

Fixpoint nul_free (s : string) : Prop :=
  match s with
  | EmptyString => True
  | String c s => c ≠ of_byte 0 ∧ nul_free s
  end.

Lemma nul_split a a' b b' :
  nul_free a → nul_free a' → a +:+ nul +:+ b = a' +:+ nul +:+ b' → a = a' ∧ b = b'.
Proof.
  revert a'. induction a as [|c a IH]; intros [|c' a'].
  - intros _ _ E. by injection E.
  - intros _ [Hc _] E. injection E as E _. by destruct Hc.
  - intros [Hc _] _ E. injection E as E _. by destruct Hc.
  - intros [_ Ha] [_ Ha'] E. injection E as -> E. by destruct (IH a' Ha Ha' E) as [-> ->].
Qed.

Lemma store_key2_inj t i t' i' :
  nul_free t → nul_free t' → store_key [t; i] = store_key [t'; i'] → t = t' ∧ i = i'.
Proof. intros Ht Ht' E. by apply nul_split. Qed.

Lemma store_key3_inj t d i t' d' i' :
  nul_free t → nul_free t' → nul_free d → nul_free d' →
  store_key [t; d; i] = store_key [t'; d'; i'] → t = t' ∧ d = d' ∧ i = i'.
Proof.
  intros Ht Ht' Hd Hd' E. apply nul_split in E as [-> E]; [|done..].
  by apply nul_split in E as [-> ->].
Qed.

Section runs.
Context `{AlarmDetails, !AlarmJson, MapOrder, Platform, UpperCase}.

(** ** Steps *)

(** The changes [mutateAlarm] is called with. *)
Inductive alarm_change :=
  | ChStatus (status : string) (now : Z)
  | ChVerify (d : AlarmDisposition) (now : Z)
  | ChAttach (att : AlarmAttachment)
  | ChDetach (attachmentID : string)
  | ChRecover (now : Z)
  | ChMedia (event : VideoAlarmEvent detail).

Definition change_fn (ch : alarm_change) : alarm_fn :=
  match ch with
  | ChStatus status now => set_status status now
  | ChVerify d now => verify_alarm d now
  | ChAttach att => changeAttachments (add_attachment att)
  | ChDetach i => changeAttachments (remove_attachment i)
  | ChRecover now => recover_alarm now
  | ChMedia event => attach_media event
  end.

(** A committed or refused round of [mutateAlarm] on the alarm it read. *)
Definition apply_change (tenant alarmID : string) (fn : alarm_fn) (r : alarm_repo) : alarm_repo :=
  match GetAlarm tenant alarmID r with
  | Ok a =>
    match fn a with
    | Ok (Some next) => (UpdateAlarmIf (next <| a_Version := a_Version a |>) r).2
    | _ => r
    end
  | Err _ => r
  end.

Inductive alarm_op :=
  | OpComponent (candidate : Alarm) (state : ComponentAlarmState)
  | OpUpsert (v : Alarm)
  | OpExternal (report : Alarm)
  | OpChange (tenant alarmID : string) (ch : alarm_change).

Definition exec_op (op : alarm_op) (r : alarm_repo) : alarm_repo :=
  match op with
  | OpComponent c st => (ApplyComponentAlarm c st r).2
  | OpUpsert v => (UpsertAlarm v r).2
  | OpExternal v => (UpsertExternalAlarm v r).2
  | OpChange tenant alarmID ch => apply_change tenant alarmID (change_fn ch) r
  end.

(** ** What the engine hands in *)

Definition external_rule (s : string) : bool := contains_text s ":external:".
Definition component_rule (s : string) : bool := contains_text s ":component:" && negb (external_rule s).

(** A candidate alarm as the engine builds it: a usable identity, open, first
    report. *)
Record candidate_ok (a : Alarm) : Prop := {
  co_tenant : nul_free (a_TenantID a);
  co_device : nul_free (a_DeviceID a);
  co_id : nul_free (a_ID a);
  co_id_nonempty : a_ID a ≠ "";
  co_status : a_Status a = "ACTIVE";
  co_count : a_TriggerCount a = 1;
  co_attachments : a_Attachments a = [];
  co_disposition : a_Disposition a = None }.

(** Identities are drawn at random, or derived from the external event. *)
Definition fresh_id (a : Alarm) (r : alarm_repo) : Prop :=
  ∀ k b, ar_alarms r !! k = Some b → a_ID b ≠ a_ID a.

Definition op_ok (op : alarm_op) (r : alarm_repo) : Prop :=
  match op with
  | OpComponent c st => candidate_ok c ∧ component_rule (a_RuleID c) ∧ fresh_id c r
  | OpUpsert v => candidate_ok v ∧ negb (component_rule (a_RuleID v)) ∧
      negb (external_rule (a_RuleID v)) ∧ fresh_id v r
  | OpExternal v => candidate_ok v ∧
      (∀ k b, ar_alarms r !! k = Some b → a_ID b = a_ID v → k = alarm_key v)
  | OpChange _ _ (ChVerify d _) => ValidDispositionResult (ad_Result d)
  | OpChange _ _ _ => True
  end.

(** ** The invariant *)

(** An alarm that must be verified is closed with a verification result, and
    every result is a known one. *)
Definition verified_ok (a : Alarm) : Prop :=
  (∀ d, a_Disposition a = Some d → ValidDispositionResult (ad_Result d)) ∧
  (a_Status a = "CLOSED" → RequiresVerification a → is_Some (a_Disposition a)).

Record stored_alarm_ok (n : Z) (k : string) (a : Alarm) : Prop := {
  sa_key : k = alarm_key a;
  sa_tenant : nul_free (a_TenantID a);
  sa_device : nul_free (a_DeviceID a);
  sa_id : a_ID a ≠ "";
  sa_version : 1 ≤ a_Version a ≤ n;
  sa_count : 1 ≤ a_TriggerCount a ≤ n;
  sa_attachments : (length (a_Attachments a) ≤ MaxAlarmAttachments)%nat }.

Definition same_subject (a b : Alarm) : Prop :=
  a_TenantID a = a_TenantID b ∧ a_DeviceID a = a_DeviceID b ∧ a_RuleID a = a_RuleID b.

(** The store after [n] steps. *)
Record store_ok (n : Z) (r : alarm_repo) : Prop := {
  so_alarms : ∀ k a, ar_alarms r !! k = Some a → stored_alarm_ok n k a;
  so_ids : ∀ k k' a a', ar_alarms r !! k = Some a → ar_alarms r !! k' = Some a' →
    a_ID a = a_ID a' → k = k';
  so_one_open : ∀ k k' a a', ar_alarms r !! k = Some a → ar_alarms r !! k' = Some a' →
    same_subject a a' → active_alarm a → active_alarm a' → ¬ external_rule (a_RuleID a) → k = k';
  so_watermark : ∀ k st, ar_componentAlarms r !! k = Some st → ca_AlarmID st ≠ "" →
    ∃ a, ar_alarms r !! alarm_key a = Some a ∧ k = component_key a ∧ ca_AlarmID st = a_ID a;
  so_component : ∀ k a, ar_alarms r !! k = Some a → component_rule (a_RuleID a) → active_alarm a →
    ∃ st, ar_componentAlarms r !! component_key a = Some st ∧ ca_AlarmID st = a_ID a;
  so_seq : 0 ≤ ar_outboxSeq r ≤ n }.

(** ** The effects of a step *)

(** One step of the status of an alarm: it is never opened again. *)
Inductive status_step : string → string → Prop :=
  | st_ack : status_step "ACTIVE" "ACKED"
  | st_recover s : s = "ACTIVE" ∨ s = "ACKED" → status_step s "RECOVERED"
  | st_suppress s : s = "ACTIVE" ∨ s = "ACKED" → status_step s "SUPPRESSED"
  | st_close s : status_step s "CLOSED".

Definition same_identity (a a' : Alarm) : Prop :=
  a_TenantID a' = a_TenantID a ∧ a_ID a' = a_ID a ∧ a_DeviceID a' = a_DeviceID a ∧
  a_RuleID a' = a_RuleID a ∧ a_ComponentID a' = a_ComponentID a ∧
  a_AlarmType a' = a_AlarmType a ∧ a_FirstTriggeredAt a' = a_FirstTriggeredAt a.

(** The details of an alarm when the media of a video event they hold are
    archived: the event takes its own place. *)
Definition media_step (d d' : details) : Prop :=
  ∃ slot event, slot ∈ video_slots ∧ sameVideoEvent (d !! slot) event = true ∧
    d' = <[slot := event_detail event]> d.

(** What stays of a closed alarm: everything but the time of closing, the
    version, and the media of the video events in its details. *)
Definition kept_closed (a a' : Alarm) : Prop :=
  a' = a <| a_ClosedAt := a_ClosedAt a' |> <| a_Version := a_Version a' |> <| a_Details := a_Details a' |> ∧
  rtc media_step (a_Details a) (a_Details a').

(** How one write changes an alarm, the version apart. *)
Record evolve (a a' : Alarm) : Prop := {
  ev_identity : same_identity a a';
  ev_status : a_Status a' = a_Status a ∨ status_step (a_Status a) (a_Status a');
  ev_closed : a_Status a = "CLOSED" → kept_closed a a';
  ev_disposition : is_Some (a_Disposition a) → is_Some (a_Disposition a');
  ev_verified : verified_ok a → verified_ok a';
  ev_attachments : (length (a_Attachments a) ≤ MaxAlarmAttachments)%nat →
    (length (a_Attachments a') ≤ MaxAlarmAttachments)%nat }.

(** Marking the state of the component and queueing a report. *)
Definition mark (k : string) (w : option ComponentAlarmState) (r : alarm_repo) : alarm_repo :=
  match w with Some st => r <| ar_componentAlarms ::= <[k := st]> |> | None => r end.
Definition emit (o : option OutboxEvent) (r : alarm_repo) : alarm_repo :=
  match o with Some e => addOutbox e r | None => r end.
Definition reports (a : Alarm) (o : option OutboxEvent) : Prop :=
  match o with Some e => oe_Key e = a_ID a ∧ oe_Topic e = TopicAlarmReported | None => True end.
Definition marks (a : Alarm) (w : option ComponentAlarmState) : Prop :=
  match w with Some st => ca_AlarmID st = a_ID a | None => True end.

(** The alarm a report event carries: that of [a], counted [count] times. *)
Definition same_notice (a b : Alarm) : Prop :=
  a_ID b = a_ID a ∧ a_TenantID b = a_TenantID a ∧ a_DeviceID b = a_DeviceID a.
Definition carries (a : Alarm) (count : Z) (o : option OutboxEvent) : Prop :=
  match o with
  | Some e => ∃ b, oe_Payload e = marshal_alarm b ∧ same_notice a b ∧ a_TriggerCount b = count
  | None => True
  end.
(** The first report carries the alarm as it is raised. *)
Definition as_raised (a b : Alarm) : Prop :=
  same_notice a b ∧ a_AlarmType b = a_AlarmType a ∧ a_Status b = "ACTIVE" ∧ a_TriggerCount b = 1.
Definition carries_first (a : Alarm) (e : OutboxEvent) : Prop :=
  ∃ b, oe_Payload e = marshal_alarm b ∧ as_raised a b.

Definition units (o : option OutboxEvent) : Z := match o with Some _ => 1 | None => 0 end.

Inductive alarm_effect (r : alarm_repo) : alarm_repo → Prop :=
  | eff_same : alarm_effect r r
  | eff_idle k st :
      ca_AlarmID st = "" → (∀ st', ar_componentAlarms r !! k = Some st' → ca_AlarmID st' = "") →
      alarm_effect r (mark k (Some st) r)
  | eff_update k (a a' : Alarm) w o :
      ar_alarms r !! k = Some a → evolve a a' → a_Version a' = wrap64 (a_Version a + 1) →
      a_TriggerCount a' = wrap64 (a_TriggerCount a + units o) →
      marks a w → reports a o →
      (is_Some w → ∃ st, ar_componentAlarms r !! component_key a = Some st ∧ ca_AlarmID st = a_ID a) →
      carries a (wrap64 (a_TriggerCount a + 1)) o →
      alarm_effect r (emit o (mark (component_key a) w (put_alarm k a' r)))
  | eff_create (a : Alarm) w e :
      candidate_ok a → a_Version a = 1 →
      ar_alarms r !! alarm_key a = None → fresh_id a r →
      (external_rule (a_RuleID a) ∨
       ∀ k b, ar_alarms r !! k = Some b → same_subject a b → ¬ active_alarm b) →
      (component_rule (a_RuleID a) → is_Some w) → marks a w → reports a (Some e) → carries_first a e →
      alarm_effect r (emit (Some e) (mark (component_key a) w (put_alarm (alarm_key a) a r))).
End runs.
