(* ===== verification/AlarmEffects.v ===== *)
(** Every step of a history has one of the effects. *)
From S2P Require Import Prelude GoText GoJson AlarmModel AlarmStore AlarmEngine AlarmRuns.

Section effects.
Context `{AlarmDetails, !AlarmJson, MapOrder, Platform, UpperCase}.

Lemma kept_closed_refl a : kept_closed a a.
Proof. split; [by destruct a|done]. Qed.

Lemma evolve_version a v : evolve a (a <| a_Version := v |>).
Proof. split; cbn; auto; done. Qed.

Lemma evolve_refl a : evolve a a.
Proof. split; auto; [by repeat split|]. intros _. apply kept_closed_refl. Qed.

(** ** The engine's changes *)

(** Closing what still has to be verified is refused. *)
Lemma verified_close a a' :
  ¬ (RequiresVerification a ∧ a_Disposition a = None) →
  a_AlarmLevel a' = a_AlarmLevel a → a_AlarmType a' = a_AlarmType a →
  a_Disposition a' = a_Disposition a → verified_ok a → verified_ok a'.
Proof.
  unfold verified_ok, RequiresVerification. intros Hno -> -> -> [Hd _]. split; [done|].
  intros _ Hreq. destruct (a_Disposition a) as [d|]; [done|]. by destruct Hno.
Qed.

Lemma verified_open a a' :
  a_Status a' ≠ "CLOSED" → a_Disposition a' = a_Disposition a → verified_ok a → verified_ok a'.
Proof. unfold verified_ok. intros Hs -> [Hd _]. by split. Qed.

Lemma set_status_evolve status now a a' :
  set_status status now a = Ok (Some a') → evolve a a' ∧ a_TriggerCount a' = a_TriggerCount a.
Proof.
  unfold set_status. intros Hs.
  destruct (decide (status = "ACKED")) as [->|_].
  { case_decide as Hst; [done|]. injection Hs as <-. split; [|done].
    split; cbn; try done.
    - right. rewrite Hst. constructor.
    - by rewrite Hst.
    - by apply verified_open. }
  destruct (decide (status = "RECOVERED")) as [->|_].
  { case_decide as Hst; [done|]. injection Hs as <-. split; [|done].
    split; cbn; try done.
    - right. by constructor.
    - intros E. destruct Hst as [E'|E']; congruence.
    - by apply verified_open. }
  destruct (decide (status = "CLOSED")) as [->|_].
  { case_decide as Hv; [done|]. injection Hs as <-. split; [|done].
    split; cbn; try done.
    - right. constructor.
    - intros E. split; [|done]. destruct a. cbn in *. by subst.
    - by apply verified_close. }
  destruct (decide (status = "SUPPRESSED")) as [->|_]; [|done].
  case_decide as Hst; [done|]. injection Hs as <-. split; [|done].
  split; cbn; try done.
  - right. by constructor.
  - intros E. destruct Hst as [E'|E']; congruence.
  - by apply verified_open.
Qed.

Lemma verify_alarm_evolve d now a a' :
  ValidDispositionResult (ad_Result d) → verify_alarm d now a = Ok (Some a') →
  evolve a a' ∧ a_TriggerCount a' = a_TriggerCount a.
Proof.
  unfold verify_alarm. intros Hd Hs. case_decide as Hc; [done|]. case_decide; [done|].
  injection Hs as <-. split; [|done]. split; cbn; try done.
  - by left.
  - intros _. split; cbn; [|done]. by intros ? [= <-].
Qed.

Lemma changeAttachments_evolve change a a' :
  changeAttachments change a = Ok (Some a') →
  (∀ b, change a = Ok b → ∃ l, b = a <| a_Attachments := l |> ∧
    ((length (a_Attachments a) ≤ MaxAlarmAttachments)%nat → (length l ≤ MaxAlarmAttachments)%nat)) →
  evolve a a' ∧ a_TriggerCount a' = a_TriggerCount a.
Proof.
  unfold changeAttachments. intros Hs Hch. case_decide as Hc; [done|].
  destruct (change a) as [b|]; [|done]. injection Hs as <-.
  destruct (Hch b eq_refl) as (l & -> & Hl). split; [|done]. split; cbn; try done. by left.
Qed.

Lemma recover_alarm_evolve now a a' :
  recover_alarm now a = Ok (Some a') → evolve a a' ∧ a_TriggerCount a' = a_TriggerCount a.
Proof.
  unfold recover_alarm. intros Hs. case_decide as Hst; [done|].
  injection Hs as <-. split; [|done]. split; cbn; try done.
  - right. by constructor.
  - intros E. destruct Hst as [E'|E']; congruence.
  - by apply verified_open.
Qed.

(** Archived media take the place of the event in the details. *)
Lemma put_media_steps event slots d :
  (∀ slot, slot ∈ slots → slot ∈ video_slots) → rtc media_step d (put_media event slots d).1.
Proof.
  revert d. induction slots as [|slot slots IH]; intros d Hs; cbn [put_media]; [done|].
  destruct (sameVideoEvent (d !! slot) event) eqn:Hsame; [|apply IH; intros ? ?; apply Hs; by right].
  eapply rtc_l; [|apply IH; intros ? ?; apply Hs; by right].
  exists slot, event. split; [apply Hs; by left|done].
Qed.

Lemma attach_media_evolve event a a' :
  attach_media event a = Ok (Some a') → evolve a a' ∧ a_TriggerCount a' = a_TriggerCount a.
Proof.
  unfold attach_media. pose proof (put_media_steps event video_slots (a_Details a) ltac:(done)) as Hm.
  destruct (put_media event video_slots (a_Details a)) as [d [|]]; [|done].
  intros Hs. injection Hs as <-. split; [|done]. split; cbn; try done. by left.
Qed.

Lemma change_fn_evolve tenant i ch r a a' :
  op_ok (OpChange tenant i ch) r → change_fn ch a = Ok (Some a') →
  evolve a a' ∧ a_TriggerCount a' = a_TriggerCount a.
Proof.
  destruct ch as [status now|d now|att|att|now|event]; cbn; intros Hop Hs.
  - by eapply set_status_evolve.
  - by eapply verify_alarm_evolve.
  - apply (changeAttachments_evolve _ _ _ Hs). unfold add_attachment. intros b Hb.
    case_decide as Hlen; [done|]. injection Hb as <-. eexists. split; [done|].
    rewrite length_app. cbn. lia.
  - apply (changeAttachments_evolve _ _ _ Hs). unfold remove_attachment. intros b Hb.
    destruct (find_first _ _) as [[j x]|] eqn:Hf; [|done]. injection Hb as <-.
    apply list_find_Some in Hf as (Hj & _). eexists. split; [done|].
    pose proof (lookup_lt_Some _ _ _ Hj). rewrite length_delete by by eexists. lia.
  - by eapply recover_alarm_evolve.
  - by eapply attach_media_evolve.
Qed.

Lemma evolve_with_version a a' v :
  evolve a a' → evolve a (a' <| a_Version := v |>).
Proof.
  intros [Hi Hs Hc Hd Hv Ha]. split; cbn; try done.
  intros E. destruct (Hc E) as [Ec Hm]. split; [|exact Hm]. by rewrite Ec at 1.
Qed.

Lemma change_effect n tenant i ch r :
  n < two63 → store_ok n r → op_ok (OpChange tenant i ch) r →
  alarm_effect r (exec_op (OpChange tenant i ch) r).
Proof.
  intros Hn Hr Hop. cbn. unfold apply_change, GetAlarm.
  destruct (ar_alarms r !! store_key [tenant; i]) as [a|] eqn:Ha; [|constructor].
  destruct (change_fn ch a) as [[next|]|] eqn:Hf; [|constructor..].
  destruct (change_fn_evolve _ _ _ _ _ _ Hop Hf) as [Hev Hcount].
  pose proof (sa_key _ _ _ (so_alarms _ _ Hr _ _ Ha)) as Hk. rewrite Hk in Ha.
  assert (alarm_key next = alarm_key a) as Hkn.
  { destruct (ev_identity _ _ Hev) as (E1 & E2 & _). unfold alarm_key. by rewrite E1, E2. }
  unfold UpdateAlarmIf. change (alarm_key (next <| a_Version := a_Version a |>)) with (alarm_key next).
  rewrite Hkn, Ha. rewrite decide_False by (by intros []).
  destruct (so_alarms _ _ Hr _ _ Ha) as [_ _ _ _ _ Hc _].
  apply (eff_update r (alarm_key a) a _ None None); [done| |done| |done|done|by intros []|done].
  - by apply evolve_with_version, evolve_with_version.
  - cbn. rewrite Hcount, Z.add_0_r, wrap64_small; [done|]. unfold in_int64, two63 in *. lia.
Qed.

(** ** Rule and device alarms *)

Lemma first_alarm_Some `{!MapOrderLaws} (P : Alarm → Prop) `{∀ a, Decision (P a)} r k a :
  first_alarm P r = Some (k, a) → ar_alarms r !! k = Some a ∧ P a.
Proof.
  unfold first_alarm. intros Hh%head_Some_elem_of.
  apply list_elem_of_filter in Hh as [HP Hin]. split; [|done].
  apply list_elem_of_omap in Hin as (k' & _ & Hk').
  destruct (ar_alarms r !! k') eqn:E; [|done]. cbn in Hk'. by simplify_eq.
Qed.

Lemma first_alarm_None `{!MapOrderLaws} (P : Alarm → Prop) `{∀ a, Decision (P a)} r k a :
  first_alarm P r = None → ar_alarms r !! k = Some a → ¬ P a.
Proof.
  unfold first_alarm. intros Hh%head_None Ha HP.
  assert ((k, a) ∈ (@nil (string * Alarm))) as []%not_elem_of_nil. rewrite <-Hh.
  apply list_elem_of_filter. split; [done|]. apply list_elem_of_omap. exists k. split.
  - rewrite map_range_keys. apply list_elem_of_fmap. exists (k, a). split; [done|].
    by apply elem_of_map_to_list.
  - by rewrite Ha.
Qed.

(** The event of the first report. *)
Lemma report_first saved report :
  a_TenantID report = a_TenantID saved → a_DeviceID report = a_DeviceID saved →
  a_AlarmType report = a_AlarmType saved → a_Status saved = "ACTIVE" → a_TriggerCount saved = 1 →
  carries_first saved (AlarmReportEvent saved report).
Proof. intros. eexists. split; [done|]. unfold as_raised, same_notice. cbn. done. Qed.

(** The event of a later report. *)
Lemma report_again a saved report :
  a_ID saved = a_ID a → a_TenantID report = a_TenantID a → a_DeviceID report = a_DeviceID a →
  a_TriggerCount saved = wrap64 (a_TriggerCount a + 1) →
  carries a (wrap64 (a_TriggerCount a + 1)) (Some (AlarmReportEvent saved report)).
Proof. intros. eexists. split; [done|]. unfold same_notice. cbn. done. Qed.

(** Counting a report on an open alarm. *)
Lemma report_evolve a a' :
  active_alarm a → same_identity a a' → a_Status a' = a_Status a →
  a_Disposition a' = a_Disposition a → a_Attachments a' = a_Attachments a → evolve a a'.
Proof.
  intros Hopen Hid Hs Hd Ha. split; [done|by left| |by rewrite Hd| |by rewrite Ha].
  - intros E. destruct Hopen as [E'|E']; congruence.
  - intros Hv. apply (verified_open a); [|done..]. rewrite Hs.
    by destruct Hopen as [->| ->].
Qed.

Lemma upsert_effect `{!MapOrderLaws} n v r :
  store_ok n r → op_ok (OpUpsert v) r → alarm_effect r (exec_op (OpUpsert v) r).
Proof.
  intros Hr (Hv & Hcomp & _ & Hfresh). cbn. unfold UpsertAlarm.
  destruct (first_alarm (same_open v) r) as [[k a]|] eqn:Hf.
  - apply first_alarm_Some in Hf as (Ha & Et & Ed & _ & Hopen).
    case_decide; [constructor|]. cbn. set (a' := _ <| a_Version ::= _ |>).
    apply (eff_update r k a a' None (Some (AlarmReportEvent a' v))); [done| | | |done| |by intros []|].
    + apply report_evolve; [done|..]; unfold a'; by destruct (f64_ltb _ _).
    + unfold a'. by destruct (f64_ltb _ _).
    + unfold a'. by destruct (f64_ltb _ _).
    + split; [|done]. unfold a'. by destruct (f64_ltb _ _).
    + apply report_again; [|done..|]; unfold a'; by destruct (f64_ltb _ _).
  - cbn. set (v' := v <| a_Version := 1 |>).
    apply (eff_create r v' None (AlarmReportEvent v' v')); try done.
    + by destruct Hv; split.
    + destruct (ar_alarms r !! alarm_key v') as [b|] eqn:Hb; [|done]. exfalso.
      pose proof (so_alarms _ _ Hr _ _ Hb) as Hok. pose proof (sa_key _ _ _ Hok) as Hk.
      apply store_key2_inj in Hk as [_ Hk]; [|apply Hv|apply Hok]. by apply (Hfresh _ _ Hb).
    + right. intros k b Hb (Ht & Hd & Hr') Hopen.
      by apply (first_alarm_None _ _ _ _ Hf Hb).
    + intros Hc. change (a_RuleID v') with (a_RuleID v) in Hc. by destruct (component_rule _).
    + by apply report_first; try apply Hv.
Qed.

Lemma external_effect n v r :
  store_ok n r → op_ok (OpExternal v) r → alarm_effect r (exec_op (OpExternal v) r).
Proof.
  intros Hr (Hv & Hid). cbn. unfold UpsertExternalAlarm. case_decide as Hbad; [constructor|].
  assert (contains_text (a_RuleID v) ":external:" = true) as Hext
    by (destruct (contains_text _ _); [done|tauto]).
  destruct (ar_alarms r !! alarm_key v) as [a|] eqn:Ha.
  - case_decide as Hother; [constructor|]. case_decide as Hend; [constructor|]. cbn.
    set (a' := _ <| a_Version ::= _ |>).
    apply (eff_update r (alarm_key v) a a' None (Some (AlarmReportEvent a' v))); try done.
    + assert (a_Status a ≠ "CLOSED") as Hne by tauto.
      split; cbn; try done; [by left|]. intros [Hd _]. split; [exact Hd|]. by intros E.
    + pose proof (so_alarms _ _ Hr _ _ Ha) as [Hk Ht _ _ _ _ _].
      apply store_key2_inj in Hk as [Et _]; [|apply Hv|done].
      apply report_again; [done|done| |done]. apply dec_stable. intros E. apply Hother. by left.
  - cbn. set (v' := _ <| a_Version := _ |>).
    apply (eff_create r v' None (AlarmReportEvent v' v)); try done.
    + by destruct Hv; split.
    + intros k b Hb E. pose proof (Hid _ _ Hb E) as ->. congruence.
    + left. change (Is_true (contains_text (a_RuleID v) ":external:")). by rewrite Hext.
    + change (a_RuleID v') with (a_RuleID v). unfold component_rule, external_rule.
      rewrite Hext. rewrite andb_false_r. intros [].
    + by apply report_first; try apply Hv.
Qed.

(** ** Components *)

(** The alarm the state of a component refers to. *)
Lemma previous_alarm n c r :
  store_ok n r → candidate_ok c →
  let previous := default zero_ComponentAlarmState (ar_componentAlarms r !! component_key c) in
  match ar_alarms r !! store_key [a_TenantID c; ca_AlarmID previous] with
  | Some a => same_subject a c ∧ ca_AlarmID previous = a_ID a
  | None => ca_AlarmID previous = ""
  end.
Proof.
  intros Hr Hc.
  destruct (ar_componentAlarms r !! component_key c) as [st|] eqn:Hst; cbn [from_option id]; cbv zeta.
  - destruct (decide (ca_AlarmID st = "")) as [E|Hne].
    + rewrite E. destruct (ar_alarms r !! _) as [a|] eqn:Ha; [|done]. exfalso.
      destruct (so_alarms _ _ Hr _ _ Ha) as [Hk Ht _ Hid _ _ _].
      by apply store_key2_inj in Hk as [_ Hk]; [|apply Hc|].
    + destruct (so_watermark _ _ Hr _ _ Hst Hne) as (a & Ha & Hk & Hid). rewrite Hid.
      destruct (so_alarms _ _ Hr _ _ Ha) as [_ Ht Hd _ _ _ _].
      apply store_key3_inj in Hk as (Et & Ed & Er); [|apply Hc|done|apply Hc|done].
      unfold alarm_key in Ha. rewrite Et, Ha. done.
  - destruct (ar_alarms r !! _) as [a|] eqn:Ha; [|done]. exfalso.
    destruct (so_alarms _ _ Hr _ _ Ha) as [Hk Ht _ Hid _ _ _].
    by apply store_key2_inj in Hk as [_ Hk]; [|apply Hc|].
Qed.

Lemma transition_update c old st :
  active_alarm old ∨ ca_Active st = false →
  let alarm := (TransitionComponentAlarm c old st).1 in
  evolve old alarm ∧ a_Version alarm = a_Version old ∧ a_ID alarm = a_ID old ∧
  (a_TriggerCount alarm =
    if ca_Active st then wrap64 (a_TriggerCount old + 1) else a_TriggerCount old).
Proof.
  intros Hor. unfold TransitionComponentAlarm. destruct (ca_Active st) eqn:Hact.
  - destruct Hor as [Hopen|]; [|done]. rewrite decide_True by done. cbv zeta. cbn [fst].
    repeat case_decide; cbn; (split; [by apply report_evolve|done]).
  - case_decide as Hopen; cbn; [|by split; [apply evolve_refl|]].
    split; [|done]. split; cbn; try done.
    + right. by constructor.
    + intros E. destruct Hopen as [E'|E']; congruence.
    + by apply verified_open.
Qed.

Lemma zero_not_active : ¬ active_alarm zero_Alarm.
Proof. by intros [|]. Qed.

(** Raising the candidate. *)
Lemma create_effect n c st r :
  store_ok n r → candidate_ok c → fresh_id c r → ca_Active st = true →
  (∀ k b, ar_alarms r !! k = Some b → same_subject c b → ¬ active_alarm b) →
  alarm_effect r
    (let state := st <| ca_AlarmID := a_ID c |> <| ca_Event := "raised" |> in
     let '(alarm, r) :=
       if decide (a_ID c ≠ "") then
         let stored := default zero_Alarm (ar_alarms r !! alarm_key c) in
         let alarm := c <| a_Version := wrap64 (a_Version stored + 1) |> in
         let r := put_alarm (alarm_key alarm) alarm r in
         (alarm, if ca_Active state then addOutbox (AlarmReportEvent alarm c) r else r)
       else (c, r) in
     (alarm, "raised", r <| ar_componentAlarms ::= <[component_key c := state]> |>)).2.
Proof.
  intros Hr Hc Hfresh Hact Hnone. cbv zeta. rewrite decide_True by apply Hc.
  assert (ar_alarms r !! alarm_key c = None) as Hn.
  { destruct (ar_alarms r !! alarm_key c) as [b|] eqn:Hb; [|done]. exfalso.
    pose proof (so_alarms _ _ Hr _ _ Hb) as Hok. pose proof (sa_key _ _ _ Hok) as Hk.
    apply store_key2_inj in Hk as [_ Hk]; [|apply Hc|apply Hok]. by apply (Hfresh _ _ Hb). }
  rewrite Hn. cbn [from_option id]. set (c' := c <| a_Version := _ |>).
  set (st' := st <| ca_AlarmID := _ |> <| ca_Event := _ |>).
  change (ca_Active st') with (ca_Active st). rewrite Hact.
  apply (eff_create r c' (Some st') (AlarmReportEvent c' c)); try done.
  - by destruct Hc; split.
  - right. exact Hnone.
  - by apply report_first; try apply Hc.
Qed.

(** Writing the alarm the component had. *)
Lemma component_update_effect n c st r old :
  let previous := default zero_ComponentAlarmState (ar_componentAlarms r !! component_key c) in
  n < two63 → store_ok n r → ar_alarms r !! alarm_key old = Some old → same_subject old c →
  ca_AlarmID previous = a_ID old → active_alarm old ∨ ca_Active st = false →
  alarm_effect r
    (let '(alarm, event) := TransitionComponentAlarm c old st in
     let state := st <| ca_AlarmID := a_ID alarm |> <| ca_Event := event |> in
     let '(alarm, r) :=
       if decide (a_ID alarm ≠ "") then
         let stored := default zero_Alarm (ar_alarms r !! alarm_key alarm) in
         let alarm := alarm <| a_Version := wrap64 (a_Version stored + 1) |> in
         let r := put_alarm (alarm_key alarm) alarm r in
         (alarm, if ca_Active state then addOutbox (AlarmReportEvent alarm c) r else r)
       else (alarm, r) in
     (alarm, event, r <| ar_componentAlarms ::= <[component_key c := state]> |>)).2.
Proof.
  intros previous Hn Hr Hold (Et & Ed & Er) Hid Hor.
  destruct (so_alarms _ _ Hr _ _ Hold) as [_ _ _ Hidne Hver Hcount _].
  assert (component_key c = component_key old) as Hck by (unfold component_key; by rewrite Et, Ed, Er).
  destruct (transition_update c old st Hor) as (Hev & Hv & Hi & Hcnt).
  destruct (TransitionComponentAlarm c old st) as [alarm event]. cbn [fst] in *.
  destruct (ev_identity _ _ Hev) as (E1 & _). rewrite decide_True by (by rewrite Hi).
  assert (alarm_key alarm = alarm_key old) as Hak by (unfold alarm_key; by rewrite E1, Hi).
  rewrite Hak, Hold. cbn [from_option id]. cbv zeta.
  set (alarm' := alarm <| a_Version := _ |>). set (st' := st <| ca_AlarmID := _ |> <| ca_Event := _ |>).
  assert (evolve old alarm') as Hev' by (by apply evolve_with_version).
  change (ca_Active st') with (ca_Active st). change (alarm_key alarm') with (alarm_key alarm).
  assert (∃ st0, ar_componentAlarms r !! component_key old = Some st0 ∧ ca_AlarmID st0 = a_ID old) as Hmark.
  { rewrite <-Hck. unfold previous in Hid.
    destruct (ar_componentAlarms r !! component_key c) as [st0|]; [by exists st0|].
    cbn in Hid. congruence. }
  rewrite Hak, Hck. destruct (ca_Active st) eqn:Hact.
  - apply (eff_update r (alarm_key old) old alarm' (Some st') (Some (AlarmReportEvent alarm' c))); try done.
    by apply report_again.
  - apply (eff_update r (alarm_key old) old alarm' (Some st') None); try done.
    cbn. rewrite Hcnt, Z.add_0_r, wrap64_small; [done|]. unfold in_int64, two63 in *. lia.
Qed.

(** Nobody has an open alarm of a component whose alarm is not open. *)
Lemma no_open_alarm n c r :
  let previous := default zero_ComponentAlarmState (ar_componentAlarms r !! component_key c) in
  store_ok n r → component_rule (a_RuleID c) →
  (∀ old, ar_alarms r !! alarm_key old = Some old → a_ID old = ca_AlarmID previous → ¬ active_alarm old) →
  ∀ k b, ar_alarms r !! k = Some b → same_subject c b → ¬ active_alarm b.
Proof.
  intros previous Hr Hrule Hno k b Hb (E1 & E2 & E3) Hopen.
  destruct (so_component _ _ Hr _ _ Hb) as (st0 & Hst0 & Hid0); [by rewrite <-E3|done|].
  assert (component_key b = component_key c) as Hbc
    by (unfold component_key; by rewrite <-E1, <-E2, <-E3).
  rewrite Hbc in Hst0. unfold previous in Hno. rewrite Hst0 in Hno. cbn [from_option id] in Hno.
  apply (Hno b); [|done|done]. by rewrite <-(sa_key _ _ _ (so_alarms _ _ Hr _ _ Hb)).
Qed.

Lemma component_effect n c st r :
  n < two63 → store_ok n r → op_ok (OpComponent c st) r →
  alarm_effect r (exec_op (OpComponent c st) r).
Proof.
  intros Hn Hr (Hc & Hrule & Hfresh). pose proof (previous_alarm n c r Hr Hc) as Hprev.
  pose proof (no_open_alarm n c r Hr Hrule) as Hnone.
  cbn [exec_op]. unfold ApplyComponentAlarm. cbv zeta in Hprev, Hnone |- *.
  set (previous := default zero_ComponentAlarmState _) in *.
  case_decide; [constructor|]. destruct (negb (Supersedes st previous)); [constructor|].
  destruct (ar_alarms r !! store_key [a_TenantID c; ca_AlarmID previous]) as [old|] eqn:Hold;
    cbn [from_option id].
  - destruct Hprev as [Hsub Hid].
    rewrite (sa_key _ _ _ (so_alarms _ _ Hr _ _ Hold)) in Hold.
    destruct (decide (active_alarm old ∨ ca_Active st = false)) as [Hor|Hnew];
      [by apply (component_update_effect n)|].
    unfold TransitionComponentAlarm. destruct (ca_Active st) eqn:Hact; [|tauto].
    rewrite decide_False by tauto. apply (create_effect n); try done. apply Hnone.
    intros b Hb E Hopen. rewrite Hid in E.
    pose proof (so_ids _ _ Hr _ _ _ _ Hb Hold E) as Ek. rewrite Ek in Hb. naive_solver.
  - unfold TransitionComponentAlarm. rewrite decide_False by apply zero_not_active.
    destruct (ca_Active st) eqn:Hact.
    + apply (create_effect n); try done. apply Hnone. intros b Hb E.
      by destruct (sa_id _ _ _ (so_alarms _ _ Hr _ _ Hb)); congruence.
    + rewrite decide_False by apply zero_not_active.
      change (alarm_effect r (mark (component_key c)
        (Some (st <| ca_AlarmID := "" |> <| ca_Event := "" |>)) r)).
      apply eff_idle; [done|]. intros st0 Hst0. unfold previous in Hprev. by rewrite Hst0 in Hprev.
Qed.

(** Every step of a history has one of the effects. *)
Lemma exec_effect `{!MapOrderLaws} n op r :
  n < two63 → store_ok n r → op_ok op r → alarm_effect r (exec_op op r).
Proof.
  intros Hn Hr Hop. destruct op as [c st|v|v|tenant i ch].
  - by eapply component_effect.
  - by eapply upsert_effect.
  - by eapply external_effect.
  - by eapply change_effect.
Qed.
End effects.
