(* ===== verification/AlarmHistory.v ===== *)
(** Histories of the alarm store, the outbox ledger and the life of an alarm
    along a history. *)
From S2P Require Import Prelude GoText GoJson AlarmModel AlarmStore AlarmEngine AlarmRuns.
From S2P Require Import AlarmEffects.

(** The steps keep the invariant of the store. *)

Section invariant.
Context `{AlarmDetails, !AlarmJson, MapOrder, Platform, UpperCase}.

(** ** Projections of an effect *)

Lemma alarms_effect o w kc k a r :
  ar_alarms (emit o (mark kc w (put_alarm k a r))) = <[k := a]> (ar_alarms r).
Proof. by destruct o, w. Qed.

Lemma component_effect_map o w kc k a r :
  ar_componentAlarms (emit o (mark kc w (put_alarm k a r))) =
  match w with Some st => <[kc := st]> (ar_componentAlarms r) | None => ar_componentAlarms r end.
Proof. by destruct o, w. Qed.

Lemma seq_effect o w kc k a r :
  ar_outboxSeq (emit o (mark kc w (put_alarm k a r))) =
  match o with Some _ => wrap64 (ar_outboxSeq r + 1) | None => ar_outboxSeq r end.
Proof. by destruct o, w. Qed.

Lemma evolve_active a a' : evolve a a' → active_alarm a' → active_alarm a.
Proof.
  intros Hev Ha'. unfold active_alarm in *.
  destruct (ev_status _ _ Hev) as [<-|Hst]; [done|]. inversion Hst; destruct_or!; try congruence; auto.
Qed.

Lemma evolve_keys a a' : evolve a a' →
  alarm_key a' = alarm_key a ∧ component_key a' = component_key a ∧ a_ID a' = a_ID a ∧
  a_TenantID a' = a_TenantID a ∧ a_DeviceID a' = a_DeviceID a ∧ a_RuleID a' = a_RuleID a.
Proof.
  intros Hev. destruct (ev_identity _ _ Hev) as (E1 & E2 & E3 & E4 & _).
  unfold alarm_key, component_key. by rewrite E1, E2, E3, E4.
Qed.

Lemma same_subject_key n r k k' a b :
  store_ok n r → ar_alarms r !! k = Some a → ar_alarms r !! k' = Some b →
  component_key a = component_key b → same_subject a b.
Proof.
  intros Hr Ha Hb E. destruct (so_alarms _ _ Hr _ _ Ha) as [_ ? ? _ _ _ _].
  destruct (so_alarms _ _ Hr _ _ Hb) as [_ ? ? _ _ _ _].
  by apply store_key3_inj in E.
Qed.

Lemma same_subject_component a b : same_subject a b → component_key a = component_key b.
Proof. intros (E1 & E2 & E3). unfold component_key. by rewrite E1, E2, E3. Qed.

Lemma stored_alarm_mono n m k a : n ≤ m → stored_alarm_ok n k a → stored_alarm_ok m k a.
Proof. intros Hm [? ? ? ? ? ? ?]. split; try done; lia. Qed.

Lemma wrap_next n z : 0 ≤ z ≤ n → n + 1 < two63 → wrap64 (z + 1) = z + 1.
Proof. intros. apply wrap64_small. unfold in_int64, two63 in *. lia. Qed.

(** ** Updates *)

Section update.
Context (n : Z) (r : alarm_repo) (k : string) (a a' : Alarm).
Context (Hr : store_ok n r) (Ha : ar_alarms r !! k = Some a) (Hev : evolve a a').

(** Every alarm of the new store was there, open if it is open. *)
Lemma update_back k0 b :
  <[k := a']> (ar_alarms r) !! k0 = Some b → ∃ b0, ar_alarms r !! k0 = Some b0 ∧
    a_ID b = a_ID b0 ∧ same_subject b b0 ∧ (active_alarm b → active_alarm b0).
Proof using Ha Hev.
  pose proof (evolve_keys _ _ Hev) as (_ & _ & Ei & Et & Ed & Er).
  intros [[<- <-]|[_ Hb]]%lookup_insert_Some.
  - exists a. repeat split; try done. by apply evolve_active.
  - by exists b.
Qed.

(** Every alarm of the old store is still there, under its keys. *)
Lemma update_forth b :
  ar_alarms r !! alarm_key b = Some b → ∃ b', <[k:=a']> (ar_alarms r) !! alarm_key b' = Some b' ∧
    component_key b' = component_key b ∧ a_ID b' = a_ID b.
Proof using Hr Ha Hev.
  pose proof (evolve_keys _ _ Hev) as (Ek & Eck & Ei & _). intros Hb.
  destruct (decide (alarm_key b = k)) as [E|E]; [|exists b; by rewrite lookup_insert_ne].
  rewrite E in Hb. assert (b = a) as -> by congruence. exists a'.
  by rewrite Ek, E, lookup_insert_eq.
Qed.

Lemma update_watermark w k0 st :
  marks a w →
  match w with Some st => <[component_key a := st]> (ar_componentAlarms r) | None => ar_componentAlarms r end
    !! k0 = Some st →
  ca_AlarmID st ≠ "" →
  ∃ b, <[k := a']> (ar_alarms r) !! alarm_key b = Some b ∧ k0 = component_key b ∧ ca_AlarmID st = a_ID b.
Proof using Hr Ha Hev.
  intros Hw Hst Hne.
  assert (ar_componentAlarms r !! k0 = Some st ∨ k0 = component_key a ∧ ca_AlarmID st = a_ID a) as [Hold|[-> E]].
  { destruct w as [st0|]; [|by left].
    apply lookup_insert_Some in Hst as [[<- <-]|[_ Hst]]; [by right|by left]. }
  - destruct (so_watermark _ _ Hr _ _ Hold Hne) as (b & Hb & -> & E).
    destruct (update_forth b Hb) as (b' & ? & E1 & E2). exists b'. repeat split; [done|done|congruence].
  - pose proof (sa_key _ _ _ (so_alarms _ _ Hr _ _ Ha)) as Hk.
    destruct (update_forth a) as (b' & ? & E1 & E2); [by rewrite <-Hk|].
    exists b'. repeat split; [done|done|congruence].
Qed.

Lemma update_component w k0 b :
  marks a w →
  (is_Some w → ∃ st, ar_componentAlarms r !! component_key a = Some st ∧ ca_AlarmID st = a_ID a) →
  <[k := a']> (ar_alarms r) !! k0 = Some b → component_rule (a_RuleID b) → active_alarm b →
  ∃ st, match w with Some st => <[component_key a := st]> (ar_componentAlarms r)
        | None => ar_componentAlarms r end !! component_key b = Some st ∧ ca_AlarmID st = a_ID b.
Proof using Hr Ha Hev.
  intros Hw Hmarked Hb Hcr Hopen. destruct (update_back _ _ Hb) as (b0 & Hb0 & E1 & Hsub & A0).
  pose proof (same_subject_component _ _ Hsub) as ->. rewrite E1.
  destruct (so_component _ _ Hr _ _ Hb0) as (st & Hst & Hid);
    [by destruct Hsub as (_ & _ & <-)|by apply A0|].
  destruct w as [st0|]; [|by exists st].
  destruct (decide (component_key a = component_key b0)) as [E|E].
  - rewrite E, lookup_insert_eq. exists st0. split; [done|]. cbn in Hw. rewrite Hw.
    destruct (Hmarked ltac:(done)) as (st1 & Hst1 & Hid1). rewrite E in Hst1. congruence.
  - rewrite lookup_insert_ne by done. by exists st.
Qed.

Lemma update_stored o :
  n + 1 < two63 → a_Version a' = wrap64 (a_Version a + 1) →
  a_TriggerCount a' = wrap64 (a_TriggerCount a + units o) → stored_alarm_ok (n + 1) k a'.
Proof using Hr Ha Hev.
  intros Hn Hv Hc. pose proof (evolve_keys _ _ Hev) as (Ek & _ & Ei & Et & Ed & _).
  destruct (so_alarms _ _ Hr _ _ Ha) as [Hk Hat Had Hai Hav Hac Haa].
  split; [by rewrite Ek|by rewrite Et|by rewrite Ed|by rewrite Ei| | |by apply Hev].
  - rewrite Hv, (wrap_next n); lia.
  - rewrite Hc. destruct o; cbn; [rewrite (wrap_next n); lia|].
    rewrite Z.add_0_r, wrap64_small; [lia|]. unfold in_int64, two63 in *. lia.
Qed.
End update.

Lemma update_ok n r k a a' w o :
  n + 1 < two63 → store_ok n r → ar_alarms r !! k = Some a → evolve a a' →
  a_Version a' = wrap64 (a_Version a + 1) → a_TriggerCount a' = wrap64 (a_TriggerCount a + units o) →
  marks a w →
  (is_Some w → ∃ st, ar_componentAlarms r !! component_key a = Some st ∧ ca_AlarmID st = a_ID a) →
  store_ok (n + 1) (emit o (mark (component_key a) w (put_alarm k a' r))).
Proof.
  intros Hn Hr Ha Hev Hv Hc Hw Hmarked. split; rewrite ?alarms_effect, ?component_effect_map, ?seq_effect.
  - intros k0 b [[<- <-]|[_ Hb]]%lookup_insert_Some; [by eapply update_stored|].
    eapply stored_alarm_mono; [|by eapply so_alarms]. lia.
  - intros k1 k2 b1 b2 (c1 & Hc1 & E1 & _)%(update_back r k a a' Ha Hev)
      (c2 & Hc2 & E2 & _)%(update_back r k a a' Ha Hev) E.
    apply (so_ids _ _ Hr _ _ _ _ Hc1 Hc2). congruence.
  - intros k1 k2 b1 b2 (c1 & Hc1 & _ & (T1 & T2 & T3) & A1')%(update_back r k a a' Ha Hev)
      (c2 & Hc2 & _ & (U1 & U2 & U3) & A2')%(update_back r k a a' Ha Hev) (S1 & S2 & S3) A1 A2 Hext.
    apply (so_one_open _ _ Hr _ _ _ _ Hc1 Hc2); [|auto|auto|by rewrite <-T3].
    repeat split; congruence.
  - intros k0 st. by apply (update_watermark n).
  - intros k0 b. by apply (update_component n).
  - pose proof (so_seq _ _ Hr). destruct o; [rewrite (wrap_next n)|]; lia.
Qed.

(** ** Creations and idle marks *)

Lemma create_ok n r a w e :
  n + 1 < two63 → 0 ≤ n → store_ok n r → candidate_ok a → a_Version a = 1 →
  ar_alarms r !! alarm_key a = None → fresh_id a r →
  (external_rule (a_RuleID a) ∨
   ∀ k b, ar_alarms r !! k = Some b → same_subject a b → ¬ active_alarm b) →
  (component_rule (a_RuleID a) → is_Some w) → marks a w →
  store_ok (n + 1) (emit (Some e) (mark (component_key a) w (put_alarm (alarm_key a) a r))).
Proof.
  intros Hn Hn0 Hr Hc Hv Hnone Hfresh Hopen Hw Hm. split.
  - rewrite alarms_effect. intros k b [[<- <-]|[_ Hb]]%lookup_insert_Some.
    + destruct Hc as [? ? ? ? ? Hcount Hatt _]. split; try done; [lia|lia|]. rewrite Hatt. cbn. lia.
    + eapply stored_alarm_mono; [|by eapply so_alarms]. lia.
  - rewrite alarms_effect.
    intros k k' b b' [[<- <-]|[_ Hb]]%lookup_insert_Some [[<- <-]|[_ Hb']]%lookup_insert_Some E; [done|..].
    + by destruct (Hfresh _ _ Hb').
    + by destruct (Hfresh _ _ Hb).
    + by apply (so_ids _ _ Hr _ _ _ _ Hb Hb').
  - rewrite alarms_effect.
    intros k k' b b' [[<- <-]|[_ Hb]]%lookup_insert_Some [[<- <-]|[_ Hb']]%lookup_insert_Some Hs A A' Hx;
      [done|..|by apply (so_one_open _ _ Hr _ _ _ _ Hb Hb')].
    + destruct Hopen as [?|Hno]; [done|]. by destruct (Hno _ _ Hb' Hs).
    + destruct Hs as (S1 & S2 & S3). rewrite S3 in Hx. destruct Hopen as [?|Hno]; [done|].
      by destruct (Hno _ _ Hb).
  - rewrite alarms_effect, component_effect_map. intros k st Hst Hne.
    assert (∀ k' st', ar_componentAlarms r !! k' = Some st' → ca_AlarmID st' ≠ "" →
      ∃ b, <[alarm_key a:=a]> (ar_alarms r) !! alarm_key b = Some b ∧ k' = component_key b ∧
        ca_AlarmID st' = a_ID b) as Hfwd.
    { intros k' st' Hst' Hne'. destruct (so_watermark _ _ Hr _ _ Hst' Hne') as (b & Hb & -> & E).
      exists b. rewrite lookup_insert_ne; [done|]. intros E'. congruence. }
    destruct w as [st0|]; [apply lookup_insert_Some in Hst as [[<- <-]|[_ Hst]]|]; [|by apply Hfwd..].
    exists a. by rewrite lookup_insert_eq.
  - rewrite alarms_effect, component_effect_map.
    intros k b [[<- <-]|[_ Hb]]%lookup_insert_Some Hcr A.
    + destruct (Hw Hcr) as [st ->]. exists st. by rewrite lookup_insert_eq.
    + destruct (so_component _ _ Hr _ _ Hb Hcr A) as (st & Hst & Hid).
      destruct w as [st0|]; [|by exists st].
      destruct (decide (component_key a = component_key b)) as [E|E];
        [|rewrite lookup_insert_ne by done; by exists st].
      exfalso. destruct (so_alarms _ _ Hr _ _ Hb) as [_ Ht Hd _ _ _ _].
      apply store_key3_inj in E as (E1 & E2 & E3); [|apply Hc|done|apply Hc|done].
      destruct Hopen as [Hx|Hno]; [|by destruct (Hno _ _ Hb)].
      rewrite E3 in Hx. unfold component_rule in Hcr. destruct (external_rule _); [|done].
      by rewrite andb_false_r in Hcr.
  - rewrite seq_effect. pose proof (so_seq _ _ Hr). rewrite (wrap_next n); lia.
Qed.

Lemma idle_ok n r k st :
  store_ok n r → ca_AlarmID st = "" →
  (∀ st', ar_componentAlarms r !! k = Some st' → ca_AlarmID st' = "") →
  store_ok (n + 1) (mark k (Some st) r).
Proof.
  intros Hr Hst Hold. split; cbn.
  - intros k' a Ha. eapply stored_alarm_mono; [|by eapply so_alarms]. lia.
  - apply Hr.
  - apply Hr.
  - intros k' st' [[<- <-]|[_ Hst']]%lookup_insert_Some Hne; [done|by apply (so_watermark _ _ Hr)].
  - intros k' a Ha Hcr A. destruct (so_component _ _ Hr _ _ Ha Hcr A) as (st' & Hst' & Hid).
    exists st'. rewrite lookup_insert_ne; [done|]. intros ->. pose proof (Hold _ Hst') as E.
    by destruct (sa_id _ _ _ (so_alarms _ _ Hr _ _ Ha)); congruence.
  - pose proof (so_seq _ _ Hr). lia.
Qed.

Lemma same_ok n r : store_ok n r → store_ok (n + 1) r.
Proof.
  intros Hr. split; try apply Hr.
  - intros k a Ha. eapply stored_alarm_mono; [|by eapply so_alarms]. lia.
  - pose proof (so_seq _ _ Hr). lia.
Qed.

Lemma effect_ok n r r' : 0 ≤ n → n + 1 < two63 → store_ok n r → alarm_effect r r' → store_ok (n + 1) r'.
Proof.
  intros Hn0 Hn Hr [|k st Hst Hold|k a a' w o Ha Hev Hv Hc Hw _ Hm|a w e Hc Hv Hnone Hf Hx Hw Hm _].
  - by apply same_ok.
  - by apply idle_ok.
  - by apply update_ok.
  - by apply create_ok.
Qed.

Lemma empty_ok : store_ok 0 empty_alarm_repo.
Proof. split; cbn; try done. Qed.
End invariant.

Section history.
Context `{AlarmDetails, !AlarmJson, MapOrder, !MapOrderLaws, Platform, UpperCase}.

(** ** Events *)

(** A step, or a drain of the outbox while other steps happen; the events
    sent are logged in order. *)
Inductive alarm_event :=
  | EvOp (op : alarm_op)
  | EvDrain (limit : nat) (publish : OutboxEvent → option error) (during : list alarm_op).

Fixpoint exec_ops (ops : list alarm_op) (r : alarm_repo) : alarm_repo :=
  match ops with [] => r | op :: ops => exec_ops ops (exec_op op r) end.
Definition exec_event (ev : alarm_event) (s : alarm_repo * list OutboxEvent)
    : alarm_repo * list OutboxEvent :=
  match ev with
  | EvOp op => (exec_op op s.1, s.2)
  | EvDrain limit publish during =>
    let '(sent, _, r) := DrainOutbox limit publish (exec_ops during) s.1 in (r, s.2 ++ sent)
  end.
Fixpoint exec_events (evs : list alarm_event) (s : alarm_repo * list OutboxEvent)
    : alarm_repo * list OutboxEvent :=
  match evs with [] => s | ev :: evs => exec_events evs (exec_event ev s) end.

Fixpoint ops_ok (ops : list alarm_op) (r : alarm_repo) : Prop :=
  match ops with [] => True | op :: ops => op_ok op r ∧ ops_ok ops (exec_op op r) end.
Definition event_ok (ev : alarm_event) (r : alarm_repo) : Prop :=
  match ev with EvOp op => op_ok op r | EvDrain _ _ during => ops_ok during r end.
Fixpoint events_ok (evs : list alarm_event) (s : alarm_repo * list OutboxEvent) : Prop :=
  match evs with [] => True | ev :: evs => event_ok ev s.1 ∧ events_ok evs (exec_event ev s) end.

Definition event_size (ev : alarm_event) : nat :=
  match ev with EvOp _ => 1 | EvDrain _ _ during => length during end.
Definition events_size (evs : list alarm_event) : Z := Z.of_nat (sum_list (event_size <$> evs)).

(** ** The ledger *)

Definition reports_of (i : string) (l : list OutboxEvent) : Z :=
  Z.of_nat (length (filter (λ e, oe_Key e = i) l)).

(** All report events so far, sent or queued. *)
Record ledger (log : list OutboxEvent) (r : alarm_repo) : Prop := {
  lg_seq : oe_Seq <$> log = seqZ 1 (ar_outboxSeq r);
  lg_count : ∀ k a, ar_alarms r !! k = Some a → a_TriggerCount a = reports_of (a_ID a) log;
  lg_alarm : ∀ e, e ∈ log → oe_Topic e = TopicAlarmReported ∧
    ∃ k a, ar_alarms r !! k = Some a ∧ oe_Key e = a_ID a }.

Lemma reports_of_app i l l' : reports_of i (l ++ l') = reports_of i l + reports_of i l'.
Proof. unfold reports_of. rewrite filter_app, length_app. lia. Qed.

Lemma reports_of_one i e : reports_of i [e] = if decide (oe_Key e = i) then 1 else 0.
Proof. unfold reports_of. rewrite filter_cons. by case_decide. Qed.

Lemma reports_of_none i l : (∀ e, e ∈ l → oe_Key e ≠ i) → reports_of i l = 0.
Proof.
  intros Hl. unfold reports_of. induction l as [|e l IH]; [done|].
  rewrite filter_cons, decide_False by (apply Hl; left). apply IH. intros e' He'. apply Hl. by right.
Qed.

Definition queued (seq : Z) (o : option OutboxEvent) : list OutboxEvent :=
  match o with Some e => [e <| oe_Seq := wrap64 (seq + 1) |>] | None => [] end.

Lemma outbox_effect o w kc k a r :
  ar_outbox (emit o (mark kc w (put_alarm k a r))) = ar_outbox r ++ queued (ar_outboxSeq r) o.
Proof. destruct o, w; cbn; by rewrite ?app_nil_r. Qed.

Lemma seq_queued n r log o :
  n + 1 < two63 → store_ok n r → oe_Seq <$> log = seqZ 1 (ar_outboxSeq r) →
  oe_Seq <$> (log ++ queued (ar_outboxSeq r) o) =
  seqZ 1 (match o with Some _ => wrap64 (ar_outboxSeq r + 1) | None => ar_outboxSeq r end).
Proof.
  intros Hn Hr Hl. rewrite fmap_app, Hl. pose proof (so_seq _ _ Hr) as Hs.
  destruct o as [e|]; cbn; [|by rewrite app_nil_r].
  rewrite (wrap_next n) by lia. rewrite seqZ_app by lia. cbn. f_equal. by rewrite Z.add_comm.
Qed.

Lemma ledger_update n r log k a a' w o :
  n + 1 < two63 → store_ok n r → ledger log r → ar_alarms r !! k = Some a → evolve a a' →
  a_TriggerCount a' = wrap64 (a_TriggerCount a + units o) → reports a o →
  ledger (log ++ queued (ar_outboxSeq r) o) (emit o (mark (component_key a) w (put_alarm k a' r))).
Proof.
  intros Hn Hr [Hseq Hcount Hlog] Ha Hev Hc Ho. destruct (evolve_keys _ _ Hev) as (_ & _ & Ei & _).
  destruct (so_alarms _ _ Hr _ _ Ha) as [_ _ _ _ _ Hac _].
  split.
  - rewrite seq_effect. by apply (seq_queued n).
  - rewrite alarms_effect. intros k' b [[<- <-]|[Hne Hb]]%lookup_insert_Some.
    + rewrite reports_of_app, Ei, <-(Hcount _ _ Ha), Hc. destruct o as [e|]; cbn [queued units].
      * rewrite reports_of_one, decide_True by apply Ho. apply (wrap_next n); lia.
      * rewrite !Z.add_0_r. unfold reports_of. cbn. rewrite wrap64_small; [lia|].
        unfold in_int64, two63 in *. lia.
    + rewrite reports_of_app, <-(Hcount _ _ Hb), (reports_of_none _ (queued _ _)); [lia|].
      destruct o as [e|]; cbn; [|by intros ? ?%not_elem_of_nil].
      intros e' ->%list_elem_of_singleton. cbn. destruct Ho as [-> _].
      intros E. by destruct Hne; apply (so_ids _ _ Hr _ _ _ _ Ha Hb).
  - rewrite alarms_effect. intros e [He|He]%elem_of_app.
    + destruct (Hlog _ He) as (Ht & k' & b & Hb & E). split; [done|].
      destruct (decide (k = k')) as [<-|Hne].
      * exists k, a'. rewrite lookup_insert_eq. split; [done|]. congruence.
      * exists k', b. by rewrite lookup_insert_ne.
    + destruct o as [e0|]; cbn in He; [|by apply not_elem_of_nil in He].
      apply list_elem_of_singleton in He as ->. cbn. destruct Ho as [-> ->]. split; [done|].
      exists k, a'. by rewrite lookup_insert_eq.
Qed.

Lemma ledger_create n r log a w e :
  n + 1 < two63 → store_ok n r → ledger log r → candidate_ok a → fresh_id a r →
  ar_alarms r !! alarm_key a = None → reports a (Some e) →
  ledger (log ++ queued (ar_outboxSeq r) (Some e))
    (emit (Some e) (mark (component_key a) w (put_alarm (alarm_key a) a r))).
Proof.
  intros Hn Hr [Hseq Hcount Hlog] Hc Hfresh Hnone [Hk Ht]. split.
  - rewrite seq_effect. by apply (seq_queued n).
  - rewrite alarms_effect. intros k' b [[<- <-]|[Hne Hb]]%lookup_insert_Some.
    + rewrite reports_of_app, (reports_of_none _ log).
      * cbn [queued]. rewrite reports_of_one, decide_True by done. apply Hc.
      * intros e' He'. destruct (Hlog _ He') as (_ & k & b & Hb & ->). by apply (Hfresh _ _ Hb).
    + rewrite reports_of_app, <-(Hcount _ _ Hb), (reports_of_none _ (queued _ _)); [lia|].
      intros e' ->%list_elem_of_singleton. cbn. rewrite Hk. intros E. by apply (Hfresh _ _ Hb).
  - rewrite alarms_effect. intros e' [He|He]%elem_of_app.
    + destruct (Hlog _ He) as (Ht' & k' & b & Hb & E). split; [done|].
      exists k', b. rewrite lookup_insert_ne; [done|]. congruence.
    + apply list_elem_of_singleton in He as ->. split; [done|].
      exists (alarm_key a), a. by rewrite lookup_insert_eq.
Qed.

Lemma ledger_effect n r r' log :
  n + 1 < two63 → store_ok n r → ledger log r → alarm_effect r r' →
  ∃ new, ar_outbox r' = ar_outbox r ++ new ∧ ledger (log ++ new) r'.
Proof.
  intros Hn Hr Hl [|k st Hst Hold|k a a' w o Ha Hev Hv Hc Hw Ho Hm|a w e Hc Hv Hnone Hf Hx Hw Hm He].
  - exists []. by rewrite !app_nil_r.
  - exists []. rewrite !app_nil_r. split; [done|]. by destruct Hl.
  - eexists. split; [apply outbox_effect|]. by eapply ledger_update.
  - eexists. split; [apply outbox_effect|]. by eapply ledger_create.
Qed.

(** ** What the events carry *)

(** The alarms carried by the events so far: one first report for every alarm,
    and nothing but reports of the alarms there are. *)
Record notices_ok (bs : list Alarm) (r : alarm_repo) : Prop := {
  nt_first : ∀ k a, ar_alarms r !! k = Some a → ∃ b, b ∈ bs ∧ as_raised a b;
  nt_all : ∀ b, b ∈ bs → ∃ k a, ar_alarms r !! k = Some a ∧ same_notice a b;
  nt_once : ∀ i j b b', bs !! i = Some b → bs !! j = Some b' → a_ID b = a_ID b' →
    a_TriggerCount b = 1 → a_TriggerCount b' = 1 → i = j }.
Definition notices (log : list OutboxEvent) (r : alarm_repo) : Prop :=
  ∃ bs, oe_Payload <$> log = marshal_alarm <$> bs ∧ notices_ok bs r.

Lemma evolve_notice a a' b : evolve a a' → same_notice a b → same_notice a' b.
Proof. intros Hev. destruct (ev_identity _ _ Hev) as (E1 & E2 & E3 & _). unfold same_notice. by rewrite E1, E2, E3. Qed.
Lemma evolve_raised a a' b : evolve a a' → as_raised a b → as_raised a' b.
Proof.
  intros Hev (Hs & Ht & ?). destruct (ev_identity _ _ Hev) as (_ & _ & _ & _ & _ & E & _).
  split; [by eapply evolve_notice|]. by rewrite E.
Qed.

Lemma notices_update bs r kc w k a a' o :
  notices_ok bs r → ar_alarms r !! k = Some a → evolve a a' → notices_ok bs (emit o (mark kc w (put_alarm k a' r))).
Proof.
  intros [Hf Ha Ho] Hk Hev. split; [..|done]; rewrite alarms_effect.
  - intros k' x [[<- <-]|[Hne Hx]]%lookup_insert_Some; [|by eapply Hf].
    destruct (Hf _ _ Hk) as (b & Hb & Hr). exists b. split; [done|]. by eapply evolve_raised.
  - intros b Hb. destruct (Ha _ Hb) as (k' & x & Hx & Hs). destruct (decide (k = k')) as [<-|Hne].
    + exists k, a'. rewrite lookup_insert_eq. split; [done|]. assert (x = a) as -> by congruence.
      by eapply evolve_notice.
    + exists k', x. by rewrite lookup_insert_ne.
Qed.

Lemma notices_add_later bs r k a b :
  notices_ok bs r → ar_alarms r !! k = Some a → same_notice a b → a_TriggerCount b ≠ 1 →
  notices_ok (bs ++ [b]) r.
Proof.
  intros [Hf Ha Ho] Hk Hs Hc. split.
  - intros k' x Hx. destruct (Hf _ _ Hx) as (b' & ? & ?). exists b'. split; [|done]. apply elem_of_app. by left.
  - intros b' [Hb'| ->%list_elem_of_singleton]%elem_of_app; [by apply Ha|]. by exists k, a.
  - intros i j x y Hi Hj E Cx Cy.
    apply lookup_app_Some in Hi as [Hi|[_ [_ <-]%list_lookup_singleton_Some]];
      [|by destruct Hc]. 
    apply lookup_app_Some in Hj as [Hj|[_ [_ <-]%list_lookup_singleton_Some]]; [by eapply Ho|by destruct Hc].
Qed.

Lemma notices_create bs r a b w e :
  notices_ok bs r → ar_alarms r !! alarm_key a = None → fresh_id a r → as_raised a b →
  notices_ok (bs ++ [b]) (emit (Some e) (mark (component_key a) w (put_alarm (alarm_key a) a r))).
Proof.
  intros [Hf Ha Ho] Hnone Hfresh Hb. pose proof Hb as [(Eb & _) _].
  assert (∀ b', b' ∈ bs → a_ID b' ≠ a_ID b) as Hnew.
  { intros b' (k & x & Hx & (E & _))%Ha. rewrite E, Eb. by apply (Hfresh k). }
  split; [rewrite alarms_effect..|].
  - intros k' x [[<- <-]|[Hne Hx]]%lookup_insert_Some.
    + exists b. split; [|done]. apply elem_of_app. right. left.
    + destruct (Hf _ _ Hx) as (b' & ? & ?). exists b'. split; [|done]. apply elem_of_app. by left.
  - intros b' [(k & x & Hx & ?)%Ha| ->%list_elem_of_singleton]%elem_of_app.
    + exists k, x. rewrite lookup_insert_ne; [done|]. congruence.
    + exists (alarm_key a), a. rewrite lookup_insert_eq. by split; [|apply Hb].
  - intros i j x y Hi Hj E Cx Cy.
    apply lookup_app_Some in Hi as [Hi|[Hi' [Ei <-]%list_lookup_singleton_Some]];
    apply lookup_app_Some in Hj as [Hj|[Hj' [Ej <-]%list_lookup_singleton_Some]].
    + by eapply Ho.
    + apply list_elem_of_lookup_2 in Hi. by destruct (Hnew _ Hi).
    + apply list_elem_of_lookup_2 in Hj. by destruct (Hnew _ Hj).
    + lia.
Qed.

Lemma notices_effect n r r' log new :
  n + 1 < two63 → store_ok n r → notices log r → alarm_effect r r' →
  ar_outbox r' = ar_outbox r ++ new → notices (log ++ new) r'.
Proof.
  intros Hn Hr (bs & Ebs & Hbs) He.
  destruct He as [|k st Hst Hold|k a a' w o Ha Hev Hv Hc Hw Ho Hm Hcar|a w e Hc Hv Hnone Hf Hx Hw Hm He Hcar].
  - intros E. rewrite <-(app_nil_r (ar_outbox r)) in E at 1. apply app_inv_head in E as <-.
    rewrite app_nil_r. by exists bs.
  - intros E. cbn in E. rewrite <-(app_nil_r (ar_outbox r)) in E at 1. apply app_inv_head in E as <-.
    rewrite app_nil_r. exists bs. split; [done|]. by destruct Hbs.
  - rewrite outbox_effect. intros <-%app_inv_head.
    pose proof (notices_update bs r (component_key a) w k a a' o Hbs Ha Hev) as Hup.
    destruct o as [e|]; [|rewrite app_nil_r; by exists bs].
    destruct Hcar as (b & Eb & Hs & Hcnt). exists (bs ++ [b]). split; [rewrite !fmap_app, Ebs; cbn; by rewrite Eb|].
    apply (notices_add_later _ _ k a'); [done| |by eapply evolve_notice|].
    + rewrite alarms_effect. by rewrite lookup_insert_eq.
    + destruct (so_alarms _ _ Hr _ _ Ha) as [_ _ _ _ _ Hac _]. rewrite Hcnt, (wrap_next n) by lia. lia.
  - change (addOutbox e) with (emit (Some e)) in *. rewrite outbox_effect. intros <-%app_inv_head.
    destruct Hcar as (b & Eb & Hb). exists (bs ++ [b]). split; [rewrite !fmap_app, Ebs; cbn; by rewrite Eb|].
    by apply notices_create.
Qed.
End history.
