(* ===== verification/AlarmTheorems.v ===== *)
(** The properties of alarms over whole histories. *)
From S2P Require Import Prelude GoText GoJson AlarmModel AlarmStore AlarmEngine AlarmRuns.
From S2P Require Import AlarmEffects AlarmHistory.

Section theorems.
Context `{AlarmDetails, !AlarmJson, MapOrder, !MapOrderLaws, Platform, UpperCase}.

(** ** The life of an alarm *)

(** What an alarm may become over any number of steps. *)
Record lives (a a' : Alarm) : Prop := {
  lv_identity : same_identity a a';
  lv_status : rtc status_step (a_Status a) (a_Status a');
  lv_closed : a_Status a = "CLOSED" → kept_closed a a';
  lv_disposition : is_Some (a_Disposition a) → is_Some (a_Disposition a');
  lv_version : a' = a ∨ a_Version a < a_Version a' }.

Definition persists (r r' : alarm_repo) : Prop :=
  ∀ k a, ar_alarms r !! k = Some a → ∃ a', ar_alarms r' !! k = Some a' ∧ lives a a'.

Lemma lives_refl a : lives a a.
Proof. split; [by repeat split|done|intros _; apply kept_closed_refl|done|by left]. Qed.

Lemma lives_trans a b c : lives a b → lives b c → lives a c.
Proof.
  intros [I1 S1 C1 D1 V1] [I2 S2 C2 D2 V2]. split.
  - unfold same_identity in *. destruct_and!. repeat split; congruence.
  - by etrans.
  - intros E. destruct (C1 E) as [Eb M1]. assert (a_Status b = "CLOSED") as Ec by (by rewrite Eb).
    destruct (C2 Ec) as [Ec' M2]. split; [|by etrans].
    rewrite Ec' at 1. rewrite Eb at 1. by destruct a.
  - auto.
  - destruct V1 as [->|], V2 as [->|]; auto. right. lia.
Qed.

#[local] Instance persists_preorder : PreOrder persists.
Proof.
  split.
  - intros r k a Ha. exists a. split; [done|apply lives_refl].
  - intros r1 r2 r3 H12 H23 k a Ha. destruct (H12 _ _ Ha) as (b & Hb & Lb).
    destruct (H23 _ _ Hb) as (c & Hc & Lc). exists c. split; [done|]. by eapply lives_trans.
Qed.

Lemma evolve_lives n k a a' :
  n + 1 < two63 → stored_alarm_ok n k a → evolve a a' → a_Version a' = wrap64 (a_Version a + 1) →
  lives a a'.
Proof.
  intros Hn Hok Hev Hv. split; try apply Hev.
  - destruct (ev_status _ _ Hev) as [->|Hs]; [done|]. by apply rtc_once.
  - right. destruct Hok as [_ _ _ _ Hav _ _]. rewrite Hv, (wrap_next n); lia.
Qed.

Lemma effect_persists n r r' : n + 1 < two63 → store_ok n r → alarm_effect r r' → persists r r'.
Proof.
  intros Hn Hr [|k st Hst Hold|k a a' w o Ha Hev Hv Hc Hw Ho Hm|a w e Hc Hv Hnone Hf Hx Hw Hm He].
  - reflexivity.
  - intros k' b Hb. exists b. split; [done|apply lives_refl].
  - intros k' b Hb. rewrite alarms_effect. destruct (decide (k = k')) as [<-|Hne].
    + rewrite lookup_insert_eq. exists a'. split; [done|]. assert (b = a) as -> by congruence.
      by eapply evolve_lives; [|by eapply so_alarms|..].
    + rewrite lookup_insert_ne by done. exists b. split; [done|apply lives_refl].
  - intros k' b Hb. rewrite alarms_effect, lookup_insert_ne by congruence.
    exists b. split; [done|apply lives_refl].
Qed.

(** Alarms that must be verified are closed with a result. *)
Definition all_verified (r : alarm_repo) : Prop :=
  ∀ k a, ar_alarms r !! k = Some a → verified_ok a.

Lemma effect_verified r r' :
  all_verified r → alarm_effect r r' → all_verified r'.
Proof.
  intros Hr [|k st Hst Hold|k a a' w o Ha Hev Hv Hc Hw Ho Hm|a w e Hc Hv Hnone Hf Hx Hw Hm He]; try done.
  - unfold all_verified. rewrite alarms_effect. intros k' b [[<- <-]|[_ Hb]]%lookup_insert_Some.
    + apply (ev_verified _ _ Hev). by eapply Hr.
    + by eapply Hr.
  - unfold all_verified. rewrite alarms_effect. intros k' b [[<- <-]|[_ Hb]]%lookup_insert_Some.
    + destruct Hc as [_ _ _ _ Hs _ _ Hd]. split; [by rewrite Hd|by rewrite Hs].
    + by eapply Hr.
Qed.

(** ** Histories *)

(** What holds of the store and of the log of sent events after [n] steps. *)
Record history_ok (n : Z) (log : list OutboxEvent) (r : alarm_repo) : Prop := {
  ho_store : store_ok n r;
  ho_ledger : ledger log r;
  ho_notices : notices log r;
  ho_verified : all_verified r }.

Lemma empty_history : history_ok 0 [] empty_alarm_repo.
Proof.
  split; [apply empty_ok|by split; [..|intros ? ?%not_elem_of_nil]| |done].
  exists []. split; [done|]. by split; [|intros ? ?%not_elem_of_nil|].
Qed.

Lemma op_step n log r op :
  0 ≤ n → n + 1 < two63 → history_ok n log r → op_ok op r →
  ∃ new, ar_outbox (exec_op op r) = ar_outbox r ++ new ∧
    history_ok (n + 1) (log ++ new) (exec_op op r) ∧ persists r (exec_op op r).
Proof.
  intros Hn0 Hn [Hr Hl Hno Hv] Hop. pose proof (exec_effect n op r ltac:(lia) Hr Hop) as He.
  destruct (ledger_effect n _ _ log Hn Hr Hl He) as (new & Hout & Hl'). exists new.
  split; [done|]. split; [|by eapply effect_persists].
  split; [by eapply effect_ok|done|by eapply notices_effect|by eapply effect_verified].
Qed.

Lemma ops_steps n log r ops :
  0 ≤ n → n + Z.of_nat (length ops) < two63 → history_ok n log r → ops_ok ops r →
  ∃ new, ar_outbox (exec_ops ops r) = ar_outbox r ++ new ∧
    history_ok (n + Z.of_nat (length ops)) (log ++ new) (exec_ops ops r) ∧
    persists r (exec_ops ops r).
Proof.
  revert n log r. induction ops as [|op ops IH]; intros n log r Hn0 Hn Hok Hops; cbn in *.
  { exists []. rewrite !app_nil_r, Z.add_0_r. done. }
  destruct Hops as [Hop Hops].
  destruct (op_step n log r op Hn0 ltac:(lia) Hok Hop) as (new1 & E1 & Hok1 & P1).
  destruct (IH (n + 1) _ _ ltac:(lia) ltac:(lia) Hok1 Hops) as (new2 & E2 & Hok2 & P2).
  exists (new1 ++ new2). rewrite E2, E1, !(assoc_L (++)). split; [done|]. split; [|by etrans].
  replace (n + Z.of_nat (S (length ops))) with (n + 1 + Z.of_nat (length ops)) by lia.
  exact Hok2.
Qed.

Lemma publish_batch_prefix publish batch : (publish_batch publish batch).1 `prefix_of` batch.
Proof.
  induction batch as [|e batch IH]; cbn; [done|]. destruct (publish e); [apply prefix_nil|].
  destruct (publish_batch publish batch). by apply prefix_cons.
Qed.

Lemma filter_sent (sent rest : list OutboxEvent) :
  NoDup (oe_Seq <$> (sent ++ rest)) →
  filter (λ v, oe_Seq v ∉ oe_Seq <$> sent) (sent ++ rest) = rest.
Proof.
  rewrite fmap_app. intros (_ & Hdis & _)%NoDup_app. rewrite filter_app.
  replace (filter _ sent) with (@nil OutboxEvent).
  - cbn. apply filter_all, Forall_forall. intros e He Hin. apply (Hdis _ Hin).
    by apply list_elem_of_fmap_2.
  - assert (∀ l, l ⊆ sent → filter (λ v, oe_Seq v ∉ oe_Seq <$> sent) l = []) as Hnil; [|by rewrite Hnil].
    induction l as [|e l IH]; intros Hl; [done|].
    rewrite filter_cons, decide_False; [apply IH; intros x Hx; apply Hl; by right|].
    intros Hno. apply Hno, list_elem_of_fmap_2, Hl. left.
Qed.

Lemma event_step n r sent ev :
  0 ≤ n → n + Z.of_nat (event_size ev) < two63 → history_ok n (sent ++ ar_outbox r) r →
  event_ok ev r →
  let '(r', sent') := exec_event ev (r, sent) in
  history_ok (n + Z.of_nat (event_size ev)) (sent' ++ ar_outbox r') r' ∧ persists r r'.
Proof.
  intros Hn0 Hn Hok Hev. destruct ev as [op|limit publish during]; cbn in *.
  - destruct (op_step _ _ _ _ Hn0 Hn Hok Hev) as (new & E & Hok' & Hp). rewrite E.
    by rewrite (assoc_L (++)).
  - destruct (ops_steps _ _ _ _ Hn0 Hn Hok Hev) as (new & E & Hok' & Hp).
    unfold DrainOutbox. pose proof (publish_batch_prefix publish (take limit (ar_outbox r))) as Hpre.
    destruct (publish_batch _ _) as [s e]. cbn in Hpre |- *.
    assert (∃ rest, ar_outbox r = s ++ rest) as [rest Hrest].
    { destruct Hpre as [l Hl]. exists (l ++ drop limit (ar_outbox r)).
      by rewrite (assoc_L (++)), <-Hl, take_drop. }
    split; [|exact Hp]. cbn. rewrite E, Hrest, <-!(assoc_L (++)), filter_sent.
    + rewrite Hrest in Hok'. destruct Hok' as [H1' [L1 L2 L3] (bs & Ebs & Hbs) H3'].
      rewrite <-!(assoc_L (++)) in *. split; [by destruct H1'; split|by split| |done].
      exists bs. split; [done|]. by destruct Hbs; split.
    + destruct (ho_ledger _ _ _ Hok') as [Hseq _ _]. rewrite Hrest in Hseq.
      pose proof (NoDup_seqZ 1 (ar_outboxSeq (exec_ops during r))) as Hnd. rewrite <-Hseq in Hnd.
      rewrite <-!(assoc_L (++)), fmap_app in Hnd. by apply NoDup_app in Hnd as (_ & _ & Hnd).
Qed.

Lemma events_steps n r sent evs :
  0 ≤ n → n + events_size evs < two63 → history_ok n (sent ++ ar_outbox r) r →
  events_ok evs (r, sent) →
  let '(r', sent') := exec_events evs (r, sent) in
  history_ok (n + events_size evs) (sent' ++ ar_outbox r') r' ∧ persists r r'.
Proof.
  unfold events_size. revert n r sent.
  induction evs as [|ev evs IH]; intros n r sent Hn0 Hn Hok Hevs.
  { cbn. by rewrite Z.add_0_r. }
  destruct Hevs as [Hev Hevs]. cbn [exec_events].
  change (sum_list (event_size <$> ev :: evs)) with (event_size ev + sum_list (event_size <$> evs))%nat in *.
  pose proof (event_step n r sent ev Hn0 ltac:(lia) Hok Hev) as Hstep.
  destruct (exec_event ev (r, sent)) as [r1 sent1]. destruct Hstep as [Hok1 P1].
  pose proof (IH (n + Z.of_nat (event_size ev)) r1 sent1 ltac:(lia) ltac:(lia) Hok1 Hevs) as Hrest.
  destruct (exec_events evs (r1, sent1)) as [r2 sent2]. destruct Hrest as [Hok2 P2].
  split; [|by etrans].
  replace (n + Z.of_nat (event_size ev + sum_list (event_size <$> evs)))
    with (n + Z.of_nat (event_size ev) + Z.of_nat (sum_list (event_size <$> evs))) by lia. done.
Qed.

(** A history from the empty store, short of the range of the counters. *)
Definition alarm_run (evs : list alarm_event) (r : alarm_repo) (sent : list OutboxEvent) : Prop :=
  events_ok evs (empty_alarm_repo, []) ∧ events_size evs < two63 ∧
  exec_events evs (empty_alarm_repo, []) = (r, sent).

Lemma alarm_run_ok evs r sent :
  alarm_run evs r sent → history_ok (events_size evs) (sent ++ ar_outbox r) r.
Proof.
  intros (Hok & Hsize & E).
  pose proof (events_steps 0 empty_alarm_repo [] evs ltac:(lia) Hsize empty_history Hok) as Hs.
  rewrite E in Hs. apply Hs.
Qed.

Lemma exec_events_app evs evs' s :
  exec_events (evs ++ evs') s = exec_events evs' (exec_events evs s).
Proof. revert s. induction evs as [|ev evs IH]; intros s; cbn; [done|apply IH]. Qed.

Lemma events_ok_app evs evs' s :
  events_ok (evs ++ evs') s → events_ok evs s ∧ events_ok evs' (exec_events evs s).
Proof.
  revert s. induction evs as [|ev evs IH]; intros s; cbn; [done|]. intros [? Hrest%IH]. tauto.
Qed.

Lemma sum_list_app (l l' : list nat) : sum_list (l ++ l') = (sum_list l + sum_list l')%nat.
Proof. induction l as [|x l IH]; cbn; [done|]. unfold sum_list in *. lia. Qed.

Lemma events_size_app evs evs' : events_size (evs ++ evs') = events_size evs + events_size evs'.
Proof. unfold events_size. rewrite fmap_app, sum_list_app. lia. Qed.

Lemma alarm_run_app evs evs' r r' sent sent' :
  alarm_run evs r sent → alarm_run (evs ++ evs') r' sent' →
  events_ok evs' (r, sent) ∧ exec_events evs' (r, sent) = (r', sent').
Proof.
  intros (_ & _ & E) (Hok & _ & E'). apply events_ok_app in Hok as [_ Hok].
  rewrite exec_events_app in E'. by rewrite E in *.
Qed.

(** ** The properties *)

(** C37: one open alarm per subject.  In every history of calls (component,
    rule, device and external reports, changes of operators and drains of the
    outbox in any order) no tenant has two open alarms of the same device and
    rule, external events apart, which have an alarm each; and the open alarm
    of a component is the one the stored state of the component names. *)
Theorem reachable_one_open evs r sent :
  alarm_run evs r sent →
  (∀ k k' a a', ar_alarms r !! k = Some a → ar_alarms r !! k' = Some a' → same_subject a a' →
     active_alarm a → active_alarm a' → ¬ external_rule (a_RuleID a) → k = k' ∧ a = a') ∧
  (∀ k a, ar_alarms r !! k = Some a → component_rule (a_RuleID a) → active_alarm a →
     ∃ st, ar_componentAlarms r !! component_key a = Some st ∧ ca_AlarmID st = a_ID a).
Proof.
  intros Hrun. destruct (alarm_run_ok _ _ _ Hrun) as [Hr _ _ _]. split; [|apply (so_component _ _ Hr)].
  intros k k' a a' Ha Ha' Hs A A' Hx.
  assert (k = k') as <- by (by apply (so_one_open _ _ Hr _ _ _ _ Ha Ha')).
  split; [done|congruence].
Qed.

(** C38: no report is lost or sent twice.  In every history, with drains that
    fail anywhere and calls between the publications of a batch, the events
    sent followed by those still queued are all reports in the order of their
    sequence numbers 1, 2, ... without a gap, and the trigger count of every
    alarm is the number of its report events.  Every event carries a report of
    an alarm there is, and every alarm has exactly one first report, which
    carries it as it was raised. *)
Theorem outbox_ledger evs r sent :
  alarm_run evs r sent →
  oe_Seq <$> (sent ++ ar_outbox r) = seqZ 1 (ar_outboxSeq r) ∧
  (∀ k a, ar_alarms r !! k = Some a →
     a_TriggerCount a = reports_of (a_ID a) (sent ++ ar_outbox r)) ∧
  (∀ e, e ∈ sent ++ ar_outbox r → oe_Topic e = TopicAlarmReported ∧
     ∃ k a, ar_alarms r !! k = Some a ∧ oe_Key e = a_ID a) ∧
  ∃ bs, oe_Payload <$> (sent ++ ar_outbox r) = marshal_alarm <$> bs ∧ notices_ok bs r.
Proof. intros Hrun. by destruct (alarm_run_ok _ _ _ Hrun) as [_ [? ? ?] ? _]. Qed.

(** C39: the life of an alarm.  Along every history an alarm is never removed
    and keeps its identity; its status only follows acknowledge, recover,
    suppress and close and is never opened again; a closed alarm keeps all its
    content, apart from the time of closing and the video events in its
    details, which take their own places again when their media are archived
    ([updateVideoAlarmMedia] does not look at the status); a recorded verification stays; and
    the version grows with every change.  No alarm that must be verified is
    closed without a valid result, and none has more than ten attachments. *)
Theorem alarm_lifecycle evs evs' r r' sent sent' :
  alarm_run evs r sent → alarm_run (evs ++ evs') r' sent' →
  persists r r' ∧
  ∀ k a, ar_alarms r' !! k = Some a →
    (a_Status a = "CLOSED" → RequiresVerification a →
       ∃ d, a_Disposition a = Some d ∧ ValidDispositionResult (ad_Result d)) ∧
    (length (a_Attachments a) ≤ MaxAlarmAttachments)%nat.
Proof.
  intros Hrun Hrun'. destruct (alarm_run_app _ _ _ _ _ _ Hrun Hrun') as [Hok E].
  pose proof Hrun' as (_ & Hsize & _). rewrite events_size_app in Hsize. split.
  - pose proof (events_steps (events_size evs) r sent evs' ltac:(unfold events_size; lia) Hsize
      (alarm_run_ok _ _ _ Hrun) Hok) as Hs. rewrite E in Hs. apply Hs.
  - destruct (alarm_run_ok _ _ _ Hrun') as [Hr _ _ Hv]. intros k a Ha. split.
    + intros Hc Hreq. destruct (Hv _ _ Ha) as [Hd Hclosed]. destruct (Hclosed Hc Hreq) as [d Hdd].
      exists d. split; [done|by apply Hd].
    + apply (so_alarms _ _ Hr _ _ Ha).
Qed.
End theorems.
