(* ===== verification/AlarmConvergence.v ===== *)
(** Component reports converge: whatever order and however often they are
    delivered, the state of a component and its open alarm are those of the
    latest report. *)
From S2P Require Import Prelude GoText GoJson AlarmModel AlarmStore AlarmEngine AlarmRuns.
From S2P Require Import AlarmEffects AlarmHistory AlarmTheorems.

Section convergence.
Context `{AlarmDetails, !AlarmJson, MapOrder, !MapOrderLaws, Platform, UpperCase}.

(** A report to the store, and the observation it makes of a component. *)
Abbreviation alarm_report := (Alarm * ComponentAlarmState)%type.
Record observation := mk_observation {
  ob_key : string; ob_time : Z; ob_message : string; ob_active : bool }.
Definition observe (x : alarm_report) : observation :=
  mk_observation (component_key x.1) (ca_Timestamp x.2) (ca_MessageID x.2) (ca_Active x.2).
Definition report_ops (l : list alarm_report) : list alarm_op :=
  (λ x, OpComponent x.1 x.2) <$> l.

(** Messages are identified and dated, and one message makes one observation
    of a component. *)
Record observations_ok (l : list observation) : Prop := {
  oo_message : ∀ o, o ∈ l → ob_message o ≠ "" ∧ 0 < ob_time o;
  oo_once : ∀ o o', o ∈ l → o' ∈ l → ob_key o = ob_key o' → ob_message o = ob_message o' → o = o' }.

(** The time and the value of the latest observations of [k]; at equal times
    an alarm wins over a normal state. *)
Definition is_latest (k : string) (l : list observation) (t : Z) (b : bool) : Prop :=
  (∀ o, o ∈ l → ob_key o = k → ob_time o ≤ t) ∧
  (b = true ↔ ∃ o, o ∈ l ∧ ob_key o = k ∧ ob_time o = t ∧ ob_active o = true) ∧
  (t = 0 ∨ ∃ o, o ∈ l ∧ ob_key o = k ∧ ob_time o = t).

Lemma is_latest_unique k l t b t' b' :
  observations_ok l → is_latest k l t b → is_latest k l t' b' → t = t' ∧ b = b'.
Proof.
  intros Hl (M1 & A1 & E1) (M2 & A2 & E2).
  assert (t = t') as ->.
  { destruct E1 as [->|(o & Ho & Hk & <-)], E2 as [->|(o' & Ho' & Hk' & <-)]; [done|..].
    - pose proof (M1 _ Ho' Hk'). destruct (oo_message _ Hl _ Ho'). lia.
    - pose proof (M2 _ Ho Hk). destruct (oo_message _ Hl _ Ho). lia.
    - pose proof (M1 _ Ho' Hk'). pose proof (M2 _ Ho Hk). lia. }
  split; [done|]. apply eq_bool_prop_intro. rewrite !Is_true_true. by rewrite A1, A2.
Qed.

Definition stored_state (k : string) (r : alarm_repo) : ComponentAlarmState :=
  default zero_ComponentAlarmState (ar_componentAlarms r !! k).

(** The alarm of a component is open. *)
Definition component_open (k : string) (r : alarm_repo) : Prop :=
  ∃ a, ar_alarms r !! alarm_key a = Some a ∧ component_key a = k ∧ active_alarm a.

Lemma transition_active c old st :
  a_Status c = "ACTIVE" →
  active_alarm (TransitionComponentAlarm c old st).1 ↔ ca_Active st = true.
Proof.
  intros Hc. unfold TransitionComponentAlarm. destruct (ca_Active st).
  - case_decide as Ho; [|split; [done|intros _; by left]].
    cbv zeta. repeat case_decide; (split; [done|intros _; exact Ho]).
  - case_decide as Ho; cbn; [by split; [intros [|]|]|by split; [intros ?|]].
Qed.

(** The alarm that the transition leaves is the candidate or the one the
    component had. *)
Lemma transition_alarm n c st r :
  store_ok n r → candidate_ok c →
  let old := default zero_Alarm
    (ar_alarms r !! store_key [a_TenantID c; ca_AlarmID (stored_state (component_key c) r)]) in
  let alarm := (TransitionComponentAlarm c old st).1 in
  (a_ID alarm ≠ "" → component_key alarm = component_key c) ∧
  (ca_Active st = true → a_ID alarm ≠ "").
Proof.
  intros Hr Hc. pose proof (previous_alarm n c r Hr Hc) as Hprev.
  cbv zeta in *. fold (stored_state (component_key c) r) in *.
  destruct (decide (active_alarm (default zero_Alarm (ar_alarms r !! store_key
    [a_TenantID c; ca_AlarmID (stored_state (component_key c) r)])) ∨ ca_Active st = false)) as [Hor|Hor].
  - destruct (transition_update c _ st Hor) as (Hev & _ & Hi & _).
    destruct (evolve_keys _ _ Hev) as (_ & Eck & _). rewrite Eck, Hi.
    destruct (ar_alarms r !! _) as [old|] eqn:Hold; cbn [from_option id] in *.
    + destruct Hprev as [Hsub _]. split; [intros _; by apply same_subject_component|].
      intros _. apply (so_alarms _ _ Hr _ _ Hold).
    + split; [done|]. intros Hact. destruct Hor as [Hz|]; [by destruct (zero_not_active Hz)|congruence].
  - unfold TransitionComponentAlarm. destruct (ca_Active st); [|tauto].
    rewrite decide_False by tauto. cbn. split; [done|]. intros _. apply Hc.
Qed.

(** What a report that is taken does. *)
Lemma component_taken n c st r :
  store_ok n r → op_ok (OpComponent c st) r →
  let k := component_key c in
  let r' := exec_op (OpComponent c st) r in
  r' = r ∧
    (ca_MessageID st = ca_MessageID (stored_state k r) ∧ ca_Timestamp st = ca_Timestamp (stored_state k r) ∨
     Supersedes st (stored_state k r) = false) ∨
  Supersedes st (stored_state k r) = true ∧
  ∃ st' a', ar_componentAlarms r' = <[k := st']> (ar_componentAlarms r) ∧
    ca_Timestamp st' = ca_Timestamp st ∧ ca_MessageID st' = ca_MessageID st ∧
    ca_Active st' = ca_Active st ∧ ca_AlarmID st' = a_ID a' ∧
    (active_alarm a' ↔ ca_Active st = true) ∧ (ca_Active st = true → a_ID a' ≠ "") ∧
    (a_ID a' = "" ∧ ar_alarms r' = ar_alarms r ∨
     a_ID a' ≠ "" ∧ component_key a' = k ∧ ar_alarms r' = <[alarm_key a' := a']> (ar_alarms r)).
Proof.
  intros Hr (Hc & Hrule & Hfresh). pose proof (transition_alarm n c st r Hr Hc) as Hid.
  cbv zeta in *. cbn [exec_op]. unfold ApplyComponentAlarm. cbv zeta.
  fold (stored_state (component_key c) r). set (previous := stored_state _ _) in *.
  case_decide; [by left; split; [|left]|]. destruct (Supersedes st previous); cbn [negb];
    [right|by left; split; [|right]]. split; [done|].
  set (old := default zero_Alarm _) in *.
  pose proof (transition_active c old st (co_status _ Hc)) as Hact.
  destruct (TransitionComponentAlarm c old st) as [alarm event]. cbn [fst] in Hact, Hid.
  destruct Hid as [Hkey Hne].
  set (st' := st <| ca_AlarmID := _ |> <| ca_Event := _ |>).
  case_decide as Hempty.
  - set (alarm' := alarm <| a_Version := _ |>). exists st', alarm'.
    change (alarm_key alarm') with (alarm_key alarm). change (active_alarm alarm') with (active_alarm alarm).
    split; [by destruct (ca_Active st')|]. do 4 (split; [done|]). split; [exact Hact|].
    split; [done|]. right. split; [done|]. split; [by apply Hkey|]. by destruct (ca_Active st').
  - exists st', alarm. split; [done|]. do 4 (split; [done|]). split; [exact Hact|]. split; [done|].
    by left.
Qed.

(** ** One report *)

Lemma stored_state_taken k st r r' :
  ar_componentAlarms r' = <[k := st]> (ar_componentAlarms r) →
  stored_state k r' = st ∧ ∀ k', k' ≠ k → stored_state k' r' = stored_state k' r.
Proof.
  unfold stored_state. intros ->. split; [by rewrite lookup_insert_eq|].
  intros k' Hne. by rewrite lookup_insert_ne.
Qed.

Definition state_observation (k : string) (st : ComponentAlarmState) : observation :=
  mk_observation k (ca_Timestamp st) (ca_MessageID st) (ca_Active st).

(** The store after the observations [l]. *)
Record converged (n : Z) (l : list observation) (r : alarm_repo) : Prop := {
  cv_store : store_ok n r;
  cv_source k : ca_MessageID (stored_state k r) = "" ∨ state_observation k (stored_state k r) ∈ l;
  cv_latest k : is_latest k l (ca_Timestamp (stored_state k r)) (ca_Active (stored_state k r));
  cv_open k : component_open k r ↔ ca_Active (stored_state k r) = true }.

Lemma is_latest_other k l o t b : ob_key o ≠ k → is_latest k l t b → is_latest k (l ++ [o]) t b.
Proof.
  intros Hne (M & A & E). split; [|split].
  - intros o' [Ho'| ->%list_elem_of_singleton]%elem_of_app Hk; [by apply M|done].
  - rewrite A. setoid_rewrite elem_of_app. setoid_rewrite list_elem_of_singleton.
    split; [intros (o' & ? & ?); exists o'; auto|]. intros (o' & [?| ->] & Hk & ?); [by exists o'|done].
  - destruct E as [|(o' & ? & ?)]; [by left|right]. exists o'. rewrite elem_of_app. auto.
Qed.

Lemma is_latest_old k l o t b :
  ob_time o ≤ t → (ob_time o = t → ob_active o = true → b = true) →
  is_latest k l t b → is_latest k (l ++ [o]) t b.
Proof.
  intros Ht Hact (M & A & E). split; [|split].
  - intros o' [Ho'| ->%list_elem_of_singleton]%elem_of_app Hk; [by apply M|done].
  - split.
    + intros Hb. destruct (proj1 A Hb) as (o' & ? & ?). exists o'. rewrite elem_of_app. auto.
    + intros (o' & [Ho'| ->%list_elem_of_singleton]%elem_of_app & ? & ? & ?); [|by apply Hact].
      apply A. by exists o'.
  - destruct E as [|(o' & ? & ?)]; [by left|right]. exists o'. rewrite elem_of_app. auto.
Qed.

Lemma is_latest_new l o t b :
  (t < ob_time o ∨ ob_time o = t ∧ b = false ∧ ob_active o = true) →
  is_latest (ob_key o) l t b → is_latest (ob_key o) (l ++ [o]) (ob_time o) (ob_active o).
Proof.
  intros Hnew (M & A & E). assert (o ∈ l ++ [o]) as Hin by (apply elem_of_app; right; by left).
  split; [|split].
  - intros o' [Ho'| ->%list_elem_of_singleton]%elem_of_app Hk; [|done].
    pose proof (M _ Ho' Hk). destruct Hnew as [|(? & _)]; lia.
  - split; [intros Hb; by exists o|].
    intros (o' & [Ho'| ->%list_elem_of_singleton]%elem_of_app & Hk & Ht & Ha); [|done].
    pose proof (M _ Ho' Hk). destruct Hnew as [|(? & -> & ?)]; [lia|done].
  - right. by exists o.
Qed.

(** Reading [Supersedes]. *)
Lemma supersedes_true next old :
  Supersedes next old = true →
  ca_Timestamp old < ca_Timestamp next ∨
  ca_Timestamp next = ca_Timestamp old ∧ ca_Active old = false ∧ ca_Active next = true.
Proof.
  unfold Supersedes. case_decide as Hd; [done|].
  intros [Hne%bool_decide_eq_true|[Ho Hn]%andb_true_iff]%orb_true_iff; [left; lia|].
  apply negb_true_iff in Ho. destruct (decide (ca_Timestamp old < ca_Timestamp next)); [by left|right].
  split; [lia|done].
Qed.

Lemma supersedes_false next old :
  Supersedes next old = false →
  (ca_MessageID next = ca_MessageID old ∧ ca_MessageID old ≠ "") ∨
  ca_Timestamp next < ca_Timestamp old ∨
  ca_Timestamp next = ca_Timestamp old ∧ (ca_Active next = true → ca_Active old = true).
Proof.
  unfold Supersedes. case_decide as Hd; [tauto|].
  intros [Hne%bool_decide_eq_false Hn]%orb_false_iff. right; right. split; [lia|].
  destruct (ca_Active old), (ca_Active next); cbn in Hn; done.
Qed.

(** The component of another key is not touched. *)
Lemma component_open_other k r r' a' :
  persists r r' → component_key a' ≠ k → ar_alarms r' = <[alarm_key a' := a']> (ar_alarms r) →
  component_open k r' ↔ component_open k r.
Proof.
  intros Hp Hne E. split; intros (a & Ha & Hk & Hopen).
  - rewrite E in Ha. apply lookup_insert_Some in Ha as [[_ <-]|[_ Ha]]; [done|by exists a].
  - exists a. split; [|done]. rewrite E. rewrite lookup_insert_ne; [done|]. intros Heq.
    destruct (Hp _ _ Ha) as (b & Hb & Hlives). rewrite E, Heq, lookup_insert_eq in Hb.
    injection Hb as <-. destruct (lv_identity _ _ Hlives) as (E1 & _ & E3 & E4 & _).
    apply Hne. rewrite <-Hk. unfold component_key. by rewrite E1, E3, E4.
Qed.

(** The component that was reported is open exactly when the report says so. *)
Lemma component_open_taken n c st r' st' a' :
  store_ok n r' → candidate_ok c → component_rule (a_RuleID c) →
  ar_componentAlarms r' !! component_key c = Some st' → ca_AlarmID st' = a_ID a' →
  (active_alarm a' ↔ ca_Active st = true) → (ca_Active st = true → a_ID a' ≠ "") →
  (a_ID a' ≠ "" → component_key a' = component_key c ∧ ar_alarms r' !! alarm_key a' = Some a') →
  component_open (component_key c) r' ↔ ca_Active st = true.
Proof.
  intros Hr Hc Hrule Hst Hid Hact Hne Hstored. split.
  - intros (a & Ha & Hk & Hopen). destruct (so_alarms _ _ Hr _ _ Ha) as [_ Ht Hd Hida _ _ _].
    pose proof Hk as Hk'. apply store_key3_inj in Hk' as (_ & _ & Er); [|done|apply Hc|done|apply Hc].
    destruct (so_component _ _ Hr _ _ Ha) as (st0 & Hst0 & Hid0); [by rewrite Er|done|].
    rewrite Hk in Hst0. assert (a_ID a' = a_ID a) as E by congruence.
    destruct Hstored as [_ Ha']; [congruence|].
    pose proof (so_ids _ _ Hr _ _ _ _ Ha' Ha E) as Ek. rewrite Ek in Ha'.
    assert (a = a') as -> by congruence. by apply Hact.
  - intros Ha. destruct (Hstored (Hne Ha)) as [Hk Hl]. exists a'. split; [done|]. split; [done|].
    by apply Hact.
Qed.

Lemma converged_same n l r o :
  observations_ok (l ++ [o]) → converged n l r →
  (ob_message o = ca_MessageID (stored_state (ob_key o) r) ∧
     ob_time o = ca_Timestamp (stored_state (ob_key o) r) ∨
   ob_message o = ca_MessageID (stored_state (ob_key o) r) ∧
     ca_MessageID (stored_state (ob_key o) r) ≠ "" ∨
   ob_time o < ca_Timestamp (stored_state (ob_key o) r) ∨
   ob_time o = ca_Timestamp (stored_state (ob_key o) r) ∧
     (ob_active o = true → ca_Active (stored_state (ob_key o) r) = true)) →
  converged (n + 1) (l ++ [o]) r.
Proof.
  intros Hl [Hr Hsrc Hlat Hopen] Hold. assert (o ∈ l ++ [o]) as Hin by (apply elem_of_app; right; by left).
  assert (ob_message o = ca_MessageID (stored_state (ob_key o) r) →
    o = state_observation (ob_key o) (stored_state (ob_key o) r)) as Hsame.
  { intros E. destruct (Hsrc (ob_key o)) as [E'|Hs].
    - destruct (oo_message _ Hl _ Hin) as [? _]. congruence.
    - apply (oo_once _ Hl); [done|by apply elem_of_app; left|done|done]. }
  split.
  - by apply same_ok.
  - intros k. destruct (Hsrc k) as [?|Hs]; [by left|right]. apply elem_of_app. by left.
  - intros k. destruct (decide (ob_key o = k)) as [<-|Hne]; [|by apply is_latest_other].
    destruct Hold as [[E _]|[[E _]|[Hlt|[Ht Ha]]]].
    1,2: pose proof (Hsame E) as Eo; apply is_latest_old; [by rewrite Eo|by rewrite Eo|done].
    + apply is_latest_old; [lia|lia|done].
    + apply is_latest_old; [lia|by intros _|done].
  - done.
Qed.

Lemma converged_step n l r c st :
  0 ≤ n → n + 1 < two63 → observations_ok (l ++ [observe (c, st)]) → converged n l r →
  op_ok (OpComponent c st) r →
  converged (n + 1) (l ++ [observe (c, st)]) (exec_op (OpComponent c st) r).
Proof.
  intros Hn0 Hn Hl Hcv Hop. pose proof (cv_store _ _ _ Hcv) as Hr.
  pose proof (exec_effect n _ r ltac:(lia) Hr Hop) as Heff.
  pose proof (effect_ok n _ _ Hn0 Hn Hr Heff) as Hr'. pose proof (effect_persists n _ _ Hn Hr Heff) as Hp.
  destruct (component_taken n c st r Hr Hop)
    as [[E Hold]|[Hsup (st' & a' & Ecomp & Et & Em & Ea & Eid & Hact & Hne & Halarms)]].
  - rewrite E. apply converged_same; [done..|]. destruct Hold as [?|Hold]; [by left|right].
    by apply supersedes_false.
  - destruct (stored_state_taken _ _ _ _ Ecomp) as [Hk Hother]. split.
    + exact Hr'.
    + intros k. destruct (decide (k = component_key c)) as [->|Hkne].
      * right. rewrite Hk. apply elem_of_app. right. apply list_elem_of_singleton.
        unfold state_observation, observe. by rewrite Et, Em, Ea.
      * rewrite Hother by done. destruct (cv_source _ _ _ Hcv k); [by left|right].
        apply elem_of_app. by left.
    + intros k. destruct (decide (k = component_key c)) as [->|Hkne].
      * rewrite Hk, Et, Ea. apply (is_latest_new _ (observe (c, st)) _ _ (supersedes_true _ _ Hsup)).
        apply (cv_latest _ _ _ Hcv).
      * rewrite Hother by done. apply is_latest_other; [done|]. apply (cv_latest _ _ _ Hcv).
    + intros k. destruct (decide (k = component_key c)) as [->|Hkne].
      * rewrite Hk, Ea. destruct Hop as (Hc & Hrule & _).
        apply (component_open_taken _ c st _ st' a' Hr' Hc Hrule); [|done..|].
        { rewrite Ecomp. apply lookup_insert_eq. }
        intros Hid. destruct Halarms as [[? _]|(_ & ? & ->)]; [done|]. by rewrite lookup_insert_eq.
      * rewrite Hother by done. rewrite <-(cv_open _ _ _ Hcv k).
        destruct Halarms as [[_ E]|(_ & E1 & E)]; [|apply (component_open_other _ _ _ a'); [exact Hp|by rewrite E1|exact E]].
        unfold component_open. by rewrite E.
Qed.

Lemma converged_empty : converged 0 [] empty_alarm_repo.
Proof.
  split; [apply empty_ok|intros k; by left|intros k|].
  - split; [by intros ? ?%not_elem_of_nil|]. split; [|by left].
    split; [done|by intros (? & ?%not_elem_of_nil & _)].
  - intros k. split; [by intros (a & Ha & _)|done].
Qed.

Lemma converged_run n l0 l r :
  0 ≤ n → n + Z.of_nat (length l) < two63 → observations_ok (l0 ++ (observe <$> l)) →
  converged n l0 r → ops_ok (report_ops l) r →
  converged (n + Z.of_nat (length l)) (l0 ++ (observe <$> l)) (exec_ops (report_ops l) r).
Proof.
  revert n l0 r. induction l as [|[c st] l IH]; intros n l0 r Hn0 Hn Hobs Hcv Hops.
  { cbn. by rewrite app_nil_r, Z.add_0_r. }
  destruct Hops as [Hop Hops]. cbn [length] in Hn. rewrite fmap_cons in *.
  assert (l0 ++ observe (c, st) :: (observe <$> l) = (l0 ++ [observe (c, st)]) ++ (observe <$> l)) as E
    by (by rewrite <-(assoc_L (++))).
  rewrite E in Hobs |- *.
  assert (observations_ok (l0 ++ [observe (c, st)])) as Hobs1.
  { destruct Hobs as [H1' H2']. split.
    - intros o Ho. apply H1', elem_of_app. by left.
    - intros o o' Ho Ho'. apply H2'; apply elem_of_app; by left. }
  replace (n + Z.of_nat (length ((c, st) :: l))) with (n + 1 + Z.of_nat (length l)) by (cbn [length]; lia).
  apply (IH (n + 1)); [lia|lia|done| |done]. apply converged_step; [done|lia|done|done|done].
Qed.

(** C40: component reports converge.  Two deliveries of the same observations,
    in any order and with any repetitions, leave every component in the same
    state: the value and time of its latest observation, where an alarm wins
    over a normal state of the same time; and the component has an open alarm
    exactly when that value is an alarm. *)
Theorem component_convergence l l' :
  Z.of_nat (length l) < two63 → Z.of_nat (length l') < two63 →
  observations_ok (observe <$> l) → (∀ o, o ∈ observe <$> l ↔ o ∈ observe <$> l') →
  ops_ok (report_ops l) empty_alarm_repo → ops_ok (report_ops l') empty_alarm_repo →
  let r := exec_ops (report_ops l) empty_alarm_repo in
  let r' := exec_ops (report_ops l') empty_alarm_repo in
  ∀ k, let t := ca_Timestamp (stored_state k r) in
       let b := ca_Active (stored_state k r) in
  is_latest k (observe <$> l) t b ∧ (component_open k r ↔ b = true) ∧
  ca_Timestamp (stored_state k r') = t ∧ ca_Active (stored_state k r') = b ∧
  (component_open k r' ↔ component_open k r).
Proof.
  intros Hn Hn' Hobs Hsame Hops Hops' r r' k t b.
  assert (observations_ok (observe <$> l')) as Hobs'.
  { destruct Hobs as [H1' H2']. split; [intros o Ho; apply H1'|intros o o' Ho Ho'; apply H2'];
      by apply Hsame. }
  pose proof (converged_run 0 [] l _ ltac:(lia) Hn Hobs converged_empty Hops) as Hcv.
  pose proof (converged_run 0 [] l' _ ltac:(lia) Hn' Hobs' converged_empty Hops') as Hcv'.
  pose proof (cv_latest _ _ _ Hcv k) as L. pose proof (cv_latest _ _ _ Hcv' k) as L'.
  cbn [app] in *. assert (is_latest k (observe <$> l) (ca_Timestamp (stored_state k r'))
    (ca_Active (stored_state k r'))) as L''.
  { unfold is_latest in *. by setoid_rewrite Hsame. }
  destruct (is_latest_unique _ _ _ _ _ _ Hobs L'' L) as [Et Eb].
  split; [exact L|]. split; [exact (cv_open _ _ _ Hcv k)|]. split; [exact Et|]. split; [exact Eb|].
  etrans; [exact (cv_open _ _ _ Hcv' k)|]. symmetry. etrans; [exact (cv_open _ _ _ Hcv k)|].
  fold r'. by rewrite Eb.
Qed.
End convergence.
