(* ===== verification/AlarmMutate.v ===== *)
(** The optimistic loop of the engine commits one change on the alarm stored
    at that moment (internal/core/consistency.go, mutateAlarm). *)
From S2P Require Import Prelude GoText GoJson StoreIO AlarmModel AlarmStore AlarmEngine AlarmRuns.
From S2P Require Import AlarmEffects AlarmHistory AlarmTheorems.

Section mutate.
Context `{AlarmDetails} (sched : store_schedule alarm_repo).

(** Alarms are stored under their own key. *)
Definition keyed_alarms (r : alarm_repo) : Prop := ∀ k a, ar_alarms r !! k = Some a → k = alarm_key a.

(** What the others may do: an alarm stays, under its key, and its version
    grows whenever it changes. *)
Definition alarm_rely : Prop :=
  ∀ n r, keyed_alarms r → keyed_alarms (sc_env sched n r) ∧ persists r (sc_env sched n r).

(** The steps of the others. *)
Definition env_path : relation alarm_repo := rtc (λ r r', ∃ n, r' = sc_env sched n r).

Lemma env_path_rely r r' :
  alarm_rely → keyed_alarms r → env_path r r' → keyed_alarms r' ∧ persists r r'.
Proof.
  intros Hrely Hr Hp. revert Hr. induction Hp as [r|r1 r2 r3 [n ->] _ IH]; intros Hr.
  { split; [done|]. intros k a Ha. exists a. split; [done|apply lives_refl]. }
  destruct (Hrely n r1 Hr) as [Hk P1]. destruct (IH Hk) as [Hk' P2]. split; [done|].
  intros k a Ha. destruct (P1 _ _ Ha) as (b & Hb & L1). destruct (P2 _ _ Hb) as (c & Hc & L2).
  exists c. split; [done|]. by eapply lives_trans.
Qed.

(** How a run of the loop ends, given the key of the alarm. *)
Definition mutate_outcome (tenant alarmID : string) (fn : alarm_fn) (r : alarm_repo)
    (res : res (Alarm * bool)) (r' : alarm_repo) : Prop :=
  match res with
  | Ok (a, true) => ∃ rc cur next, env_path r rc ∧
      ar_alarms rc !! store_key [tenant; alarmID] = Some cur ∧ fn cur = Ok (Some next) ∧
      a = next <| a_Version := wrap64 (a_Version cur + 1) |> ∧
      r' = apply_change tenant alarmID fn rc ∧
      r' = put_alarm (store_key [tenant; alarmID]) a rc
  | Ok (a, false) => env_path r r' ∧
      ar_alarms r' !! store_key [tenant; alarmID] = Some a ∧ fn a = Ok None
  | Err e => env_path r r' ∧
      ((∃ n, sc_fail sched n = Some e) ∨
       e = alarm_not_found ∧ ar_alarms r' !! store_key [tenant; alarmID] = None ∨
       (∃ a, ar_alarms r' !! store_key [tenant; alarmID] = Some a ∧ fn a = Err e) ∨
       e = concurrent_update alarmID)
  end.

Lemma mutate_outcome_later tenant alarmID fn r r1 res r' :
  env_path r r1 → mutate_outcome tenant alarmID fn r1 res r' → mutate_outcome tenant alarmID fn r res r'.
Proof.
  intros Hp. destruct res as [[a [|]]|e]; cbn.
  - intros (rc & cur & next & Hp' & Hrest). exists rc, cur, next. split; [by etrans|done].
  - intros [Hp' Hrest]. split; [by etrans|done].
  - intros [Hp' Hrest]. split; [by etrans|done].
Qed.

Section loop.
Context (tenant alarmID : string) (fn : alarm_fn).
Context (Hrely : alarm_rely).
Context (Hkey : ∀ a a', fn a = Ok (Some a') → alarm_key a' = alarm_key a).

(** The version of a stored alarm tells whether it has changed. *)
Lemma same_version r r' k a a' :
  persists r r' → ar_alarms r !! k = Some a → ar_alarms r' !! k = Some a' →
  a_Version a' = a_Version a → a' = a.
Proof using.
  intros Hp Ha Ha' Hv. destruct (Hp _ _ Ha) as (b & Hb & L).
  assert (b = a') as -> by congruence. destruct (lv_version _ _ L); [done|lia].
Qed.

Lemma mutate_attempts_outcome attempts r n :
  keyed_alarms r →
  let '(res, (r', n')) := mutate_attempts sched attempts tenant alarmID fn (r, n) in
  (n' ≤ n + 2 * attempts)%nat ∧ mutate_outcome tenant alarmID fn r res r'.
Proof using Hrely Hkey.
  revert r n. induction attempts as [|attempts IH]; intros r n Hr.
  { cbn. split; [lia|]. split; [done|]. auto. }
  assert (env_path r (sc_env sched n r)) as Hp1 by (apply rtc_once; by exists n).
  destruct (Hrely n r Hr) as [Hr1 _]. set (r1 := sc_env sched n r) in *.
  cbn [mutate_attempts]. unfold mbind, StoreIO_bind. rewrite store_call_eq.
  destruct (sc_fail sched n) as [e|] eqn:Hf; cbn [fst snd].
  { split; [lia|]. split; [done|]. left. by exists n. }
  fold r1. unfold GetAlarm. destruct (ar_alarms r1 !! store_key [tenant; alarmID]) as [cur|] eqn:Hcur; cbn [fst snd].
  2: { split; [lia|]. split; [done|]. auto. }
  destruct (fn cur) as [[next|]|e] eqn:Hfn.
  2: { cbn. split; [lia|done]. }
  2: { cbn. split; [lia|]. split; [done|]. right; right; left. by exists cur. }
  pose proof (Hr1 _ _ Hcur) as Hk. rewrite store_call_eq.
  assert (env_path r1 (sc_env sched (S n) r1)) as Hp2 by (apply rtc_once; by exists (S n)).
  destruct (Hrely (S n) r1 Hr1) as [Hr2 P2]. set (r2 := sc_env sched (S n) r1) in *.
  destruct (sc_fail sched (S n)) as [e|] eqn:Hf2.
  { split; [lia|]. split; [by etrans|]. left. by exists (S n). }
  fold r2. unfold UpdateAlarmIf. change (alarm_key (next <| a_Version := a_Version cur |>)) with (alarm_key next).
  rewrite (Hkey _ _ Hfn), <-Hk.
  destruct (P2 _ _ Hcur) as (cur2 & Hcur2 & _). rewrite Hcur2. cbn [a_Version].
  change (a_Version (next <| a_Version := a_Version cur |>)) with (a_Version cur).
  case_decide as Hv; cbn [fst snd].
  - specialize (IH r2 (S (S n)) Hr2).
    destruct (mutate_attempts _ _ _ _ _ _) as [res [r' n']]. destruct IH as [Hn' Hout].
    split; [lia|]. eapply mutate_outcome_later; [|exact Hout]. by etrans.
  - cbn. split; [lia|].
    assert (cur2 = cur) as -> by (by eapply same_version).
    exists r2, cur, next. split; [by etrans|]. split; [done|]. split; [done|]. split; [done|].
    unfold apply_change, GetAlarm. rewrite Hcur2, Hfn. unfold UpdateAlarmIf.
    change (alarm_key (next <| a_Version := a_Version cur |>)) with (alarm_key next).
    rewrite (Hkey _ _ Hfn), <-Hk, Hcur2, decide_False by (by intros []). done.
Qed.
End loop.

(** C23: an optimistic change of an alarm is atomic.  Under any interference
    in which alarms stay under their keys and their versions grow, [mutateAlarm]
    ends within sixteen store calls; when it reports a write it has applied the
    change, in one step, to the alarm stored at that moment, under the next
    version; otherwise it has written nothing, and returns the alarm as stored
    or the error of the store, of the change, or of the exhausted attempts. *)
Theorem mutateAlarm_linearizes tenant alarmID fn r n :
  alarm_rely → (∀ a a', fn a = Ok (Some a') → alarm_key a' = alarm_key a) → keyed_alarms r →
  let '(res, (r', n')) := mutateAlarm sched tenant alarmID fn (r, n) in
  (n' ≤ n + 16)%nat ∧ mutate_outcome tenant alarmID fn r res r'.
Proof. intros Hrely Hkey Hr. by apply (mutate_attempts_outcome tenant alarmID fn Hrely Hkey casAttempts). Qed.
End mutate.
