(* ===== verification/AlarmWitness.v ===== *)
(** The theorems about alarms applied to a concrete history. *)
From S2P Require Import Prelude GoText GoJson Scenario SitesModel StoreIO AlarmModel AlarmStore.
From S2P Require Import AlarmEngine AlarmRuns AlarmEffects AlarmHistory AlarmTheorems.
From S2P Require Import AlarmConvergence AlarmMutate.
From Stdlib Require Import SpecFloat.

(** The side conditions of an alarm history as boolean checks, for concrete
    histories. *)

Section checks.
Context `{AlarmDetails, !AlarmJson, MapOrder, Platform, UpperCase}.

#[export] Instance nul_free_dec s : Decision (nul_free s).
Proof. induction s as [|c s IH]; cbn; apply _. Defined.

Definition candidate_okb (a : Alarm) : bool :=
  bool_decide (nul_free (a_TenantID a) ∧ nul_free (a_DeviceID a) ∧ nul_free (a_ID a) ∧ a_ID a ≠ ""
    ∧ a_Status a = "ACTIVE" ∧ a_TriggerCount a = 1 ∧ length (a_Attachments a) = 0%nat).
Lemma candidate_okb_ok a : candidate_okb a = true → a_Disposition a = None → candidate_ok a.
Proof.
  intros Ha%bool_decide_eq_true Hd. destruct_and!. split; try done. by apply length_zero_iff_nil.
Qed.

Definition fresh_idb (i : string) (r : alarm_repo) : bool :=
  bool_decide (map_Forall (λ _ b, a_ID b ≠ i) (ar_alarms r)).
Lemma fresh_idb_ok a r : fresh_idb (a_ID a) r = true → fresh_id a r.
Proof. intros Hf%bool_decide_eq_true k b Hb. by apply (Hf k). Qed.

(** The identifier of an external event is new, or stored under its key. *)
Definition external_idb (v : Alarm) (r : alarm_repo) : bool :=
  bool_decide (map_Forall (λ k b, a_ID b ≠ a_ID v ∨ k = alarm_key v) (ar_alarms r)).
Lemma external_idb_ok v r :
  external_idb v r = true → ∀ k b, ar_alarms r !! k = Some b → a_ID b = a_ID v → k = alarm_key v.
Proof. intros Hf%bool_decide_eq_true k b Hb E. by destruct (Hf k b Hb). Qed.

Definition op_okb (op : alarm_op) (r : alarm_repo) : bool :=
  match op with
  | OpComponent c _ => candidate_okb c && component_rule (a_RuleID c) && fresh_idb (a_ID c) r
      && bool_decide (is_Some (a_Disposition c) → False)
  | OpUpsert v => candidate_okb v && negb (component_rule (a_RuleID v))
      && negb (external_rule (a_RuleID v)) && fresh_idb (a_ID v) r
      && bool_decide (is_Some (a_Disposition v) → False)
  | OpExternal v => candidate_okb v && external_idb v r && bool_decide (is_Some (a_Disposition v) → False)
  | OpChange _ _ (ChVerify d _) => bool_decide (ValidDispositionResult (ad_Result d))
  | OpChange _ _ _ => true
  end.
Lemma no_disposition a : bool_decide (is_Some (a_Disposition a) → False) = true → a_Disposition a = None.
Proof. intros Hn%bool_decide_eq_true. destruct (a_Disposition a); [|done]. by destruct Hn. Qed.
Lemma op_okb_ok op r : op_okb op r = true → op_ok op r.
Proof.
  destruct op as [c st|v|v|t i ch]; cbn.
  - intros [[[Hc Hr]%andb_true_iff Hf]%andb_true_iff Hd%no_disposition]%andb_true_iff.
    split; [by apply candidate_okb_ok|]. split; [by rewrite Hr|by apply fresh_idb_ok].
  - intros [[[[Hc Hr]%andb_true_iff Hx]%andb_true_iff Hf]%andb_true_iff Hd%no_disposition]%andb_true_iff.
    split; [by apply candidate_okb_ok|]. rewrite Hr, Hx. split; [done|]. split; [done|].
    by apply fresh_idb_ok.
  - intros [[Hc Hx]%andb_true_iff Hd%no_disposition]%andb_true_iff.
    split; [by apply candidate_okb_ok|]. by apply external_idb_ok.
  - destruct ch; try done. by intros ?%bool_decide_eq_true.
Qed.

Fixpoint ops_okb (ops : list alarm_op) (r : alarm_repo) : bool :=
  match ops with [] => true | op :: ops => op_okb op r && ops_okb ops (exec_op op r) end.
Lemma ops_okb_ok ops r : ops_okb ops r = true → ops_ok ops r.
Proof.
  revert r. induction ops as [|op ops IH]; intros r; cbn; [done|].
  intros [Hop%op_okb_ok Hops]%andb_true_iff. auto.
Qed.
Fixpoint events_okb (evs : list alarm_event) (s : alarm_repo * list OutboxEvent) : bool :=
  match evs with
  | [] => true
  | ev :: evs => match ev with EvOp op => op_okb op s.1 | EvDrain _ _ ops => ops_okb ops s.1 end
      && events_okb evs (exec_event ev s)
  end.
Lemma events_okb_ok evs s : events_okb evs s = true → events_ok evs s.
Proof.
  revert s. induction evs as [|ev evs IH]; intros s; cbn; [done|].
  intros [Hev Hevs]%andb_true_iff. split; [|auto].
  destruct ev; [by apply op_okb_ok|by apply ops_okb_ok].
Qed.

Lemma run_of evs :
  events_okb evs (empty_alarm_repo, []) = true → Z.ltb (events_size evs) two63 = true →
  alarm_run evs (exec_events evs (empty_alarm_repo, [])).1 (exec_events evs (empty_alarm_repo, [])).2.
Proof.
  intros Hok Hsize%Z.ltb_lt. split; [by apply events_okb_ok|]. split; [done|].
  by destruct (exec_events _ _).
Qed.
End checks.

#[local] Existing Instance ascii_platform.
#[local] Instance ascii_upper : UpperCase := ascii_fold.
(** Details that hold video events: identity, tenant and picture. *)
Inductive held := HeldEvent (id tenant picture : string).
Definition video_event {A} (id tenant picture : string) : VideoAlarmEvent A :=
  mk_VideoAlarmEvent id "" tenant "" "" "" "" "" "" "" (S754_zero false) 0 0 picture "" "" "" "" ∅ ∅.
#[local] Instance held_details : AlarmDetails := {|
  detail := held;
  event_detail ev := HeldEvent (ve_EventID ev) (ve_TenantID ev) (ve_SnapshotURL ev);
  detail_event v := match v with HeldEvent i t p => Some (video_event i t p) end |}.
#[local] Instance short_json : AlarmJson := λ a, a_ID a +:+ "/" +:+ dec (a_TriggerCount a).
#[local] Instance alarm_order : MapOrder := λ A m, (map_to_list m).*1.
#[local] Instance alarm_order_laws : MapOrderLaws.
Proof. intros A m. reflexivity. Qed.

(** ** A history *)

Definition alarm_of (i device rule kind trigger : string) (at_ : Z) : Alarm :=
  zero_Alarm <| a_ID := i |> <| a_TenantID := "t" |> <| a_DeviceID := device |> <| a_RuleID := rule |>
    <| a_AlarmType := kind |> <| a_TriggerID := trigger |> <| a_Status := "ACTIVE" |>
    <| a_AlarmLevel := "HIGH" |> <| a_FirstTriggeredAt := at_ |> <| a_LastTriggeredAt := at_ |>
    <| a_TriggerCount := 1 |>.
Definition fire_rule : string := "device-report:FIRE:component:ab".
Definition state_of (at_ : Z) (message : string) (active : bool) : ComponentAlarmState :=
  mk_ComponentAlarmState at_ message active "" "".
Definition real_fire : AlarmDisposition :=
  stamp_disposition (mk_AlarmDisposition "REAL_FIRE" "" "" 120 "" 0 5 "HIGH" "") "ann" 130 None.

(** A video event is attached to the alarm. *)
Definition filmed (a : Alarm) : Alarm :=
  a <| a_Details := {["videoEvent" := HeldEvent "e1" "t" "http://camera/e1.jpg"]} |>.
Definition first_events : list alarm_event :=
  [EvOp (OpComponent (filmed (alarm_of "a1" "d" fire_rule "FIRE" "m1" 100)) (state_of 100 "m1" true));
   EvOp (OpUpsert (alarm_of "a2" "d" "rule-1" "OVERHEAT" "m1" 100));
   EvOp (OpUpsert (alarm_of "a3" "d" "rule-1" "OVERHEAT" "m2" 101));
   EvDrain 100 (λ e, if decide (oe_Seq e = 3) then Some alarm_not_found else None)
     [OpExternal (alarm_of "x1" "d" "rule-1:external:k" "VIDEO" "m9" 102)];
   EvOp (OpChange "t" "a1" (ChStatus "ACKED" 110));
   EvOp (OpChange "t" "a1" (ChStatus "CLOSED" 111))].
Definition more_events : list alarm_event :=
  [EvOp (OpChange "t" "a1" (ChVerify real_fire 130));
   EvOp (OpChange "t" "a1" (ChStatus "CLOSED" 140));
   EvOp (OpChange "t" "a1" (ChMedia (video_event "e1" "t" "media/e1.jpg")));
   EvOp (OpComponent (alarm_of "a4" "d" fire_rule "FIRE" "m3" 150) (state_of 150 "m3" true));
   EvDrain 100 (λ _, None) []].

Definition state_after (evs : list alarm_event) : alarm_repo :=
  (exec_events evs (empty_alarm_repo, [])).1.
Definition sent_after (evs : list alarm_event) : list OutboxEvent :=
  (exec_events evs (empty_alarm_repo, [])).2.
Definition status_of (i : string) (r : alarm_repo) : option string :=
  a_Status <$> (ar_alarms r !! store_key ["t"; i]).

Lemma first_run : alarm_run first_events (state_after first_events) (sent_after first_events).
Proof. refine (run_of first_events _ _); vm_compute; reflexivity. Qed.
Lemma whole_run :
  alarm_run (first_events ++ more_events) (state_after (first_events ++ more_events))
    (sent_after (first_events ++ more_events)).
Proof. refine (run_of (first_events ++ more_events) _ _); vm_compute; reflexivity. Qed.

Definition stage1 : alarm_repo := state_after first_events.
Definition stage2 : alarm_repo := state_after (first_events ++ more_events).

Lemma reachable_one_open_witness :
  (status_of "a1" stage2 = Some "CLOSED" ∧ status_of "a4" stage2 = Some "ACTIVE") ∧
  (∀ k a, ar_alarms stage2 !! k = Some a → component_rule (a_RuleID a) → active_alarm a →
     ∃ st, ar_componentAlarms stage2 !! component_key a = Some st ∧ ca_AlarmID st = a_ID a).
Proof.
  split; [vm_compute; split; reflexivity|].
  exact (proj2 (reachable_one_open (first_events ++ more_events) _ _ whole_run)).
Defined.

(** The third report could not be sent at first; the queue kept it and the one
    made meanwhile. *)
Lemma outbox_ledger_witness :
  (oe_Key <$> sent_after first_events = ["a1"; "a2"] ∧ oe_Key <$> ar_outbox stage1 = ["a2"; "x1"]) ∧
  oe_Seq <$> (sent_after first_events ++ ar_outbox stage1) = seqZ 1 (ar_outboxSeq stage1).
Proof.
  split; [vm_compute; split; reflexivity|].
  exact (proj1 (outbox_ledger first_events _ _ first_run)).
Defined.

(** The fire alarm is not closed before it is verified, and once it is closed
    the picture of its video event is still archived. *)
Definition picture_of (i : string) (r : alarm_repo) : option held :=
  ar_alarms r !! store_key ["t"; i] ≫= λ a, a_Details a !! "videoEvent".
Lemma alarm_lifecycle_witness :
  (status_of "a1" stage1 = Some "ACKED" ∧ status_of "a1" stage2 = Some "CLOSED") ∧
  (picture_of "a1" stage1 = Some (HeldEvent "e1" "t" "http://camera/e1.jpg") ∧
   picture_of "a1" stage2 = Some (HeldEvent "e1" "t" "media/e1.jpg")) ∧ persists stage1 stage2.
Proof.
  split; [vm_compute; split; reflexivity|]. split; [vm_compute; split; reflexivity|].
  exact (proj1 (alarm_lifecycle first_events more_events _ _ _ _ first_run whole_run)).
Defined.

(** ** Two deliveries of the same reports *)

Definition normal_then (i1 i2 i3 : string) : list (Alarm * ComponentAlarmState) :=
  [(alarm_of i1 "d" fire_rule "FIRE" "m1" 100, state_of 100 "m1" false);
   (alarm_of i2 "d" fire_rule "FIRE" "m2" 100, state_of 100 "m2" true);
   (alarm_of i3 "d" fire_rule "FIRE" "m3" 90, state_of 90 "m3" false)].
Definition in_order : list (Alarm * ComponentAlarmState) := normal_then "a1" "a2" "a3".
Definition shuffled : list (Alarm * ComponentAlarmState) :=
  reverse (normal_then "b1" "b2" "b3") ++ normal_then "b4" "b5" "b6".

Lemma in_order_observations : observations_ok (observe <$> in_order).
Proof.
  let l := eval vm_compute in (observe <$> in_order) in change (observe <$> in_order) with l.
  split.
  - intros o Ho. rewrite !elem_of_cons, elem_of_nil in Ho.
    destruct Ho as [->|[->|[->|[]]]]; cbn; (split; [discriminate|reflexivity]).
  - intros o o' Ho Ho'. rewrite !elem_of_cons, elem_of_nil in Ho, Ho'.
    destruct Ho as [->|[->|[->|[]]]], Ho' as [->|[->|[->|[]]]]; cbn; congruence.
Qed.

Lemma same_observations o : o ∈ observe <$> in_order ↔ o ∈ observe <$> shuffled.
Proof.
  change (observe <$> in_order) with (observe <$> normal_then "" "" "").
  change (observe <$> shuffled) with
    (observe <$> (reverse (normal_then "" "" "") ++ normal_then "" "" "")).
  rewrite fmap_app, elem_of_app, fmap_reverse, elem_of_reverse. tauto.
Qed.

Definition fire_key : string := store_key ["t"; "d"; fire_rule].
Lemma component_convergence_witness :
  ca_Active (stored_state fire_key (exec_ops (report_ops in_order) empty_alarm_repo)) = true ∧
  ca_Active (stored_state fire_key (exec_ops (report_ops shuffled) empty_alarm_repo)) =
    ca_Active (stored_state fire_key (exec_ops (report_ops in_order) empty_alarm_repo)) ∧
  (component_open fire_key (exec_ops (report_ops shuffled) empty_alarm_repo) ↔
   component_open fire_key (exec_ops (report_ops in_order) empty_alarm_repo)).
Proof.
  assert (ops_ok (report_ops in_order) empty_alarm_repo) as H1
    by (apply ops_okb_ok; vm_compute; reflexivity).
  assert (ops_ok (report_ops shuffled) empty_alarm_repo) as H2
    by (apply ops_okb_ok; vm_compute; reflexivity).
  split; [vm_compute; reflexivity|].
  destruct (component_convergence in_order shuffled eq_refl eq_refl in_order_observations
    same_observations H1 H2 fire_key) as (_ & _ & _ & Hb & Ho).
  split; [exact Hb|exact Ho].
Defined.

(** ** A change under interference *)

(** Before the second call somebody else raises the confidence of "a1". *)
Definition busy : store_schedule alarm_repo := {|
  sc_env n r :=
    let k := store_key ["t"; "a1"] in
    match ar_alarms r !! k with
    | Some a =>
      if decide (n = 1%nat ∧ a_Version a < 1000 ∧ a_Status a ≠ "CLOSED")
      then put_alarm k (a <| a_Confidence := S754_zero false |> <| a_Version ::= Z.succ |>) r else r
    | None => r
    end;
  sc_fail _ := None |}.

Lemma alarm_busy_rely : alarm_rely busy.
Proof.
  intros n r Hr. unfold busy. cbn [sc_env]. cbv zeta. assert (persists r r) as Hrefl
    by (intros k a Ha; exists a; split; [done|apply lives_refl]).
  destruct (ar_alarms r !! store_key ["t"; "a1"]) as [a|] eqn:Ha; [|done].
  case_decide as Hc; [|done]. destruct Hc as (_ & Hv & Hs). pose proof (Hr _ _ Ha) as Hk.
  set (a' := a <| a_Confidence := _ |> <| a_Version ::= _ |>).
  assert (ar_alarms (put_alarm (store_key ["t"; "a1"]) a' r) = <[store_key ["t"; "a1"] := a']> (ar_alarms r))
    as E by done.
  split; unfold keyed_alarms, persists; rewrite E.
  - intros k b [[<- <-]|[_ Hb]]%lookup_insert_Some; [exact Hk|by apply Hr].
  - intros k b Hb. destruct (decide (store_key ["t"; "a1"] = k)) as [<-|Hne].
    + rewrite lookup_insert_eq. exists a'. split; [done|]. assert (b = a) as -> by congruence.
      split; try done. right. cbn. lia.
    + rewrite lookup_insert_ne by done. exists b. split; [done|apply lives_refl].
Qed.

Lemma stage1_keyed : keyed_alarms stage1.
Proof.
  intros k a Ha. destruct (alarm_run_ok _ _ _ first_run) as [Hr _ _].
  by destruct (so_alarms _ _ Hr _ _ Ha).
Qed.

Lemma recover_key now a a' : recover_alarm now a = Ok (Some a') → alarm_key a' = alarm_key a.
Proof. intros [Hev _]%recover_alarm_evolve. by apply evolve_keys in Hev as [? _]. Qed.

(** The first attempt meets a conflict, the second one writes. *)
Lemma mutateAlarm_linearizes_witness :
  let out := mutateAlarm busy "t" "a1" (recover_alarm 125) (stage1, 0%nat) in
  (out.2.2 = 4%nat ∧ status_of "a1" out.2.1 = Some "RECOVERED") ∧
  mutate_outcome busy "t" "a1" (recover_alarm 125) stage1 out.1 out.2.1.
Proof.
  intros out. split; [vm_compute; split; reflexivity|].
  pose proof (mutateAlarm_linearizes busy "t" "a1" (recover_alarm 125) stage1 0 alarm_busy_rely
    (recover_key 125) stage1_keyed) as Hlin.
  unfold out. destruct (mutateAlarm busy "t" "a1" (recover_alarm 125) (stage1, 0%nat)) as [res [r' n']].
  exact (proj2 Hlin).
Defined.
