(* ===== verification/MessageClaims.v ===== *)
(** Claims on standard messages: which worker processes a message, and how a
    worker that lost its claim is kept from completing it
    (internal/adapters/memory/repository.go, internal/model/ingress.go and
    claimStandard of internal/core/consistency.go).

    Times are nanoseconds. *)
From S2P Require Import Prelude GoText StoreIO GbCodec AlarmModel AlarmStore.

Record memoryClaim := mk_memoryClaim { mc_owner : string; mc_token : Z; mc_expires : Z }.
Definition zero_memoryClaim : memoryClaim := mk_memoryClaim "" 0 0.

Record StandardClaim := mk_StandardClaim {
  cl_ShouldProcess : bool; cl_Created : bool; cl_Token : Z; cl_Busy : bool; cl_HeldBy : string;
  cl_RetryAfter : Z }.

Record claim_repo := mk_claim_repo {
  cr_standard : gmap string StandardMessage;
  cr_standardProcessed : gmap string bool;
  cr_claims : gmap string memoryClaim }.
#[export] Instance eta_claim_repo : Settable claim_repo := λ v,
  mk_claim_repo (cr_standard v) (cr_standardProcessed v) (cr_claims v).
Definition empty_claim_repo : claim_repo := mk_claim_repo ∅ ∅ ∅.

Definition message_key (v : StandardMessage) : string := store_key [TenantID v; MessageID v].
Definition processed (k : string) (r : claim_repo) : bool := default false (cr_standardProcessed r !! k).
Definition claim_of (k : string) (r : claim_repo) : memoryClaim :=
  default zero_memoryClaim (cr_claims r !! k).

Definition ErrStaleClaim : error := mk_error Other "processing claim was taken over by another worker".
Definition message_not_found : error := mk_error NotFound "not found".

Definition SaveStandardMessageIfAbsent (v : StandardMessage) (r : claim_repo) : bool * claim_repo :=
  let k := message_key v in
  match cr_standard r !! k with
  | Some _ => (false, r)
  | None => (true, r <| cr_standard ::= <[k := v]> |> <| cr_standardProcessed ::= <[k := false]> |>)
  end.

(** [now] is the time of the store. *)
Definition ClaimStandardMessage (now : Z) (v : StandardMessage) (owner : string) (lease : Z)
    (r : claim_repo) : StandardClaim * claim_repo :=
  let k := message_key v in
  let '(created, r) :=
    match cr_standard r !! k with
    | Some _ => (false, r)
    | None => (true, r <| cr_standard ::= <[k := v]> |> <| cr_standardProcessed ::= <[k := false]> |>)
    end in
  if processed k r then (mk_StandardClaim false created 0 false "" 0, r)
  else
    let c := claim_of k r in
    if decide (mc_owner c ≠ "" ∧ mc_owner c ≠ owner ∧ now < mc_expires c)
    then (mk_StandardClaim false created 0 true (mc_owner c) (mc_expires c - now), r)
    else
      let c := mk_memoryClaim owner (wrap64 (mc_token c + 1)) (now + lease) in
      (mk_StandardClaim true created (mc_token c) false "" 0, r <| cr_claims ::= <[k := c]> |>).

Definition MarkStandardMessageProcessed (tenant messageID : string) (token : Z) (r : claim_repo)
    : res unit * claim_repo :=
  let k := store_key [tenant; messageID] in
  match cr_standard r !! k with
  | None => (Err message_not_found, r)
  | Some _ =>
    if decide (processed k r = true ∨ mc_token (claim_of k r) ≠ token) then (Err ErrStaleClaim, r)
    else (Ok tt, r <| cr_standardProcessed ::= <[k := true]> |>)
  end.

(** ** Waiting for a claim *)

Definition millisecond : Z := 1000000.
Definition processingLease : Z := 60000 * millisecond.

Section wait.
(** The calls of the others, the time that the [n]-th call takes, how much
    longer than asked the wait after it is, and the cancellations that arrive
    while waiting. *)
Context {W : Type} (sched : store_schedule W) (claims : W → claim_repo).
Context (put_claims : claim_repo → W → W) (took lag : nat → Z).
Context (cancelled : nat → option error).

Definition still_claimed (messageID owner : string) : error :=
  mk_error Other ("standard message " +:+ messageID +:+ " is still claimed by " +:+ owner).

Definition claim_call (now : Z) (msg : StandardMessage) (identity : string) : StoreIO W StandardClaim :=
  store_call sched (λ w,
    let '(claim, r) := ClaimStandardMessage now msg identity processingLease (claims w) in
    (Ok claim, put_claims r w)).

(** [None] is a wait that has not ended after [fuel] claims; [now] is the time
    when a claim is made. *)
Fixpoint claim_rounds (fuel : nat) (deadline now : Z) (msg : StandardMessage) (identity : string)
    : StoreIO W (option StandardClaim) :=
  match fuel with
  | O => mret None
  | S fuel =>
    claim ← claim_call now msg identity;
    n ← observe id;
    let now := now + took n in
    if cl_Busy claim then
      if decide (now > deadline) then store_fails (still_claimed (MessageID msg) (cl_HeldBy claim))
      else
        let wait := (cl_RetryAfter claim `max` (50 * millisecond)) `min` (5000 * millisecond) in
        match cancelled n with
        | Some e => store_fails e
        | None => claim_rounds fuel deadline (now + wait + lag n) msg identity
        end
    else mret (Some claim)
  end.
Definition claimStandard (fuel : nat) (now : Z) (msg : StandardMessage) (identity : string)
    : StoreIO W (option StandardClaim) :=
  claim_rounds fuel (now + (processingLease + 10000 * millisecond)) now msg identity.
End wait.
