(* ===== verification/MessageClaimsTheorems.v ===== *)
(** Claims fence: tokens, owners and completions of a message over every
    history of calls, and the end of the wait for a claim. *)
From S2P Require Import Prelude GoText StoreIO GbCodec AlarmModel AlarmStore MessageClaims.

(** ** Histories of claims *)

Inductive claim_op :=
  | OpSave (v : StandardMessage)
  | OpClaim (now : Z) (v : StandardMessage) (owner : string)
  | OpMark (tenant messageID : string) (token : Z).

Record grant := mk_grant { g_owner : string; g_token : Z; g_time : Z }.
Inductive claim_event := Granted (k : string) (g : grant) | Completed (k : string) (token : Z).

Section histories.
Context (lease : Z).

Definition claim_step (op : claim_op) (r : claim_repo) : option claim_event * claim_repo :=
  match op with
  | OpSave v => (None, (SaveStandardMessageIfAbsent v r).2)
  | OpClaim now v owner =>
    let '(claim, r) := ClaimStandardMessage now v owner lease r in
    (if cl_ShouldProcess claim then Some (Granted (message_key v) (mk_grant owner (cl_Token claim) now))
     else None, r)
  | OpMark tenant messageID token =>
    let '(res, r) := MarkStandardMessageProcessed tenant messageID token r in
    (match res with Ok _ => Some (Completed (store_key [tenant; messageID]) token) | Err _ => None end, r)
  end.
Definition claim_next (s : list claim_event * claim_repo) (op : claim_op) : list claim_event * claim_repo :=
  let '(event, r) := claim_step op s.2 in (s.1 ++ option_list event, r).
Definition claim_run (ops : list claim_op) : list claim_event * claim_repo :=
  foldl claim_next ([], empty_claim_repo) ops.

Definition grants (k : string) (log : list claim_event) : list grant :=
  omap (λ e, match e with Granted k' g => if decide (k' = k) then Some g else None | _ => None end) log.
Definition completions (k : string) (log : list claim_event) : list Z :=
  omap (λ e, match e with Completed k' t => if decide (k' = k) then Some t else None | _ => None end) log.

Definition op_time (op : claim_op) : option Z :=
  match op with OpClaim now _ _ => Some now | _ => None end.
Definition op_named (op : claim_op) : Prop :=
  match op with OpClaim _ _ owner => owner ≠ "" | _ => True end.

(** A claim passes to another owner only when the lease is over. *)
Definition handover (g g' : grant) : Prop := g_owner g = g_owner g' ∨ g_time g + lease ≤ g_time g'.

(** ** What every history keeps *)

Definition expected_claim (gs : list grant) : memoryClaim :=
  match last gs with
  | Some g => mk_memoryClaim (g_owner g) (g_token g) (g_time g + lease)
  | None => zero_memoryClaim
  end.
Record claims_ok (k : string) (gs : list grant) (done : list Z) (r : claim_repo) : Prop := {
  co_tokens : g_token <$> gs = Z.of_nat <$> seq 1 (length gs);
  co_named : Forall (λ g, g_owner g ≠ "") gs;
  co_times : StronglySorted Z.le (g_time <$> gs);
  co_handover : StronglySorted handover gs;
  co_claim : claim_of k r = expected_claim gs;
  co_done : processed k r = false ∧ done = [] ∨ processed k r = true ∧ done = [Z.of_nat (length gs)];
  co_known : processed k r = true → is_Some (cr_standard r !! k) }.

Lemma last_token k gs done r : claims_ok k gs done r → mc_token (claim_of k r) = Z.of_nat (length gs).
Proof.
  intros Hok. rewrite (co_claim _ _ _ _ Hok). pose proof (co_tokens _ _ _ _ Hok) as Ht.
  unfold expected_claim. destruct gs as [|g gs _] using rev_ind; [done|].
  rewrite last_snoc. cbn. rewrite length_app in Ht |- *. cbn in Ht |- *.
  rewrite Nat.add_1_r, seq_S, !fmap_app in Ht. cbn in Ht. apply app_inj_tail in Ht as [_ ->]. lia.
Qed.

Lemma claims_ok_other k gs done r r' :
  claim_of k r' = claim_of k r → processed k r' = processed k r →
  (is_Some (cr_standard r !! k) → is_Some (cr_standard r' !! k)) →
  claims_ok k gs done r → claims_ok k gs done r'.
Proof. intros E1 E2 E3 [? ? ? ? ? ? ?]. split; try done; rewrite ?E1, ?E2; auto. Qed.

(** Storing a message that is new changes nothing that a claim looks at. *)
Definition store_if_new (v : StandardMessage) (r : claim_repo) : claim_repo :=
  match cr_standard r !! message_key v with
  | Some _ => r
  | None => r <| cr_standard ::= <[message_key v := v]> |>
              <| cr_standardProcessed ::= <[message_key v := false]> |>
  end.
Lemma store_if_new_claim v r : cr_claims (store_if_new v r) = cr_claims r.
Proof. unfold store_if_new. by destruct (cr_standard r !! _). Qed.
Lemma store_if_new_processed v r :
  processed (message_key v) r = false → processed (message_key v) (store_if_new v r) = false.
Proof.
  unfold store_if_new, processed. destruct (cr_standard r !! _); [done|]. cbn. by rewrite lookup_insert_eq.
Qed.
Lemma store_if_new_ok k gs done v r : claims_ok k gs done r → claims_ok k gs done (store_if_new v r).
Proof.
  intros Hok. unfold store_if_new. destruct (cr_standard r !! message_key v) eqn:E; [done|].
  eapply claims_ok_other; [..|exact Hok]; cbn; [done| |].
  - unfold processed at 1. cbn. destruct (decide (message_key v = k)) as [<-|Hk].
    + rewrite lookup_insert_eq. cbn. destruct (co_done _ _ _ _ Hok) as [[Hp _]|[Hp _]]; [symmetry; exact Hp|].
      apply (co_known _ _ _ _ Hok) in Hp as [? ?]. congruence.
    + unfold processed. by rewrite lookup_insert_ne.
  - intros Hs. destruct (decide (message_key v = k)) as [<-|Hk].
    + by rewrite lookup_insert_eq.
    + by rewrite lookup_insert_ne.
Qed.

Lemma claim_store now v owner r :
  ClaimStandardMessage now v owner lease r =
  let r' := store_if_new v r in
  let created := bool_decide (cr_standard r !! message_key v = None) in
  let c := claim_of (message_key v) r' in
  if processed (message_key v) r' then (mk_StandardClaim false created 0 false "" 0, r')
  else if decide (mc_owner c ≠ "" ∧ mc_owner c ≠ owner ∧ now < mc_expires c)
  then (mk_StandardClaim false created 0 true (mc_owner c) (mc_expires c - now), r')
  else (mk_StandardClaim true created (wrap64 (mc_token c + 1)) false "" 0,
        r' <| cr_claims ::= <[message_key v := mk_memoryClaim owner (wrap64 (mc_token c + 1)) (now + lease)]> |>).
Proof.
  unfold ClaimStandardMessage, store_if_new. by destruct (cr_standard r !! message_key v) eqn:E.
Qed.

Lemma StronglySorted_snoc {A} (R : A → A → Prop) l x :
  StronglySorted R l → Forall (λ y, R y x) l → StronglySorted R (l ++ [x]).
Proof.
  intros Hl Hx. apply StronglySorted_app_2; [|done|by repeat constructor].
  intros y z Hy ->%list_elem_of_singleton. rewrite Forall_forall in Hx. auto.
Qed.

(** A grant to [owner] at [now], when nothing was granted after [now]. *)
Lemma claims_ok_grant k gs r now owner :
  0 <= lease → owner ≠ "" → Forall (λ g, g_time g <= now) gs → Z.of_nat (length gs) < two63 - 1 →
  claims_ok k gs [] r →
  (∀ g, last gs = Some g → g_owner g = owner ∨ g_time g + lease <= now) →
  let token := wrap64 (mc_token (claim_of k r) + 1) in
  claims_ok k (gs ++ [mk_grant owner token now]) []
    (r <| cr_claims ::= <[k := mk_memoryClaim owner token (now + lease)]> |>).
Proof.
  intros Hl Ho Ht Hn Hok Hlast token. pose proof (last_token _ _ _ _ Hok) as Htok.
  assert (token = Z.of_nat (length gs) + 1) as Etok.
  { unfold token. rewrite Htok. apply wrap64_small. unfold in_int64, two63 in *. lia. }
  destruct (co_done _ _ _ _ Hok) as [[Hp _]|[_ Hd]]; [|done]. split.
  - rewrite fmap_app, length_app, Nat.add_1_r, seq_S, fmap_app. cbn.
    rewrite (co_tokens _ _ _ _ Hok), Etok. do 2 f_equal. lia.
  - apply Forall_app. split; [apply Hok|by constructor].
  - rewrite fmap_app. apply StronglySorted_snoc; [apply Hok|]. by apply Forall_fmap.
  - apply StronglySorted_snoc; [apply Hok|]. apply Forall_forall. intros g Hg.
    destruct gs as [|g0 gs _] using rev_ind; [by apply not_elem_of_nil in Hg|].
    specialize (Hlast g0). rewrite last_snoc in Hlast. specialize (Hlast eq_refl).
    apply Forall_app in Ht as [_ Ht0]. apply Forall_cons in Ht0 as [Ht0 _].
    pose proof (co_handover _ _ _ _ Hok) as Hh. pose proof (co_times _ _ _ _ Hok) as Hs.
    rewrite fmap_app in Hs. apply StronglySorted_app in Hh as (Hh & _ & _).
    apply StronglySorted_app in Hs as (Hs & _ & _).
    unfold handover. cbn. apply elem_of_app in Hg as [Hg|Hg%list_elem_of_singleton].
    + specialize (Hh g g0 Hg (list_elem_of_here _ _)).
      specialize (Hs (g_time g) (g_time g0) (list_elem_of_fmap_2 _ _ _ Hg) (list_elem_of_here _ _)).
      unfold handover in Hh. destruct Hlast as [<-|?]; [|right; lia].
      destruct Hh as [?|?]; [by left|right; lia].
    + subst g. tauto.
  - unfold claim_of, expected_claim. cbn. rewrite lookup_insert_eq, last_snoc. done.
  - left. split; [exact Hp|done].
  - intros Hp'. unfold processed in Hp, Hp'. cbn in Hp'. congruence.
Qed.

(** What is known of the times of a history. *)
Definition clock_ok (ops : list claim_op) : Prop := StronglySorted Z.le (omap op_time ops).
Definition run_ok (k : string) (ops : list claim_op) (s : list claim_event * claim_repo) : Prop :=
  claims_ok k (grants k s.1) (completions k s.1) s.2 ∧
  (length (grants k s.1) ≤ length ops)%nat ∧
  Forall (λ g, g_time g ∈ omap op_time ops) (grants k s.1).

Lemma grants_snoc k log e :
  grants k (log ++ option_list e) = grants k log ++ grants k (option_list e).
Proof. apply omap_app. Qed.
Lemma completions_snoc k log e :
  completions k (log ++ option_list e) = completions k log ++ completions k (option_list e).
Proof. apply omap_app. Qed.

Lemma run_ok_later k ops op s r' :
  run_ok k ops s → claims_ok k (grants k s.1) (completions k s.1) r' →
  run_ok k (ops ++ [op]) (s.1 ++ [], r').
Proof.
  intros (_ & Hn & Ht) Hok. unfold run_ok. cbn [fst snd].
  rewrite app_nil_r, length_app. split; [done|]. split; [cbn [length]; lia|]. eapply Forall_impl; [exact Ht|]. intros g Hg. cbn in Hg |- *.
  rewrite omap_app. apply elem_of_app. by left.
Qed.

Lemma grants_granted k log k' g :
  grants k (log ++ [Granted k' g]) = grants k log ++ (if decide (k' = k) then [g] else []).
Proof. unfold grants. rewrite omap_app. cbn. by destruct (decide (k' = k)). Qed.
Lemma completions_granted k log k' g : completions k (log ++ [Granted k' g]) = completions k log.
Proof. unfold completions. rewrite omap_app. cbn. by rewrite app_nil_r. Qed.
Lemma grants_completed k log k' t : grants k (log ++ [Completed k' t]) = grants k log.
Proof. unfold grants. rewrite omap_app. cbn. by rewrite app_nil_r. Qed.
Lemma completions_completed k log k' t :
  completions k (log ++ [Completed k' t]) = completions k log ++ (if decide (k' = k) then [t] else []).
Proof. unfold completions. rewrite omap_app. cbn. by destruct (decide (k' = k)). Qed.

Lemma run_ok_grant k ops s v owner now (r : claim_repo) :
  let op := OpClaim now v owner in
  0 <= lease → op_named op → clock_ok (ops ++ [op]) → Z.of_nat (length ops) < two63 - 1 →
  run_ok k ops s → claims_ok k (grants k s.1) (completions k s.1) r →
  processed (message_key v) r = false →
  (let c := claim_of (message_key v) r in
   mc_owner c = "" ∨ mc_owner c = owner ∨ mc_expires c <= now) →
  let token := wrap64 (mc_token (claim_of (message_key v) r) + 1) in
  run_ok k (ops ++ [op]) (s.1 ++ [Granted (message_key v) (mk_grant owner token now)],
    r <| cr_claims ::= <[message_key v := mk_memoryClaim owner token (now + lease)]> |>).
Proof.
  intros op Hl Hname Hclock Hn Hs Hok Hp Hfree token.
  pose proof (run_ok_later k ops op s r Hs Hok) as (_ & Hlen & Ht). cbn [fst snd] in Hlen, Ht.
  rewrite app_nil_r in Hlen, Ht.
  unfold run_ok. cbn [fst snd]. rewrite grants_granted, completions_granted.
  case_decide as Hk.
  2: { rewrite app_nil_r. split; [|done]. eapply claims_ok_other; [..|exact Hok]; try done.
       unfold claim_of. cbn. by rewrite lookup_insert_ne. }
  unfold token. rewrite Hk in *. destruct (co_done _ _ _ _ Hok) as [[_ Hd]|[Hp' _]]; [|congruence].
  destruct Hs as (_ & Hlen' & Ht'). split_and!.
  - rewrite Hd in Hok |- *. apply claims_ok_grant; try done; [|lia|].
    + eapply Forall_impl; [exact Ht'|]. intros g Hg. unfold clock_ok in Hclock.
      rewrite omap_app in Hclock. apply StronglySorted_app in Hclock as (Hc & _ & _).
      apply Hc; [done|by left].
    + intros g Hg. rewrite (co_claim _ _ _ _ Hok) in Hfree. unfold expected_claim in Hfree.
      rewrite Hg in Hfree. cbn in Hfree. pose proof (co_named _ _ _ _ Hok) as Hnm.
      rewrite Forall_forall in Hnm. apply last_Some in Hg as [l Hg].
      specialize (Hnm g). rewrite Hg in Hnm. destruct Hfree as [Hf|[Hf|Hf]]; [|by left|by right].
      destruct Hnm; [|done]. apply elem_of_app. right. by left.
  - rewrite !length_app in *. cbn [length] in *. lia.
  - apply Forall_app. split; [done|]. constructor; [|done]. rewrite omap_app. apply elem_of_app. right. by left.
Qed.

Lemma run_ok_mark k ops op s k' v token :
  run_ok k ops s → cr_standard s.2 !! k' = Some v → processed k' s.2 = false →
  mc_token (claim_of k' s.2) = token →
  run_ok k (ops ++ [op]) (s.1 ++ [Completed k' token], s.2 <| cr_standardProcessed ::= <[k' := true]> |>).
Proof.
  intros Hs Hv Hp Htok. pose proof Hs as (Hok & _).
  pose proof (run_ok_later k ops op s s.2 Hs Hok) as (_ & Hlen & Ht). cbn [fst snd] in Hlen, Ht.
  rewrite app_nil_r in Hlen, Ht.
  unfold run_ok. cbn [fst snd]. rewrite grants_completed, completions_completed.
  split; [|done]. case_decide as Hk.
  2: { rewrite app_nil_r. eapply claims_ok_other; [..|exact Hok]; try done.
       unfold processed. cbn. by rewrite lookup_insert_ne. }
  subst k'. destruct (co_done _ _ _ _ Hok) as [[_ Hd]|[Hp' _]]; [|congruence].
  rewrite (last_token _ _ _ _ Hok) in Htok. rewrite Hd. destruct Hok. split; try done.
  right. unfold processed. cbn. rewrite lookup_insert_eq, <-Htok. done.
Qed.

Lemma claim_next_ok k ops op s :
  0 <= lease → op_named op → clock_ok (ops ++ [op]) → Z.of_nat (length ops) < two63 - 1 →
  run_ok k ops s → run_ok k (ops ++ [op]) (claim_next s op).
Proof.
  intros Hl Hname Hclock Hn Hs. pose proof Hs as (Hok & _). unfold claim_next.
  destruct op as [v|now v owner|tenant id token]; cbn [claim_step snd].
  - apply run_ok_later; [done|]. pose proof (store_if_new_ok k _ _ v _ Hok) as Hv.
    unfold SaveStandardMessageIfAbsent. unfold store_if_new in Hv.
    by destruct (cr_standard s.2 !! message_key v).
  - rewrite claim_store. cbv zeta. pose proof (store_if_new_ok k _ _ v _ Hok) as Hok'.
    destruct (processed (message_key v) _) eqn:Hp; [by apply run_ok_later|].
    case_decide as Hbusy; [by apply run_ok_later|].
    apply run_ok_grant; try done. cbv zeta.
    destruct (decide (mc_owner (claim_of (message_key v) (store_if_new v s.2)) = "")); [by left|].
    destruct (decide (mc_owner (claim_of (message_key v) (store_if_new v s.2)) = owner)); [by right; left|].
    right; right. destruct (decide (now < mc_expires (claim_of (message_key v) (store_if_new v s.2)))); [|lia].
    by destruct Hbusy.
  - unfold MarkStandardMessageProcessed. destruct (cr_standard s.2 !! store_key [tenant; id]) as [v|] eqn:Hv.
    2: by apply run_ok_later.
    case_decide as Hstale; [by apply run_ok_later|].
    apply Decidable.not_or in Hstale as [Hp%not_true_is_false Htok%dec_stable].
    by eapply run_ok_mark.
Qed.

Lemma claim_run_ok k ops :
  0 <= lease → Forall op_named ops → clock_ok ops → Z.of_nat (length ops) < two63 →
  run_ok k ops (claim_run ops).
Proof.
  intros Hl. induction ops as [|op ops IH] using rev_ind; intros Hname Hclock Hn.
  { split; [|split; [done|constructor]]. split; first [done|by constructor|by left]. }
  unfold claim_run. rewrite foldl_app. cbn [foldl]. apply Forall_app in Hname as [Hname Hop].
  rewrite length_app in Hn. cbn [length] in Hn. apply claim_next_ok; try done; [by inv Hop|lia|].
  apply IH; [done| |lia]. unfold clock_ok in *. rewrite omap_app in Hclock.
  by apply StronglySorted_app in Hclock as (_ & Hc & _).
Qed.

(** C28: claims fence.  In every history of claims and completions by any
    workers, on a clock that does not go back, the claims granted on a message
    carry the tokens 1, 2, 3, ..., a claim passes to another owner only after
    the lease of every earlier one is over, and at most one completion
    succeeds: it carries the last token, and no claim is granted after it.  A
    message that is not completed is granted to whoever asks once the lease of
    its last claim is over. *)
Theorem claims_fence k ops :
  0 <= lease → Forall op_named ops → clock_ok ops → Z.of_nat (length ops) < two63 →
  let '(log, r) := claim_run ops in
  let gs := grants k log in
  g_token <$> gs = Z.of_nat <$> seq 1 (length gs) ∧ StronglySorted handover gs ∧
  (completions k log = [Z.of_nat (length gs)] ∨
   completions k log = [] ∧
   ∀ now v owner, message_key v = k → (∀ g, last gs = Some g → g_time g + lease <= now) →
   let claim := (ClaimStandardMessage now v owner lease r).1 in
   cl_ShouldProcess claim = true ∧ cl_Token claim = wrap64 (Z.of_nat (length gs) + 1)).
Proof.
  intros Hl Hname Hclock Hn. pose proof (claim_run_ok k ops Hl Hname Hclock Hn) as (Hok & _).
  destruct (claim_run ops) as [log r]. cbn [fst snd] in Hok. cbv zeta.
  split; [apply Hok|]. split; [apply Hok|].
  destruct (co_done _ _ _ _ Hok) as [[Hp Hd]|[_ Hd]]; [right|by left]. split; [done|].
  intros now v owner <- Hlast. pose proof (store_if_new_ok _ _ _ v _ Hok) as Hok'.
  rewrite claim_store. cbv zeta.
  destruct (co_done _ _ _ _ Hok') as [[-> _]|[_ Hd']]; [|congruence].
  rewrite decide_False; [by rewrite <-(last_token _ _ _ _ Hok')|].
  rewrite (co_claim _ _ _ _ Hok'). unfold expected_claim. intros (Hf & _ & Hnow).
  destruct (last _) as [g|] eqn:E; [|done]. specialize (Hlast g eq_refl). cbn in Hnow. lia.
Qed.
End histories.

(** ** The wait ends *)

Section wait.
Context {W : Type} (sched : store_schedule W) (claims : W → claim_repo) (put_claims : claim_repo → W → W).
Context (took lag : nat → Z) (cancelled : nat → option error).
Context (Htook : ∀ n, 0 <= took n) (Hlag : ∀ n, 0 <= lag n).
Abbreviation rounds := (claim_rounds sched claims put_claims took lag cancelled).

Lemma yields_claim now msg identity w n (Q : res StandardClaim → W * nat → Prop) :
  (∀ e w', Q (Err e) (w', S n)) →
  (let w := sc_env sched n w in
   let '(claim, r) := ClaimStandardMessage now msg identity processingLease (claims w) in
   Q (Ok claim) (put_claims r w, S n)) →
  yields (claim_call sched claims put_claims now msg identity) (w, n) Q.
Proof using.
  intros Herr Hok. apply yields_call; [auto|]. cbv zeta. intros _.
  cbv zeta in Hok. by destruct (ClaimStandardMessage _ _ _ _ _).
Qed.

(** Every round takes fifty milliseconds. *)
Lemma claim_rounds_end m fuel deadline now msg identity w n :
  deadline - now < Z.of_nat m * (50 * millisecond) → (m < fuel)%nat →
  yields (rounds fuel deadline now msg identity) (w, n)
    (λ r s', r ≠ Ok None ∧ (s'.2 ≤ n + S m)%nat).
Proof using Htook Hlag.
  revert fuel now w n. induction m as [|m IH]; intros [|fuel] now w n Hm Hfuel; try lia;
    cbn [claim_rounds]; apply yields_bind, yields_claim; try (intros; split; [done|cbn; lia]);
    cbv zeta; destruct (ClaimStandardMessage _ _ _ _ _) as [claim r];
    apply yields_bind, yields_observe; cbv zeta;
    (destruct (cl_Busy claim); [|split; [done|cbn; lia]]);
    (case_decide as Hd; [split; [done|cbn; lia]|]); pose proof (Htook (S n)); unfold id in Hd.
  { lia. }
  unfold id. destruct (cancelled (S n)) as [e|]; [split; [done|cbn; lia]|].
  pose proof (Hlag (S n)). eapply yields_mono; [apply IH; unfold millisecond in *; lia|].
  intros res s' [? ?]. split; [done|lia].
Qed.

(** The claim that is granted next. *)
Definition next_claim (msg : StandardMessage) (r : claim_repo) (claim : StandardClaim) : Prop :=
  cl_ShouldProcess claim = true ∧
  cl_Token claim = wrap64 (mc_token (claim_of (message_key msg) r) + 1).

Context (Hput : ∀ r w, claims (put_claims r w) = r) (Hcalm : calm sched).
Context (Hcancel : ∀ n, cancelled n = None) (Hquick : ∀ n, took n <= 10000 * millisecond).

(** Nobody renews the claim of another: it is granted when it is over. *)
Lemma claim_rounds_granted m fuel deadline now msg identity w n :
  let k := message_key msg in
  deadline - now < Z.of_nat m * (50 * millisecond) → (m < fuel)%nat →
  processed k (claims w) = false →
  mc_expires (claim_of k (claims w)) <= deadline - 10000 * millisecond →
  yields (rounds fuel deadline now msg identity) (w, n)
    (λ r s', ∃ claim, r = Ok (Some claim) ∧ next_claim msg (claims w) claim).
Proof using Htook Hlag Hput Hcalm Hcancel Hquick.
  cbv zeta. revert fuel now w n. destruct Hcalm as [Henv Hfail].
  induction m as [|m IH]; intros [|fuel] now w n Hm Hfuel Hp Hexp; try lia; cbn [claim_rounds];
    apply yields_bind; unfold claim_call; apply yields_call; try (intros e He; congruence);
    cbv zeta; intros _; rewrite Henv, claim_store; cbv zeta;
    set (r := store_if_new msg (claims w));
    assert (claim_of (message_key msg) r = claim_of (message_key msg) (claims w)) as Hc
      by (unfold claim_of, r; by rewrite store_if_new_claim);
    assert (processed (message_key msg) r = false) as Hpr by (by apply store_if_new_processed);
    rewrite Hpr, Hc; (case_decide as Hb;
      [|apply yields_bind, yields_observe; cbv zeta; by eexists; split; [done|]]);
    cbn [fst snd]; apply yields_bind, yields_observe; cbv zeta; cbn [cl_Busy];
    destruct Hb as (_ & _ & Hb); unfold id; pose proof (Hquick (S n)); pose proof (Htook (S n)).
  { unfold millisecond in *. lia. }
  case_decide as Hd; [unfold millisecond in *; lia|]. rewrite Hcancel. pose proof (Hlag (S n)).
  eapply yields_mono; [apply IH|].
  all: rewrite ?Hput; rewrite ?Hc; try done; try (unfold millisecond in *; cbn [cl_RetryAfter]; lia).
  cbn. intros res s' (claim & -> & Hn). exists claim. split; [done|].
  unfold next_claim in *. by rewrite Hc in Hn.
Qed.
End wait.

(** C18: the wait for a claim ends.  However long calls and waits take and
    whatever the others do, [claimStandard] returns after at most 1402 claims;
    when nobody else claims the message, nothing fails and a call takes at most
    ten seconds, it returns with the claim, under the next token, even if
    another worker died holding it. *)
Theorem claimStandard_ends {W} (sched : store_schedule W) claims put_claims took lag cancelled fuel
    now msg identity w n :
  (∀ n, 0 <= took n) → (∀ n, 0 <= lag n) → (1402 ≤ fuel)%nat →
  let '(r, (_, n')) := claimStandard sched claims put_claims took lag cancelled fuel now msg identity (w, n) in
  r ≠ Ok None ∧ (n' ≤ n + 1402)%nat ∧
  ((∀ r w, claims (put_claims r w) = r) → calm sched → (∀ n, cancelled n = None) →
   (∀ n, took n <= 10000 * millisecond) →
   processed (message_key msg) (claims w) = false →
   mc_expires (claim_of (message_key msg) (claims w)) <= now + processingLease →
   ∃ claim, r = Ok (Some claim) ∧ next_claim msg (claims w) claim).
Proof.
  intros Htook Hlag Hfuel. unfold claimStandard. set (deadline := now + _).
  assert (deadline - now < Z.of_nat 1401 * (50 * millisecond)) as Hm
    by (unfold deadline, processingLease, millisecond; lia).
  pose proof (claim_rounds_end sched claims put_claims took lag cancelled Htook Hlag 1401 fuel deadline
    now msg identity w n Hm Hfuel) as [Hend Hn].
  pose proof (λ H1 H2 H3 H4, claim_rounds_granted sched claims put_claims took lag cancelled Htook Hlag
    H1 H2 H3 H4 1401 fuel deadline now msg identity w n Hm Hfuel) as Hgrant.
  unfold yields in Hgrant. destruct (claim_rounds _ _ _ _ _ _ _ _ _ _ _ _) as [r [w' n']].
  cbn [fst snd] in *. split; [done|]. split; [done|].
  intros H1 H2 H3 H4 Hp Hexp. apply Hgrant; try done. unfold deadline, processingLease in *. lia.
Qed.
