(* ===== verification/DeviceModel.v ===== *)
(** The state of a device, the registry entries its timing comes from, and the
    tables of the memory adapter that hold them (internal/model/model.go,
    internal/ports/device_filter.go, internal/adapters/memory/repository.go,
    device_filter.go, page and normalizePage).

    Of a product only the fields that the modelled code reads are kept. *)
From S2P Require Import Prelude GoText GoJson GbCodec AlarmModel AlarmStore MessageClaims.

(** ** Device states *)

Record DeviceState := mk_DeviceState {
  ds_Version : Z; ds_TenantID : string; ds_ProductID : string; ds_DeviceID : string;
  ds_ConnectionStatus : string; ds_DataStatus : string; ds_BusinessStatus : string;
  ds_LastConnectAt : Z; ds_LastDisconnectAt : Z; ds_LastSeenAt : Z; ds_LastMessageID : string;
  ds_ReportIntervalSec : Z; ds_OfflineToleranceSec : Z; ds_OfflineAt : Z;
  ds_OfflineDetectedAt : Z; ds_StatusSource : string; ds_Reason : string }.
#[export] Instance eta_DeviceState : Settable DeviceState := λ v,
  mk_DeviceState (ds_Version v) (ds_TenantID v) (ds_ProductID v) (ds_DeviceID v)
    (ds_ConnectionStatus v) (ds_DataStatus v) (ds_BusinessStatus v) (ds_LastConnectAt v)
    (ds_LastDisconnectAt v) (ds_LastSeenAt v) (ds_LastMessageID v) (ds_ReportIntervalSec v)
    (ds_OfflineToleranceSec v) (ds_OfflineAt v) (ds_OfflineDetectedAt v) (ds_StatusSource v)
    (ds_Reason v).
#[export] Instance DeviceState_eq_dec : EqDecision DeviceState.
Proof. solve_decision. Defined.
Definition zero_DeviceState : DeviceState :=
  mk_DeviceState 0 "" "" "" "" "" "" 0 0 0 "" 0 0 0 0 "" "".

Definition OfflineDeadline (s : DeviceState) : Z :=
  wrap64 (ds_LastSeenAt s
          + wrap64 (wrap64 (ds_ReportIntervalSec s + ds_OfflineToleranceSec s) * 1000)).

Definition OfflineStatus (s : DeviceState) : string :=
  if decide (ds_ConnectionStatus s = "CONNECTED") then "SUSPECTED_OFFLINE" else "OFFLINE".

Definition OfflineCheckAt (s : DeviceState) : Z :=
  if decide (ds_LastSeenAt s = 0) then 0
  else
    let deadline := OfflineDeadline s in
    if decide (ds_DataStatus s = "SILENT" ∧ ds_BusinessStatus s = OfflineStatus s
               ∧ ds_OfflineAt s = deadline)
    then 0 else deadline.

(** ** Registry *)

Definition DefaultReportIntervalSec : Z := 300.
Definition DefaultOfflineToleranceSec : Z := 60.

Record Product := mk_Product {
  p_ID : string; p_TenantID : string; p_ProtocolPackageID : string; p_Status : string;
  p_ReportIntervalSec : Z; p_OfflineToleranceSec : Z }.
Definition zero_Product : Product := mk_Product "" "" "" "" 0 0.

Record ManagedDevice := mk_ManagedDevice {
  d_ID : string; d_TenantID : string; d_ProductID : string; d_Name : string; d_Status : string;
  d_DeviceRole : string; d_GatewayID : string; d_RegistrationSource : string; d_AutoRegistered : bool;
  d_AccessKey : string; d_SecretHash : string; d_SecretHint : string; d_Description : string;
  d_Tags : gmap string string; d_CreatedAt : Z; d_UpdatedAt : Z; d_Connector : string;
  d_ConnectorProfileID : string; d_ChildAddress : string; d_ChildType : string;
  d_OnboardingRequestHash : string; d_ReportIntervalSec : Z; d_OfflineToleranceSec : Z }.
#[export] Instance eta_ManagedDevice : Settable ManagedDevice := λ v,
  mk_ManagedDevice (d_ID v) (d_TenantID v) (d_ProductID v) (d_Name v) (d_Status v) (d_DeviceRole v)
    (d_GatewayID v) (d_RegistrationSource v) (d_AutoRegistered v) (d_AccessKey v) (d_SecretHash v)
    (d_SecretHint v) (d_Description v) (d_Tags v) (d_CreatedAt v) (d_UpdatedAt v) (d_Connector v)
    (d_ConnectorProfileID v) (d_ChildAddress v) (d_ChildType v) (d_OnboardingRequestHash v)
    (d_ReportIntervalSec v) (d_OfflineToleranceSec v).
Definition zero_ManagedDevice : ManagedDevice :=
  mk_ManagedDevice "" "" "" "" "" "" "" "" false "" "" "" "" ∅ 0 0 "" "" "" "" "" 0 0.
(** A top-level gateway, which may own child devices. *)
Definition IsGateway (d : ManagedDevice) : Prop := d_DeviceRole d = "GATEWAY" ∧ d_GatewayID d = "".
#[export] Instance IsGateway_dec d : Decision (IsGateway d).
Proof. unfold IsGateway. apply _. Defined.

Record DeviceFilter := mk_DeviceFilter {
  f_TenantID : string; f_Role : string; f_RestrictProducts : bool; f_ProductIDs : list string;
  f_RestrictDevices : bool; f_DeviceIDs : list string; f_Query : string; f_Status : string;
  f_Runtime : string }.
(** [ports.DeviceFilter{TenantID: tenant, RestrictProducts: true, ProductIDs: []string{productID}}] *)
Definition product_filter (tenant productID : string) : DeviceFilter :=
  mk_DeviceFilter tenant "" true [productID] false [] "" "" "".

Definition EffectiveRole (d : ManagedDevice) : string :=
  if decide (d_DeviceRole d = "") then "DIRECT" else d_DeviceRole d.

(** [strings.Contains] on texts of runes. *)
Fixpoint contains_runes (s q : list Z) : bool :=
  bool_decide (q `prefix_of` s) || match s with [] => false | _ :: s => contains_runes s q end.

Definition Matches `{Platform} (f : DeviceFilter) (d : ManagedDevice) (state : option DeviceState)
    : bool :=
  let q := to_lower (trim_space (f_Query f)) in
  let business := match state with
                  | Some s => if decide (ds_BusinessStatus s ≠ "") then ds_BusinessStatus s else "NEVER_SEEN"
                  | None => "NEVER_SEEN"
                  end in
  bool_decide (f_TenantID f = "" ∨ d_TenantID d = f_TenantID f)
  && bool_decide (f_Role f = "" ∨ EffectiveRole d = f_Role f)
  && (negb (f_RestrictProducts f) || bool_decide (d_ProductID d ∈ f_ProductIDs f))
  && (negb (f_RestrictDevices f) || bool_decide (d_ID d ∈ f_DeviceIDs f))
  && (bool_decide (q = []) || contains_runes (to_lower (d_ID d)) q
      || contains_runes (to_lower (d_Name d)) q)
  && bool_decide (f_Status f = "" ∨ d_Status d = f_Status f)
  && bool_decide (f_Runtime f = "" ∨ business = f_Runtime f).

(** ** The tables *)

Record device_repo `{AlarmDetails} := mk_device_repo {
  dr_states : gmap string DeviceState;
  dr_stateEvents : list DeviceState;
  dr_devices : gmap string ManagedDevice;
  dr_products : gmap string Product;
  dr_alarms : alarm_repo;
  dr_messages : claim_repo }.
#[export] Instance eta_device_repo `{AlarmDetails} : Settable device_repo := λ v,
  mk_device_repo _ (dr_states v) (dr_stateEvents v) (dr_devices v) (dr_products v) (dr_alarms v)
    (dr_messages v).

Section store.
Context `{AlarmDetails}.

Definition device_key (s : DeviceState) : string := store_key [ds_TenantID s; ds_DeviceID s].
Definition not_found : error := mk_error NotFound "not found".
Definition put_state (k : string) (s : DeviceState) (r : device_repo) : device_repo :=
  r <| dr_states ::= <[k := s]> |>.

Definition UpsertDeviceState (v : DeviceState) (r : device_repo) : device_repo :=
  let old := default zero_DeviceState (dr_states r !! device_key v) in
  put_state (device_key v) (v <| ds_Version := wrap64 (ds_Version old + 1) |>) r.

(** Version 0 creates; any other version must be the stored one. *)
Definition UpsertDeviceStateIf (v : DeviceState) (r : device_repo) : res bool * device_repo :=
  let stored := dr_states r !! device_key v in
  let old := default zero_DeviceState stored in
  if decide (ds_Version v = 0 ∧ is_Some stored
             ∨ ds_Version v ≠ 0 ∧ (stored = None ∨ ds_Version old ≠ ds_Version v))
  then (Ok false, r)
  else (Ok true, put_state (device_key v) (v <| ds_Version ::= (λ n, wrap64 (n + 1)) |>) r).

Definition GetDeviceState (tenant device : string) (r : device_repo) : res DeviceState :=
  match dr_states r !! store_key [tenant; device] with
  | Some v => Ok v
  | None => Err not_found
  end.

(** The states whose check time has passed, at most [limit] of them as [range]
    visits the map. *)
Definition offline_due (now : Z) (v : DeviceState) : Prop := 0 < OfflineCheckAt v < now.
#[export] Instance offline_due_dec now v : Decision (offline_due now v).
Proof. unfold offline_due. apply _. Defined.
Definition ListOfflineDue `{MapOrder} (now : Z) (limit : nat) (r : device_repo) : list DeviceState :=
  take limit (filter (offline_due now) (omap (λ k, dr_states r !! k) (map_range (dr_states r)))).

(** The time of recording is not kept. *)
Definition SaveDeviceStateEvent (v : DeviceState) (r : device_repo) : device_repo :=
  r <| dr_stateEvents ::= (λ l, l ++ [v]) |>.

Definition GetProduct (tenant id : string) (r : device_repo) : res Product :=
  match dr_products r !! store_key [tenant; id] with
  | Some v => Ok v
  | None => Err not_found
  end.
Definition GetManagedDevice (tenant id : string) (r : device_repo) : res ManagedDevice :=
  match dr_devices r !! store_key [tenant; id] with
  | Some v => Ok v
  | None => Err not_found
  end.
(** No two devices share an access key. *)
Definition SaveManagedDevice (v : ManagedDevice) (r : device_repo) : res unit * device_repo :=
  if decide (map_Forall (λ _ current, ¬ (d_AccessKey current = d_AccessKey v
               ∧ (d_TenantID current ≠ d_TenantID v ∨ d_ID current ≠ d_ID v))) (dr_devices r))
  then (Ok tt, r <| dr_devices ::= <[store_key [d_TenantID v; d_ID v] := v]> |>)
  else (Err (mk_error Other "access key already exists"), r).

(** ** Pages of devices *)

Definition normalizePage (limit offset : Z) : Z * Z :=
  let limit := if decide (limit <= 0) then 20 else limit in
  (limit `min` 100, offset `max` 0).
Definition page {A} (v : list A) (offset limit : Z) : list A :=
  let n := Z.of_nat (length v) in
  let offset := if decide (offset < 0) then 0 else offset in
  if decide (offset >= n) then []
  else
    let limit := if decide (limit <= 0) then 100 else limit in
    let last := if decide (offset + limit > n) then n else offset + limit in
    take (Z.to_nat (last - offset)) (drop (Z.to_nat offset) v).

Lemma page_first {A} (l : list A) limit :
  0 < limit → page l 0 limit = take (Z.to_nat limit) l.
Proof.
  intros Hl. unfold page. cbv zeta. rewrite (decide_False (P := 0 < 0)) by lia. case_decide as Hn.
  { destruct l; [by rewrite take_nil|cbn [length] in Hn; lia]. }
  rewrite (decide_False (P := limit <= 0)) by lia. rewrite drop_0. case_decide as Hlast.
  - rewrite !take_ge; [done|lia..].
  - do 2 f_equal. lia.
Qed.

(** [sort.Slice]: the newest first, then the greater identity. *)
Definition device_le (a b : ManagedDevice) : Prop :=
  d_UpdatedAt b < d_UpdatedAt a
  ∨ d_UpdatedAt a = d_UpdatedAt b ∧ String.leb (d_ID b) (d_ID a) = true.
#[export] Instance device_le_dec a b : Decision (device_le a b).
Proof. unfold device_le. apply _. Defined.

Definition filtered_devices `{Platform} (f : DeviceFilter) (r : device_repo) : list ManagedDevice :=
  merge_sort device_le
    (filter (λ v, Matches f v (dr_states r !! store_key [d_TenantID v; d_ID v]) = true)
       (map_to_list (dr_devices r)).*2).
Definition ListManagedDevicesFiltered `{Platform} (f : DeviceFilter) (limit offset : Z)
    (r : device_repo) : list ManagedDevice * nat :=
  let out := filtered_devices f r in
  let '(limit, offset) := normalizePage limit offset in
  (page out offset limit, length out).
End store.
