(* ===== verification/DeviceEngine.v ===== *)
(** The engine's changes of device states (internal/core/device_state.go,
    connections.go, device_timing.go, the product cache of protocol_cache.go)
    and the optimistic loop that applies them (internal/core/consistency.go,
    mutateDeviceState and publishStateChange).

    The world is what the engine shares with others: the repository and the
    product cache of the process.  The striped lock around every change only
    delays calls, so it is part of the schedule; the realtime message that
    follows a state event is not modelled. *)
From S2P Require Import Prelude GoText GoJson StoreIO GbCodec AlarmModel AlarmStore AlarmEngine.
From S2P Require Import MessageClaims DeviceModel.

Record cachedProduct_t := mk_cachedProduct { cp_product : res Product; cp_loadedAt : Z }.
Record engine_world `{AlarmDetails} := mk_engine_world {
  ew_repo : device_repo;
  ew_products : gmap string (gmap string cachedProduct_t) }.
#[export] Instance eta_engine_world `{AlarmDetails} : Settable engine_world := λ v,
  mk_engine_world _ (ew_repo v) (ew_products v).

(** [StandardParserName] of internal/parser/standard.go *)
Definition StandardParserName : string := "iot_standard_parser".

(** ** What one event does to a state *)

Section changes.
Context `{Platform}.

Definition connection_property (msg : StandardMessage) : option string :=
  if decide (MessageType msg = StateChange ∧ Parser msg = StandardParserName) then
    match Properties msg !! "connectionStatus" with
    | Some (AString status) =>
      if decide (status = "CONNECTED" ∨ status = "DISCONNECTED" ∨ status = "UNKNOWN")
      then Some status else None
    | _ => None
    end
  else None.

(** The state before its first message, given the timing read for it. *)
Definition first_state (state : DeviceState) (msg : StandardMessage) : DeviceState :=
  let '(interval, tolerance) :=
    if decide (ds_ReportIntervalSec state <= 0)
    then (DefaultReportIntervalSec, DefaultOfflineToleranceSec)
    else (ds_ReportIntervalSec state, ds_OfflineToleranceSec state) in
  zero_DeviceState <| ds_TenantID := TenantID msg |> <| ds_ProductID := ProductID msg |>
    <| ds_DeviceID := DeviceID msg |> <| ds_ReportIntervalSec := interval |>
    <| ds_OfflineToleranceSec := tolerance |> <| ds_ConnectionStatus := "UNKNOWN" |>.

(** What a message that is not late changes. *)
Definition message_state (state : DeviceState) (msg : StandardMessage) : DeviceState :=
  let old := ds_BusinessStatus state in
  let state := state <| ds_DataStatus := "ACTIVE" |>
    <| ds_BusinessStatus :=
         if decide (MessageType msg = AlarmReport ∨ equal_fold old "ALARM") then "ALARM" else "ONLINE" |>
    <| ds_LastSeenAt := Timestamp msg |> <| ds_LastMessageID := MessageID msg |>
    <| ds_StatusSource := "RAW_MESSAGE" |> in
  match connection_property msg with
  | Some status =>
    let state := state <| ds_ConnectionStatus := status |> in
    if decide (status = "CONNECTED") then state <| ds_LastConnectAt := Timestamp msg |>
    else if decide (status = "DISCONNECTED") then state <| ds_LastDisconnectAt := Timestamp msg |>
    else state
  | None => state
  end.

Definition open_alarm_reason : string := "存在活动告警".

(** The state to write, or nothing. *)
Definition nextMessageState (state : DeviceState) (found : bool) (msg : StandardMessage)
    (reconcile open : bool) : option DeviceState :=
  let state := if found then state else first_state state msg in
  let late := bool_decide (Timestamp msg < ds_LastSeenAt state) in
  if late && negb reconcile then None
  else
    let state := if late then state else message_state state msg in
    Some (
      if reconcile then
        if open then
          state <| ds_BusinessStatus := "ALARM" |> <| ds_StatusSource := "ACTIVE_ALARM" |>
            <| ds_Reason := open_alarm_reason |>
        else if negb late || bool_decide (ds_BusinessStatus state = "ALARM") then
          state <| ds_BusinessStatus := "ONLINE" |> <| ds_StatusSource := "RAW_MESSAGE" |>
            <| ds_Reason := "" |>
        else state
      else state).

(** The status that follows the open alarms. *)
Definition synced_state (state : DeviceState) (product : string) (open : bool) : DeviceState :=
  let '(nextStatus, source, reason) :=
    if open then ("ALARM", "ACTIVE_ALARM", open_alarm_reason) else ("ONLINE", "RAW_MESSAGE", "") in
  let state := if decide (ds_ProductID state = "") then state <| ds_ProductID := product |> else state in
  state <| ds_BusinessStatus := nextStatus |> <| ds_StatusSource := source |> <| ds_Reason := reason |>.

(** A state found silent at [now]. *)
Definition offline_state (now : Z) (s : DeviceState) : DeviceState :=
  let s := s <| ds_DataStatus := "SILENT" |> <| ds_BusinessStatus := OfflineStatus s |> in
  let s := s <| ds_OfflineAt := OfflineDeadline s |> in
  s <| ds_OfflineDetectedAt := now |> <| ds_StatusSource := "RAW_MESSAGE_TIMEOUT" |>.

Definition connection_state (state : DeviceState) (connected : bool) (at_ : Z) : DeviceState :=
  let state :=
    if connected then state <| ds_ConnectionStatus := "CONNECTED" |> <| ds_LastConnectAt := at_ |>
    else state <| ds_ConnectionStatus := "DISCONNECTED" |> <| ds_LastDisconnectAt := at_ |> in
  state <| ds_StatusSource := "LISTENER_SESSION" |>.

(** A state put in place of the current one. *)
Definition replaced_state (state current : DeviceState) : DeviceState :=
  if decide (ds_LastSeenAt state = 0) then state <| ds_LastSeenAt := ds_LastSeenAt current |> else state.
End changes.

(** The device's own setting, then its template's, then the default. *)
Definition EffectiveDeviceTiming (product : option Product) (device : option ManagedDevice) : Z * Z :=
  let interval := DefaultReportIntervalSec in
  let tolerance := DefaultOfflineToleranceSec in
  let '(interval, tolerance) := match product with
    | Some p => (if decide (p_ReportIntervalSec p > 0) then p_ReportIntervalSec p else interval,
                 if decide (p_OfflineToleranceSec p > 0) then p_OfflineToleranceSec p else tolerance)
    | None => (interval, tolerance)
    end in
  match device with
  | Some d => (if decide (d_ReportIntervalSec d > 0) then d_ReportIntervalSec d else interval,
               if decide (d_OfflineToleranceSec d > 0) then d_OfflineToleranceSec d else tolerance)
  | None => (interval, tolerance)
  end.

(** ** The optimistic loop *)

Section engine.
Context `{AlarmDetails} (sched : store_schedule engine_world).
Abbreviation EngineIO := (StoreIO engine_world).

(** A call to the repository. *)
Definition repo_call {A} (f : device_repo → res A * device_repo) : EngineIO A :=
  store_call sched (λ w, let '(a, r) := f (ew_repo w) in (a, w <| ew_repo := r |>)).
Definition repo_read {A} (f : device_repo → res A) : EngineIO A := repo_call (λ r, (f r, r)).

(** What [mutateDeviceState] is given: the state to write, or nothing. *)
Definition device_fn : Type := DeviceState → bool → EngineIO (option DeviceState).

Definition device_conflict (device : string) : error :=
  mk_error Conflict ("device " +:+ device +:+ " state: concurrent update; retry").

(** One attempt: [Some] is the result, [None] a conflict. *)
Definition device_attempt (tenant device : string) (fn : device_fn) (current : DeviceState)
    (found : bool) : EngineIO (option (DeviceState * DeviceState * bool)) :=
  write ← fn current found;
  match write with
  | None => mret (Some (current, current, false))
  | Some next =>
    let next := next <| ds_TenantID := tenant |> <| ds_DeviceID := device |>
      <| ds_Version := ds_Version current |> in
    ok ← repo_call (UpsertDeviceStateIf next);
    if ok : bool
    then mret (Some (current, next <| ds_Version ::= (λ n, wrap64 (n + 1)) |>, true))
    else mret None
  end.

(** A state that does not exist is changed from the zero state. *)
Definition device_round (tenant device : string) (fn : device_fn) (got : res DeviceState)
    : EngineIO (option (DeviceState * DeviceState * bool)) :=
  match got with
  | Ok current => device_attempt tenant device fn current true
  | Err e => if decide (err_is e = NotFound) then device_attempt tenant device fn zero_DeviceState false
             else store_fails e
  end.
Fixpoint device_attempts (attempts : nat) (tenant device : string) (fn : device_fn)
    : EngineIO (DeviceState * DeviceState * bool) :=
  match attempts with
  | O => store_fails (device_conflict device)
  | S attempts =>
    got ← store_try (repo_read (GetDeviceState tenant device));
    done ← device_round tenant device fn got;
    match done with
    | Some result => mret result
    | None => device_attempts attempts tenant device fn
    end
  end.
Definition mutateDeviceState : string → string → device_fn → EngineIO (DeviceState * DeviceState * bool) :=
  device_attempts casAttempts.

(** The realtime message that follows the event is not modelled. *)
Definition publishStateChange (before after : DeviceState) : EngineIO unit :=
  if decide (ds_BusinessStatus before = ds_BusinessStatus after
             ∧ ds_ConnectionStatus before = ds_ConnectionStatus after)
  then mret tt
  else _ ← store_try (repo_call (λ r, (Ok tt, SaveDeviceStateEvent after r))); mret tt.

(** A change followed by its event. *)
Definition change_state (tenant device : string) (fn : device_fn) : EngineIO bool :=
  '(before, after, written) ← mutateDeviceState tenant device fn;
  if written : bool then _ ← publishStateChange before after; mret true else mret false.

(** ** Timing *)

Definition protocolCacheTTL : Z := 2000000000.
(** [clock n] is the time, in nanoseconds, when [n] calls were made. *)
Context (clock : nat → Z).

Definition cached_entry (tenant productID : string) (w : engine_world) : option cachedProduct_t :=
  m ← ew_products w !! tenant; m !! productID.
Definition cache_put (tenant productID : string) (v : cachedProduct_t) (w : engine_world) : engine_world :=
  w <| ew_products ::= (λ m, <[tenant := <[productID := v]> (default ∅ (m !! tenant))]> m) |>.

(** The result is kept unless the repository failed. *)
Definition load_product (tenant productID : string) : EngineIO (res Product) :=
  product ← store_try (repo_read (GetProduct tenant productID));
  if match product with Ok _ => true | Err e => bool_decide (err_is e = NotFound) end then
    now ← observe clock;
    _ ← local_step sched (λ w, (tt, cache_put tenant productID (mk_cachedProduct product now) w));
    mret product
  else mret product.
Definition cachedProduct (tenant productID : string) : EngineIO (res Product) :=
  entry ← local_step sched (λ w, (cached_entry tenant productID w, w));
  now ← observe clock;
  match entry with
  | Some entry =>
    if decide (now - cp_loadedAt entry < protocolCacheTTL) then mret (cp_product entry)
    else load_product tenant productID
  | None => load_product tenant productID
  end.
Definition ProtocolsChanged (tenant : string) : EngineIO unit :=
  local_step sched (λ w, (tt, w <| ew_products ::= delete tenant |>)).

Definition res_option {A} (r : res A) : option A := match r with Ok a => Some a | Err _ => None end.
Definition deviceTiming (tenant productID deviceID : string) : EngineIO (Z * Z) :=
  product ← cachedProduct tenant productID;
  device ← store_try (repo_read (GetManagedDevice tenant deviceID));
  mret (EffectiveDeviceTiming (res_option product) (res_option device)).

(** ** The operations *)

Definition has_open_alarm (tenant device : string) : EngineIO bool :=
  repo_read (λ r, Ok (HasOpenAlarm tenant device (dr_alarms r))).

Section operations.
Context `{Platform}.

Definition message_fn (msg : StandardMessage) (reconcile : bool) : device_fn := λ state found,
  open ← if reconcile then has_open_alarm (TenantID msg) (DeviceID msg) else mret false;
  state ← if found then mret state
          else
            '(interval, tolerance) ← deviceTiming (TenantID msg) (ProductID msg) (DeviceID msg);
            mret (state <| ds_ReportIntervalSec := interval |>
              <| ds_OfflineToleranceSec := tolerance |>);
  mret (nextMessageState state found msg reconcile open).
Definition applyMessageState (msg : StandardMessage) (reconcile : bool) : EngineIO unit :=
  _ ← change_state (TenantID msg) (DeviceID msg) (message_fn msg reconcile); mret tt.
Definition touchState (msg : StandardMessage) : EngineIO unit := applyMessageState msg false.

Definition sync_fn (tenant product device : string) : device_fn := λ state found,
  if found : bool then
    open ← has_open_alarm tenant device;
    mret (Some (synced_state state product open))
  else mret None.
Definition syncDeviceBusinessStatus (tenant product device : string) : EngineIO unit :=
  _ ← change_state tenant device (sync_fn tenant product device); mret tt.

Definition UpdateDeviceState (state : DeviceState) : EngineIO unit :=
  _ ← change_state (ds_TenantID state) (ds_DeviceID state)
        (λ current _, mret (Some (replaced_state state current)));
  mret tt.

Definition connection_fn (tenant product device : string) (connected : bool) (at_ : Z) : device_fn :=
  λ state found,
  state ← if found : bool then mret state
          else
            '(interval, tolerance) ← deviceTiming tenant product device;
            mret (zero_DeviceState <| ds_TenantID := tenant |> <| ds_ProductID := product |>
              <| ds_DeviceID := device |> <| ds_DataStatus := "UNKNOWN" |>
              <| ds_BusinessStatus := "UNKNOWN" |> <| ds_ReportIntervalSec := interval |>
              <| ds_OfflineToleranceSec := tolerance |>);
  mret (Some (connection_state state connected at_)).
Definition ReportConnection (tenant product device : string) (connected : bool) (at_ : Z) : EngineIO unit :=
  _ ← change_state tenant device (connection_fn tenant product device connected at_); mret tt.
(** ** The completion of a message

    In the memory adapter both methods are two steps: the open alarms are read
    before the state, and the state is written before the mark. *)
Definition LoadDeviceStateWithAlarms (tenant device : string) : EngineIO (res DeviceState * bool) :=
  open ← store_try (has_open_alarm tenant device);
  match open with
  | Err e => mret (Err e, false)
  | Ok open =>
    state ← store_try (repo_read (GetDeviceState tenant device));
    mret (state, open)
  end.

Definition mark_processed (tenant messageID : string) (token : Z) : EngineIO unit :=
  repo_call (λ r, let '(res, m) := MarkStandardMessageProcessed tenant messageID token (dr_messages r) in
                  (res, r <| dr_messages := m |>)).
Definition error_of {A} (r : res A) : option error := match r with Ok _ => None | Err e => Some e end.
Definition CompleteStandardMessage (state : option DeviceState) (tenant messageID : string) (token : Z)
    : EngineIO (bool * option error) :=
  written ← match state with
            | Some v => store_try (repo_call (UpsertDeviceStateIf v))
            | None => mret (Ok true)
            end;
  match written with
  | Err e => mret (false, Some e)
  | Ok false => mret (false, None)
  | Ok true =>
    marked ← store_try (mark_processed tenant messageID token);
    mret (true, error_of marked)
  end.

(** One attempt: [None] is a conflict. *)
Definition complete_attempt (msg : StandardMessage) (token : Z) (current : DeviceState)
    (found open : bool) : EngineIO (option unit) :=
  next ← if found then mret current
         else
           '(interval, tolerance) ← deviceTiming (TenantID msg) (ProductID msg) (DeviceID msg);
           mret (current <| ds_ReportIntervalSec := interval |>
             <| ds_OfflineToleranceSec := tolerance |>);
  let write :=
    (λ next, next <| ds_TenantID := TenantID msg |> <| ds_DeviceID := DeviceID msg |>
       <| ds_Version := ds_Version current |>) <$> nextMessageState next found msg true open in
  '(ok, err) ← CompleteStandardMessage write (TenantID msg) (MessageID msg) token;
  _ ← match write with
      | Some next =>
        if ok : bool then publishStateChange current (next <| ds_Version ::= (λ n, wrap64 (n + 1)) |>)
        else mret tt
      | None => mret tt
      end;
  match err with
  | Some e => if decide (e = ErrStaleClaim) then mret (Some tt) else store_fails e
  | None => if ok : bool then mret (Some tt) else mret None
  end.
Definition complete_round (msg : StandardMessage) (token : Z) (got : res DeviceState) (open : bool)
    : EngineIO (option unit) :=
  match got with
  | Ok current => complete_attempt msg token current true open
  | Err e => if decide (err_is e = NotFound) then complete_attempt msg token zero_DeviceState false open
             else store_fails e
  end.
Fixpoint complete_attempts (attempts : nat) (msg : StandardMessage) (token : Z) : EngineIO unit :=
  match attempts with
  | O => store_fails (device_conflict (DeviceID msg))
  | S attempts =>
    '(got, open) ← LoadDeviceStateWithAlarms (TenantID msg) (DeviceID msg);
    done ← complete_round msg token got open;
    match done with
    | Some _ => mret tt
    | None => complete_attempts attempts msg token
    end
  end.
Definition completeStandard : StandardMessage → Z → EngineIO unit := complete_attempts casAttempts.
End operations.

(** ** The offline scan *)

Definition offlineScanBatch : nat := 1000.

(** [ctx n] is [ctx.Err()] when [n] calls were made. *)
Context (ctx : nat → option error).

Definition offline_fn (now : Z) : device_fn := λ s found,
  let check := OfflineCheckAt s in
  if decide (found = false ∨ check = 0 ∨ check >= now) then mret None
  else mret (Some (offline_state now s)).

(** The errors of one device do not stop the scan. *)
Fixpoint scan_states (now : Z) (states : list DeviceState) : EngineIO unit :=
  match states with
  | [] => mret tt
  | listed :: states =>
    cancelled ← observe ctx;
    match cancelled with
    | Some _ => mret tt
    | None =>
      _ ← store_try (change_state (ds_TenantID listed) (ds_DeviceID listed) (offline_fn now));
      scan_states now states
    end
  end.

(** [None] is a scan that has not ended after [fuel] batches. *)
Fixpoint scan_rounds `{MapOrder} (fuel : nat) (now : Z) : EngineIO (option unit) :=
  match fuel with
  | O => mret None
  | S fuel =>
    cancelled ← observe ctx;
    match cancelled with
    | Some e => store_fails e
    | None =>
      states ← repo_read (λ r, Ok (ListOfflineDue now offlineScanBatch r));
      _ ← scan_states now states;
      if decide (length states < offlineScanBatch)%nat then mret (Some tt) else scan_rounds fuel now
    end
  end.
Definition ScanOffline `{MapOrder} (fuel : nat) (now : Z) : EngineIO (option unit) := scan_rounds fuel now.

(** ** New timing for existing states *)

Definition deviceTimingPage : Z := 500.

Definition timing_fn (interval tolerance : Z) : device_fn := λ state found,
  if decide (found = false ∨ ds_ReportIntervalSec state = interval
                             ∧ ds_OfflineToleranceSec state = tolerance)
  then mret None
  else mret (Some (state <| ds_ReportIntervalSec := interval |> <| ds_OfflineToleranceSec := tolerance |>)).

(** The number of changed states, up to the first error. *)
Fixpoint apply_timing (tenant : string) (product : option Product) (devices : list ManagedDevice)
    : EngineIO nat :=
  match devices with
  | [] => mret 0%nat
  | device :: devices =>
    let '(interval, tolerance) := EffectiveDeviceTiming product (Some device) in
    written ← change_state tenant (d_ID device) (timing_fn interval tolerance);
    changed ← apply_timing tenant product devices;
    mret (if written : bool then S changed else changed)
  end.

(** [None] is a walk that has not ended after [fuel] pages. *)
Fixpoint timing_pages `{Platform} (fuel : nat) (tenant productID : string) (product : option Product)
    (offset : Z) : EngineIO (option nat) :=
  match fuel with
  | O => mret None
  | S fuel =>
    devices ← repo_read (λ r, Ok (ListManagedDevicesFiltered (product_filter tenant productID)
                                    deviceTimingPage offset r).1);
    changed ← apply_timing tenant product devices;
    if decide (Z.of_nat (length devices) < deviceTimingPage) then mret (Some changed)
    else
      rest ← timing_pages fuel tenant productID product (offset + deviceTimingPage);
      mret ((λ n, (changed + n)%nat) <$> rest)
  end.

(** For one device Go leaves open whether the count is read before or after the
    change; no caller uses it. *)
Definition ApplyDeviceTiming `{Platform} (fuel : nat) (tenant productID deviceID : string)
    : EngineIO (option nat) :=
  _ ← ProtocolsChanged tenant;
  product ← store_try (repo_read (GetProduct tenant productID));
  if decide (deviceID ≠ "") then
    device ← repo_read (GetManagedDevice tenant deviceID);
    changed ← apply_timing tenant (res_option product) [device];
    mret (Some changed)
  else timing_pages fuel tenant productID (res_option product) 0.
End engine.
