(* ===== verification/DeviceMutate.v ===== *)
(** The optimistic loop over device states commits one change on the state
    stored at that moment (internal/core/consistency.go, mutateDeviceState). *)
From S2P Require Import Prelude GoText GoJson GbCodec StoreIO AlarmModel AlarmStore AlarmEngine.
From S2P Require Import MessageClaims DeviceModel DeviceEngine.

Section mutate.
Context `{AlarmDetails} (sched : store_schedule engine_world).

Definition stored (k : string) (w : engine_world) : option DeviceState := dr_states (ew_repo w) !! k.

(** States stay, and their version grows with every change. *)
Definition states_persist (w w' : engine_world) : Prop :=
  ∀ k s, stored k w = Some s → ∃ s', stored k w' = Some s' ∧ (s' = s ∨ ds_Version s < ds_Version s').
#[export] Instance states_persist_po : PreOrder states_persist.
Proof.
  split.
  - intros w k s Hs. exists s. auto.
  - intros w1 w2 w3 H1 H2 k s Hs. destruct (H1 k s Hs) as (s2 & Hs2 & L2).
    destruct (H2 k s2 Hs2) as (s3 & Hs3 & L3). exists s3. split; [done|].
    destruct L2 as [->|L2], L3 as [->|L3]; auto. right. lia.
Qed.

(** What the others may do, and what the change may do while it is computed. *)
Definition device_rely : Prop := ∀ n w, states_persist w (sc_env sched n w).
Definition fn_quiet (calls : nat) (fn : device_fn) : Prop :=
  ∀ s f w n, yields (fn s f) (w, n)
    (λ _ s', states_persist w s'.1 ∧ (n ≤ s'.2 ≤ n + calls)%nat).

(** A failing call does not say that there is no state. *)
Definition honest_faults : Prop := ∀ n e, sc_fail sched n = Some e → err_is e ≠ NotFound.

(** The steps that are not the write: those of the others and of [fn]. *)
Definition meanwhile (fn : device_fn) : relation engine_world :=
  rtc (λ w w', (∃ n, w' = sc_env sched n w) ∨ (∃ s f n, w' = (fn s f (w, n)).2.1)).

Definition put_stored (k : string) (s : DeviceState) (w : engine_world) : engine_world :=
  w <| ew_repo ::= put_state k s |>.

(** How a run of the loop ends. *)
Definition device_outcome (tenant device : string) (fn : device_fn) (w : engine_world)
    (res : res (DeviceState * DeviceState * bool)) (w' : engine_world) : Prop :=
  let k := store_key [tenant; device] in
  match res with
  | Ok (before, after, written) => ∃ wr n wf n' write,
      meanwhile fn w wr ∧ before = default zero_DeviceState (stored k wr) ∧
      fn before (bool_decide (is_Some (stored k wr))) (wr, n) = (Ok write, (wf, n')) ∧
      match write with
      | None => written = false ∧ after = before ∧ w' = wf
      | Some next => written = true ∧
          after = next <| ds_TenantID := tenant |> <| ds_DeviceID := device |>
                    <| ds_Version := wrap64 (ds_Version before + 1) |> ∧
          ∃ wc, meanwhile fn wf wc ∧ stored k wc = stored k wr ∧ w' = put_stored k after wc
      end
  | Err e => meanwhile fn w w' ∧
      ((∃ n, sc_fail sched n = Some e) ∨ (∃ s f w n, (fn s f (w, n)).1 = Err e) ∨
       e = device_conflict device)
  end.

Lemma device_outcome_later tenant device fn w w1 res w' :
  meanwhile fn w w1 → device_outcome tenant device fn w1 res w' → device_outcome tenant device fn w res w'.
Proof.
  intros Hp. destruct res as [[[before after] written]|e]; cbn.
  - intros (wr & n & wf & n' & write & Hm & Hrest). exists wr, n, wf, n', write. split; [by etrans|done].
  - intros [Hm Hrest]. split; [by etrans|done].
Qed.

Lemma repo_call_post {A} (f : device_repo → res A * device_repo) w n (Q : res A → engine_world * nat → Prop) :
  (∀ e, sc_fail sched n = Some e → Q (Err e) (sc_env sched n w, S n)) →
  (let w := sc_env sched n w in
   Q (f (ew_repo w)).1 (w <| ew_repo := (f (ew_repo w)).2 |>, S n)) →
  yields (repo_call sched f) (w, n) Q.
Proof using.
  intros Hf Hok. apply yields_call; [done|]. cbv zeta in *. intros _.
  by destruct (f (ew_repo (sc_env sched n w))).
Qed.
Lemma repo_read_post {A} (f : device_repo → res A) w n (Q : res A → engine_world * nat → Prop) :
  (∀ e, sc_fail sched n = Some e → Q (Err e) (sc_env sched n w, S n)) →
  (let w := sc_env sched n w in Q (f (ew_repo w)) (w, S n)) →
  yields (repo_read sched f) (w, n) Q.
Proof using.
  intros Hf Hok. apply repo_call_post; [done|]. cbv zeta in *. cbn [fst snd].
  by replace (set ew_repo _ _) with (sc_env sched n w) by (by destruct (sc_env sched n w)).
Qed.

Section loop.
Context (tenant device : string) (fn : device_fn) (calls : nat).
Context (Hrely : device_rely) (Hfaults : honest_faults) (Hfn : fn_quiet calls fn).

Lemma meanwhile_env w n : meanwhile fn w (sc_env sched n w).
Proof using. apply rtc_once. left. by exists n. Qed.
Lemma meanwhile_fn w s f n res w' n' : fn s f (w, n) = (res, (w', n')) → meanwhile fn w w'.
Proof using. intros E. apply rtc_once. right. exists s, f, n. by rewrite E. Qed.
Lemma meanwhile_persist w w' : meanwhile fn w w' → states_persist w w'.
Proof using Hrely Hfn.
  induction 1 as [w|w1 w2 w3 [[n ->]|(s & f & n & ->)] _ IH]; [done|..]; etrans; [|exact IH|..|exact IH].
  - apply Hrely.
  - apply Hfn.
Qed.

(** The write succeeds only on the state that was read. *)
Lemma same_state w w' k :
  states_persist w w' →
  ds_Version (default zero_DeviceState (stored k w')) = ds_Version (default zero_DeviceState (stored k w)) →
  (is_Some (stored k w') → is_Some (stored k w)) → stored k w' = stored k w.
Proof using.
  intros Hp Hv Hs. destruct (stored k w) as [s|] eqn:E.
  - destruct (Hp k s E) as (s' & Hs' & L). rewrite Hs' in Hv |- *. cbn in Hv. destruct L as [->|L]; [done|lia].
  - destruct (stored k w') as [s'|]; [|done]. by destruct (Hs (mk_is_Some _ _ eq_refl)).
Qed.

Lemma device_attempt_post wr n :
  let k := store_key [tenant; device] in
  let before := default zero_DeviceState (stored k wr) in
  yields (device_attempt sched tenant device fn before (bool_decide (is_Some (stored k wr)))) (wr, n)
    (λ res s', (s'.2 ≤ n + calls + 1)%nat ∧
       match res with
       | Ok (Some out) => device_outcome tenant device fn wr (Ok out) s'.1
       | Ok None => meanwhile fn wr s'.1
       | Err e => device_outcome tenant device fn wr (Err e) s'.1
       end).
Proof using Hrely Hfn.
  cbv zeta. set (k := store_key [tenant; device]). set (before := default _ _).
  unfold device_attempt. apply yields_bind.
  pose proof (Hfn before (bool_decide (is_Some (stored k wr))) wr n) as Hq. unfold yields in Hq |- *.
  destruct (fn before _ (wr, n)) as [res [wf n']] eqn:Erun. cbn [fst snd] in Hq |- *.
  destruct Hq as [Hpf Hn]. pose proof (meanwhile_fn _ _ _ _ _ _ _ Erun) as Hmf.
  destruct res as [[next|]|e].
  2: { apply yields_ret. cbn [fst snd]. split; [lia|]. exists wr, n, wf, n', None. fold k before.
       split; [apply rtc_refl|done]. }
  2: { split; [lia|]. split; [done|]. right; left. by exists before, (bool_decide (is_Some (stored k wr))), wr, n;
       rewrite Erun. }
  apply yields_bind. pose proof (meanwhile_env wf n') as Henv. apply repo_call_post.
  { intros e He. split; [cbn; lia|]. split; [by etrans|]. left. by exists n'. }
  cbv zeta. set (wc := sc_env sched n' wf) in *. unfold UpsertDeviceStateIf.
  change (device_key _) with k. fold (stored k wc).
  change (ds_Version (set ds_Version _ _)) with (ds_Version before).
  case_decide as Hc; cbn [fst snd].
  { apply yields_ret. cbn [fst snd]. split; [lia|]. destruct wc. cbn. by etrans. }
  apply yields_ret. cbn [fst snd]. split; [lia|].
  apply Decidable.not_or in Hc as [Hc1 Hc2].
  exists wr, n, wf, n', (Some next). fold k before. split; [apply rtc_refl|]. split; [done|].
  split; [done|]. split; [done|]. split; [done|]. exists wc. split; [done|].
  assert (stored k wc = stored k wr) as Hsame.
  { apply same_state.
    - etrans; [exact Hpf|]. by apply meanwhile_persist.
    - fold before. destruct (decide (ds_Version before = 0)) as [E0|E0].
      + destruct (stored k wc) as [s|] eqn:Es; [|done]. exfalso. by apply Hc1.
      + apply Decidable.not_and in Hc2; [|unfold Decidable.decidable; lia]. destruct Hc2 as [Hc2|Hc2]; [lia|].
        apply Decidable.not_or in Hc2 as [_ Hv]. apply dec_stable in Hv. done.
    - intros Hs. unfold before in *. destruct (stored k wr) eqn:Es; [done|].
      exfalso. by apply Hc1. }
  split; [done|]. by destruct wc.
Qed.

Lemma device_attempts_post attempts w n :
  yields (device_attempts sched attempts tenant device fn) (w, n)
    (λ res s', (s'.2 ≤ n + attempts * (calls + 2))%nat ∧ device_outcome tenant device fn w res s'.1).
Proof using Hrely Hfaults Hfn.
  revert w n. induction attempts as [|attempts IH]; intros w n; cbn [device_attempts].
  { apply yields_fails. split; [cbn; lia|]. split; [apply rtc_refl|]. auto. }
  apply yields_bind, yields_try. pose proof (meanwhile_env w n) as Henv. apply repo_read_post.
  { intros e He. apply yields_bind. unfold device_round. rewrite decide_False by (by eapply Hfaults).
    apply yields_fails. split; [cbn; lia|]. split; [done|]. left. by exists n. }
  cbv zeta. set (wr := sc_env sched n w) in *. apply yields_bind.
  assert (yields (device_round sched tenant device fn (GetDeviceState tenant device (ew_repo wr)))
    (wr, S n)
    (λ res s', (s'.2 ≤ S n + calls + 1)%nat ∧
       match res with
       | Ok (Some out) => device_outcome tenant device fn wr (Ok out) s'.1
       | Ok None => meanwhile fn wr s'.1
       | Err e => device_outcome tenant device fn wr (Err e) s'.1
       end)) as Hatt.
  { pose proof (device_attempt_post wr (S n)) as Hpost. cbv zeta in Hpost.
    unfold device_round, GetDeviceState. fold (stored (store_key [tenant; device]) wr).
    destruct (stored (store_key [tenant; device]) wr) as [s|]; [exact Hpost|].
    rewrite decide_True by done. exact Hpost. }
  eapply yields_mono; [exact Hatt|]. intros [[out|]|e] [w' n'] [Hn Hout]; cbn [fst snd] in *.
  - apply yields_ret. split; [cbn; lia|]. by eapply device_outcome_later.
  - eapply yields_mono; [apply IH|]. intros res s' [Hn' Hout']. split; [lia|].
    eapply device_outcome_later; [|exact Hout']. by etrans.
  - split; [lia|]. by eapply device_outcome_later.
Qed.
End loop.

(** C8: an optimistic change of a device state is atomic.  Under any
    interference in which states stay and their versions grow, and for any
    change that reads the store but leaves the states alone,
    [mutateDeviceState] ends within eight attempts; when it reports a write it
    has put the changed state, in one step and under the next version, in place
    of exactly the state the change was computed from, absence included;
    otherwise it has written nothing, and reports the state that was read or the
    error of the store, of the change, or of the exhausted attempts. *)
Theorem mutateDeviceState_linearizes tenant device fn calls w n :
  device_rely → honest_faults → fn_quiet calls fn →
  let '(res, (w', n')) := mutateDeviceState sched tenant device fn (w, n) in
  (n' ≤ n + 8 * (calls + 2))%nat ∧ device_outcome tenant device fn w res w'.
Proof.
  intros Hrely Hfaults Hfn.
  pose proof (device_attempts_post tenant device fn calls Hrely Hfaults Hfn casAttempts w n) as [Hn Hout].
  unfold mutateDeviceState. by destruct (device_attempts _ _ _ _ _ _) as [res [w' n']].
Qed.
End mutate.

(** Changes of device states when nobody interferes, and what the changes of
    the engine do to the states while they are computed. *)

(** ** The engine's changes are quiet *)

Section quiet.
Context `{AlarmDetails} (sched : store_schedule engine_world) (Hrely : device_rely sched).
Abbreviation EngineIO := (StoreIO engine_world).

(** [m] makes at most [k] calls and leaves the states to the others. *)
Definition quiet {A} (k : nat) (m : EngineIO A) : Prop :=
  ∀ w n, yields m (w, n) (λ _ s', states_persist w s'.1 ∧ (n ≤ s'.2 ≤ n + k)%nat).

Lemma quiet_ret {A} k (a : A) : quiet k (mret a).
Proof using. intros w n. split; [done|cbn; lia]. Qed.
Lemma quiet_fails {A} k e : quiet k (store_fails e : EngineIO A).
Proof using. intros w n. split; [done|cbn; lia]. Qed.
Lemma quiet_bind {A B} k1 k2 (m : EngineIO A) (f : A → EngineIO B) :
  quiet k1 m → (∀ a, quiet k2 (f a)) → quiet (k1 + k2) (m ≫= f).
Proof using.
  intros Hm Hf w n. apply yields_bind. eapply yields_mono; [apply Hm|].
  intros [a|e] [w1 n1] [Hp Hn]; cbn [fst snd] in *; [|split; [done|lia]].
  eapply yields_mono; [apply Hf|]. intros r [w2 n2] [Hp2 Hn2]. cbn [fst snd] in *.
  split; [by etrans|lia].
Qed.
Lemma quiet_weaken {A} k k' (m : EngineIO A) : (k ≤ k')%nat → quiet k m → quiet k' m.
Proof using.
  intros Hk Hm w n. eapply yields_mono; [apply Hm|]. intros r s' [? ?]. split; [done|lia].
Qed.
Lemma quiet_try {A} k (m : EngineIO A) : quiet k m → quiet k (store_try m).
Proof using. intros Hm w n. apply yields_try. eapply yields_mono; [apply Hm|]. done. Qed.
Lemma quiet_observe {A} k (f : nat → A) : quiet k (observe f).
Proof using. intros w n. apply yields_observe. split; [done|cbn; lia]. Qed.
Lemma quiet_read {A} (f : device_repo → res A) : quiet 1 (repo_read sched f).
Proof using Hrely.
  intros w n. pose proof (Hrely n w). apply repo_read_post.
  - intros e He. split; [done|cbn; lia].
  - split; [done|cbn; lia].
Qed.
Lemma quiet_local {A} (f : engine_world → A * engine_world) :
  (∀ w, ew_repo (f w).2 = ew_repo w) → quiet 1 (local_step sched f).
Proof using Hrely.
  intros Hf w n. apply yields_local. cbv zeta. split; [|cbn; lia]. cbn [fst].
  intros k s Hs. destruct (Hrely n w k s Hs) as (s' & Hs' & L). exists s'. split; [|done].
  unfold stored in *. by rewrite Hf.
Qed.

Lemma quiet_timing clock tenant product device : quiet 4 (deviceTiming sched clock tenant product device).
Proof using Hrely.
  assert (quiet 2 (load_product sched clock tenant product)) as Hload.
  { apply (quiet_bind 1 1); [apply quiet_try, quiet_read|]. intros p. case_match; [|apply quiet_ret].
    apply (quiet_bind 0 1); [apply quiet_observe|]. intros t.
    apply (quiet_bind 1 0); [by apply quiet_local|]. intros _. apply quiet_ret. }
  apply (quiet_bind 3 1).
  - apply (quiet_bind 1 2); [by apply quiet_local|]. intros entry.
    apply (quiet_bind 0 2); [apply quiet_observe|]. intros t.
    destruct entry; [|done]. case_decide; [apply quiet_ret|done].
  - intros p. apply (quiet_bind 1 0); [apply quiet_try, quiet_read|]. intros d. apply quiet_ret.
Qed.

Lemma message_fn_quiet `{Platform} clock msg reconcile :
  fn_quiet 5 (message_fn sched clock msg reconcile).
Proof using Hrely.
  intros s f. apply (quiet_bind 1 4).
  { destruct reconcile; [apply quiet_read|apply quiet_ret]. }
  intros open. apply (quiet_bind 4 0); [|intros state; apply quiet_ret].
  destruct f; [apply quiet_ret|]. apply (quiet_bind 4 0); [apply quiet_timing|].
  intros [interval tolerance]. apply quiet_ret.
Qed.
Lemma sync_fn_quiet tenant product device : fn_quiet 1 (sync_fn sched tenant product device).
Proof using Hrely.
  intros s f. unfold sync_fn. destruct f; [|apply quiet_ret].
  apply (quiet_bind 1 0); [apply quiet_read|]. intros open. apply quiet_ret.
Qed.
Lemma connection_fn_quiet clock tenant product device connected at_ :
  fn_quiet 4 (connection_fn sched clock tenant product device connected at_).
Proof using Hrely.
  intros s f. apply (quiet_bind 4 0); [|intros state; apply quiet_ret].
  destruct f; [apply quiet_ret|]. apply (quiet_bind 4 0); [apply quiet_timing|].
  intros [interval tolerance]. apply quiet_ret.
Qed.
Lemma offline_fn_quiet now : fn_quiet 0 (offline_fn now).
Proof using. intros s f. unfold offline_fn. cbv zeta. case_decide; apply quiet_ret. Qed.
Lemma timing_fn_quiet interval tolerance : fn_quiet 0 (timing_fn interval tolerance).
Proof using. intros s f. unfold timing_fn. case_decide; apply quiet_ret. Qed.
End quiet.

(** ** Runs without interference *)

Section calm.
Context `{AlarmDetails} (sched : store_schedule engine_world) (Hcalm : calm sched).

(** The event of a change. *)
Definition same_statuses (before after : DeviceState) : Prop :=
  ds_BusinessStatus before = ds_BusinessStatus after
  ∧ ds_ConnectionStatus before = ds_ConnectionStatus after.
#[export] Instance same_statuses_dec before after : Decision (same_statuses before after).
Proof. unfold same_statuses. apply _. Defined.
Definition emit (before after : DeviceState) (w : engine_world) : engine_world :=
  if decide (same_statuses before after) then w else w <| ew_repo ::= SaveDeviceStateEvent after |>.

Lemma repo_call_calm {A} (f : device_repo → res A * device_repo) w n :
  repo_call sched f (w, n) = ((f (ew_repo w)).1, (w <| ew_repo := (f (ew_repo w)).2 |>, S n)).
Proof using Hcalm. unfold repo_call. rewrite calm_call by done. by destruct (f (ew_repo w)). Qed.
Lemma repo_read_calm {A} (f : device_repo → res A) w n :
  repo_read sched f (w, n) = (f (ew_repo w), (w, S n)).
Proof using Hcalm. unfold repo_read. rewrite repo_call_calm. cbn. by destruct w. Qed.
Lemma store_try_eq {A} (m : StoreIO engine_world A) s : store_try m s = (Ok (m s).1, (m s).2).
Proof using. unfold store_try. by destruct (m s). Qed.
Lemma bind_eq {A B} (m : StoreIO engine_world A) (f : A → StoreIO engine_world B) s :
  (m ≫= f) s = match (m s).1 with Ok a => f a (m s).2 | Err e => (Err e, (m s).2) end.
Proof using. unfold mbind, StoreIO_bind. by destruct (m s) as [[a|e] s']. Qed.

Lemma publish_calm before after w n :
  ∃ n', publishStateChange sched before after (w, n) = (Ok tt, (emit before after w, n')).
Proof using Hcalm.
  unfold publishStateChange, emit. case_decide as E; [rewrite decide_True by done; by exists n|].
  rewrite decide_False by done. exists (S n). rewrite bind_eq, store_try_eq, repo_call_calm. cbn. by destruct w.
Qed.

Section change.
Context (tenant device : string) (fn : device_fn) (w : engine_world) (n : nat).
Let k := store_key [tenant; device].
Let before := default zero_DeviceState (stored k w).
Context (Hversion : ∀ s, stored k w = Some s → ds_Version s ≠ 0).

(** One change without interference. *)
Lemma change_state_calm write wf n' :
  fn before (bool_decide (is_Some (stored k w))) (w, S n) = (Ok write, (wf, n')) →
  stored k wf = stored k w →
  ∃ n'', change_state sched tenant device fn (w, n) =
    match write with
    | None => (Ok false, (wf, n''))
    | Some next =>
      let after := next <| ds_TenantID := tenant |> <| ds_DeviceID := device |>
                     <| ds_Version := wrap64 (ds_Version before + 1) |> in
      (Ok true, (emit before after (put_stored k after wf), n''))
    end.
Proof using Hcalm Hversion.
  intros Hrun Hwf. unfold change_state, mutateDeviceState, casAttempts. cbn [device_attempts].
  assert (Hatt : device_attempt sched tenant device fn before (bool_decide (is_Some (stored k w))) (w, S n) =
    match write with
    | None => (Ok (Some (before, before, false)), (wf, n'))
    | Some next =>
      let after := next <| ds_TenantID := tenant |> <| ds_DeviceID := device |>
                     <| ds_Version := wrap64 (ds_Version before + 1) |> in
      (Ok (Some (before, after, true)), (put_stored k after wf, S n'))
    end).
  { unfold device_attempt. rewrite bind_eq, Hrun. cbn [fst snd]. destruct write as [next|]; [|done].
    rewrite bind_eq, repo_call_calm. unfold UpsertDeviceStateIf. change (device_key _) with k.
    fold (stored k wf). rewrite Hwf. change (ds_Version (set ds_Version _ _)) with (ds_Version before).
    rewrite decide_False; [by destruct wf|]. unfold before.
    destruct (stored k w) as [s|] eqn:Es; cbn; [|naive_solver]. specialize (Hversion s eq_refl).
    intros [[E _]|[_ [?|?]]]; done. }
  assert (Hround : device_round sched tenant device fn (GetDeviceState tenant device (ew_repo w)) =
    device_attempt sched tenant device fn before (bool_decide (is_Some (stored k w)))).
  { unfold device_round, GetDeviceState, before. fold k. fold (stored k w).
    destruct (stored k w); [done|]. by rewrite decide_True. }
  rewrite !bind_eq, store_try_eq, repo_read_calm. cbn [fst snd]. rewrite bind_eq, Hround.
  rewrite Hatt. destruct write as [next|]; cbn [fst snd]; [|by exists n'].
  cbv zeta. set (after := next <| ds_TenantID := tenant |> <| ds_DeviceID := device |>
    <| ds_Version := wrap64 (ds_Version before + 1) |>).
  destruct (publish_calm before after (put_stored k after wf) (S n')) as [n'' Hp].
  exists n''.
  transitivity ((publishStateChange sched before after ≫= λ _ : unit, mret true) (put_stored k after wf, S n'));
    [done|]. by rewrite bind_eq, Hp.
Qed.
End change.
End calm.
