(* ===== verification/DeviceScan.v ===== *)
(** The offline scan: it ends, and marks exactly the devices that are due
    (internal/core/device_state.go, ScanOffline). *)
From S2P Require Import Prelude GoText GoJson StoreIO GbCodec AlarmModel AlarmStore AlarmEngine.
From S2P Require Import MessageClaims DeviceModel DeviceEngine DeviceMutate.

(** ** What the scan makes of a state *)

Definition marked (now : Z) (s : DeviceState) : DeviceState :=
  offline_state now s <| ds_Version := wrap64 (ds_Version s + 1) |>.
Definition scan_mark (now : Z) (s : DeviceState) : DeviceState :=
  if decide (offline_due now s) then marked now s else s.

Lemma marked_settled now s : OfflineCheckAt (marked now s) = 0.
Proof.
  unfold OfflineCheckAt. case_decide; [done|]. cbv zeta. rewrite decide_True; [done|]. by destruct s.
Qed.
Lemma marked_not_due now s : ¬ offline_due now (marked now s).
Proof. unfold offline_due. rewrite marked_settled. lia. Qed.
Lemma scan_mark_marked now s : scan_mark now (marked now s) = marked now s.
Proof. unfold scan_mark. rewrite decide_False; [done|apply marked_not_due]. Qed.

(** The events of marking [l]: a change of status each. *)
Definition scan_events (now : Z) (l : list DeviceState) : list DeviceState :=
  marked now <$> filter (λ s, ¬ same_statuses s (marked now s)) l.
#[export] Instance scan_events_perm now : Proper ((≡ₚ) ==> (≡ₚ)) (scan_events now).
Proof. intros l l' Hl. unfold scan_events. by rewrite Hl. Qed.
Definition mark_states (now : Z) (l : list DeviceState) (m : gmap string DeviceState) : gmap string DeviceState :=
  foldl (λ m s, <[device_key s := marked now s]> m) m l.

Definition state_values (m : gmap string DeviceState) : list DeviceState := (map_to_list m).*2.
Definition due_states (now : Z) (m : gmap string DeviceState) : list DeviceState :=
  filter (offline_due now) (state_values m).

Lemma state_values_insert m k s :
  m !! k = Some s → ∃ rest, state_values m ≡ₚ s :: rest ∧ ∀ s', state_values (<[k:=s']> m) ≡ₚ s' :: rest.
Proof.
  intros Hs. exists (state_values (delete k m)). unfold state_values. split.
  - by rewrite <-(map_to_list_delete m k s Hs).
  - intros s'. rewrite <-insert_delete_eq, map_to_list_insert by apply lookup_delete_eq. done.
Qed.
Lemma state_values_elem m s : s ∈ state_values m ↔ ∃ k, m !! k = Some s.
Proof.
  unfold state_values. rewrite list_elem_of_fmap. split.
  - intros ([k s'] & -> & Hs%elem_of_map_to_list). by exists k.
  - intros [k Hk]. exists (k, s). by rewrite elem_of_map_to_list.
Qed.

(** The listing visits every state once. *)
Lemma range_values `{MapOrderLaws} (m : gmap string DeviceState) :
  omap (λ k, m !! k) (map_range m) ≡ₚ state_values m.
Proof.
  rewrite map_range_keys. unfold state_values.
  assert (∀ l : list (string * DeviceState), (∀ kv, kv ∈ l → m !! kv.1 = Some kv.2) →
    omap (λ k, m !! k) l.*1 = l.*2) as Hl.
  { induction l as [|[k s] l IH]; intros Hl; [done|].
    pose proof (Hl (k, s) (list_elem_of_here _ _)) as Hk. cbn in Hk |- *. rewrite Hk. cbn. f_equal. apply IH. intros kv Hkv. apply Hl. by right. }
  rewrite Hl; [done|]. intros [k s] Hk%elem_of_map_to_list. done.
Qed.

(** Due states are stored under their key, and not under version 0. *)
Definition due_ok (now : Z) (m : gmap string DeviceState) : Prop :=
  ∀ k s, m !! k = Some s → offline_due now s →
    k = device_key s ∧ ds_Version s ≠ 0.

Section marking.
Context (now : Z).

Lemma due_ok_mark m s : due_ok now m → due_ok now (<[device_key s := marked now s]> m).
Proof.
  intros Hm k s' Hs' Hdue. apply lookup_insert_Some in Hs' as [[_ <-]|[_ Hs']]; [|by apply Hm].
  by apply marked_not_due in Hdue.
Qed.

(** Marking a sublist of the due states. *)
Lemma mark_states_values l m :
  due_ok now m → NoDup (device_key <$> l) →
  Forall (λ s, m !! device_key s = Some s ∧ offline_due now s) l →
  due_ok now (mark_states now l m) ∧
  scan_mark now <$> mark_states now l m = scan_mark now <$> m ∧
  due_states now m ≡ₚ l ++ due_states now (mark_states now l m).
Proof.
  revert m. induction l as [|s l IH]; intros m Hm Hnd Hl; [done|].
  rewrite fmap_cons in Hnd. apply NoDup_cons in Hnd as [Hnk Hnd]. apply Forall_cons in Hl as [[Hs Hdue] Hl].
  specialize (IH (<[device_key s := marked now s]> m) (due_ok_mark m s Hm) Hnd) as (Hok & Hmap & Hdues).
  { apply Forall_forall. intros s' Hs'. rewrite Forall_forall in Hl. destruct (Hl s' Hs') as [Hk Hd].
    split; [|done]. rewrite lookup_insert_ne; [done|]. intros E. apply Hnk. rewrite E.
    by apply list_elem_of_fmap_2. }
  cbn [mark_states foldl]. fold (mark_states now l (<[device_key s := marked now s]> m)).
  split; [done|]. split.
  - rewrite Hmap, fmap_insert, scan_mark_marked. apply insert_id. rewrite lookup_fmap, Hs. cbn.
    unfold scan_mark. by rewrite decide_True.
  - destruct (state_values_insert m _ s Hs) as (rest & Hv & Hv').
    unfold due_states at 1. rewrite Hv, filter_cons_True by done. cbn. constructor.
    rewrite <-Hdues. unfold due_states. rewrite (Hv' (marked now s)).
    by rewrite filter_cons_False by apply marked_not_due.
Qed.

Lemma no_due_mark m : due_states now m = [] → scan_mark now <$> m = m.
Proof.
  intros Hd. apply map_eq. intros k. rewrite lookup_fmap. destruct (m !! k) as [s|] eqn:E; [|done].
  cbn. unfold scan_mark. rewrite decide_False; [done|]. intros Hdue.
  assert (s ∈ due_states now m) as Hin.
  { apply list_elem_of_filter. split; [done|]. apply state_values_elem. by exists k. }
  rewrite Hd in Hin. by apply not_elem_of_nil in Hin.
Qed.

Lemma due_keys m : due_ok now m → NoDup (device_key <$> due_states now m).
Proof.
  intros Hm. unfold due_states, state_values.
  assert (∀ l : list (string * DeviceState), NoDup l.*1 → (∀ kv, kv ∈ l → m !! kv.1 = Some kv.2) →
    NoDup (device_key <$> filter (offline_due now) l.*2)) as Hl.
  { induction l as [|[k s] l IH]; intros Hnd Hl; [constructor|]. csimpl in *.
    apply NoDup_cons in Hnd as [Hk Hnd]. rewrite filter_cons.
    assert (NoDup (device_key <$> filter (offline_due now) l.*2)) as Hrest
      by (apply IH; [done|]; intros kv Hkv; apply Hl; by right).
    case_decide as Hdue; [|done]. rewrite fmap_cons. constructor; [|done].
    destruct (Hm k s (Hl (k, s) (list_elem_of_here _ _)) Hdue) as [Hks _]. rewrite <-Hks.
    intros (s' & Hks' & Hs')%list_elem_of_fmap. apply list_elem_of_filter in Hs' as [Hdue' Hs'].
    apply list_elem_of_fmap in Hs' as ([k' s''] & -> & Hin). change (k', s'').2 with s'' in Hks', Hdue'.
    destruct (Hm k' s'' (Hl (k', s'') (list_elem_of_further _ _ _ Hin)) Hdue') as [Hk' _].
    apply Hk. rewrite Hks', <-Hk'. by apply (list_elem_of_fmap_2 fst _ (k', s'')). }
  apply Hl; [apply NoDup_fst_map_to_list|]. intros [k s] Hk%elem_of_map_to_list. done.
Qed.

Lemma due_stored m :
  due_ok now m → Forall (λ s, m !! device_key s = Some s ∧ offline_due now s) (due_states now m).
Proof.
  intros Hm. apply Forall_forall. intros s [Hdue Hs]%list_elem_of_filter.
  apply state_values_elem in Hs as [k Hk]. destruct (Hm k s Hk Hdue) as [-> _]. done.
Qed.
End marking.

(** ** The run *)

Section scan.
Context `{AlarmDetails, MapOrderLaws} (sched : store_schedule engine_world) (ctx : nat → option error).
Context (Hcalm : calm sched) (Hctx : ∀ n, ctx n = None) (now : Z).

(** The world after marking [l]. *)
Definition with_states (m : gmap string DeviceState) (events : list DeviceState) (w : engine_world)
    : engine_world :=
  w <| ew_repo ::= (λ r, r <| dr_states := m |> <| dr_stateEvents := events |>) |>.
Definition scanned (l : list DeviceState) (w : engine_world) : engine_world :=
  with_states (mark_states now l (dr_states (ew_repo w)))
    (dr_stateEvents (ew_repo w) ++ scan_events now l) w.

Lemma scanned_cons s l w :
  scanned l (emit s (marked now s) (put_stored (device_key s) (marked now s) w)) = scanned (s :: l) w.
Proof using.
  set (w1 := put_stored (device_key s) (marked now s) w).
  assert (dr_stateEvents (ew_repo (emit s (marked now s) w1)) ++ scan_events now l
          = dr_stateEvents (ew_repo w) ++ scan_events now (s :: l)) as Hev.
  { unfold emit, scan_events. rewrite filter_cons. case_decide as E.
    - rewrite decide_False by tauto. done.
    - rewrite decide_True by done. rewrite fmap_cons, cons_middle, app_assoc. done. }
  unfold scanned. rewrite Hev. unfold emit. by case_decide.
Qed.

Lemma offline_fn_due s st : offline_due now s → offline_fn now s true st = (Ok (Some (offline_state now s)), st).
Proof using.
  intros Hdue. unfold offline_fn. cbv zeta. rewrite decide_False; [done|]. unfold offline_due in Hdue.
  intros [?|[?|?]]; [done|lia..].
Qed.

Lemma mark_one_calm s w n :
  offline_due now s → stored (device_key s) w = Some s → ds_Version s ≠ 0 →
  ∃ n', change_state sched (ds_TenantID s) (ds_DeviceID s) (offline_fn now) (w, n) =
    (Ok true, (emit s (marked now s) (put_stored (device_key s) (marked now s) w), n')).
Proof using Hcalm.
  intros Hdue Hs Hv.
  pose proof (change_state_calm sched Hcalm (ds_TenantID s) (ds_DeviceID s) (offline_fn now) w n) as Hc.
  change (store_key [ds_TenantID s; ds_DeviceID s]) with (device_key s) in Hc. rewrite Hs in Hc.
  cbn [default id] in Hc. specialize (Hc ltac:(by intros s' [= <-])) with (write := Some (offline_state now s)).
  destruct (Hc w (S n)) as [n' Hn'].
  - by apply offline_fn_due.
  - done.
  - exists n'. rewrite Hn'. by destruct s.
Qed.

Lemma scan_states_calm l w n :
  NoDup (device_key <$> l) →
  Forall (λ s, stored (device_key s) w = Some s ∧ offline_due now s ∧ ds_Version s ≠ 0) l →
  ∃ n', scan_states sched ctx now l (w, n) = (Ok tt, (scanned l w, n')).
Proof using Hcalm Hctx.
  revert w n. induction l as [|s l IH]; intros w n Hnd Hl.
  { exists n. cbn. unfold scanned. do 2 f_equal. destruct w as [[]]. cbn. by rewrite app_nil_r. }
  rewrite fmap_cons in Hnd. apply NoDup_cons in Hnd as [Hk Hnd].
  apply Forall_cons in Hl as [(Hs & Hdue & Hv) Hl].
  destruct (mark_one_calm s w n Hdue Hs Hv) as [n1 E1].
  destruct (IH (emit s (marked now s) (put_stored (device_key s) (marked now s) w)) n1 Hnd) as [n' E2].
  { apply Forall_forall. intros s' Hs'. rewrite Forall_forall in Hl. destruct (Hl s' Hs') as (Hst & ? & ?).
    split; [|done]. assert (device_key s ≠ device_key s') as Hne.
    { intros E. apply Hk. rewrite E. by apply list_elem_of_fmap_2. }
    unfold emit, stored in *. case_decide; cbn -[device_key]; by rewrite lookup_insert_ne. }
  exists n'. cbn [scan_states]. rewrite bind_eq. cbn [observe fst snd]. rewrite Hctx, bind_eq, store_try_eq, E1.
  cbn [fst snd]. by rewrite E2, scanned_cons.
Qed.
(** What the listing returns is due, stored and without repetition. *)
Lemma ListOfflineDue_spec limit w :
  due_ok now (dr_states (ew_repo w)) →
  let l := ListOfflineDue now limit (ew_repo w) in
  NoDup (device_key <$> l) ∧
  Forall (λ s, stored (device_key s) w = Some s ∧ offline_due now s) l ∧
  length l = (limit `min` length (due_states now (dr_states (ew_repo w))))%nat.
Proof using H0 H1.
  intros Hok. cbv zeta. unfold ListOfflineDue.
  set (due := filter (offline_due now) (omap _ _)).
  assert (due ≡ₚ due_states now (dr_states (ew_repo w))) as Hdue.
  { unfold due, due_states. by rewrite range_values. }
  split_and!.
  - rewrite fmap_take. eapply sublist_NoDup; [|apply sublist_take]. rewrite Hdue. by apply due_keys.
  - apply Forall_take. rewrite Hdue. by apply due_stored.
  - by rewrite length_take, Hdue.
Qed.

Lemma with_states_twice m1 e1 m2 e2 w : with_states m2 e2 (with_states m1 e1 w) = with_states m2 e2 w.
Proof using. by destruct w as [[]]. Qed.

Lemma scan_rounds_calm fuel w n :
  due_ok now (dr_states (ew_repo w)) →
  (length (due_states now (dr_states (ew_repo w))) < fuel * offlineScanBatch)%nat →
  ∃ events n', scan_rounds sched ctx fuel now (w, n) =
    (Ok (Some tt), (with_states (scan_mark now <$> dr_states (ew_repo w))
                      (dr_stateEvents (ew_repo w) ++ events) w, n')) ∧
    events ≡ₚ scan_events now (due_states now (dr_states (ew_repo w))).
Proof using Hcalm Hctx H0 H1.
  revert w n. induction fuel as [|fuel IH]; intros w n Hok Hfuel; [lia|].
  destruct (ListOfflineDue_spec offlineScanBatch w Hok) as (Hnd & Hl & Hlen).
  cbn [scan_rounds]. rewrite bind_eq. cbn [observe fst snd]. rewrite Hctx, bind_eq, repo_read_calm by done.
  cbn [fst snd]. set (l := ListOfflineDue now offlineScanBatch (ew_repo w)) in *.
  destruct (scan_states_calm l w (S n) Hnd) as [n1 E1].
  { eapply Forall_impl; [exact Hl|]. intros s [Hs Hdue]. split_and!; [done..|].
    by destruct (Hok _ _ Hs Hdue). }
  rewrite bind_eq, E1. cbn [fst snd].
  destruct (mark_states_values now l (dr_states (ew_repo w)) Hok Hnd Hl) as (Hok' & Hmap & Hdues).
  case_decide as Hshort.
  - exists (scan_events now l), n1. split; [unfold scanned|].
    + do 2 f_equal. f_equal. rewrite <-Hmap. symmetry. apply no_due_mark.
      apply Permutation_length in Hdues. rewrite length_app in Hdues.
      apply length_zero_iff_nil. lia.
    + rewrite Hdues. rewrite (nil_length_inv (due_states now (mark_states now l _))); [by rewrite app_nil_r|].
      apply Permutation_length in Hdues. rewrite length_app in Hdues. lia.
  - destruct (IH (scanned l w) n1) as (events & n' & E2 & Hev); [done| |].
    + change (dr_states (ew_repo (scanned l w))) with (mark_states now l (dr_states (ew_repo w))).
      apply Permutation_length in Hdues. rewrite length_app in Hdues. lia.
    + change (dr_states (ew_repo (scanned l w))) with (mark_states now l (dr_states (ew_repo w))) in E2, Hev.
      change (dr_stateEvents (ew_repo (scanned l w)))
        with (dr_stateEvents (ew_repo w) ++ scan_events now l) in E2.
      exists (scan_events now l ++ events), n'. split.
      * rewrite E2, Hmap. unfold scanned. by rewrite with_states_twice, <-(assoc_L (++)).
      * rewrite Hev, Hdues. unfold scan_events. by rewrite filter_app, fmap_app.
Qed.
End scan.

Lemma scan_mark_not_due now s : ¬ offline_due now (scan_mark now s).
Proof. unfold scan_mark. case_decide as Hdue; [apply marked_not_due|done]. Qed.
Lemma due_after_scan now m : due_states now (scan_mark now <$> m) = [].
Proof.
  destruct (due_states now (scan_mark now <$> m)) as [|s l] eqn:E; [done|].
  assert (s ∈ due_states now (scan_mark now <$> m)) as Hs by (rewrite E; by left).
  apply list_elem_of_filter in Hs as [Hdue Hs]. apply state_values_elem in Hs as [k Hk].
  rewrite lookup_fmap in Hk. destruct (m !! k) as [s'|]; [|done]. injection Hk as <-.
  by apply scan_mark_not_due in Hdue.
Qed.

(** C9: the offline scan ends and does what it says.  When no other request
    interferes, no call fails, the context is not cancelled and the due states
    are stored under their keys with a version, the scan returns after one
    batch more than the full batches of due devices; it has marked exactly the
    devices whose check time has passed, each once and under its next version,
    recorded one event for each of them whose status changed, changed nothing
    else, and left no device due.  With writes that keep failing it need not end
    ([ScanOffline_spins] below). *)
Theorem ScanOffline_terminates `{AlarmDetails, MapOrderLaws} sched ctx fuel now w n :
  calm sched → (∀ n, ctx n = None) → due_ok now (dr_states (ew_repo w)) →
  let due := due_states now (dr_states (ew_repo w)) in
  (length due < fuel * offlineScanBatch)%nat →
  ∃ events w' n', ScanOffline sched ctx fuel now (w, n) = (Ok (Some tt), (w', n')) ∧
    w' = with_states (scan_mark now <$> dr_states (ew_repo w)) (dr_stateEvents (ew_repo w) ++ events) w ∧
    events ≡ₚ scan_events now due ∧ due_states now (dr_states (ew_repo w')) = [].
Proof.
  intros Hcalm Hctx Hok due Hfuel.
  destruct (scan_rounds_calm sched ctx Hcalm Hctx now fuel w n Hok Hfuel) as (events & n' & E & Hev).
  exists events, (with_states (scan_mark now <$> dr_states (ew_repo w)) (dr_stateEvents (ew_repo w) ++ events) w), n'.
  split_and!; [exact E|done|exact Hev|apply due_after_scan].
Qed.

(** ** Writes that keep failing *)

Section spinning.
Context `{AlarmDetails, MapOrderLaws} (ctx : nat → option error) (Hctx : ∀ n, ctx n = None).
Context (now : Z) (e : error).

(** A batch lists, then reads and writes every device. *)
Definition batch_calls : nat := S (2 * offlineScanBatch).
(** Every write fails, and nothing else does. *)
Definition failing_writes : store_schedule engine_world :=
  mk_store_schedule (λ _ w, w)
    (λ n, let i := (n mod batch_calls)%nat in
          if decide (i ≠ 0%nat ∧ Nat.even i = true) then Some e else None).

Lemma failing_at r i : (i < batch_calls)%nat →
  sc_fail failing_writes (r * batch_calls + i) = if decide (i ≠ 0%nat ∧ Nat.even i = true) then Some e else None.
Proof using.
  intros Hi. unfold failing_writes. cbn [sc_fail].
  replace ((r * batch_calls + i) mod batch_calls)%nat with i; [done|].
  rewrite Nat.add_comm, Nat.Div0.mod_add. symmetry. by apply Nat.mod_small.
Qed.
Lemma failing_read {A} (f : device_repo → res A) w r i :
  (i < offlineScanBatch)%nat →
  repo_read failing_writes f (w, r * batch_calls + (1 + 2 * i))%nat =
  (f (ew_repo w), (w, S (r * batch_calls + (1 + 2 * i)))).
Proof using.
  intros Hi. unfold repo_read, repo_call. rewrite store_call_eq, failing_at by (unfold batch_calls; lia).
  rewrite decide_False; [by destruct w as [[]]|]. intros [_ E].
  by rewrite Nat.add_comm, Nat.add_1_r, Nat.even_succ, Nat.odd_mul, Nat.odd_2 in E.
Qed.
Lemma failing_write {A} (f : device_repo → res A * device_repo) w r i :
  (i < offlineScanBatch)%nat →
  repo_call failing_writes f (w, S (r * batch_calls + (1 + 2 * i))) =
  (Err e, (w, r * batch_calls + (1 + 2 * S i))%nat).
Proof using.
  intros Hi. unfold repo_call. rewrite store_call_eq.
  replace (S (r * batch_calls + (1 + 2 * i))) with (r * batch_calls + 2 * S i)%nat by lia.
  rewrite failing_at by (unfold batch_calls; lia). rewrite decide_True.
  - cbn [sc_env failing_writes]. do 2 f_equal. lia.
  - split; [lia|]. by rewrite Nat.even_mul.
Qed.

Lemma unmarked s w r i :
  (i < offlineScanBatch)%nat → stored (device_key s) w = Some s → offline_due now s →
  store_try (change_state failing_writes (ds_TenantID s) (ds_DeviceID s) (offline_fn now))
    (w, (r * batch_calls + (1 + 2 * i))%nat) = (Ok (Err e), (w, (r * batch_calls + (1 + 2 * S i))%nat)).
Proof using.
  intros Hi Hs Hdue. rewrite store_try_eq. unfold change_state, mutateDeviceState, casAttempts.
  cbn [device_attempts]. rewrite !bind_eq, store_try_eq, failing_read by done. cbn [fst snd].
  unfold GetDeviceState. change (store_key [ds_TenantID s; ds_DeviceID s]) with (device_key s).
  fold (stored (device_key s) w). rewrite Hs. cbn [device_round]. unfold device_attempt.
  rewrite (bind_eq (offline_fn now s true ≫= _)), (bind_eq (offline_fn now s true)), offline_fn_due by done.
  cbn [fst snd]. rewrite bind_eq, failing_write by done. done.
Qed.

Lemma spin_states l w r i :
  (i + length l = offlineScanBatch)%nat →
  Forall (λ s, stored (device_key s) w = Some s ∧ offline_due now s) l →
  scan_states failing_writes ctx now l (w, (r * batch_calls + (1 + 2 * i))%nat) =
  (Ok tt, (w, (S r * batch_calls)%nat)).
Proof using Hctx.
  revert i. induction l as [|s l IH]; intros i Hi Hl; cbn [scan_states].
  { cbn in Hi. unfold mret, StoreIO_ret. do 2 f_equal. unfold batch_calls in *. lia. }
  cbn [length] in Hi. apply Forall_cons in Hl as [[Hs Hdue] Hl].
  rewrite bind_eq. cbn [observe fst snd]. rewrite Hctx, bind_eq, unmarked by (done || lia).
  cbn [fst snd]. apply IH; [lia|done].
Qed.

Lemma spin_rounds fuel w r :
  due_ok now (dr_states (ew_repo w)) →
  (offlineScanBatch ≤ length (due_states now (dr_states (ew_repo w))))%nat →
  scan_rounds failing_writes ctx fuel now (w, (r * batch_calls)%nat) =
  (Ok None, (w, ((r + fuel) * batch_calls)%nat)).
Proof using Hctx H1.
  intros Hok Hmany. destruct (ListOfflineDue_spec now offlineScanBatch w Hok) as (_ & Hl & Hlen).
  revert r. induction fuel as [|fuel IH]; intros r; cbn [scan_rounds].
  { by rewrite Nat.add_0_r. }
  rewrite bind_eq. cbn [observe fst snd]. rewrite Hctx, bind_eq.
  assert (repo_read failing_writes (λ d, Ok (ListOfflineDue now offlineScanBatch d)) (w, (r * batch_calls)%nat)
    = (Ok (ListOfflineDue now offlineScanBatch (ew_repo w)), (w, (r * batch_calls + (1 + 2 * 0))%nat))) as ->.
  { unfold repo_read, repo_call. rewrite store_call_eq. rewrite <-(Nat.add_0_r (r * batch_calls)) at 1.
    rewrite failing_at by (unfold batch_calls; lia). rewrite decide_False by (by intros []).
    cbn [sc_env failing_writes fst snd]. do 2 f_equal; [by destruct w as [[]]|lia]. }
  cbn [fst snd]. rewrite bind_eq, spin_states; [|lia|done]. cbn [fst snd].
  rewrite decide_False by lia. rewrite IH. by rewrite Nat.add_succ_r.
Qed.

(** While every write fails and a thousand devices are due, the scan repeats
    the same batch without end and without a pause. *)
Theorem ScanOffline_spins fuel w :
  due_ok now (dr_states (ew_repo w)) →
  (offlineScanBatch ≤ length (due_states now (dr_states (ew_repo w))))%nat →
  ScanOffline failing_writes ctx fuel now (w, 0%nat) = (Ok None, (w, (fuel * batch_calls)%nat)).
Proof using Hctx H1. intros Hok Hmany. by apply (spin_rounds fuel w 0). Qed.
End spinning.
