(* ===== verification/DeviceTiming.v ===== *)
(** New reporting timing for the devices of a template
    (internal/core/device_timing.go, ApplyDeviceTiming). *)
From S2P Require Import Prelude GoText GoJson StoreIO GbCodec AlarmModel AlarmStore AlarmEngine.
From S2P Require Import MessageClaims DeviceModel DeviceEngine DeviceMutate.

(** The timing of [d] put into its state. *)
Definition timing_of (s : DeviceState) : Z * Z := (ds_ReportIntervalSec s, ds_OfflineToleranceSec s).
Definition retimed (tenant : string) (product : option Product) (d : ManagedDevice) (s : DeviceState)
    : DeviceState :=
  let '(interval, tolerance) := EffectiveDeviceTiming product (Some d) in
  if decide (timing_of s = (interval, tolerance)) then s
  else s <| ds_ReportIntervalSec := interval |> <| ds_OfflineToleranceSec := tolerance |>
         <| ds_TenantID := tenant |> <| ds_DeviceID := d_ID d |>
         <| ds_Version := wrap64 (ds_Version s + 1) |>.
Lemma retimed_timing tenant product d s :
  timing_of (retimed tenant product d s) = EffectiveDeviceTiming product (Some d).
Proof.
  unfold retimed. destruct (EffectiveDeviceTiming product (Some d)). by case_decide.
Qed.

(** [d] has a state with another timing. *)
Definition needs_timing (tenant : string) (product : option Product) `{AlarmDetails} (w : engine_world)
    (d : ManagedDevice) : Prop :=
  ∃ s, stored (store_key [tenant; d_ID d]) w = Some s ∧ timing_of s ≠ EffectiveDeviceTiming product (Some d).

Section timing.
Context `{AlarmDetails} (sched : store_schedule engine_world) (Hcalm : calm sched).
Context (tenant : string) (product : option Product).
Definition device_id_key (d : ManagedDevice) : string := store_key [tenant; d_ID d].

Lemma timing_change_calm d w n :
  (∀ s, stored (device_id_key d) w = Some s → ds_Version s ≠ 0) →
  let '(interval, tolerance) := EffectiveDeviceTiming product (Some d) in
  ∃ w' n' written,
    change_state sched tenant (d_ID d) (timing_fn interval tolerance) (w, n) = (Ok written, (w', n')) ∧
    stored (device_id_key d) w' = retimed tenant product d <$> stored (device_id_key d) w ∧
    (∀ k, k ≠ device_id_key d → stored k w' = stored k w) ∧
    (written = true ↔ needs_timing tenant product w d).
Proof using Hcalm.
  intros Hv. unfold needs_timing, retimed. fold (device_id_key d).
  destruct (EffectiveDeviceTiming product (Some d)) as [interval tolerance].
  pose proof (change_state_calm sched Hcalm tenant (d_ID d) (timing_fn interval tolerance) w n Hv) as Hc.
  fold (device_id_key d) in Hc. unfold timing_fn in Hc.
  destruct (stored (device_id_key d) w) as [s|] eqn:Es; cbn [fmap option_fmap option_map default id] in *.
  2: { destruct (Hc None w (S n)) as [n' E]; [by rewrite decide_True by (by left)|done|].
       exists w, n', false. split_and!; [exact E|done|done|]. split; [done|]. by intros (s & ? & _). }
  destruct (decide (timing_of s = (interval, tolerance))) as [Et|Et].
  - unfold timing_of in Et. destruct (Hc None w (S n)) as [n' E];
      [rewrite decide_True; [done|]; right; by injection Et as -> ->|done|].
    exists w, n', false. split_and!; [exact E|done|done|]. split; [done|].
    intros (s' & [= <-] & Hne). done.
  - set (next := s <| ds_ReportIntervalSec := interval |> <| ds_OfflineToleranceSec := tolerance |>).
    destruct (Hc (Some next) w (S n)) as [n' E].
    + cbn. rewrite decide_False; [done|]. intros [?|[E1 E2]]; [done|]. apply Et. unfold timing_of. by rewrite E1, E2.
    + done.
    + cbv zeta in E. unfold emit in E. rewrite decide_True in E by done.
      eexists _, n', true. split; [exact E|]. unfold stored. cbn -[device_id_key]. split_and!.
      * by rewrite lookup_insert_eq.
      * intros k Hk. by rewrite lookup_insert_ne.
      * split; [|done]. intros _. by exists s.
Qed.

Lemma apply_timing_calm l w n :
  NoDup (device_id_key <$> l) →
  (∀ d s, d ∈ l → stored (device_id_key d) w = Some s → ds_Version s ≠ 0) →
  ∃ changed w' n', apply_timing sched tenant product l (w, n) = (Ok changed, (w', n')) ∧
    (∀ d, d ∈ l → stored (device_id_key d) w' = retimed tenant product d <$> stored (device_id_key d) w) ∧
    (∀ k, k ∉ device_id_key <$> l → stored k w' = stored k w) ∧
    (changed ≤ length l)%nat.
Proof using Hcalm.
  revert w n. induction l as [|d l IH]; intros w n Hnd Hv.
  { exists 0%nat, w, n. split_and!; [done|by intros d ?%not_elem_of_nil|done|cbn; lia]. }
  rewrite fmap_cons in Hnd. apply NoDup_cons in Hnd as [Hd Hnd].
  pose proof (timing_change_calm d w n (λ s, Hv d s (list_elem_of_here _ _))) as Hchange.
  cbn [apply_timing]. destruct (EffectiveDeviceTiming product (Some d)) as [interval tolerance].
  destruct Hchange as (w1 & n1 & written & E1 & Hd1 & Ho1 & _).
  assert (∀ d', d' ∈ l → device_id_key d' ≠ device_id_key d) as Hne.
  { intros d' Hd' E. apply Hd. rewrite <-E. by apply list_elem_of_fmap_2. }
  destruct (IH w1 n1 Hnd) as (changed & w' & n' & E2 & Hd2 & Ho2 & Hc).
  { intros d' s Hd' Hs. rewrite Ho1 in Hs by auto. apply (Hv d' s); [by right|done]. }
  exists (if written then S changed else changed), w', n'.
  rewrite bind_eq, E1. cbn [fst snd]. rewrite bind_eq, E2. split_and!.
  - by destruct written.
  - intros d' Hd'. apply elem_of_cons in Hd' as [->|Hd'].
    + rewrite Ho2; [done|]. intros Hin. by apply Hd.
    + rewrite Hd2, Ho1 by auto. done.
  - intros k Hk. rewrite fmap_cons, not_elem_of_cons in Hk. destruct Hk as [Hk Hk'].
    rewrite Ho2, Ho1 by done. done.
  - cbn [length]. destruct written; lia.
Qed.
End timing.

(** ** One page *)

(** The stores cap every page at a hundred. *)
Lemma ListManagedDevicesFiltered_first `{AlarmDetails, Platform} f limit r :
  100 <= limit → (ListManagedDevicesFiltered f limit 0 r).1 = take 100 (filtered_devices f r).
Proof.
  intros Hl. unfold ListManagedDevicesFiltered, normalizePage. cbn [fst].
  rewrite decide_False by lia. rewrite Z.min_r by lia. by apply page_first.
Qed.

(** The registry keeps every device under its key. *)
Definition registry_keyed `{AlarmDetails} (r : device_repo) : Prop :=
  ∀ k d, dr_devices r !! k = Some d → k = store_key [d_TenantID d; d_ID d].

Lemma filtered_keys `{AlarmDetails, Platform} tenant productID r :
  tenant ≠ "" → registry_keyed r →
  NoDup (device_id_key tenant <$> filtered_devices (product_filter tenant productID) r).
Proof.
  intros Ht Hr. unfold filtered_devices. rewrite merge_sort_Permutation.
  assert (∀ l : list (string * ManagedDevice), NoDup l.*1 →
    (∀ kd, kd ∈ l → kd.1 = store_key [d_TenantID kd.2; d_ID kd.2]) →
    NoDup (device_id_key tenant <$> filter (λ v, Matches (product_filter tenant productID) v
      (dr_states r !! store_key [d_TenantID v; d_ID v]) = true) l.*2)) as Hl.
  { induction l as [|[k d] l IH]; intros Hnd Hkey; [constructor|]. csimpl in *.
    apply NoDup_cons in Hnd as [Hk Hnd]. rewrite filter_cons.
    assert (∀ kd : string * ManagedDevice, kd ∈ l → kd.1 = store_key [d_TenantID kd.2; d_ID kd.2]) as Hkey'
      by (intros kd Hkd; apply Hkey; by right).
    case_decide as Hm; [|by apply IH]. rewrite fmap_cons. constructor; [|by apply IH].
    assert (∀ v o, Matches (product_filter tenant productID) v o = true → d_TenantID v = tenant) as Htenant.
    { intros v o. unfold Matches. cbn [f_TenantID product_filter].
      destruct (decide (tenant = "" ∨ d_TenantID v = tenant)) as [[?|?]|Hn]; [done..|].
      rewrite bool_decide_eq_false_2 by done. cbn. done. }
    intros (d' & Hd' & Hin)%list_elem_of_fmap. apply list_elem_of_filter in Hin as [Hm' Hin].
    apply list_elem_of_fmap in Hin as ([k' d''] & -> & Hin). apply Hk.
    pose proof (Hkey (k, d) (list_elem_of_here _ _)) as E. pose proof (Hkey' _ Hin) as E'.
    cbn [fst snd] in E, E', Hd', Hm'.
    apply Htenant in Hm, Hm'. unfold device_id_key in Hd'.
    rewrite Hm, Hd', <-Hm', <-E' in E. rewrite E. by apply (list_elem_of_fmap_2 fst _ (k', d'')). }
  apply Hl; [apply NoDup_fst_map_to_list|]. intros [k d] Hk%elem_of_map_to_list. by apply Hr.
Qed.

(** C25: new timing reaches only the first hundred devices of a template.
    Without interference [ApplyDeviceTiming] for a whole template returns after
    one page: the states of its first hundred devices, newest first, get the
    timing that is effective for them, and no other state changes, those of the
    further devices of the template included. *)
Theorem ApplyDeviceTiming_first_page `{AlarmDetails, Platform} sched fuel tenant productID w n :
  calm sched → tenant ≠ "" → registry_keyed (ew_repo w) →
  (∀ k s, stored k w = Some s → ds_Version s ≠ 0) →
  let devices := filtered_devices (product_filter tenant productID) (ew_repo w) in
  let product := res_option (GetProduct tenant productID (ew_repo w)) in
  ∃ changed w' n', ApplyDeviceTiming sched (S fuel) tenant productID "" (w, n) = (Ok (Some changed), (w', n')) ∧
    (∀ d, d ∈ take 100 devices → ∀ s, stored (device_id_key tenant d) w = Some s →
       ∃ s', stored (device_id_key tenant d) w' = Some s' ∧
         timing_of s' = EffectiveDeviceTiming product (Some d)) ∧
    (∀ k, k ∉ device_id_key tenant <$> take 100 devices → stored k w' = stored k w) ∧
    (∀ d, d ∈ drop 100 devices → stored (device_id_key tenant d) w' = stored (device_id_key tenant d) w) ∧
    (changed ≤ 100)%nat.
Proof.
  intros Hcalm Ht Hr Hv devices product.
  pose proof (filtered_keys tenant productID (ew_repo w) Ht Hr) as Hnd. fold devices in Hnd.
  set (w0 := w <| ew_products ::= delete tenant |>).
  assert (NoDup (device_id_key tenant <$> take 100 devices)) as Hnd'.
  { rewrite fmap_take. eapply sublist_NoDup; [exact Hnd|apply sublist_take]. }
  destruct (apply_timing_calm sched Hcalm tenant product (take 100 devices) w0 (S (S (S n))) Hnd')
    as (changed & w' & n' & E & Hin & Hout & Hc).
  { intros d s _ Hs. by apply (Hv (device_id_key tenant d)). }
  exists changed, w', n'. split_and!.
  - destruct Hcalm as [Henv Hfail]. unfold ApplyDeviceTiming. rewrite bind_eq. unfold ProtocolsChanged.
    rewrite local_step_eq, Henv. cbn [fst snd]. fold w0. rewrite bind_eq, store_try_eq, repo_read_calm by done.
    cbn [fst snd]. change (ew_repo w0) with (ew_repo w). rewrite decide_False by (by intros []).
    cbn [timing_pages]. rewrite bind_eq, repo_read_calm by done. cbn [fst snd].
    change (ew_repo w0) with (ew_repo w).
    rewrite ListManagedDevicesFiltered_first by done. fold devices product. rewrite bind_eq, E. cbn [fst snd].
    rewrite decide_True; [done|]. rewrite length_take. unfold deviceTimingPage. lia.
  - intros d Hd s Hs. rewrite (Hin d Hd). change (stored _ w0) with (stored (device_id_key tenant d) w).
    rewrite Hs. eexists. split; [done|]. apply retimed_timing.
  - intros k Hk. by rewrite (Hout k Hk).
  - intros d Hd. rewrite Hout; [done|]. rewrite <-(take_drop 100 devices), fmap_app in Hnd.
    apply NoDup_app in Hnd as (_ & Hsep & _). intros Hk. apply (Hsep _ Hk). by apply list_elem_of_fmap_2.
  - etrans; [exact Hc|]. rewrite length_take. lia.
Qed.
