(* ===== verification/DeviceMessages.v ===== *)
(** The state that processed messages leave behind
    (internal/core/engine.go, completeStandard; internal/core/device_state.go,
    nextMessageState). *)
From S2P Require Import Prelude GoText GoJson StoreIO GbCodec AlarmModel AlarmStore AlarmEngine.
From S2P Require Import MessageClaims DeviceModel DeviceEngine DeviceMutate.

(** ** One message *)

(** When and by which message a device was last seen. *)
Definition seen (s : DeviceState) : Z * string := (ds_LastSeenAt s, ds_LastMessageID s).
Definition later (v : Z * string) (msg : StandardMessage) : Z * string :=
  if decide (Timestamp msg < v.1) then v else (Timestamp msg, MessageID msg).

Section next.
Context `{Platform}.

(** A late message does not roll the state back; any other becomes the last
    one; the status is ALARM exactly when an alarm is open. *)
Lemma nextMessageState_spec s (found : bool) msg (open : bool) :
  let state := if found then s else first_state s msg in
  ∃ next, nextMessageState s found msg true open = Some next ∧
    seen next = later (seen state) msg ∧
    (ds_BusinessStatus next = "ALARM" ↔ open = true) ∧
    (Timestamp msg < ds_LastSeenAt state →
       ds_DataStatus next = ds_DataStatus state ∧ ds_ConnectionStatus next = ds_ConnectionStatus state).
Proof.
  cbv zeta. unfold nextMessageState. set (state := if found then s else first_state s msg).
  rewrite andb_false_r. eexists. split; [done|]. unfold later. cbn [fst seen].
  assert (∀ st, ds_LastSeenAt (message_state st msg) = Timestamp msg ∧
                ds_LastMessageID (message_state st msg) = MessageID msg) as Hm.
  { intros st. unfold message_state. cbv zeta. destruct (connection_property msg); [|done].
    by repeat case_decide. }
  destruct (Hm state) as [Hm1 Hm2].
  unfold seen. case_bool_decide as Hlate; cbn [negb orb andb].
  - rewrite decide_True by done. destruct open; [done|].
    case_bool_decide as Ha; (split; [done|]); (split; [|done]); [done|]. split; [|done]. by intros ?%Ha.
  - rewrite decide_False by done. destruct open; cbn -[message_state];
      (split; [by rewrite Hm1, Hm2|]); (split; [done|]); intros ?; lia.
Qed.
End next.

(** ** One completion without interference *)

Section complete.
Context `{AlarmDetails, Platform} (sched : store_schedule engine_world) (Hcalm : calm sched).
Context (clock : nat → Z).

Lemma local_step_calm {A} (f : engine_world → A * engine_world) w n :
  local_step sched f (w, n) = (Ok (f w).1, ((f w).2, S n)).
Proof using Hcalm. destruct Hcalm as [Henv _]. by rewrite local_step_eq, Henv. Qed.

Lemma load_product_calm tenant product w n :
  ∃ p w' n', load_product sched clock tenant product (w, n) = (Ok p, (w', n')) ∧ ew_repo w' = ew_repo w.
Proof using Hcalm.
  unfold load_product. rewrite bind_eq, store_try_eq, repo_read_calm by done. cbn [fst snd].
  case_match; [|by eexists _, _, _].
  rewrite bind_eq. cbn [observe fst snd]. rewrite bind_eq, local_step_calm. by eexists _, _, _.
Qed.
Lemma deviceTiming_calm tenant product device w n :
  ∃ timing w' n', deviceTiming sched clock tenant product device (w, n) = (Ok timing, (w', n')) ∧
    ew_repo w' = ew_repo w.
Proof using Hcalm.
  assert (∃ p w' n', cachedProduct sched clock tenant product (w, n) = (Ok p, (w', n')) ∧
    ew_repo w' = ew_repo w) as (p & w' & n' & E & Hw').
  { unfold cachedProduct. rewrite bind_eq, local_step_calm. cbn [fst snd]. rewrite bind_eq.
    cbn [observe fst snd]. destruct (cached_entry tenant product w); [|apply load_product_calm].
    case_decide; [by eexists _, _, _|apply load_product_calm]. }
  unfold deviceTiming. rewrite bind_eq, E. cbn [fst snd].
  rewrite bind_eq, store_try_eq, repo_read_calm by done. cbn [fst snd]. by eexists _, w', _.
Qed.

Lemma load_calm tenant device w n :
  LoadDeviceStateWithAlarms sched tenant device (w, n) =
  (Ok (GetDeviceState tenant device (ew_repo w), HasOpenAlarm tenant device (dr_alarms (ew_repo w))),
   (w, S (S n))).
Proof using Hcalm.
  unfold LoadDeviceStateWithAlarms, has_open_alarm.
  rewrite bind_eq, store_try_eq, repo_read_calm by done. cbn [fst snd].
  by rewrite bind_eq, store_try_eq, repo_read_calm.
Qed.

Section one.
Context (msg : StandardMessage) (token : Z) (w : engine_world).
Let k := store_key [TenantID msg; DeviceID msg].
Let current := default zero_DeviceState (stored k w).
Context (Hversion : ∀ s, stored k w = Some s → ds_Version s ≠ 0).

(** What a completion leaves behind when [open] says that an alarm is open. *)
Definition completed (open : bool) (w' : engine_world) : Prop :=
  dr_alarms (ew_repo w') = dr_alarms (ew_repo w) ∧
  (∀ k', k' ≠ k → stored k' w' = stored k' w) ∧
  ∃ after, stored k w' = Some after ∧ ds_Version after = wrap64 (ds_Version current + 1) ∧
    seen after = later (seen current) msg ∧ (ds_BusinessStatus after = "ALARM" ↔ open = true).

Lemma complete_attempt_calm open n :
  ∃ r w' n', complete_attempt sched clock msg token current (bool_decide (is_Some (stored k w))) open (w, n)
      = (r, (w', n')) ∧ r ≠ Ok None ∧ completed open w'.
Proof using Hcalm Hversion.
  set (found := bool_decide (is_Some (stored k w))).
  assert (∃ base wf nf, (if found then mret current
         else
           '(interval, tolerance) ← deviceTiming sched clock (TenantID msg) (ProductID msg) (DeviceID msg);
           mret (current <| ds_ReportIntervalSec := interval |> <| ds_OfflineToleranceSec := tolerance |>))
      (w, n) = (Ok base, (wf, nf)) ∧ ew_repo wf = ew_repo w ∧
      seen (if found then base else first_state base msg) = seen current) as (base & wf & nf & E & Hwf & Hseen).
  { unfold found, current. destruct (stored k w) as [s|]; cbn.
    - by eexists _, w, n.
    - destruct (deviceTiming_calm (TenantID msg) (ProductID msg) (DeviceID msg) w n)
        as ([interval tolerance] & wf & nf & E & Hwf).
      eexists _, wf, nf. rewrite bind_eq, E. split_and!; [done|done|].
      unfold first_state, seen. cbn. by case_decide. }
  destruct (nextMessageState_spec base found msg open) as (next & Hnext & Hlater & Hstatus & _).
  rewrite Hseen in Hlater. unfold complete_attempt. rewrite bind_eq, E. cbn [fst snd]. cbv zeta.
  rewrite Hnext. cbn [fmap option_fmap option_map].
  set (write := next <| ds_TenantID := TenantID msg |> <| ds_DeviceID := DeviceID msg |>
    <| ds_Version := ds_Version current |>).
  set (after := write <| ds_Version ::= (λ n, wrap64 (n + 1)) |>).
  assert (∃ err w2 n2, CompleteStandardMessage sched (Some write) (TenantID msg) (MessageID msg) token (wf, nf)
      = (Ok (true, err), (w2, n2)) ∧ dr_states (ew_repo w2) = <[k := after]> (dr_states (ew_repo w))
      ∧ dr_alarms (ew_repo w2) = dr_alarms (ew_repo w)) as (err & w2 & n2 & E2 & Hstates & Halarms).
  { unfold CompleteStandardMessage. rewrite bind_eq, store_try_eq, repo_call_calm by done. rewrite Hwf.
    unfold UpsertDeviceStateIf. change (device_key write) with k. fold (stored k w).
    change (ds_Version write) with (ds_Version current). rewrite decide_False.
    - cbn [fst snd]. rewrite bind_eq, store_try_eq. unfold mark_processed. rewrite repo_call_calm by done.
      cbn -[MarkStandardMessageProcessed]. destruct (MarkStandardMessageProcessed _ _ _ _) as [res m].
      by eexists _, _, _.
    - unfold current. destruct (stored k w) as [s|] eqn:Es; cbn; [|naive_solver].
      specialize (Hversion s eq_refl). intros [[E0 _]|[_ [?|?]]]; done. }
  destruct (publish_calm sched Hcalm current after w2 n2) as [n3 E3].
  exists (match err with
          | Some e => if decide (e = ErrStaleClaim) then Ok (Some tt) else Err e
          | None => Ok (Some tt)
          end), (emit current after w2), n3.
  rewrite bind_eq, E2. cbn [fst snd]. rewrite bind_eq, E3. cbn [fst snd]. split_and!.
  - destruct err; [|done]. by case_decide.
  - destruct err; [|done]. by case_decide.
  - unfold completed. assert (dr_states (ew_repo (emit current after w2)) = <[k := after]> (dr_states (ew_repo w)))
      as Hst by (unfold emit; by case_decide).
    split; [unfold emit; by case_decide|]. split.
    + intros k' Hk'. unfold stored. by rewrite Hst, lookup_insert_ne.
    + exists after. unfold stored. rewrite Hst, lookup_insert_eq. done.
Qed.

Lemma completeStandard_calm n :
  ∃ r w' n', completeStandard sched clock msg token (w, n) = (r, (w', n')) ∧
    completed (HasOpenAlarm (TenantID msg) (DeviceID msg) (dr_alarms (ew_repo w))) w'.
Proof using Hcalm Hversion.
  unfold completeStandard, casAttempts. cbn [complete_attempts]. rewrite bind_eq, load_calm. cbn [fst snd].
  set (open := HasOpenAlarm _ _ _).
  assert (complete_round sched clock msg token (GetDeviceState (TenantID msg) (DeviceID msg) (ew_repo w)) open
    = complete_attempt sched clock msg token current (bool_decide (is_Some (stored k w))) open) as Hround.
  { unfold complete_round, GetDeviceState, current. fold k. fold (stored k w).
    destruct (stored k w); [done|]. by rewrite decide_True. }
  destruct (complete_attempt_calm open (S (S n))) as (r & w' & n' & E & Hr & Hdone).
  rewrite bind_eq, Hround, E. cbn [fst snd].
  destruct r as [[[]|]|e]; [|done|]; by eexists _, w', n'.
Qed.
End one.
End complete.

(** ** Deliveries *)

(** A message that is completed under a token, after alarms have changed. *)
Record delivery `{AlarmDetails} := mk_delivery {
  dl_alarms : alarm_repo → alarm_repo; dl_message : StandardMessage; dl_token : Z }.

Section latest.
Implicit Types l : list StandardMessage.

(** What the folding of [later] returns: the start, or a latest message. *)
Lemma later_fold l v :
  let v' := foldl later v l in
  Forall (λ m, Timestamp m <= v'.1) l ∧ v.1 <= v'.1 ∧
  (v' = v ∧ Forall (λ m, Timestamp m < v.1) l ∨ ∃ m, m ∈ l ∧ v' = (Timestamp m, MessageID m)).
Proof.
  revert v. induction l as [|m l IH]; intros v; cbn [foldl].
  { split; [constructor|]. split; [lia|]. left. split; [done|constructor]. }
  assert (later v m = v ∧ Timestamp m < v.1 ∨ later v m = (Timestamp m, MessageID m) ∧ v.1 <= Timestamp m)
    as [[-> Hl]|[-> Hl]] by (unfold later; case_decide; [by left|right; split; [done|lia]]).
  - destruct (IH v) as (Hall & Hle & Hcase). split; [constructor; [lia|done]|]. split; [done|].
    destruct Hcase as [[E Hl']|(m' & Hm' & E)]; [left; by split; [|constructor]|right].
    exists m'. split; [by right|done].
  - destruct (IH (Timestamp m, MessageID m)) as (Hall & Hle & Hcase). cbn [fst] in Hle, Hcase.
    split; [by constructor|]. split; [lia|]. right.
    destruct Hcase as [[E Hl']|(m' & Hm' & E)]; [exists m|exists m']; (split; [|done]); [by left|by right].
Qed.

(** It depends only on which messages there are. *)
Lemma later_fold_converges l l' v :
  (∀ m, m ∈ l ↔ m ∈ l') →
  (∀ m m', m ∈ l → m' ∈ l → Timestamp m = Timestamp m' → MessageID m = MessageID m') →
  foldl later v l = foldl later v l'.
Proof.
  intros Hsame Hid. destruct (later_fold l v) as (Hall & Hle & Hcase).
  destruct (later_fold l' v) as (Hall' & Hle' & Hcase'). rewrite Forall_forall in Hall, Hall'.
  destruct Hcase as [[E Hl]|(m & Hm & E)], Hcase' as [[E' Hl']|(m' & Hm' & E')];
    rewrite E, E' in *; cbn [fst] in *; [done| | |].
  - apply Hsame in Hm'. rewrite Forall_forall in Hl. apply Hl in Hm'. lia.
  - apply Hsame in Hm. rewrite Forall_forall in Hl'. apply Hl' in Hm. lia.
  - pose proof (Hall m' (proj2 (Hsame m') Hm')). pose proof (Hall' m (proj1 (Hsame m) Hm)). cbn in *.
    assert (Timestamp m = Timestamp m') as Et by lia. f_equal; [done|].
    apply Hid; [done|by apply Hsame|done].
Qed.
End latest.

Section deliveries.
Context `{AlarmDetails, Platform} (sched : store_schedule engine_world) (Hcalm : calm sched).
Context (clock : nat → Z) (tenant device : string).
Let k := store_key [tenant; device].

Definition deliver (s : engine_world * nat) (d : delivery) : engine_world * nat :=
  let w := s.1 <| ew_repo ::= (λ r, r <| dr_alarms ::= dl_alarms d |>) |> in
  (completeStandard sched clock (dl_message d) (dl_token d) (w, s.2)).2.
Definition of_device (d : delivery) : Prop :=
  TenantID (dl_message d) = tenant ∧ DeviceID (dl_message d) = device.

Definition version_of (w : engine_world) : Z := ds_Version (default zero_DeviceState (stored k w)).
Definition seen_of (w : engine_world) : Z * string := seen (default zero_DeviceState (stored k w)).
Definition open_of (w : engine_world) : bool := HasOpenAlarm tenant device (dr_alarms (ew_repo w)).

(** A stored state has a version within the range of int64. *)
Definition version_ok (bound : Z) (w : engine_world) : Prop :=
  match stored k w with Some s => 0 < ds_Version s <= bound | None => True end.

Lemma deliver_spec bound d s :
  of_device d → 0 <= bound < two63 - 1 → version_ok bound s.1 →
  let w' := (deliver s d).1 in
  version_ok (bound + 1) w' ∧ seen_of w' = later (seen_of s.1) (dl_message d) ∧
  ∃ after, stored k w' = Some after ∧ (ds_BusinessStatus after = "ALARM" ↔ open_of w' = true).
Proof using Hcalm.
  intros [Ht Hd] Hb Hv. destruct s as [w n]. cbn [fst] in *.
  set (w1 := w <| ew_repo ::= (λ r, r <| dr_alarms ::= dl_alarms d |>) |>).
  assert (∀ k', stored k' w1 = stored k' w) as Hst by done.
  destruct (completeStandard_calm sched Hcalm clock (dl_message d) (dl_token d) w1) with (n := n)
    as (r & w' & n' & E & Halarms & _ & after & Hafter & Hver & Hseen & Hstatus).
  { rewrite Ht, Hd, Hst. unfold version_ok, k in Hv. intros s Es. rewrite Es in Hv. lia. }
  rewrite ?Ht, ?Hd, ?Hst in Hafter, Hver, Hseen, Hstatus. fold k in Hafter, Hver, Hseen.
  change (stored k w1) with (stored k w) in *.
  unfold deliver. cbn [fst snd]. fold w1. rewrite E. cbn [fst snd].
  split_and!.
  - assert (0 <= ds_Version (default zero_DeviceState (stored k w)) <= bound) as Hbound.
    { unfold version_ok in Hv. destruct (stored k w); cbn; lia. }
    unfold version_ok. rewrite Hafter, Hver. 
    set (V := ds_Version (default zero_DeviceState (stored k w))) in *. clearbody V.
    rewrite wrap64_small by (unfold in_int64, two63 in *; lia). lia.
  - unfold seen_of. by rewrite Hafter.
  - exists after. split; [done|]. unfold open_of. by rewrite Halarms.
Qed.

Lemma deliver_all_spec ds d bound s :
  of_device d → Forall of_device ds → 0 <= bound → bound + Z.of_nat (length ds) < two63 - 1 →
  version_ok bound s.1 →
  let w' := (foldl deliver s (ds ++ [d])).1 in
  seen_of w' = foldl later (seen_of s.1) (dl_message <$> ds ++ [d]) ∧
  ∃ after, stored k w' = Some after ∧ (ds_BusinessStatus after = "ALARM" ↔ open_of w' = true).
Proof using Hcalm.
  intros Hd Hds. revert bound s. induction ds as [|d0 ds IH]; intros bound s Hb0 Hb Hv; cbv zeta.
  - destruct (deliver_spec bound d s Hd ltac:(cbn in Hb; lia) Hv) as (_ & Hseen & Hafter). done.
  - apply Forall_cons in Hds as [Hd0 Hds]. cbn [length] in Hb.
    destruct (deliver_spec bound d0 s Hd0 ltac:(lia) Hv) as (Hv' & Hseen & _).
    cbn [app foldl fmap list_fmap]. rewrite <-Hseen. apply (IH Hds (bound + 1)); [lia|lia|done].
Qed.

(** What a delivery of at least one message leaves behind. *)
Lemma delivered ds bound s :
  ds ≠ [] → Forall of_device ds → 0 <= bound → bound + Z.of_nat (length ds) < two63 - 1 →
  version_ok bound s.1 →
  let w' := (foldl deliver s ds).1 in
  ∃ after, stored k w' = Some after ∧ seen after = foldl later (seen_of s.1) (dl_message <$> ds) ∧
    (ds_BusinessStatus after = "ALARM" ↔ open_of w' = true).
Proof using Hcalm.
  intros Hne Hds Hb0 Hb Hv. destruct ds as [|d ds _] using rev_ind; [done|].
  apply Forall_app in Hds as [Hds Hd]. apply Forall_cons in Hd as [Hd _].
  rewrite length_app in Hb. cbn [length] in Hb.
  destruct (deliver_all_spec ds d bound s Hd Hds Hb0 ltac:(lia) Hv) as (Hseen & after & Hafter & Hst).
  exists after. unfold seen_of at 1 in Hseen. rewrite Hafter in Hseen. done.
Qed.

End deliveries.
