(* ===== verification/DeviceWitness.v ===== *)
(** The theorems about claims and device states applied to concrete runs. *)
From S2P Require Import Prelude GoText GoJson StoreIO GbCodec AlarmModel AlarmStore AlarmEngine.
From S2P Require Import MessageClaims MessageClaimsTheorems DeviceModel DeviceEngine DeviceMutate.
From S2P Require Import DeviceScan DeviceTiming DeviceMessages Scenario.

#[local] Existing Instance ascii_platform.
#[local] Instance no_details : AlarmDetails := {| detail := unit; event_detail _ := tt; detail_event _ := None |}.
#[local] Instance device_order : MapOrder := λ A m, (map_to_list m).*1.
#[local] Instance device_order_laws : MapOrderLaws.
Proof. intros A m. reflexivity. Qed.

Definition quiet_schedule {W} : store_schedule W := mk_store_schedule (λ _ w, w) (λ _, None).
Lemma quiet_calm {W} : calm (quiet_schedule (W := W)).
Proof. done. Qed.

(** ** Claims *)

Definition message (i : string) (at_ : Z) : StandardMessage :=
  mk_StandardMessage i "" "t" "p" "d" PropertyReport at_ ∅ ∅ ∅ ∅ "" "".
(** A second worker is refused, takes over when the lease is over, and the
    first one cannot complete the message any more. *)
Definition takeover : list claim_op :=
  [OpClaim 0 (message "m" 1) "w1"; OpClaim 30 (message "m" 1) "w2"; OpClaim 60 (message "m" 1) "w2";
   OpMark "t" "m" 1; OpMark "t" "m" 2; OpClaim 300 (message "m" 1) "w3"].
Definition takeover_key : string := message_key (message "m" 1).

Lemma claims_fence_witness :
  grants takeover_key (claim_run 60 takeover).1 = [mk_grant "w1" 1 0; mk_grant "w2" 2 60] ∧
  StronglySorted (handover 60) [mk_grant "w1" 1 0; mk_grant "w2" 2 60] ∧
  completions takeover_key (claim_run 60 takeover).1 = [2].
Proof.
  pose proof (claims_fence 60 takeover_key takeover ltac:(done) ltac:(by repeat constructor)
    ltac:(unfold clock_ok; cbn; repeat constructor; lia) ltac:(done)) as Hfence.
  split; [vm_compute; reflexivity|]. split; [|vm_compute; reflexivity].
  destruct (claim_run 60 takeover) as [log r] eqn:E. destruct Hfence as (_ & Hsorted & _).
  replace (grants takeover_key log) with [mk_grant "w1" 1 0; mk_grant "w2" 2 60] in Hsorted; [done|].
  change log with (log, r).1. rewrite <-E. vm_compute. reflexivity.
Defined.

(** A worker died holding the claim for the full lease. *)
Definition abandoned : claim_repo :=
  (ClaimStandardMessage 0 (message "m" 1) "dead" processingLease empty_claim_repo).2.
Lemma claimStandard_ends_witness :
  ∃ claim, (claimStandard quiet_schedule id (λ r _, r) (λ _, millisecond) (λ _, 0) (λ _, None) 1402 0
              (message "m" 1) "w2" (abandoned, 0%nat)).1 = Ok (Some claim) ∧
    cl_ShouldProcess claim = true ∧ cl_Token claim = 2.
Proof.
  pose proof (claimStandard_ends quiet_schedule id (λ r _, r) (λ _, millisecond) (λ _, 0) (λ _, None) 1402 0
    (message "m" 1) "w2" abandoned 0 ltac:(done) ltac:(done) ltac:(done)) as Hends.
  destruct (claimStandard _ _ _ _ _ _ _ _ _ _ _) as [r [w' n']]. destruct Hends as (_ & _ & Hgrant).
  destruct Hgrant as (claim & -> & Hs & Ht); [done|done|done|done|vm_compute; reflexivity|by vm_compute|].
  exists claim. split; [done|]. split; [done|]. rewrite Ht. vm_compute. reflexivity.
Defined.

(** ** Device states *)

Definition state (device : string) (version last : Z) (connection business : string) : DeviceState :=
  mk_DeviceState version "t" "p" device connection "ACTIVE" business 0 0 last "m0" 300 60 0 0
    "RAW_MESSAGE" "".
Definition world_of (states : list DeviceState) (devices : list ManagedDevice) : engine_world :=
  mk_engine_world _ (mk_device_repo _ (list_to_map ((λ s, (device_key s, s)) <$> states)) []
    (list_to_map ((λ d, (store_key [d_TenantID d; d_ID d], d)) <$> devices)) ∅ empty_alarm_repo
    empty_claim_repo) ∅.

(** Another replica bumps every version just before the first write. *)
Definition bump (s : DeviceState) : DeviceState :=
  s <| ds_Version ::= (λ v, v + 1) |> <| ds_ConnectionStatus := "CONNECTED" |>.
Definition bumping : store_schedule engine_world :=
  mk_store_schedule
    (λ n w, if decide (n = 2%nat) then w <| ew_repo ::= (λ r, r <| dr_states ::= fmap bump |>) |> else w)
    (λ _, None).
Lemma bumping_rely : device_rely bumping.
Proof.
  intros n w k s Hs. cbn. case_decide; [|exists s; auto]. exists (bump s). split.
  - unfold stored. cbn. rewrite lookup_fmap. unfold stored in Hs. by rewrite Hs.
  - right. cbn. lia.
Qed.

Definition busy_world : engine_world := world_of [state "d" 4 100 "DISCONNECTED" "ALARM"] [].
(** The first attempt meets the other write, the second one keeps it. *)
Lemma mutateDeviceState_linearizes_witness :
  let '(res, (w', n')) := mutateDeviceState bumping "t" "d" (sync_fn bumping "t" "" "d") (busy_world, 0%nat) in
  (n' ≤ 24)%nat ∧ device_outcome bumping "t" "d" (sync_fn bumping "t" "" "d") busy_world res w' ∧
  (λ s, (ds_Version s, ds_BusinessStatus s, ds_ConnectionStatus s)) <$> stored (store_key ["t"; "d"]) w'
    = Some (6, "ONLINE", "CONNECTED").
Proof.
  pose proof (mutateDeviceState_linearizes bumping "t" "d" (sync_fn bumping "t" "" "d") 1 busy_world 0
    bumping_rely ltac:(done) (sync_fn_quiet bumping bumping_rely "t" "" "d")) as Hlin.
  destruct (mutateDeviceState _ _ _ _ _) as [res [w' n']] eqn:E. destruct Hlin as [Hn Hout].
  split; [done|]. split; [done|].
  replace w' with (mutateDeviceState bumping "t" "d" (sync_fn bumping "t" "" "d") (busy_world, 0%nat)).2.1
    by (by rewrite E). vm_compute. reflexivity.
Defined.

(** One device is silent, one is connected but silent, one reports. *)
Definition scan_world : engine_world :=
  world_of [state "d1" 3 100000 "DISCONNECTED" "ONLINE"; state "d2" 1 200000 "CONNECTED" "ALARM";
            state "d3" 9 900000 "DISCONNECTED" "ONLINE"] [].
Lemma scan_world_ok : due_ok 1000000 (dr_states (ew_repo scan_world)).
Proof.
  assert (map_Forall (λ k s, k = store_key [ds_TenantID s; ds_DeviceID s] ∧ ds_Version s ≠ 0)
    (dr_states (ew_repo scan_world))) as Hall
    by (apply (bool_decide_unpack _); vm_compute; exact I).
  intros k s Hs _. by apply Hall.
Qed.
Lemma ScanOffline_terminates_witness :
  ∃ w' n', ScanOffline quiet_schedule (λ _, None) 1 1000000 (scan_world, 0%nat) = (Ok (Some tt), (w', n')) ∧
    due_states 1000000 (dr_states (ew_repo w')) = [] ∧ length (dr_stateEvents (ew_repo w')) = 2%nat ∧
    (λ s, (ds_BusinessStatus s, ds_OfflineAt s)) <$> stored (store_key ["t"; "d2"]) w'
      = Some ("SUSPECTED_OFFLINE", 560000) ∧
    stored (store_key ["t"; "d3"]) w' = stored (store_key ["t"; "d3"]) scan_world.
Proof.
  destruct (ScanOffline_terminates quiet_schedule (λ _, None) 1 1000000 scan_world 0 quiet_calm ltac:(done)
    scan_world_ok) as (events & w' & n' & E & Hw & Hev & Hdue).
  { apply Nat.ltb_lt. vm_compute. reflexivity. }
  exists w', n'. split; [exact E|]. split; [exact Hdue|]. rewrite Hw. split.
  { apply Permutation_length in Hev. cbn. rewrite Hev. vm_compute. reflexivity. }
  split; vm_compute; reflexivity.
Defined.

(** A template of 101 devices, each with a state under the default timing, is
    given a report interval of its own. *)
Definition fleet_device (i : nat) : ManagedDevice :=
  zero_ManagedDevice <| d_ID := "d" +:+ dec (Z.of_nat i) |> <| d_TenantID := "t" |> <| d_ProductID := "p" |>
    <| d_UpdatedAt := Z.of_nat i |> <| d_ReportIntervalSec := 900 |>.
Definition fleet : list ManagedDevice :=
  fleet_device <$> seq 1 101.
Definition fleet_world : engine_world :=
  world_of ((λ d, state (d_ID d) 1 100 "CONNECTED" "ONLINE") <$> fleet) fleet.
Lemma fleet_keyed : registry_keyed (ew_repo fleet_world).
Proof.
  assert (map_Forall (λ k d, k = store_key [d_TenantID d; d_ID d]) (dr_devices (ew_repo fleet_world))) as Hall
    by (apply (bool_decide_unpack _); vm_compute; exact I).
  intros k d Hd. by apply Hall.
Qed.
Lemma fleet_versions k s : stored k fleet_world = Some s → ds_Version s ≠ 0.
Proof.
  assert (map_Forall (λ _ s, ds_Version s ≠ 0) (dr_states (ew_repo fleet_world))) as Hall
    by (apply (bool_decide_unpack _); vm_compute; exact I).
  intros Hs. by apply (Hall k).
Qed.
Lemma ApplyDeviceTiming_first_page_witness :
  ∃ w' n' changed, ApplyDeviceTiming quiet_schedule 7 "t" "p" "" (fleet_world, 0%nat) = (Ok (Some changed), (w', n')) ∧
    timing_of <$> stored (store_key ["t"; "d101"]) w' = Some (900, 60) ∧
    timing_of <$> stored (store_key ["t"; "d1"]) w' = Some (300, 60).
Proof.
  destruct (ApplyDeviceTiming_first_page quiet_schedule 6 "t" "p" fleet_world 0 quiet_calm ltac:(done)
    fleet_keyed fleet_versions) as (changed & w' & n' & E & Hfirst & _ & Hrest & _).
  exists w', n', changed. split; [exact E|].
  assert (∃ rest, take 100 (filtered_devices (product_filter "t" "p") (ew_repo fleet_world))
    = fleet_device 101 :: rest) as [rest Hpage] by (eexists; vm_compute; reflexivity).
  assert (drop 100 (filtered_devices (product_filter "t" "p") (ew_repo fleet_world)) = [fleet_device 1])
    as Hlast by (vm_compute; reflexivity).
  split.
  - destruct (Hfirst (fleet_device 101)) with (s := state "d101" 1 100 "CONNECTED" "ONLINE") as (s' & Hs' & Ht).
    + rewrite Hpage. by left.
    + vm_compute. reflexivity.
    + change (store_key ["t"; "d101"]) with (device_id_key "t" (fleet_device 101)). rewrite Hs'. cbn [fmap option_fmap option_map].
      rewrite Ht. vm_compute. reflexivity.
  - change (store_key ["t"; "d1"]) with (device_id_key "t" (fleet_device 1)).
    rewrite (Hrest (fleet_device 1)) by (rewrite Hlast; by left). vm_compute. reflexivity.
Defined.

(** Two messages of a device, in order, and out of order with a repetition. *)
Definition plain (i : string) (at_ : Z) : delivery := mk_delivery _ id (message i at_) 1.
