(* ===== verification/RawModel.v ===== *)
(** Raw messages at rest: their reservations, the archive index and the message
    tables (internal/adapters/memory/raw_reservation.go, repository.go), and
    the store that routes a message to a database
    (internal/adapters/rawstore/store.go).

    Every method of the repository holds its mutex and is one step.  Values are
    copied in and out through JSON ([clone]), which may change them. *)
From S2P Require Import Prelude GoText GbCodec AlarmModel AlarmStore DeviceModel.

(** ** Raw messages *)

Section messages.
Context `{RawCodec}.

Definition PayloadHash (m : RawMessage) : string := sha256_hex (rm_Payload m).
Definition raw_key (m : RawMessage) : string := store_key [rm_TenantID m; rm_MessageID m].

(** Missing fields are filled in; [now] is in nanoseconds. *)
Definition Normalize (now : Z) (m : RawMessage) : RawMessage :=
  let m := if decide (rm_MessageID m = "") then
             m <| rm_MessageID := "raw_" +:+ String.substring 0 24
               (sha256_hex (rm_TenantID m +:+ ":" +:+ rm_DeviceID m +:+ ":" +:+ dec now +:+ ":" +:+ rm_Payload m)) |>
           else m in
  let m := if decide (rm_Source m = "") then m <| rm_Source := "external-ingest" |> else m in
  let m := if decide (rm_ReceivedAt m = 0) then m <| rm_ReceivedAt := now / 1000000 |> else m in
  if decide (rm_PayloadFormat m = "") then m <| rm_PayloadFormat := "json" |> else m.

(** The names of the missing fields come in the order of [range]. *)
Definition Validate `{MapOrder} (m : RawMessage) : res unit :=
  let fields := {["messageId" := rm_MessageID m; "tenantId" := rm_TenantID m;
                  "productId" := rm_ProductID m; "deviceId" := rm_DeviceID m]} : gmap string string in
  let missing := filter (λ name, trim_space (default "" (fields !! name)) = "") (map_range fields) in
  if decide (missing ≠ []) then Err (mk_error Other ("missing required fields: " +:+ join ", " missing))
  else if decide (rm_Payload m = "") then Err (mk_error Other "payload is required")
  else Ok tt.

(** [clone]: what is left when the message cannot be encoded is the zero value. *)
Definition clone (m : RawMessage) : RawMessage :=
  match marshal m with
  | Some b => default zero_RawMessage (unmarshal b)
  | None => zero_RawMessage
  end.
End messages.

(** ** The archive index

    The fields that only the HTTP interface fills in are left out. *)

Record RawArchiveIndex := mk_RawArchiveIndex {
  ri_MessageID : string; ri_TenantID : string; ri_ProductID : string; ri_DeviceID : string;
  ri_Protocol : string; ri_PayloadFormat : string; ri_ObjectBucket : string; ri_ObjectKey : string;
  ri_ObjectOffset : Z; ri_PayloadHash : string; ri_PayloadSize : Z; ri_ReceivedAt : Z;
  ri_ArchivedAt : Z; ri_PublishedAt : Z; ri_PublishAttempts : Z; ri_LastPublishError : string;
  ri_ParseAttemptedAt : Z; ri_ParseError : string }.
#[export] Instance eta_RawArchiveIndex : Settable RawArchiveIndex := λ v,
  mk_RawArchiveIndex (ri_MessageID v) (ri_TenantID v) (ri_ProductID v) (ri_DeviceID v) (ri_Protocol v)
    (ri_PayloadFormat v) (ri_ObjectBucket v) (ri_ObjectKey v) (ri_ObjectOffset v) (ri_PayloadHash v)
    (ri_PayloadSize v) (ri_ReceivedAt v) (ri_ArchivedAt v) (ri_PublishedAt v) (ri_PublishAttempts v)
    (ri_LastPublishError v) (ri_ParseAttemptedAt v) (ri_ParseError v).
Definition zero_RawArchiveIndex : RawArchiveIndex :=
  mk_RawArchiveIndex "" "" "" "" "" "" "" "" 0 "" 0 0 0 0 0 "" 0 "".
Definition index_key (v : RawArchiveIndex) : string := store_key [ri_TenantID v; ri_MessageID v].

Definition MaxRawPublishAttempts : Z := 12.

Definition SaveRawIndex (v : RawArchiveIndex) (t : gmap string RawArchiveIndex)
    : res bool * gmap string RawArchiveIndex :=
  match t !! index_key v with
  | Some _ => (Ok false, t)
  | None => (Ok true, <[index_key v := v]> t)
  end.
Definition GetRawIndex (tenant messageID : string) (t : gmap string RawArchiveIndex) : res RawArchiveIndex :=
  match t !! store_key [tenant; messageID] with Some v => Ok v | None => Err not_found end.
(** The receive time selects a partition in PostgreSQL only. *)
Definition GetRawIndexAt (tenant messageID : string) (receivedAt : Z) := GetRawIndex tenant messageID.
Definition published_entry (publishedAt : Z) (lastError : string) (v : RawArchiveIndex) : RawArchiveIndex :=
  let v := v <| ri_PublishAttempts ::= (λ n, wrap64 (n + 1)) |> <| ri_LastPublishError := lastError |> in
  if decide (lastError = "") then v <| ri_PublishedAt := publishedAt |> else v.
Definition MarkRawPublished (tenant messageID : string) (publishedAt : Z) (lastError : string)
    (t : gmap string RawArchiveIndex) : res unit * gmap string RawArchiveIndex :=
  let k := store_key [tenant; messageID] in
  match t !! k with
  | Some v => (Ok tt, <[k := published_entry publishedAt lastError v]> t)
  | None => (Err not_found, t)
  end.
Definition MarkRawParseResult (tenant messageID : string) (at_ : Z) (message : string)
    (t : gmap string RawArchiveIndex) : gmap string RawArchiveIndex :=
  let k := store_key [tenant; messageID] in
  match t !! k with
  | Some v => <[k := v <| ri_ParseAttemptedAt := at_ |> <| ri_ParseError := message |>]> t
  | None => t
  end.

Definition pending_entry (v : RawArchiveIndex) : Prop :=
  ri_PublishedAt v = 0 ∧ ri_PublishAttempts v < MaxRawPublishAttempts.
#[export] Instance pending_entry_dec v : Decision (pending_entry v).
Proof. unfold pending_entry. apply _. Defined.
Definition stalled_entry (v : RawArchiveIndex) : Prop :=
  ri_PublishedAt v = 0 ∧ ri_PublishAttempts v >= MaxRawPublishAttempts.
#[export] Instance stalled_entry_dec v : Decision (stalled_entry v).
Proof. unfold stalled_entry. apply _. Defined.
(** [sort.SliceStable]: fewer attempts first, then the older one. *)
Definition pending_le (a b : RawArchiveIndex) : Prop :=
  ri_PublishAttempts a < ri_PublishAttempts b
  ∨ ri_PublishAttempts a = ri_PublishAttempts b ∧ ri_ArchivedAt a <= ri_ArchivedAt b.
#[export] Instance pending_le_dec a b : Decision (pending_le a b).
Proof. unfold pending_le. apply _. Defined.

Section lists.
Context `{MapOrder}.
Definition raw_entries (t : gmap string RawArchiveIndex) : list RawArchiveIndex :=
  omap (λ k, t !! k) (map_range t).
Definition ListPendingRawIndexes (limit : Z) (t : gmap string RawArchiveIndex) : list RawArchiveIndex :=
  page (merge_sort pending_le (filter pending_entry (raw_entries t))) 0 limit.
Definition CountStalledRawIndexes (t : gmap string RawArchiveIndex) : nat :=
  length (filter stalled_entry (raw_entries t)).
End lists.

(** ** Reservations *)

Record rawReservation := mk_rawReservation { rv_Metadata : RawMessage; rv_Hash : string }.

Section reservations.
Context `{RawCodec}.

(** A message whose identity was seen before gets the metadata it was first
    received with. *)
Definition ReserveRawMessage (v : RawMessage) (t : gmap string rawReservation)
    : res (RawMessage * bool) * gmap string rawReservation :=
  match t !! raw_key v with
  | Some old =>
    if decide (rv_Hash old ≠ PayloadHash v ∨ rm_ProductID (rv_Metadata old) ≠ rm_ProductID v
               ∨ rm_DeviceID (rv_Metadata old) ≠ rm_DeviceID v)
    then (Err ErrRawConflict, t)
    else (Ok ((clone (rv_Metadata old)) <| rm_Payload := rm_Payload v |>, false), t)
  | None =>
    (Ok (v, true),
     <[raw_key v := mk_rawReservation ((clone v) <| rm_Payload := "" |>) (PayloadHash v)]> t)
  end.

(** ** Message tables *)

Definition SaveRawMessage (v : RawMessage) (t : gmap string RawMessage) : res unit * gmap string RawMessage :=
  match t !! raw_key v with
  | Some old =>
    if decide (PayloadHash old ≠ PayloadHash v ∨ rm_DeviceID old ≠ rm_DeviceID v
               ∨ rm_ProductID old ≠ rm_ProductID v)
    then (Err ErrRawConflict, t) else (Ok tt, t)
  | None => (Ok tt, <[raw_key v := clone v]> t)
  end.
Definition GetRawMessage (tenant messageID : string) (t : gmap string RawMessage) : res RawMessage :=
  match t !! store_key [tenant; messageID] with Some v => Ok (clone v) | None => Err not_found end.
End reservations.

(** ** Routing to a database

    [None] is a database that is not configured. *)

Abbreviation PostgreSQLBucket := "postgres".
Abbreviation ClickHouseBucket := "clickhouse".

Record raw_store := mk_raw_store {
  rs_postgres : option (gmap string RawMessage); rs_clickhouse : option (gmap string RawMessage);
  rs_highFrequencyIntervalSec : Z; rs_last : gmap string Z; rs_lastPrune : Z }.
#[export] Instance eta_raw_store : Settable raw_store := λ v,
  mk_raw_store (rs_postgres v) (rs_clickhouse v) (rs_highFrequencyIntervalSec v) (rs_last v)
    (rs_lastPrune v).

Definition pruneAbove : Z := 100000.
Definition pruneLocked (now threshold : Z) (s : raw_store) : raw_store :=
  if decide (Z.of_nat (size (rs_last s)) <= pruneAbove ∨ wrap64 (now - rs_lastPrune s) < 60000) then s
  else s <| rs_lastPrune := now |>
         <| rs_last ::= filter (λ entry, ¬ wrap64 (now - entry.2) > wrap64 (threshold * 1000)) |>.
(** The previous arrival of the device, and the store that knows this one. *)
Definition note_arrival (v : RawMessage) (s : raw_store) : Z * raw_store :=
  let k := store_key [rm_TenantID v; rm_DeviceID v] in
  (default 0 (rs_last s !! k),
   pruneLocked (rm_ReceivedAt v) (rs_highFrequencyIntervalSec s)
     (s <| rs_last ::= <[k := rm_ReceivedAt v]> |>)).

Definition ForgetCapacityDevices (tenant : string) (devices : list string) (s : raw_store) : raw_store :=
  s <| rs_last ::= (λ t, foldr (λ id, base.delete (store_key [tenant; id])) t devices) |>.
(** A threshold that is not positive is replaced by a minute. *)
Definition New (postgres clickhouse : option (gmap string RawMessage)) (highFrequencyIntervalSec : Z) : raw_store :=
  let highFrequencyIntervalSec :=
    if decide (highFrequencyIntervalSec <= 0) then 60 else highFrequencyIntervalSec in
  mk_raw_store postgres clickhouse highFrequencyIntervalSec ∅ 0.

Definition isHighFrequency (current previous thresholdSec : Z) : bool :=
  if decide (current <= previous ∨ previous <= 0 ∨ thresholdSec <= 0) then false
  else bool_decide (wrap64 (current - previous) <= wrap64 (thresholdSec * 1000)).
(** By the configured interval, or by one of the observed ones. *)
Definition backend_of (threshold interval lastSeen previous receivedAt : Z) : string :=
  if decide (0 < interval <= threshold) then ClickHouseBucket
  else if isHighFrequency receivedAt lastSeen threshold || isHighFrequency receivedAt previous threshold
  then ClickHouseBucket else PostgreSQLBucket.

(** A single database works for every frequency. *)
Definition database (backend : string) (s : raw_store) : option (string * gmap string RawMessage) :=
  let postgres := pair PostgreSQLBucket <$> rs_postgres s in
  let clickhouse := pair ClickHouseBucket <$> rs_clickhouse s in
  if decide (backend = ClickHouseBucket)
  then match clickhouse with Some d => Some d | None => postgres end
  else match postgres with Some d => Some d | None => clickhouse end.
Definition put_database (backend : string) (t : gmap string RawMessage) (s : raw_store) : raw_store :=
  if decide (backend = ClickHouseBucket) then s <| rs_clickhouse := Some t |>
  else s <| rs_postgres := Some t |>.

Section store.
Context `{RawCodec}.

Definition raw_index (backend : string) (now : Z) (v : RawMessage) : RawArchiveIndex :=
  zero_RawArchiveIndex <| ri_MessageID := rm_MessageID v |> <| ri_TenantID := rm_TenantID v |>
    <| ri_ProductID := rm_ProductID v |> <| ri_DeviceID := rm_DeviceID v |>
    <| ri_Protocol := rm_Protocol v |> <| ri_PayloadFormat := rm_PayloadFormat v |>
    <| ri_ObjectBucket := backend |> <| ri_ObjectKey := rm_MessageID v |>
    <| ri_PayloadHash := PayloadHash v |> <| ri_PayloadSize := Z.of_nat (String.length (rm_Payload v)) |>
    <| ri_ReceivedAt := rm_ReceivedAt v |> <| ri_ArchivedAt := now |>.
Definition no_database : error := mk_error Other "no database raw message store is configured".
(** One call to the chosen database. *)
Definition save_in_database (backend : string) (v : RawMessage) (s : raw_store) : res string * raw_store :=
  match database backend s with
  | None => (Err no_database, s)
  | Some (backend, t) =>
    let '(saved, t) := SaveRawMessage v t in
    (match saved with Ok _ => Ok backend | Err e => Err e end, put_database backend t s)
  end.

(** [legacy] reads what was archived before the databases, if configured. *)
Definition GetRaw (legacy : option (RawArchiveIndex → res RawMessage)) (v : RawArchiveIndex) (s : raw_store)
    : res RawMessage :=
  let read name (t : option (gmap string RawMessage)) :=
    match t with
    | Some t => GetRawMessage (ri_TenantID v) (ri_MessageID v) t
    | None => Err (mk_error Other (name +:+ " raw message store is not configured"))
    end in
  if decide (ri_ObjectBucket v = PostgreSQLBucket) then read "postgres" (rs_postgres s)
  else if decide (ri_ObjectBucket v = ClickHouseBucket) then read "clickhouse" (rs_clickhouse s)
  else match legacy with
       | Some f => f v
       | None => Err (mk_error Other "legacy raw message reader is not configured")
       end.
End store.
