(* ===== verification/RawIngest.v ===== *)
(** The way of a raw message into the platform (internal/core/engine.go,
    IngestRaw to ensureGatewayChild; the bindings and releases of
    internal/core/protocol_cache.go; PutRaw of internal/adapters/rawstore/store.go):
    reserve its identity, archive it, index it, publish it; and the job that
    publishes what was archived but not published.

    Other processes act between any two calls, and every call may fail.  The
    striped lock on the identity of a message only delays calls, so it is part
    of the schedule.  An error is returned without the value that comes with
    it. *)
From S2P Require Import Prelude GoText GbCodec StoreIO AlarmModel AlarmStore DeviceModel RawModel.

(** ** Data *)

Record ProductProtocolBinding := mk_ProductProtocolBinding {
  pb_TenantID : string; pb_ProductID : string; pb_ProtocolID : string; pb_Version : string }.
(** Of a release only the fields that the modelled code reads are kept. *)
Record ProtocolRelease := mk_ProtocolRelease {
  pr_TenantID : string; pr_ProtocolID : string; pr_Version : string; pr_PointTableVersion : string }.

Record cachedBinding := mk_cachedBinding { cb_binding : res ProductProtocolBinding; cb_loadedAt : Z }.
Record cachedRelease := mk_cachedRelease { cr_release : ProtocolRelease; cr_loadedAt : Z }.
Record tenantProtocols := mk_tenantProtocols {
  tp_bindings : gmap string cachedBinding; tp_releases : gmap string cachedRelease }.
#[export] Instance eta_tenantProtocols : Settable tenantProtocols := λ v,
  mk_tenantProtocols (tp_bindings v) (tp_releases v).
Definition new_tenantProtocols : tenantProtocols := mk_tenantProtocols ∅ ∅.

Record AuditLog := mk_AuditLog {
  al_ID : string; al_TenantID : string; al_Actor : string; al_Action : string; al_TargetType : string;
  al_TargetID : string; al_Details : any_map; al_CreatedAt : Z }.
#[export] Instance eta_AuditLog : Settable AuditLog := λ v,
  mk_AuditLog (al_ID v) (al_TenantID v) (al_Actor v) (al_Action v) (al_TargetType v) (al_TargetID v)
    (al_Details v) (al_CreatedAt v).
Record bus_event := mk_bus_event { be_topic : string; be_key : string; be_payload : list Z }.

Record ingest_world `{AlarmDetails} := mk_ingest_world {
  iw_repo : device_repo;
  iw_reservations : gmap string rawReservation;
  iw_raw : gmap string RawArchiveIndex;
  iw_bindings : gmap string ProductProtocolBinding;
  iw_releases : gmap string ProtocolRelease;
  iw_audits : list AuditLog;
  iw_store : raw_store;
  iw_bus : list bus_event;
  iw_cache : gmap string tenantProtocols }.
#[export] Instance eta_ingest_world `{AlarmDetails} : Settable ingest_world := λ v,
  mk_ingest_world _ (iw_repo v) (iw_reservations v) (iw_raw v) (iw_bindings v) (iw_releases v)
    (iw_audits v) (iw_store v) (iw_bus v) (iw_cache v).

Abbreviation TopicRaw := "iot.raw.message".
(** The length of the tenant keeps ("a","bc") and ("ab","c") apart. *)
Definition DeviceKey (tenant device : string) : string :=
  dec (Z.of_nat (String.length tenant)) +:+ ":" +:+ tenant +:+ device.

Definition ErrBackpressure : error :=
  mk_error Other "ingest paused: processing backlog above limit, retry later".
(** [fmt.Errorf("prefix: %w", err)] *)
Definition wrapf (prefix : string) (e : error) : error :=
  mk_error (err_is e) (prefix +:+ ": " +:+ err_text e).
Definition permanent (text : string) : error := mk_error Permanent text.

Section ingest.
Context `{AlarmDetails, RawCodec, MapOrder} (sched : store_schedule ingest_world).
Abbreviation IngestIO := (StoreIO ingest_world).
(** The time in nanoseconds, whether ingestion is paused, and the [k]-th random
    hexadecimal text drawn, when [n] calls were made. *)
Context (clock : nat → Z) (paused : nat → bool) (random : nat → nat → string).
Context (legacy : option (RawArchiveIndex → res RawMessage)).

Definition devices_call {A} (f : device_repo → res A * device_repo) : IngestIO A :=
  store_call sched (λ w, let '(a, r) := f (iw_repo w) in (a, w <| iw_repo := r |>)).
Definition devices_read {A} (f : device_repo → res A) : IngestIO A := devices_call (λ r, (f r, r)).
Definition index_call {A} (f : gmap string RawArchiveIndex → res A * gmap string RawArchiveIndex) : IngestIO A :=
  store_call sched (λ w, let '(a, t) := f (iw_raw w) in (a, w <| iw_raw := t |>)).
Definition index_read {A} (f : gmap string RawArchiveIndex → res A) : IngestIO A := index_call (λ t, (f t, t)).
Definition reserve (v : RawMessage) : IngestIO (RawMessage * bool) :=
  store_call sched (λ w, let '(a, t) := ReserveRawMessage v (iw_reservations w) in
                         (a, w <| iw_reservations := t |>)).
Definition clock_millis : IngestIO Z := now ← observe clock; mret (now / 1000000).

(** ** The protocol of a product *)

Definition protocolCacheTTL : Z := 2000000000.
Definition tenant_protocols (tenant : string) (w : ingest_world) : tenantProtocols :=
  default new_tenantProtocols (iw_cache w !! tenant).
Definition cache_binding (tenant productID : string) (v : cachedBinding) (w : ingest_world) : ingest_world :=
  w <| iw_cache ::= <[tenant := (tenant_protocols tenant w) <| tp_bindings ::= <[productID := v]> |>]> |>.
Definition cache_release (tenant k : string) (v : cachedRelease) (w : ingest_world) : ingest_world :=
  w <| iw_cache ::= <[tenant := (tenant_protocols tenant w) <| tp_releases ::= <[k := v]> |>]> |>.

Definition GetProductProtocolBinding (tenant productID : string) : IngestIO ProductProtocolBinding :=
  store_call sched (λ w, (match iw_bindings w !! store_key [tenant; productID] with
                          | Some v => Ok v | None => Err not_found end, w)).
Definition GetProtocolRelease (tenant protocolID version : string) : IngestIO ProtocolRelease :=
  store_call sched (λ w, (match iw_releases w !! store_key [tenant; protocolID; version] with
                          | Some v => Ok v | None => Err not_found end, w)).

(** A missing binding is kept in the cache too. *)
Definition load_binding (tenant productID : string) : IngestIO (res ProductProtocolBinding) :=
  binding ← store_try (GetProductProtocolBinding tenant productID);
  if match binding with Ok _ => true | Err e => bool_decide (err_is e = NotFound) end then
    now ← observe clock;
    _ ← local_step sched (λ w, (tt, cache_binding tenant productID (mk_cachedBinding binding now) w));
    mret binding
  else mret binding.
Definition productBinding (tenant productID : string) : IngestIO (res ProductProtocolBinding) :=
  entry ← local_step sched (λ w, (tp_bindings (tenant_protocols tenant w) !! productID, w));
  now ← observe clock;
  match entry with
  | Some entry =>
    if decide (now - cb_loadedAt entry < protocolCacheTTL) then mret (cb_binding entry)
    else load_binding tenant productID
  | None => load_binding tenant productID
  end.

(** Only a release that is found is kept. *)
Definition load_release (tenant protocolID version : string) : IngestIO (res ProtocolRelease) :=
  release ← store_try (GetProtocolRelease tenant protocolID version);
  match release with
  | Err _ => mret release
  | Ok v =>
    now ← observe clock;
    _ ← local_step sched
          (λ w, (tt, cache_release tenant (protocolID +:+ "@" +:+ version) (mk_cachedRelease v now) w));
    mret release
  end.
Definition protocolRelease (tenant protocolID version : string) : IngestIO (res ProtocolRelease) :=
  entry ← local_step sched
            (λ w, (tp_releases (tenant_protocols tenant w) !! (protocolID +:+ "@" +:+ version), w));
  now ← observe clock;
  match entry with
  | Some entry =>
    if decide (now - cr_loadedAt entry < protocolCacheTTL) then mret (Ok (cr_release entry))
    else load_release tenant protocolID version
  | None => load_release tenant protocolID version
  end.

(** A message without a protocol gets the one its product is bound to. *)
Definition bind_protocol (raw : RawMessage) : IngestIO RawMessage :=
  if decide (rm_ProtocolID raw = "" ∨ rm_ProtocolVersion raw = "") then
    binding ← productBinding (rm_TenantID raw) (rm_ProductID raw);
    match binding with
    | Err _ => mret raw
    | Ok b =>
      let raw := raw <| rm_ProtocolID := pb_ProtocolID b |> <| rm_ProtocolVersion := pb_Version b |> in
      release ← protocolRelease (rm_TenantID raw) (pb_ProtocolID b) (pb_Version b);
      match release with
      | Ok r => mret (raw <| rm_PointTableVersion := pr_PointTableVersion r |>)
      | Err _ => mret raw
      end
    end
  else mret raw.

(** ** Children of gateways *)

Definition random_text (k : nat) : IngestIO string := observe (λ n, random n k).
(** A failed write of the audit does not fail the action. *)
Definition RecordAudit (entry : AuditLog) : IngestIO unit :=
  audit ← random_text 2;
  let entry := if decide (al_ID entry = "") then entry <| al_ID := "audit_" +:+ audit |> else entry in
  _ ← store_try (store_call sched (λ w, (Ok tt, w <| iw_audits ::= (λ l, l ++ [entry]) |>)));
  mret tt.

Definition child_of (raw : RawMessage) (gateway : ManagedDevice) (secret access : string) (now : Z)
    : ManagedDevice :=
  let name := rm_DeviceName raw in
  zero_ManagedDevice <| d_ID := rm_DeviceID raw |> <| d_TenantID := rm_TenantID raw |>
    <| d_ProductID := rm_ProductID raw |>
    <| d_Name := if decide (name = "") then "子设备 " +:+ rm_DeviceID raw else name |>
    <| d_Status := "ENABLED" |> <| d_DeviceRole := "CHILD" |> <| d_GatewayID := d_ID gateway |>
    <| d_RegistrationSource := "GATEWAY_AUTO" |> <| d_AutoRegistered := true |>
    <| d_AccessKey := "dk_" +:+ access |> <| d_SecretHash := sha256_hex ("child_secret_" +:+ secret) |>
    <| d_SecretHint := "网关托管" |> <| d_CreatedAt := now |> <| d_UpdatedAt := now |>.
Definition register_child (raw : RawMessage) (gateway : ManagedDevice) : IngestIO unit :=
  now ← clock_millis;
  secret ← random_text 0;
  access ← random_text 1;
  let child := child_of raw gateway secret access now in
  saved ← store_try (devices_call (SaveManagedDevice child));
  match saved with
  | Err e => store_fails (wrapf "auto-register child device" e)
  | Ok _ =>
    RecordAudit (mk_AuditLog "" (rm_TenantID raw) ("gateway:" +:+ d_ID gateway)
      "device.child.auto-register" "device" (d_ID child)
      {["gatewayId" := AString (d_ID gateway); "productId" := AString (d_ProductID child)]} now)
  end.

(** The device of a message that names a gateway and is not the gateway. *)
Definition check_child (raw : RawMessage) (gateway : ManagedDevice) : IngestIO unit :=
  child ← store_try (devices_read (GetManagedDevice (rm_TenantID raw) (rm_DeviceID raw)));
  match child with
  | Ok child =>
    if decide (d_DeviceRole child ≠ "CHILD" ∨ d_GatewayID child ≠ d_ID gateway) then
      store_fails (permanent ("device " +:+ d_ID child +:+ " is already registered outside gateway "
                              +:+ d_ID gateway))
    else if decide (d_ProductID child ≠ rm_ProductID raw) then
      store_fails (permanent "child device product does not match its registration")
    else mret tt
  | Err e =>
    if decide (err_is e = NotFound) then register_child raw gateway
    else store_fails (wrapf ("load child device " +:+ rm_DeviceID raw) e)
  end.
Definition check_product (raw : RawMessage) : IngestIO unit :=
  if decide (rm_ProductID raw = "") then store_fails (permanent "child productId is required")
  else
    product ← store_try (devices_read (GetProduct (rm_TenantID raw) (rm_ProductID raw)));
    match product with
    | Ok p => if decide (p_Status p ≠ "ENABLED") then store_fails (permanent "child product is not enabled")
              else mret tt
    | Err e => if decide (err_is e = NotFound) then store_fails (permanent "child product is not enabled")
               else store_fails (wrapf ("load child product " +:+ rm_ProductID raw) e)
    end.
Definition ensureGatewayChild (raw : RawMessage) : IngestIO unit :=
  if decide (rm_GatewayID raw = "" ∨ rm_DeviceID raw = rm_GatewayID raw) then mret tt
  else
    gateway ← store_try (devices_read (GetManagedDevice (rm_TenantID raw) (rm_GatewayID raw)));
    match gateway with
    | Err e =>
      if decide (err_is e = NotFound)
      then store_fails (permanent ("gateway " +:+ rm_GatewayID raw +:+ " is not registered"))
      else store_fails (wrapf ("load gateway " +:+ rm_GatewayID raw) e)
    | Ok gateway =>
      if decide (¬ IsGateway gateway)
      then store_fails (permanent ("device " +:+ d_ID gateway +:+ " is not configured as a gateway"))
      else _ ← check_product raw; check_child raw gateway
    end.

(** ** Archiving *)

(** The database depends on how often the device reports. *)
Definition PutRaw (v : RawMessage) : IngestIO RawArchiveIndex :=
  state ← store_try (devices_read (GetDeviceState (rm_TenantID v) (rm_DeviceID v)));
  '(previous, threshold) ← local_step sched (λ w,
    let '(previous, s) := note_arrival v (iw_store w) in
    ((previous, rs_highFrequencyIntervalSec s), w <| iw_store := s |>));
  let '(interval, lastSeen) :=
    match state with Ok s => (ds_ReportIntervalSec s, ds_LastSeenAt s) | Err _ => (0, 0) end in
  let backend := backend_of threshold interval lastSeen previous (rm_ReceivedAt v) in
  used ← store_call sched (λ w, let '(a, s) := save_in_database backend v (iw_store w) in
                                (a, w <| iw_store := s |>));
  now ← clock_millis;
  mret (raw_index used now v).
Definition engine_GetRaw (v : RawArchiveIndex) : IngestIO RawMessage :=
  store_call sched (λ w, (GetRaw legacy v (iw_store w), w)).

(** ** Publishing *)

Definition raw_event (raw : RawMessage) : bus_event :=
  mk_bus_event TopicRaw (DeviceKey (rm_TenantID raw) (rm_DeviceID raw)) (default [] (marshal raw)).
Definition bus_publish (ev : bus_event) : IngestIO unit :=
  store_call sched (λ w, (Ok tt, w <| iw_bus ::= (λ l, l ++ [ev]) |>)).
Definition mark_published (v : RawArchiveIndex) (at_ : Z) (lastError : string) : IngestIO unit :=
  index_call (MarkRawPublished (ri_TenantID v) (ri_MessageID v) at_ lastError).
Definition publishArchivedRaw (v : RawArchiveIndex) (raw : RawMessage) : IngestIO unit :=
  sent ← store_try (bus_publish (raw_event raw));
  match sent with
  | Err e => _ ← store_try (mark_published v 0 (err_text e)); store_fails (wrapf "publish archived raw" e)
  | Ok _ =>
    now ← clock_millis;
    marked ← store_try (mark_published v now "");
    match marked with Err e => store_fails (wrapf "mark raw published" e) | Ok _ => mret tt end
  end.

(** ** Ingestion *)

Definition other_content (existing : RawArchiveIndex) (raw : RawMessage) : Prop :=
  ri_PayloadHash existing ≠ PayloadHash raw ∨ ri_DeviceID existing ≠ rm_DeviceID raw
  ∨ ri_ProductID existing ≠ rm_ProductID raw.
#[export] Instance other_content_dec existing raw : Decision (other_content existing raw).
Proof using. unfold other_content. apply _. Defined.

(** A message that was seen before: its entry, if it was indexed. *)
Definition seen_before (raw : RawMessage) (receivedAt : Z) : IngestIO (option RawArchiveIndex) :=
  existing ← store_try (index_read (GetRawIndexAt (rm_TenantID raw) (rm_MessageID raw) receivedAt));
  match existing with
  | Err e => if decide (err_is e = NotFound) then mret None
             else store_fails (wrapf "read reserved raw index" e)
  | Ok existing =>
    if decide (other_content existing raw) then store_fails ErrRawConflict
    else if decide (ri_PublishedAt existing = 0) then
      stored ← store_try (engine_GetRaw existing);
      match stored with
      | Err e => store_fails (wrapf "read pending raw" e)
      | Ok stored => _ ← publishArchivedRaw existing stored; mret (Some existing)
      end
    else mret (Some existing)
  end.
Definition archive_new (raw : RawMessage) : IngestIO (RawArchiveIndex * bool) :=
  archived ← store_try (PutRaw raw);
  match archived with
  | Err e => store_fails (wrapf "archive raw" e)
  | Ok idx =>
    created ← store_try (index_call (SaveRawIndex idx));
    match created with
    | Err e => store_fails (wrapf "index raw" e)
    | Ok true => _ ← publishArchivedRaw idx raw; mret (idx, true)
    | Ok false =>
      existing ← index_read (GetRawIndexAt (rm_TenantID raw) (rm_MessageID raw) (rm_ReceivedAt raw));
      if decide (other_content existing raw) then store_fails ErrRawConflict else mret (existing, false)
    end
  end.
(** From the prepared message on. *)
Definition ingest_prepared (raw : RawMessage) : IngestIO (RawArchiveIndex * bool) :=
  got ← store_try (reserve raw);
  match got with
  | Err e =>
    if decide (err_is e = Conflict) then
      _ ← store_try (index_read (GetRawIndex (rm_TenantID raw) (rm_MessageID raw)));
      store_fails ErrRawConflict
    else store_fails e
  | Ok (reserved, newReservation) =>
    seen ← if newReservation : bool then mret None else seen_before raw (rm_ReceivedAt reserved);
    match seen with
    | Some existing => mret (existing, false)
    | None => archive_new reserved
    end
  end.
Definition IngestRaw (raw : RawMessage) : IngestIO (RawArchiveIndex * bool) :=
  refused ← observe paused;
  if refused : bool then store_fails ErrBackpressure
  else
    now ← observe clock;
    raw ← bind_protocol (Normalize now raw);
    match Validate raw with
    | Err e => store_fails e
    | Ok _ => _ ← ensureGatewayChild raw; ingest_prepared raw
    end.

(** ** The job for what was not published *)

Definition retry_entry (v : RawArchiveIndex) : IngestIO unit :=
  raw ← store_try (engine_GetRaw v);
  match raw with
  | Err e => _ ← store_try (mark_published v 0 (err_text e)); mret tt
  | Ok raw => _ ← store_try (publishArchivedRaw v raw); mret tt
  end.
Fixpoint retry_entries (l : list RawArchiveIndex) : IngestIO unit :=
  match l with
  | [] => mret tt
  | v :: l => _ ← retry_entry v; retry_entries l
  end.
Definition retryPendingRawOnce : IngestIO unit :=
  got ← store_try (index_read (λ t, Ok (ListPendingRawIndexes 200 t)));
  match got with
  | Err e => store_fails (wrapf "list pending raw" e)
  | Ok l => retry_entries l
  end.
End ingest.
