(* ===== verification/RawProofs.v ===== *)
(** The ledger of raw messages: what the reservations, the archive index, the
    message tables and the events published say about each other, and that
    every step of ingestion keeps it. *)
From S2P Require Import Prelude GoText GbCodec StoreIO AlarmModel AlarmStore DeviceModel RawModel.
From S2P Require Import RawIngest.

(** ** Messages that JSON gives back *)

Section coded.
Context `{RawCodec}.
Implicit Types (m : RawMessage).

Definition with_payload (p : string) m : RawMessage := m <| rm_Payload := p |>.
(** The head of a message is all of it but the payload. *)
Definition head_of m : RawMessage := with_payload "" m.

(** The text of a payload after a copy through JSON: [json.Marshal] leaves out
    white space and escapes some characters. *)
Definition compact (p : string) : string := rm_Payload (clone (with_payload p zero_RawMessage)).
(** The payload is JSON text: it can be copied, and its copy is not changed by
    another one. *)
Definition payload_json (p : string) : Prop :=
  clone (with_payload p zero_RawMessage) = with_payload (compact p) zero_RawMessage ∧
  clone (with_payload (compact p) zero_RawMessage) = with_payload (compact p) zero_RawMessage.
(** The rest of the message is given back as it is. *)
Definition head_ok m : Prop :=
  (∀ p, payload_json p → clone (with_payload p m) = with_payload (compact p) m) ∧
  head_of (clone (head_of m)) = head_of m.
(** A message as JSON gives it back. *)
Definition json_copy m : RawMessage := with_payload (compact (rm_Payload m)) m.

Lemma with_payload_with p q m : with_payload p (with_payload q m) = with_payload p m.
Proof. by destruct m. Qed.
Lemma with_payload_own m : with_payload (rm_Payload m) m = m.
Proof. by destruct m. Qed.
Lemma with_payload_head m m' p : head_of m = head_of m' → with_payload p m = with_payload p m'.
Proof.
  intros E%(f_equal (with_payload p)). unfold head_of in E. by rewrite !with_payload_with in E.
Qed.
Lemma head_ok_head m m' : head_of m = head_of m' → head_ok m → head_ok m'.
Proof.
  intros E [Hp Hh]. split.
  - intros p Hok. rewrite <-(with_payload_head m m' p E), <-(with_payload_head m m' _ E). auto.
  - by rewrite <-E.
Qed.
Lemma head_of_idemp m : head_of (head_of m) = head_of m.
Proof. apply with_payload_with. Qed.
Lemma compact_again p : payload_json p → compact (compact p) = compact p.
Proof. intros [_ E%(f_equal rm_Payload)]. exact E. Qed.
Lemma payload_json_compact p : payload_json p → payload_json (compact p).
Proof. intros Hp. unfold payload_json. rewrite !(compact_again p Hp). by split; apply Hp. Qed.
Lemma head_of_copy m : head_of (json_copy m) = head_of m.
Proof. apply with_payload_with. Qed.
Lemma clone_copy m : head_ok m → payload_json (rm_Payload m) → clone m = json_copy m.
Proof. intros [Hc _] Hp. specialize (Hc _ Hp). by rewrite with_payload_own in Hc. Qed.
Lemma clone_copy_again m : head_ok m → payload_json (rm_Payload m) → clone (json_copy m) = json_copy m.
Proof.
  intros Hm Hp. pose proof (head_ok_head _ (json_copy m) (eq_sym (head_of_copy m)) Hm) as Hm'.
  rewrite (clone_copy _ Hm'); [|by apply payload_json_compact].
  unfold json_copy. rewrite with_payload_with. cbn [rm_Payload with_payload set]. by rewrite (compact_again _ Hp).
Qed.

(** What the head decides. *)
Lemma head_key m m' : head_of m = head_of m' → raw_key m = raw_key m'.
Proof.
  intros E. pose proof (f_equal rm_TenantID E) as E1. pose proof (f_equal rm_MessageID E) as E2.
  cbn in E1, E2. unfold raw_key. by rewrite E1, E2.
Qed.

(** ** Messages of a reservation *)

Implicit Types (v : rawReservation) (i : RawArchiveIndex).

(** [m] is what was first received under this identity, with a JSON payload
    of the reserved digest. *)
Record of_reservation v m : Prop := {
  or_head : head_of m = head_of (rv_Metadata v);
  or_payload : payload_json (rm_Payload m);
  or_hash : PayloadHash m = rv_Hash v }.

Lemma of_reservation_clone v m :
  head_ok (rv_Metadata v) → of_reservation v m → clone m = json_copy m ∧ clone (json_copy m) = json_copy m.
Proof.
  intros Hv [Eh Hp _]. apply (head_ok_head _ m) in Hv; [|done].
  split; [by apply clone_copy|by apply clone_copy_again].
Qed.
Lemma copy_key m : raw_key (json_copy m) = raw_key m.
Proof. apply head_key, head_of_copy. Qed.
Lemma of_reservation_key v m m' : of_reservation v m → of_reservation v m' → raw_key m = raw_key m'.
Proof. intros [E _ _] [E' _ _]. apply head_key. congruence. Qed.

(** An event that publishes the message, or its copy. *)
Definition publishes e m : Prop := e = raw_event m ∨ e = raw_event (json_copy m).

(** The entry is about the message. *)
Record describes i m : Prop := {
  de_tenant : ri_TenantID i = rm_TenantID m; de_id : ri_MessageID i = rm_MessageID m;
  de_product : ri_ProductID i = rm_ProductID m; de_device : ri_DeviceID i = rm_DeviceID m;
  de_received : ri_ReceivedAt i = rm_ReceivedAt m; de_hash : ri_PayloadHash i = PayloadHash m }.

Lemma describes_same v i m m' :
  of_reservation v m → of_reservation v m' → describes i m → describes i m'.
Proof.
  intros [E _ Eh] [E' _ Eh'] [D1 D2 D3 D4 D5 D6]. assert (head_of m = head_of m') as Em by congruence.
  pose proof (f_equal rm_TenantID Em) as F1. pose proof (f_equal rm_MessageID Em) as F2.
  pose proof (f_equal rm_ProductID Em) as F3. pose proof (f_equal rm_DeviceID Em) as F4.
  pose proof (f_equal rm_ReceivedAt Em) as F5. cbn in F1, F2, F3, F4, F5.
  split; congruence.
Qed.
Lemma describes_key i m : describes i m → index_key i = raw_key m.
Proof. intros [E1 E2 _ _ _ _]. unfold index_key, raw_key. by rewrite E1, E2. Qed.
Lemma describes_raw_index backend now m : describes (raw_index backend now m) m.
Proof. by split. Qed.

(** The part of an entry that never changes. *)
Definition archive_part i : RawArchiveIndex :=
  i <| ri_PublishedAt := 0 |> <| ri_PublishAttempts := 0 |> <| ri_LastPublishError := "" |>
    <| ri_ParseAttemptedAt := 0 |> <| ri_ParseError := "" |>.
Lemma archive_part_published at_ err i : archive_part (published_entry at_ err i) = archive_part i.
Proof. unfold published_entry. destruct i. by case_decide. Qed.
Lemma describes_part i i' m : archive_part i = archive_part i' → describes i m → describes i' m.
Proof.
  intros E [D1 D2 D3 D4 D5 D6].
  pose proof (f_equal ri_TenantID E) as F1. pose proof (f_equal ri_MessageID E) as F2.
  pose proof (f_equal ri_ProductID E) as F3. pose proof (f_equal ri_DeviceID E) as F4.
  pose proof (f_equal ri_ReceivedAt E) as F5. pose proof (f_equal ri_PayloadHash E) as F6.
  cbn in F1, F2, F3, F4, F5, F6. split; congruence.
Qed.
Lemma bucket_part i i' : archive_part i = archive_part i' → ri_ObjectBucket i = ri_ObjectBucket i'.
Proof. intros E%(f_equal ri_ObjectBucket). exact E. Qed.
End coded.

(** ** The ledger *)

Section ledger.
Context `{AlarmDetails, RawCodec}.
Implicit Types (w : ingest_world) (m : RawMessage) (i : RawArchiveIndex) (v : rawReservation).

(** The message table of a bucket. *)
Definition table (bucket : string) w : option (gmap string RawMessage) :=
  if decide (bucket = PostgreSQLBucket) then rs_postgres (iw_store w)
  else if decide (bucket = ClickHouseBucket) then rs_clickhouse (iw_store w)
  else None.
Definition utf8 (s : string) : Prop := valid_utf8 (bytes_of s) = true.

Record raw_ok w : Prop := {
  (** A reservation is under the key of its message. *)
  ro_reserved : ∀ k v, iw_reservations w !! k = Some v →
    head_ok (rv_Metadata v) ∧ raw_key (rv_Metadata v) = k ∧ head_of (rv_Metadata v) = rv_Metadata v;
  (** A table holds only copies of what was reserved. *)
  ro_tables : ∀ b t k m, table b w = Some t → t !! k = Some m →
    ∃ v m0, iw_reservations w !! k = Some v ∧ of_reservation v m0 ∧ m = json_copy m0;
  (** What is indexed is archived. *)
  ro_index : ∀ k i, iw_raw w !! k = Some i →
    ∃ v t m, iw_reservations w !! k = Some v ∧ of_reservation v m ∧ describes i m ∧
      table (ri_ObjectBucket i) w = Some t ∧ t !! k = Some (json_copy m);
  (** What is marked as published was published. *)
  ro_published : ∀ k i, iw_raw w !! k = Some i → ri_PublishedAt i ≠ 0 →
    ∃ v m e, iw_reservations w !! k = Some v ∧ of_reservation v m ∧ publishes e m ∧ e ∈ iw_bus w;
  (** What was published is indexed. *)
  ro_bus : ∀ e, e ∈ iw_bus w → be_topic e = TopicRaw →
    ∃ k v m, iw_reservations w !! k = Some v ∧ of_reservation v m ∧ publishes e m ∧ is_Some (iw_raw w !! k);
  (** The names of protocols are texts. *)
  ro_bindings : ∀ k b, iw_bindings w !! k = Some b → utf8 (pb_ProtocolID b) ∧ utf8 (pb_Version b);
  ro_releases : ∀ k r, iw_releases w !! k = Some r → utf8 (pr_PointTableVersion r);
  ro_cached_binding : ∀ tenant k c b, tp_bindings (tenant_protocols tenant w) !! k = Some c →
    cb_binding c = Ok b → utf8 (pb_ProtocolID b) ∧ utf8 (pb_Version b);
  ro_cached_release : ∀ tenant k c, tp_releases (tenant_protocols tenant w) !! k = Some c →
    utf8 (pr_PointTableVersion (cr_release c)) }.

(** Nothing is forgotten. *)
Record moves w w' : Prop := {
  mv_reserved : iw_reservations w ⊆ iw_reservations w';
  mv_tables : ∀ b t, table b w = Some t → ∃ t', table b w' = Some t' ∧ t ⊆ t';
  mv_index : ∀ k i, iw_raw w !! k = Some i →
    ∃ i', iw_raw w' !! k = Some i' ∧ archive_part i = archive_part i';
  mv_bus : iw_bus w `prefix_of` iw_bus w' }.
#[export] Instance moves_preorder : PreOrder moves.
Proof.
  split.
  - intros w. split; [done| |by eauto|done]. intros b t Ht. by exists t.
  - intros w1 w2 w3 [R1 T1 I1 B1] [R2 T2 I2 B2]. split; [by etrans| | |by etrans].
    + intros b t (t' & Ht' & Hs)%T1. destruct (T2 _ _ Ht') as (t'' & Ht'' & Hs').
      exists t''. split; [done|]. by etrans.
    + intros k i (i' & Hi' & E)%I1. destruct (I2 _ _ Hi') as (i'' & Hi'' & E').
      exists i''. split; [done|]. congruence.
Qed.

(** ** Steps *)

(** The parts of the world that the ledger is about. *)
Record same_ledger w w' : Prop := {
  sl_reserved : iw_reservations w' = iw_reservations w;
  sl_tables : ∀ b, table b w' = table b w;
  sl_index : iw_raw w' = iw_raw w;
  sl_bus : iw_bus w' = iw_bus w }.
Record same_protocols w w' : Prop := {
  sp_bindings : iw_bindings w' = iw_bindings w;
  sp_releases : iw_releases w' = iw_releases w;
  sp_cache : iw_cache w' = iw_cache w }.

Lemma same_ledger_moves w w' : same_ledger w w' → moves w w'.
Proof.
  intros [E1 E2 E3 E4]. split; [by rewrite E1| |rewrite E3; by eauto|by rewrite E4].
  intros b t Ht. rewrite E2. by exists t.
Qed.
Lemma tenant_protocols_cache tenant w w' :
  iw_cache w' = iw_cache w → tenant_protocols tenant w' = tenant_protocols tenant w.
Proof. unfold tenant_protocols. by intros ->. Qed.

Lemma silent_step w w' : raw_ok w → same_ledger w w' → same_protocols w w' → raw_ok w' ∧ moves w w'.
Proof.
  intros [I1 I2 I3 I4 I5 I6 I7 I8 I9] Hs [P1 P2 P3]. split; [|by apply same_ledger_moves].
  destruct Hs as [E1 E2 E3 E4]. split; rewrite ?E1, ?E3, ?E4, ?P1, ?P2; auto.
  - intros b t k m. rewrite E2. apply I2.
  - intros k i Hi. destruct (I3 k i Hi) as (v & t & m & ? & ? & ? & ? & ?). exists v, t, m. by rewrite E2.
  - intros tenant k c b. rewrite (tenant_protocols_cache _ _ _ P3). apply I8.
  - intros tenant k c. rewrite (tenant_protocols_cache _ _ _ P3). apply I9.
Qed.

(** A message of a reservation, among messages with its content. *)
Definition reserved w m : Prop :=
  ∃ v, iw_reservations w !! raw_key m = Some v ∧ of_reservation v m.
Lemma reserved_moves w w' m : moves w w' → reserved w m → reserved w' m.
Proof. intros Hm (v & Hv & Ho). exists v. split; [|done]. by eapply lookup_weaken, mv_reserved. Qed.

(** Reserving an identity: it is new, or the content must be the reserved one. *)
Definition other_message v m : Prop :=
  rv_Hash v ≠ PayloadHash m ∨ rm_ProductID (rv_Metadata v) ≠ rm_ProductID m
  ∨ rm_DeviceID (rv_Metadata v) ≠ rm_DeviceID m.
Definition set_reservations t w : ingest_world := w <| iw_reservations := t |>.

Lemma new_reservation w m :
  raw_ok w → head_ok m → payload_json (rm_Payload m) → iw_reservations w !! raw_key m = None →
  let v := mk_rawReservation ((clone m) <| rm_Payload := "" |>) (PayloadHash m) in
  let w' := set_reservations (<[raw_key m := v]> (iw_reservations w)) w in
  raw_ok w' ∧ moves w w' ∧ reserved w' m.
Proof.
  intros Hw Hh Hp Hnone v w'.
  assert ((clone m) <| rm_Payload := "" |> = head_of m) as Ec
    by (rewrite (clone_copy m Hh Hp); apply head_of_copy).
  assert (of_reservation v m) as Ho.
  { split; [|done|done]. cbv [v rv_Metadata]. rewrite Ec. symmetry. apply (head_of_idemp m). }
  assert (iw_reservations w ⊆ iw_reservations w') as Hsub by by apply insert_subseteq.
  assert (∀ k v0, iw_reservations w !! k = Some v0 → iw_reservations w' !! k = Some v0) as Hkeep
    by (intros; by eapply lookup_weaken).
  split; [|split].
  - destruct Hw as [I1 I2 I3 I4 I5 I6 I7 I8 I9]. split; try done.
    + change (iw_reservations w') with (<[raw_key m := v]> (iw_reservations w)).
      intros k v0 [[<- <-]|[_ Hv]]%lookup_insert_Some; [|by apply I1]. cbv [v rv_Metadata]. rewrite Ec.
      split_and!; [|apply head_key, (head_of_idemp m)|apply (head_of_idemp m)].
      apply (head_ok_head m); [|done]. symmetry. apply (head_of_idemp m).
    + intros b t k m0 Ht Hm. destruct (I2 b t k m0 Ht Hm) as (v0 & m1 & ? & ?). exists v0, m1. auto.
    + intros k i Hi. destruct (I3 k i Hi) as (v0 & t & m0 & ? & ? & ? & ? & ?). exists v0, t, m0. auto.
    + intros k i Hi Hpub. destruct (I4 k i Hi Hpub) as (v0 & m0 & e & ? & ?). exists v0, m0, e. auto.
    + intros e He Ht. destruct (I5 e He Ht) as (k & v0 & m0 & ? & ? & ? & ?). exists k, v0, m0. auto.
  - split; [done| |by eauto|done]. intros b t Ht. by exists t.
  - exists v. split; [apply lookup_insert_eq|done].
Qed.

Lemma reserve_step w m :
  raw_ok w → head_ok m → payload_json (rm_Payload m) →
  let '(r, t) := ReserveRawMessage m (iw_reservations w) in
  let w' := set_reservations t w in
  raw_ok w' ∧ moves w w' ∧
  match r with
  | Ok (m', new) =>
    reserved w' m' ∧ rm_Payload m' = rm_Payload m ∧ raw_key m' = raw_key m ∧
    rm_ProductID m' = rm_ProductID m ∧ rm_DeviceID m' = rm_DeviceID m ∧
    (new = true → iw_raw w !! raw_key m = None)
  | Err e => e = ErrRawConflict ∧ ∃ v, iw_reservations w !! raw_key m = Some v ∧ other_message v m
  end.
Proof.
  intros Hw Hh Hp. unfold ReserveRawMessage. destruct (iw_reservations w !! raw_key m) as [v|] eqn:Hv.
  - assert (set_reservations (iw_reservations w) w = w) as E by (by destruct w).
    destruct (decide _) as [Hd|Hd]; rewrite E; (split; [done|]); (split; [done|]).
    { split; [done|]. by exists v. }
    destruct (ro_reserved _ Hw _ _ Hv) as ([Hc Hhead] & Hkey & Eown).
    apply Decidable.not_or in Hd as [Hd1 Hd]. apply Decidable.not_or in Hd as [Hd2 Hd3].
    apply dec_stable in Hd1, Hd2, Hd3. rewrite Eown in Hhead.
    set (m' := (clone (rv_Metadata v)) <| rm_Payload := _ |>).
    assert (head_of m' = head_of (rv_Metadata v)) as Ehead.
    { unfold m'. change (head_of (clone (rv_Metadata v)) = head_of (rv_Metadata v)). by rewrite Hhead, Eown. }
    assert (raw_key m' = raw_key m) as Ekey by (rewrite <-Hkey; by apply head_key).
    split; [exists v; rewrite Ekey; split; [exact Hv|by split]|]. split; [done|]. split; [exact Ekey|].
    split; [rewrite <-Hd2; exact (f_equal rm_ProductID Ehead)|].
    split; [rewrite <-Hd3; exact (f_equal rm_DeviceID Ehead)|discriminate].
  - pose proof (new_reservation w m Hw Hh Hp Hv) as (? & ? & ?). split_and!; try done.
    intros _. destruct (iw_raw w !! raw_key m) as [i|] eqn:Hi; [|done].
    destruct (ro_index _ Hw _ _ Hi) as (v & ? & ? & Hv' & _). congruence.
Qed.

(** Writing to a database. *)
Definition set_store st w : ingest_world := w <| iw_store := st |>.

Lemma table_put b b' t w :
  b = PostgreSQLBucket ∨ b = ClickHouseBucket →
  table b' (set_store (put_database b t (iw_store w)) w) = if decide (b' = b) then Some t else table b' w.
Proof.
  unfold table, put_database. destruct w as [? ? ? ? ? ? [] ? ?]. intros [-> | ->]; cbn;
    destruct (decide (b' = _)) as [-> |Hne]; cbn; try done; by destruct (decide (b' = _)).
Qed.
Lemma database_table b s used t w :
  iw_store w = s → database b s = Some (used, t) →
  (used = PostgreSQLBucket ∨ used = ClickHouseBucket) ∧ table used w = Some t.
Proof.
  intros <-. unfold database, table. destruct (iw_store w) as [pg ch ? ? ?]; cbn.
  destruct (decide (b = _)), pg, ch; cbn; intros [= <- <-]; cbn; auto.
Qed.

(** What a table holds of the message: the copy of a message with its
    reservation. *)
Definition stored_copy b m w : Prop :=
  ∃ t m' v, table b w = Some t ∧ t !! raw_key m = Some (json_copy m') ∧
    iw_reservations w !! raw_key m = Some v ∧ of_reservation v m' ∧ of_reservation v m.
(** A table holds a copy of the message whose digest is another one: the
    payload was not compact. *)
Definition copy_differs m w : Prop :=
  ∃ b t m' v, table b w = Some t ∧ t !! raw_key m = Some (json_copy m') ∧
    iw_reservations w !! raw_key m = Some v ∧ of_reservation v m' ∧ of_reservation v m ∧
    PayloadHash (json_copy m') ≠ PayloadHash m.
Lemma copy_differs_moves w w' m : moves w w' → copy_differs m w → copy_differs m w'.
Proof.
  intros Hm (b & t & m' & v & Ht & Hm' & Hv & Hrest).
  destruct (mv_tables _ _ Hm _ _ Ht) as (t' & Ht' & Hsub).
  exists b, t', m', v. split_and!; try done; try apply Hrest; [by eapply lookup_weaken|].
  by eapply lookup_weaken, mv_reserved.
Qed.

Lemma save_message_step b w m :
  raw_ok w → reserved w m →
  let '(r, st) := save_in_database b m (iw_store w) in
  let w' := set_store st w in
  raw_ok w' ∧ moves w w' ∧
  match r with
  | Ok used => stored_copy used m w'
  | Err e => e = no_database ∨ e = ErrRawConflict ∧ copy_differs m w'
  end.
Proof.
  intros Hw (v & Hv & Ho). unfold save_in_database.
  destruct (database b (iw_store w)) as [[used t]|] eqn:Hd.
  2:{ assert (set_store (iw_store w) w = w) as -> by (by destruct w). split_and!; try done. by left. }
  apply (database_table _ _ _ _ w eq_refl) in Hd as [Hused Ht]. unfold SaveRawMessage.
  destruct (t !! raw_key m) as [old|] eqn:Hold.
  - destruct (ro_tables _ Hw _ _ _ _ Ht Hold) as (v' & m0 & Hv' & Ho' & ->). assert (v' = v) as -> by congruence.
    assert (head_of (json_copy m0) = head_of m) as Eh
      by (rewrite head_of_copy, (or_head _ _ Ho'); symmetry; apply (or_head _ _ Ho)).
    set (w' := set_store (put_database used t (iw_store w)) w).
    assert (∀ b', table b' w' = table b' w) as Etab.
    { intros b'. unfold w'. rewrite table_put by done. destruct (decide (b' = used)) as [-> |]; congruence. }
    destruct (silent_step w w' Hw) as [Hw' Hm]; [by split|by split|].
    destruct (decide _) as [Hne|_]; (split; [done|]); (split; [done|]).
    + right. split; [done|]. exists used, t, m0, v. rewrite Etab. split_and!; try done.
      destruct Hne as [Hne|Hne]; [done|]. pose proof (f_equal rm_DeviceID Eh) as E1.
      pose proof (f_equal rm_ProductID Eh) as E2. cbn in E1, E2. tauto.
    + exists t, m0, v. by rewrite Etab.
  - set (w' := set_store _ w). set (t' := <[raw_key m := clone m]> t) in *.
    assert (∀ b', table b' w' = if decide (b' = used) then Some t' else table b' w) as Etab
      by (intros b'; unfold w'; by rewrite table_put).
    assert (clone m = json_copy m) as Ec by (eapply of_reservation_clone; [by eapply ro_reserved|done]).
    assert (t ⊆ t') as Hsub by (by apply insert_subseteq).
    split; [|split].
    + destruct Hw as [I1 I2 I3 I4 I5 I6 I7 I8 I9]. split; try done.
      * intros b' t0 k m0. rewrite Etab. destruct (decide (b' = used)) as [-> |]; [|apply I2].
        intros [= <-]. unfold t'. intros [[<- <-]|[_ Hm0]]%lookup_insert_Some; [|by eapply I2].
        by exists v, m.
      * intros k i Hi. destruct (I3 k i Hi) as (v0 & t0 & m0 & ? & ? & ? & Ht0 & Hm0).
        rewrite Etab. destruct (decide (ri_ObjectBucket i = used)) as [E|].
        -- exists v0, t', m0. split_and!; try done. rewrite E in Ht0.
           assert (t0 = t) as -> by congruence. by eapply lookup_weaken.
        -- by exists v0, t0, m0.
    + split; [done| |by eauto|done]. intros b' t0 Ht0. rewrite Etab.
      destruct (decide (b' = used)) as [-> |]; [|by exists t0]. exists t'. split; [done|].
      rewrite Ht in Ht0. by injection Ht0 as <-.
    + exists t', m, v. rewrite Etab, decide_True by done. split_and!; try done.
      unfold t'. by rewrite lookup_insert_eq, Ec.
Qed.

(** Indexing what is archived. *)
Definition set_index t w : ingest_world := w <| iw_raw := t |>.

Lemma index_step (f : RawArchiveIndex → RawArchiveIndex) w k i t :
  raw_ok w → iw_raw w !! k = Some i → t = <[k := f i]> (iw_raw w) → archive_part (f i) = archive_part i →
  (ri_PublishedAt (f i) ≠ 0 → ri_PublishedAt i = 0 →
    ∃ v m e, iw_reservations w !! k = Some v ∧ of_reservation v m ∧ publishes e m ∧ e ∈ iw_bus w) →
  raw_ok (set_index t w) ∧ moves w (set_index t w).
Proof.
  intros [I1 I2 I3 I4 I5 I6 I7 I8 I9] Hi -> Ep Hpub. set (w' := set_index _ w).
  assert (iw_raw w' = <[k := f i]> (iw_raw w)) as E by done. split.
  - split; try done; rewrite ?E.
    + intros k0 i0 [[<- <-]|[_ Hi0]]%lookup_insert_Some; [|by apply I3].
      destruct (I3 _ _ Hi) as (v & t & m & ? & ? & Hd & Ht & ?). exists v, t, m. split_and!; try done.
      * by eapply describes_part.
      * by rewrite (bucket_part _ _ Ep).
    + intros k0 i0 [[<- <-]|[_ Hi0]]%lookup_insert_Some Hne; [|by eapply I4].
      destruct (decide (ri_PublishedAt i = 0)); [by apply Hpub|by eapply I4].
    + intros e He Ht. destruct (I5 e He Ht) as (k0 & v & m & ? & ? & ? & ?). exists k0, v, m.
      split_and!; try done. by apply lookup_insert_is_Some'; right.
  - split; [done|intros b t Ht; by exists t| |done]. rewrite E. intros k0 i0 Hi0.
    destruct (decide (k0 = k)) as [-> |Hne].
    + exists (f i). rewrite lookup_insert_eq. split; [done|]. assert (i0 = i) as -> by congruence. done.
    + exists i0. by rewrite lookup_insert_ne.
Qed.

Lemma save_index_step w m i :
  raw_ok w → describes i m → ri_PublishedAt i = 0 →
  stored_copy (ri_ObjectBucket i) m w →
  let '(r, t) := SaveRawIndex i (iw_raw w) in
  raw_ok (set_index t w) ∧ moves w (set_index t w) ∧
  ∃ created, r = Ok created ∧ is_Some (t !! raw_key m) ∧
    (created = true → t !! raw_key m = Some i) ∧ (created = false → is_Some (iw_raw w !! raw_key m)).
Proof.
  intros Hw Hd Hpub (t & m' & v & Ht & Hm' & Hv & Ho' & Ho). unfold SaveRawIndex.
  rewrite (describes_key _ _ Hd). destruct (iw_raw w !! raw_key m) as [old|] eqn:Hold.
  { assert (set_index (iw_raw w) w = w) as -> by (by destruct w). split; [done|]. split; [done|].
    exists false. rewrite Hold. by eauto. }
  set (w' := set_index _ w). assert (iw_raw w' = <[raw_key m := i]> (iw_raw w)) as E by done.
  split; [|split].
  - destruct Hw as [I1 I2 I3 I4 I5 I6 I7 I8 I9]. split; try done; rewrite ?E.
    + intros k0 i0 [[<- <-]|[_ Hi0]]%lookup_insert_Some; [|by apply I3].
      exists v, t, m'. split_and!; try done. by eapply describes_same.
    + intros k0 i0 [[<- <-]|[_ Hi0]]%lookup_insert_Some Hne; [done|by eapply I4].
    + intros e He Ht0. destruct (I5 e He Ht0) as (k0 & v0 & m0 & ? & ? & ? & ?). exists k0, v0, m0.
      split_and!; try done. by apply lookup_insert_is_Some'; right.
  - split; [done|intros b t0 Ht0; by exists t0| |done]. rewrite E. intros k0 i0 Hi0.
    exists i0. split; [|done]. rewrite lookup_insert_ne; [done|congruence].
  - exists true. rewrite lookup_insert_eq. by eauto.
Qed.

(** Publishing, and marking what was published. *)
Definition add_event e w : ingest_world := w <| iw_bus ::= (λ l, l ++ [e]) |>.

Lemma publish_step w m e :
  raw_ok w → reserved w m → is_Some (iw_raw w !! raw_key m) → publishes e m →
  raw_ok (add_event e w) ∧ moves w (add_event e w).
Proof.
  intros [I1 I2 I3 I4 I5 I6 I7 I8 I9] (v & Hv & Ho) Hi He. set (w' := add_event _ w).
  assert (iw_bus w' = iw_bus w ++ [e]) as E by done. split.
  - split; try done; rewrite ?E.
    + intros k i Hk Hne. destruct (I4 k i Hk Hne) as (v0 & m0 & e0 & ? & ? & ? & ?). exists v0, m0, e0.
      split_and!; try done. apply elem_of_app. by left.
    + intros e0 [He0| ->%list_elem_of_singleton]%elem_of_app Ht; [by apply I5|]. by exists (raw_key m), v, m.
  - split; [done|intros b t Ht; by exists t|by eauto|]. rewrite E. by apply prefix_app_r.
Qed.

Lemma mark_step w i m at_ err :
  raw_ok w → describes i m →
  (err = "" → at_ ≠ 0 → ∃ v m' e, iw_reservations w !! raw_key m = Some v ∧ of_reservation v m' ∧
                        publishes e m' ∧ e ∈ iw_bus w) →
  let '(r, t) := MarkRawPublished (ri_TenantID i) (ri_MessageID i) at_ err (iw_raw w) in
  raw_ok (set_index t w) ∧ moves w (set_index t w).
Proof.
  intros Hw Hd Hpub. unfold MarkRawPublished. fold (index_key i). rewrite (describes_key _ _ Hd).
  destruct (iw_raw w !! raw_key m) as [old|] eqn:Hold.
  2:{ assert (set_index (iw_raw w) w = w) as -> by (by destruct w). done. }
  apply (index_step (published_entry at_ err) w (raw_key m) old _ Hw Hold eq_refl).
  - apply archive_part_published.
  - unfold published_entry. case_decide; cbn; [auto|done].
Qed.

(** What the index says is archived can be read. *)
Lemma indexed_read w legacy k i i' :
  raw_ok w → iw_raw w !! k = Some i → archive_part i = archive_part i' →
  ∃ v m, iw_reservations w !! k = Some v ∧ of_reservation v m ∧ describes i' m ∧ raw_key m = k ∧
    GetRaw legacy i' (iw_store w) = Ok (json_copy m).
Proof.
  intros Hw Hi Ep. destruct (ro_index _ Hw _ _ Hi) as (v & t & m & Hv & Ho & Hd & Ht & Hm).
  destruct (ro_reserved _ Hw _ _ Hv) as (Hh & Hk & _).
  assert (raw_key m = k) as Ekey by (rewrite <-Hk; apply head_key, (or_head _ _ Ho)).
  exists v, m. split_and!; try done; [by eapply describes_part|].
  apply (describes_part _ _ _ Ep) in Hd. rewrite (bucket_part _ _ Ep) in Ht.
  unfold GetRaw, GetRawMessage, table in *. fold (index_key i'). rewrite (describes_key _ _ Hd), Ekey.
  destruct (decide (ri_ObjectBucket i' = _)); [|destruct (decide (ri_ObjectBucket i' = _)); [|done]];
    rewrite Ht, Hm; by rewrite (proj2 (of_reservation_clone v m Hh Ho)).
Qed.

(** What is noted about the device is not in the ledger. *)
Lemma note_arrival_ledger m w : same_ledger w (set_store (note_arrival m (iw_store w)).2 w).
Proof.
  split; try done. intros b. unfold note_arrival, pruneLocked, table. destruct w as [? ? ? ? ? ? [] ? ?].
  cbn. by destruct (decide (_ ∨ _)).
Qed.
End ledger.
