(* ===== verification/RawSteps.v ===== *)
(** The steps of ingestion and of the retry job, each with what it yields
    whatever other processes do between the calls and whichever calls fail. *)
From S2P Require Import Prelude GoText GbCodec StoreIO AlarmModel AlarmStore DeviceModel RawModel.
From S2P Require Import RawIngest.
From S2P Require Import RawProofs.

Section theorems.
Context `{AlarmDetails, RawCodec, MapOrder} (sched : store_schedule ingest_world).
Context (clock : nat → Z) (paused : nat → bool) (random : nat → nat → string).
Context (legacy : option (RawArchiveIndex → res RawMessage)).
Implicit Types (w : ingest_world) (m raw : RawMessage) (i idx : RawArchiveIndex) (v : rawReservation).
Abbreviation IngestIO := (StoreIO ingest_world).

(** The others keep the ledger and forget nothing; a call that fails does not
    claim a conflict or that something is missing. *)
Context (Hrely : ∀ n w, raw_ok w → raw_ok (sc_env sched n w) ∧ moves w (sc_env sched n w)).
Context (Hfail : ∀ n e, sc_fail sched n = Some e → err_is e ≠ Conflict ∧ err_is e ≠ NotFound).

Definition kept w w' : Prop := raw_ok w' ∧ moves w w'.
Lemma kept_refl w : raw_ok w → kept w w.
Proof using. by split. Qed.
#[local] Hint Resolve kept_refl : core.
Lemma kept_trans w w1 w2 : kept w w1 → kept w1 w2 → kept w w2.
Proof using. intros [_ M1] [O2 M2]. split; [done|by etrans]. Qed.

Lemma yields_kept {A} (f : ingest_world → res A * ingest_world) w n (Q : res A → ingest_world * nat → Prop) :
  raw_ok w →
  (∀ e w1, kept w w1 → err_is e ≠ Conflict → err_is e ≠ NotFound → Q (Err e) (w1, S n)) →
  (∀ w1, kept w w1 → Q (f w1).1 ((f w1).2, S n)) →
  yields (store_call sched f) (w, n) Q.
Proof using Hrely Hfail.
  intros Hw He Hok. apply yields_call; [intros e Hf; apply He; [by apply Hrely|by eapply Hfail..]|].
  intros w1 _. by apply Hok, Hrely.
Qed.

(** ** Steps that do not touch the ledger *)

Definition silent {A} (C : error → Prop) (p : IngestIO A) : Prop :=
  ∀ w n, raw_ok w → yields p (w, n) (λ r s, kept w s.1 ∧ ∀ e, r = Err e → C e).

Lemma silent_ret {A} C (a : A) : silent C (mret a : IngestIO A).
Proof using. intros w n Hw. apply yields_ret. split; [auto|done]. Qed.
Lemma silent_fails {A} (C : error → Prop) e : C e → silent C (store_fails e : IngestIO A).
Proof using. intros HC w n Hw. apply yields_fails. split; [auto|]. by intros ? [= <-]. Qed.
Lemma silent_observe {A} C (f : nat → A) : silent C (observe f : IngestIO A).
Proof using. intros w n Hw. apply yields_observe. split; [auto|done]. Qed.
Lemma silent_bind {A B} C (p : IngestIO A) (f : A → IngestIO B) :
  silent C p → (∀ a, silent C (f a)) → silent C (p ≫= f).
Proof using.
  intros Hp Hf w n Hw. apply yields_bind. eapply yields_mono; [by apply Hp|].
  intros [a|e] [w1 n1] [Hk HC]; cbn in Hk; [|split; [done|intros ? [= <-]; by apply HC]].
  eapply yields_mono; [apply Hf, Hk|]. intros r s [Hk1 HC1]. split; [by eapply kept_trans|done].
Qed.
Lemma silent_try {A} C C' (p : IngestIO A) : silent C' p → silent C (store_try p).
Proof using.
  intros Hp w n Hw. apply yields_try. eapply yields_mono; [by apply Hp|]. intros r s [Hk _]. by split.
Qed.
Lemma silent_call {A} (C : error → Prop) (f : ingest_world → res A * ingest_world) :
  (∀ w, same_ledger w (f w).2 ∧ same_protocols w (f w).2) → silent (λ _, True) (store_call sched f).
Proof using Hrely Hfail.
  intros Hf w n Hw. apply yields_kept; [done|by split|]. intros w1 Hk. split; [|done]. cbn [fst snd].
  eapply kept_trans; [done|]. destruct (Hf w1). apply silent_step; [apply Hk|done..].
Qed.
Lemma silent_local {A} C (f : ingest_world → A * ingest_world) :
  (∀ w, raw_ok w → kept w (f w).2) → silent C (local_step sched f).
Proof using Hrely.
  intros Hf w n Hw. apply yields_local. intros w1. split; [|done]. cbn [fst snd].
  eapply kept_trans; [by apply Hrely|]. apply Hf. by apply Hrely.
Qed.
Lemma silent_weaken {A} (C C' : error → Prop) (p : IngestIO A) : (∀ e, C e → C' e) → silent C p → silent C' p.
Proof using. intros HC Hp w n Hw. eapply yields_mono; [by apply Hp|]. intros r s [? ?]. split; [done|auto]. Qed.

Abbreviation no_conflict := (λ e : error, err_is e ≠ Conflict).
Lemma silent_devices {A} (f : device_repo → res A * device_repo) :
  (∀ r e, (f r).1 = Err e → err_is e ≠ Conflict) → silent no_conflict (devices_call sched f).
Proof using Hrely Hfail.
  intros Hf w n Hw. unfold devices_call. apply yields_kept; [done|..].
  - intros e w1 Hk He _. split; [done|]. by intros ? [= <-].
  - intros w1 Hk. destruct (f (iw_repo w1)) as [a r] eqn:Ef. cbn [fst snd]. split.
    + eapply kept_trans; [done|]. apply silent_step; [apply Hk|by split..].
    + intros e ->. apply (Hf (iw_repo w1)). by rewrite Ef.
Qed.
(** The error of a call that the code looks at is not a conflict. *)
Lemma silent_tried {A B} (p : IngestIO A) (k : res A → IngestIO B) :
  silent no_conflict p → (∀ a, silent no_conflict (k (Ok a))) →
  (∀ e, err_is e ≠ Conflict → silent no_conflict (k (Err e))) → silent no_conflict (store_try p ≫= k).
Proof using.
  intros Hp Hok Herr w n Hw. apply yields_bind, yields_try. eapply yields_mono; [by apply Hp|].
  intros r [w1 n1] [Hk HC]. cbn [fst] in Hk.
  destruct r as [a|e]; (eapply yields_mono; [first [apply Hok|apply Herr; [by apply HC|]]; apply Hk|]);
    (intros r s [Hk1 HC1]; split; [by eapply kept_trans|done]).
Qed.

Lemma silent_get_device tenant id : silent no_conflict (devices_read sched (GetManagedDevice tenant id)).
Proof using Hrely Hfail.
  apply silent_devices. intros r e. cbn. unfold GetManagedDevice. destruct (_ !! _); [done|by intros [= <-]].
Qed.
Lemma silent_get_product tenant id : silent no_conflict (devices_read sched (GetProduct tenant id)).
Proof using Hrely Hfail.
  apply silent_devices. intros r e. cbn. unfold GetProduct. destruct (_ !! _); [done|by intros [= <-]].
Qed.
Lemma silent_get_state tenant id : silent no_conflict (devices_read sched (GetDeviceState tenant id)).
Proof using Hrely Hfail.
  apply silent_devices. intros r e. cbn. unfold GetDeviceState. destruct (_ !! _); [done|by intros [= <-]].
Qed.
Lemma silent_ensureGatewayChild raw : silent no_conflict (ensureGatewayChild sched clock random raw).
Proof using Hrely Hfail.
  assert (∀ A t, silent no_conflict (store_fails (permanent t) : IngestIO A)) as Hperm
    by (intros; by apply silent_fails).
  assert (∀ A p e, err_is e ≠ Conflict → silent no_conflict (store_fails (wrapf p e) : IngestIO A)) as Hwrap
    by (intros; by apply silent_fails).
  unfold ensureGatewayChild. case_decide; [apply silent_ret|].
  apply silent_tried; [apply silent_get_device|intros gateway|intros e He; case_decide; [apply Hperm|by apply Hwrap]].
  case_decide; [apply Hperm|]. apply silent_bind.
  { unfold check_product. case_decide; [apply Hperm|].
    apply silent_tried; [apply silent_get_product|intros p|intros e He]; case_decide; auto using silent_ret. }
  intros _. unfold check_child.
  apply silent_tried; [apply silent_get_device|intros child; repeat case_decide; auto using silent_ret|intros e He].
  case_decide; [|by apply Hwrap]. unfold register_child, clock_millis, random_text.
  apply silent_bind; [apply silent_bind; [apply silent_observe|intros ?; apply silent_ret]|]. intros now.
  apply silent_bind; [apply silent_observe|]. intros secret. apply silent_bind; [apply silent_observe|]. intros access.
  apply silent_tried; [|intros ?|intros e' He'; by apply Hwrap].
  { apply silent_devices. intros r e'. unfold SaveManagedDevice. case_decide; [done|by intros [= <-]]. }
  unfold RecordAudit, random_text. apply silent_bind; [apply silent_observe|]. intros audit.
  apply silent_bind; [|intros; apply silent_ret]. eapply silent_try, (silent_call (λ _, True)). by intros w'.
Qed.

(** ** The protocol of a message *)

Definition binding_ok (r : res ProductProtocolBinding) : Prop :=
  ∀ b, r = Ok b → utf8 (pb_ProtocolID b) ∧ utf8 (pb_Version b).
Definition release_ok (r : res ProtocolRelease) : Prop := ∀ rel, r = Ok rel → utf8 (pr_PointTableVersion rel).

Lemma cache_binding_kept tenant k c w :
  raw_ok w → binding_ok (cb_binding c) → kept w (cache_binding tenant k c w).
Proof using.
  intros [I1 I2 I3 I4 I5 I6 I7 I8 I9] Hc. set (w' := cache_binding _ _ _ w).
  assert (same_ledger w w') as Hs by by split. split; [|by apply same_ledger_moves].
  destruct Hs as [E1 E2 E3 E4]. split; try done.
  - intros tenant0 k0 c0 b0. unfold tenant_protocols, w'. cbn.
    destruct (decide (tenant0 = tenant)) as [-> |Hne].
    2:{ rewrite lookup_insert_ne by done. apply I8. }
    rewrite lookup_insert_eq. cbn. intros [[<- <-]|[_ Hk]]%lookup_insert_Some Hb; [by apply Hc|].
    by eapply I8.
  - intros tenant0 k0 c0. unfold tenant_protocols, w'. cbn.
    destruct (decide (tenant0 = tenant)) as [-> |Hne].
    + rewrite lookup_insert_eq. cbn. by apply I9.
    + rewrite lookup_insert_ne by done. apply I9.
Qed.
Lemma cache_release_kept tenant k c w :
  raw_ok w → utf8 (pr_PointTableVersion (cr_release c)) → kept w (cache_release tenant k c w).
Proof using.
  intros [I1 I2 I3 I4 I5 I6 I7 I8 I9] Hc. set (w' := cache_release _ _ _ w).
  assert (same_ledger w w') as Hs by by split. split; [|by apply same_ledger_moves].
  destruct Hs as [E1 E2 E3 E4]. split; try done.
  - intros tenant0 k0 c0 b0. unfold tenant_protocols, w'. cbn.
    destruct (decide (tenant0 = tenant)) as [-> |Hne].
    + rewrite lookup_insert_eq. cbn. by apply I8.
    + rewrite lookup_insert_ne by done. apply I8.
  - intros tenant0 k0 c0. unfold tenant_protocols, w'. cbn.
    destruct (decide (tenant0 = tenant)) as [-> |Hne].
    2:{ rewrite lookup_insert_ne by done. apply I9. }
    rewrite lookup_insert_eq. cbn. intros [[<- <-]|[_ Hk]]%lookup_insert_Some; [done|]. by eapply I9.
Qed.

(** A program whose result, if any, is as [P] says. *)
Definition gives {A} (P : A → Prop) (p : IngestIO A) : Prop :=
  ∀ w n, raw_ok w → yields p (w, n) (λ r s, kept w s.1 ∧ ∃ a, r = Ok a ∧ P a).
Lemma gives_bind {A B} (P : A → Prop) (P' : B → Prop) (p : IngestIO A) (f : A → IngestIO B) :
  gives P p → (∀ a, P a → gives P' (f a)) → gives P' (p ≫= f).
Proof using.
  intros Hp Hf w n Hw. apply yields_bind. eapply yields_mono; [by apply Hp|].
  intros r [w1 n1] (Hk & a & -> & Ha). eapply yields_mono; [apply Hf; [done|apply Hk]|].
  intros r s [Hk1 HC1]. split; [by eapply kept_trans|done].
Qed.
Lemma gives_ret {A} (P : A → Prop) (a : A) : P a → gives P (mret a : IngestIO A).
Proof using. intros HP w n Hw. apply yields_ret. split; [auto|by eexists]. Qed.
Lemma gives_observe {A} (P : A → Prop) (f : nat → A) : (∀ n, P (f n)) → gives P (observe f : IngestIO A).
Proof using. intros HP w n Hw. apply yields_observe. split; [auto|by eexists]. Qed.
Lemma gives_local {A} (P : A → Prop) (f : ingest_world → A * ingest_world) :
  (∀ w, raw_ok w → kept w (f w).2 ∧ P (f w).1) → gives P (local_step sched f).
Proof using Hrely.
  intros Hf w n Hw. apply yields_local. intros w1. destruct (Hrely n w Hw) as [O1 M1].
  destruct (Hf w1 O1) as [Hk HP]. split; [by apply (kept_trans w w1)|by eexists].
Qed.
Lemma gives_try_call {A} (P : res A → Prop) (f : ingest_world → res A * ingest_world) :
  (∀ w, raw_ok w → (f w).2 = w ∧ P (f w).1) → (∀ e, P (Err e)) → gives P (store_try (store_call sched f)).
Proof using Hrely Hfail.
  intros Hf He w n Hw. apply yields_try, yields_kept; [done|..].
  - intros e w1 Hk _ _. split; [done|]. by eexists.
  - intros w1 Hk. destruct (Hf w1 (proj1 Hk)) as [Ew HP]. cbn [fst snd]. rewrite Ew. split; [done|]. by eexists.
Qed.

Lemma gives_productBinding tenant productID : gives binding_ok (productBinding sched clock tenant productID).
Proof using Hrely Hfail.
  assert (gives binding_ok (load_binding sched clock tenant productID)) as Hload.
  { unfold load_binding. eapply (gives_bind binding_ok); [|].
    - apply gives_try_call; [|done]. intros w Hw. split; [done|]. cbn.
      destruct (iw_bindings w !! _) as [b|] eqn:Hb; [|done]. intros ? [= <-]. by apply (ro_bindings _ Hw _ _ Hb).
    - intros binding Hb. destruct (match binding with Ok _ => true | Err _ => _ end); [|by apply gives_ret].
      eapply (gives_bind (λ _, True)); [by apply gives_observe|]. intros now _.
      eapply (gives_bind (λ _, True)); [|intros; by apply gives_ret].
      apply gives_local. intros w Hw. split; [|done]. by apply cache_binding_kept. }
  unfold productBinding. eapply (gives_bind (λ o, ∀ c, o = Some c → binding_ok (cb_binding c))).
  { apply gives_local. intros w Hw. split; [by apply kept_refl|]. cbn. intros c Hc b Hb.
    by eapply ro_cached_binding. }
  intros entry He. eapply (gives_bind (λ _, True)); [by apply gives_observe|]. intros now _.
  destruct entry as [c|]; [|done]. case_decide; [|done]. apply gives_ret. by apply He.
Qed.
Lemma gives_protocolRelease tenant protocolID version :
  gives release_ok (protocolRelease sched clock tenant protocolID version).
Proof using Hrely Hfail.
  assert (gives release_ok (load_release sched clock tenant protocolID version)) as Hload.
  { unfold load_release. eapply (gives_bind release_ok); [|].
    - apply gives_try_call; [|done]. intros w Hw. split; [done|]. cbn.
      destruct (iw_releases w !! _) as [v|] eqn:Hv; [|done]. intros ? [= <-]. by apply (ro_releases _ Hw _ _ Hv).
    - intros [v|e] Hv; [|by apply gives_ret].
      eapply (gives_bind (λ _, True)); [by apply gives_observe|]. intros now _.
      eapply (gives_bind (λ _, True)); [|intros; by apply gives_ret].
      apply gives_local. intros w Hw. split; [|done]. apply cache_release_kept; [done|]. by apply Hv. }
  unfold protocolRelease.
  eapply (gives_bind (λ o, ∀ c, o = Some c → utf8 (pr_PointTableVersion (cr_release c)))).
  { apply gives_local. intros w Hw. split; [by apply kept_refl|]. cbn. intros c Hc.
    by eapply ro_cached_release. }
  intros entry He. eapply (gives_bind (λ _, True)); [by apply gives_observe|]. intros now _.
  destruct entry as [c|]; [|done]. case_decide; [|done]. apply gives_ret. intros v [= <-]. by apply He.
Qed.

(** What preparing a message may fill in. *)
Definition kept_or_text (a b : string) : Prop := b = a ∨ utf8 b.
Definition blank m : RawMessage :=
  m <| rm_MessageID := "" |> <| rm_Source := "" |> <| rm_ReceivedAt := 0 |> <| rm_PayloadFormat := "" |>
    <| rm_ProtocolID := "" |> <| rm_ProtocolVersion := "" |> <| rm_PointTableVersion := "" |>.
Record prepared raw m : Prop := {
  pp_rest : blank m = blank raw;
  pp_named : rm_MessageID raw ≠ "" → rm_MessageID m = rm_MessageID raw;
  pp_id : kept_or_text (rm_MessageID raw) (rm_MessageID m);
  pp_source : kept_or_text (rm_Source raw) (rm_Source m);
  pp_format : kept_or_text (rm_PayloadFormat raw) (rm_PayloadFormat m);
  pp_protocol : kept_or_text (rm_ProtocolID raw) (rm_ProtocolID m);
  pp_version : kept_or_text (rm_ProtocolVersion raw) (rm_ProtocolVersion m);
  pp_points : kept_or_text (rm_PointTableVersion raw) (rm_PointTableVersion m) }.
(** The payload is JSON text, and however the message is prepared, JSON gives
    its other fields back. *)
Definition codable raw : Prop := payload_json (rm_Payload raw) ∧ ∀ m, prepared raw m → head_ok m.

(** Digests are hexadecimal. *)
Context (Hsha : ∀ s, utf8 ("raw_" +:+ String.substring 0 24 (sha256_hex s))).

Lemma prepared_Normalize now raw : prepared raw (Normalize now raw).
Proof using Hsha.
  assert (∀ a b : string, a = "" → utf8 b → kept_or_text a b) as Htext by (intros; by right).
  unfold Normalize. destruct (decide (rm_MessageID raw = "")) as [E|E]; repeat case_decide; cbn in *;
    (split; cbn; [by destruct raw|done|..]); try (by left); by right.
Qed.
Lemma prepared_bound raw m protocol version points :
  prepared raw m → utf8 protocol → utf8 version → utf8 points →
  prepared raw (m <| rm_ProtocolID := protocol |> <| rm_ProtocolVersion := version |>
                  <| rm_PointTableVersion := points |>) ∧
  prepared raw (m <| rm_ProtocolID := protocol |> <| rm_ProtocolVersion := version |>).
Proof using.
  intros [P1 P2 P3 P4 P5 P6 P7 P8] T1 T2 T3. split; (split; cbn; try done; try (by right)); by destruct m.
Qed.

Lemma gives_bind_protocol raw m :
  prepared raw m → gives (prepared raw) (bind_protocol sched clock m).
Proof using Hrely Hfail.
  intros Hm. unfold bind_protocol. case_decide; [|by apply gives_ret].
  eapply gives_bind; [apply gives_productBinding|]. intros [b|e] Hb; [|by apply gives_ret].
  destruct (Hb b eq_refl) as [Hb1 Hb2].
  eapply gives_bind; [apply gives_protocolRelease|]. intros [v|e] Hv; apply gives_ret.
  - by apply prepared_bound; [..|apply Hv].
  - by apply (prepared_bound raw m _ _ "").
Qed.

(** ** Publishing *)

Lemma indexed_moves w w' k : moves w w' → is_Some (iw_raw w !! k) → is_Some (iw_raw w' !! k).
Proof using. intros Hm [i Hi]. destruct (mv_index _ _ Hm _ _ Hi) as (i' & -> & _). eauto. Qed.

(** The message that was reserved under the identity of [m] was published. *)
Definition published m w : Prop :=
  ∃ v m' e, iw_reservations w !! raw_key m = Some v ∧ of_reservation v m' ∧ publishes e m' ∧ e ∈ iw_bus w.
Lemma published_moves w w' m : moves w w' → published m w → published m w'.
Proof using.
  intros Hm (v & m' & e & Hv & Ho & Hpub & He). exists v, m', e. split; [by eapply lookup_weaken, mv_reserved|].
  split; [done|]. split; [done|]. destruct (mv_bus _ _ Hm) as [l ->]. apply elem_of_app. by left.
Qed.

Lemma mark_error i at_ t tb e :
  (MarkRawPublished (ri_TenantID i) (ri_MessageID i) at_ t tb).1 = Err e → err_is e ≠ Conflict.
Proof using. unfold MarkRawPublished. destruct (_ !! _); [done|by intros [= <-]]. Qed.

Lemma yields_publish i m p w n :
  raw_ok w → reserved w m → is_Some (iw_raw w !! raw_key m) → describes i m → publishes (raw_event p) m →
  yields (publishArchivedRaw sched clock i p) (w, n) (λ r s,
    kept w s.1 ∧ (r = Ok tt → published m s.1) ∧ ∀ e, r = Err e → err_is e ≠ Conflict).
Proof using Hrely Hfail.
  intros Hw Hres Hind Hd Hp. unfold publishArchivedRaw, bus_publish, mark_published, index_call.
  apply yields_bind, yields_try, yields_kept; [done|..].
  - intros e w1 Hk1 He _. apply yields_bind, yields_try, yields_kept; [apply Hk1|..].
    + intros e' w2 Hk2 _ _. apply yields_fails. split; [by eapply kept_trans|]. split; [done|].
      by intros ? [= <-].
    + intros w2 Hk2. apply yields_fails. cbn [fst snd]. split; [|split; [done|]].
      * eapply kept_trans; [exact Hk1|]. eapply kept_trans; [exact Hk2|].
        pose proof (mark_step w2 i m 0 (err_text e) (proj1 Hk2) Hd) as Hstep.
        destruct (MarkRawPublished _ _ _ _ _) as [r t]. by apply Hstep.
      * by intros ? [= <-].
  - intros w1 Hk1. cbn [fst snd]. apply yields_bind. unfold clock_millis.
    apply yields_bind, yields_observe, yields_ret.
    set (w2 := w1 <| iw_bus ::= _ |>).
    assert (reserved w1 m) as Hres1 by (eapply reserved_moves; [apply Hk1|done]).
    assert (is_Some (iw_raw w1 !! raw_key m)) as Hind1 by (eapply indexed_moves; [apply Hk1|done]).
    pose proof (publish_step w1 m _ (proj1 Hk1) Hres1 Hind1 Hp) as Hk2. change (kept w1 w2) in Hk2.
    assert (published m w2) as Hpub2.
    { destruct Hres1 as (v & Hv & Ho). exists v, m, (raw_event p). split_and!; [done..|].
      apply elem_of_app. right. by apply list_elem_of_singleton. }
    apply yields_bind, yields_try, yields_kept; [apply Hk2|..].
    + intros e w3 Hk3 He _. apply yields_fails. split; [|split; [done|]].
      * eapply kept_trans; [exact Hk1|]. by eapply kept_trans.
      * by intros ? [= <-].
    + intros w3 Hk3. assert (published m w3) as Hpub3 by (eapply published_moves; [apply Hk3|done]).
      pose proof (mark_step w3 i m (clock (S n) / 1000000) "" (proj1 Hk3) Hd (λ _ _, Hpub3)) as Hstep.
      pose proof (mark_error i (clock (S n) / 1000000) "" (iw_raw w3)) as Herr.
      destruct (MarkRawPublished _ _ _ _ _) as [r t]. cbn [fst snd] in *. fold (set_index t w3).
      assert (kept w (set_index t w3)) as Hk4.
      { eapply kept_trans; [exact Hk1|]. eapply kept_trans; [exact Hk2|]. eapply kept_trans; [exact Hk3|done]. }
      assert (published m (set_index t w3)) as Hpub4 by (eapply published_moves; [apply Hstep|done]).
      destruct r as [[]|e]; [apply yields_ret|apply yields_fails]; (split; [exact Hk4|]).
      * by split.
      * split; [done|]. intros ? [= <-]. exact (Herr e eq_refl).
Qed.

(** ** Archiving *)

Lemma stored_copy_moves w w' b m : moves w w' → stored_copy b m w → stored_copy b m w'.
Proof using.
  intros Hm (t & m' & v & Ht & Hm' & Hv & ? & ?). destruct (mv_tables _ _ Hm _ _ Ht) as (t' & Ht' & Hsub).
  exists t', m', v. split_and!; try done; [by eapply lookup_weaken|by eapply lookup_weaken, mv_reserved].
Qed.

Lemma note_arrival_kept m w :
  raw_ok w → kept w (set_store (note_arrival m (iw_store w)).2 w).
Proof using.
  intros Hw. apply silent_step; [done|apply note_arrival_ledger|by split].
Qed.

Lemma yields_PutRaw m w n :
  raw_ok w → reserved w m →
  yields (PutRaw sched clock m) (w, n) (λ r s, kept w s.1 ∧
    match r with
    | Ok i => describes i m ∧ ri_PublishedAt i = 0 ∧ stored_copy (ri_ObjectBucket i) m s.1
    | Err e => err_is e = Conflict → copy_differs m s.1
    end).
Proof using Hrely Hfail.
  intros Hw Hres. unfold PutRaw. apply yields_bind.
  eapply yields_mono; [exact (silent_try (λ _, False) _ _ (silent_get_state _ _) w n Hw)|].
  intros [state|e] [w1 n1] [Hk1 He]; [|by destruct (He e eq_refl)]. cbn in Hk1.
  apply yields_bind, yields_local. intros w2. assert (kept w w2) as Hk2
    by (eapply kept_trans; [exact Hk1|]; apply Hrely, Hk1). clearbody w2.
  destruct (note_arrival m (iw_store w2)) as [previous st] eqn:Est. cbn [fst snd].
  pose proof (note_arrival_kept m w2 (proj1 Hk2)) as Hk3. rewrite Est in Hk3. cbn [snd] in Hk3.
  fold (set_store st w2). apply (kept_trans _ _ _ Hk2) in Hk3. clear Hk2 Est.
  destruct (match state with Ok _ => _ | Err _ => _ end) as [interval lastSeen].
  apply yields_bind, yields_kept; [apply Hk3|..].
  { intros e w4 Hk4 Hconf _. split; [by eapply kept_trans|done]. }
  intros w4 Hk4. apply (kept_trans _ _ _ Hk3) in Hk4. clear Hk3.
  set (backend := backend_of _ _ _ _ _).
  pose proof (save_message_step backend w4 m (proj1 Hk4)
    (reserved_moves _ _ _ (proj2 Hk4) Hres)) as Hstep.
  destruct (save_in_database backend m (iw_store w4)) as [r st']. cbn [fst snd].
  fold (set_store st' w4) in Hstep |- *. destruct Hstep as (O5 & M5 & Hr).
  assert (kept w (set_store st' w4)) as Hk5 by (split; [done|]; etrans; [apply Hk4|exact M5]).
  destruct r as [used|e]; [|split; [done|]; by destruct Hr as [-> |[_ ?]]].
  apply yields_bind. unfold clock_millis. apply yields_bind, yields_observe, yields_ret, yields_ret.
  split; [done|]. split; [apply describes_raw_index|]. split; [done|]. exact Hr.
Qed.

(** ** One identity *)

(** The message is archived under its identity, with its content. *)
Definition archived raw idx w : Prop :=
  ∃ v i m, iw_reservations w !! raw_key raw = Some v ∧ ¬ other_message v raw ∧
    iw_raw w !! raw_key raw = Some i ∧ archive_part i = archive_part idx ∧
    of_reservation v m ∧ describes idx m ∧ GetRaw legacy idx (iw_store w) = Ok (json_copy m).
(** A database holds a copy of the message with another digest. *)
Definition copy_conflict raw w : Prop :=
  ∃ b t m v, table b w = Some t ∧ t !! raw_key raw = Some (json_copy m) ∧
    iw_reservations w !! raw_key raw = Some v ∧ of_reservation v m ∧ ¬ other_message v raw ∧
    PayloadHash (json_copy m) ≠ PayloadHash raw.
Definition ingest_result raw w (r : res (RawArchiveIndex * bool)) w' : Prop :=
  match r with
  | Ok (idx, created) =>
    archived raw idx w' ∧ (created = true ∨ is_Some (iw_raw w !! raw_key raw) → published raw w')
  | Err e => err_is e = Conflict →
      (∃ v, iw_reservations w' !! raw_key raw = Some v ∧ other_message v raw) ∨ copy_conflict raw w'
  end.

Lemma result_error raw w e w' : err_is e ≠ Conflict → ingest_result raw w (Err e) w'.
Proof using. intros He E. done. Qed.

(** [m] is the reserved form of [raw]. *)
Record stands_for m raw w : Prop := {
  sf_reserved : reserved w m; sf_key : raw_key m = raw_key raw; sf_payload : rm_Payload m = rm_Payload raw;
  sf_product : rm_ProductID m = rm_ProductID raw; sf_device : rm_DeviceID m = rm_DeviceID raw }.
Lemma stands_for_moves w w' m raw : moves w w' → stands_for m raw w → stands_for m raw w'.
Proof using. intros Hm [? ? ? ? ?]. split; try done. by eapply reserved_moves. Qed.
Lemma stands_for_same m raw w v :
  stands_for m raw w → iw_reservations w !! raw_key raw = Some v → ¬ other_message v raw ∧ of_reservation v m.
Proof using.
  intros [(v' & Hv' & Ho) Ek Ep E1 E2] Hv. rewrite Ek in Hv'. assert (v' = v) as -> by congruence.
  split; [|done]. destruct Ho as [Eh _ Ehash]. unfold other_message.
  pose proof (f_equal rm_ProductID Eh) as F1. pose proof (f_equal rm_DeviceID Eh) as F2. cbn in F1, F2.
  assert (PayloadHash raw = PayloadHash m) as E by (unfold PayloadHash; by rewrite Ep).
  intros [?|[?|?]]; congruence.
Qed.
Lemma stands_for_conflict m raw w : stands_for m raw w → copy_differs m w → copy_conflict raw w.
Proof using.
  intros Hs (b & t & m' & v & Ht & Hm' & Hv & Ho' & Ho & Hne). rewrite (sf_key _ _ _ Hs) in Hm', Hv.
  exists b, t, m', v. split_and!; try done; [by eapply stands_for_same|].
  unfold PayloadHash in *. by rewrite <-(sf_payload _ _ _ Hs).
Qed.
Lemma stands_for_archived m raw w i idx :
  raw_ok w → stands_for m raw w → iw_raw w !! raw_key raw = Some i → archive_part i = archive_part idx →
  archived raw idx w.
Proof using.
  intros Hw Hs Hi Ep. destruct (indexed_read w legacy _ _ _ Hw Hi Ep) as (v & m' & Hv & Ho & Hd & _ & Hget).
  exists v, i, m'. split_and!; try done. by eapply stands_for_same.
Qed.
(** An entry of the same identity has the content of the reservation. *)
Lemma indexed_content m raw w i :
  raw_ok w → stands_for m raw w → iw_raw w !! raw_key raw = Some i → ¬ other_content i raw.
Proof using.
  intros Hw Hs Hi. destruct (indexed_read w None _ _ _ Hw Hi eq_refl) as (v & m' & Hv & Ho & Hd & _).
  destruct (stands_for_same _ _ _ _ Hs Hv) as [_ Ho0]. pose proof (describes_same _ _ _ _ Ho Ho0 Hd) as Hd0.
  destruct Hd0 as [_ _ E1 E2 _ E3], Hs as [_ _ Ep F1 F2]. unfold other_content.
  assert (PayloadHash raw = PayloadHash m) as E by (unfold PayloadHash; by rewrite Ep).
  intros [?|[?|?]]; congruence.
Qed.

Lemma yields_seen_before m raw receivedAt w n :
  raw_ok w → stands_for m raw w →
  yields (seen_before sched clock legacy raw receivedAt) (w, n) (λ r s, kept w s.1 ∧
    match r with
    | Ok (Some idx) => archived raw idx s.1 ∧ published raw s.1
    | Ok None => iw_raw w !! raw_key raw = None
    | Err e => err_is e ≠ Conflict
    end).
Proof using Hrely Hfail.
  intros Hw Hs. unfold seen_before, index_read, index_call. apply yields_bind, yields_try, yields_kept; [done|..].
  { intros e w1 Hk1 Hc He. rewrite decide_False by done. apply yields_fails. by split. }
  intros w1 Hk1. unfold GetRawIndexAt, GetRawIndex. fold (raw_key raw). cbn [fst snd].
  replace (w1 <| iw_raw := iw_raw w1 |>) with w1 by (by destruct w1).
  destruct (iw_raw w1 !! raw_key raw) as [i|] eqn:Hi.
  2:{ rewrite decide_True by done. apply yields_ret. split; [done|].
      apply eq_None_not_Some. intros Hi0. destruct (indexed_moves w w1 _ (proj2 Hk1) Hi0). congruence. }
  assert (stands_for m raw w1) as Hs1 by (eapply stands_for_moves; [apply Hk1|done]).
  rewrite decide_False by (by eapply indexed_content; [apply Hk1|..]).
  assert (archived raw i w1) as Ha1 by (by eapply stands_for_archived; [apply Hk1|..]).
  destruct (decide (ri_PublishedAt i = 0)) as [Hpub|Hpub].
  2:{ apply yields_ret. split; [done|]. split; [done|].
      by destruct (ro_published _ (proj1 Hk1) _ _ Hi Hpub) as (v & m' & e & ? & ? & ? & ?); exists v, m', e. }
  unfold engine_GetRaw. apply yields_bind, yields_try, yields_kept; [apply Hk1|..].
  { intros e w2 Hk2 He _. apply yields_fails. by split; [eapply kept_trans|]. }
  intros w2 Hk2. cbn [fst snd].
  destruct (mv_index _ _ (proj2 Hk2) _ _ Hi) as (i2 & Hi2 & Ep2).
  destruct (indexed_read w2 legacy _ _ i (proj1 Hk2) Hi2) as (v & m' & Hv & Ho & Hd & Ek & ->); [done|].
  apply yields_bind. eapply yields_mono; [apply (yields_publish _ m'); [apply Hk2| | |done|by right]|].
  { exists v. by rewrite Ek. }
  { by rewrite Ek, Hi2. }
  intros r [w3 n3] (Hk3 & Hok & Herr). cbn [fst snd] in *.
  assert (kept w w3) as Hk by (eapply kept_trans; [done|by eapply kept_trans]).
  destruct r as [[]|e]; [|by split; [|apply Herr]].
  apply yields_ret. split; [done|]. split; [|destruct (Hok eq_refl) as (v' & m3 & e3 & Hv' & ? & ? & ?)].
  - destruct (mv_index _ _ (proj2 Hk3) _ _ Hi2) as (i3 & Hi3 & Ep3).
    eapply (stands_for_archived m); [apply Hk3| |exact Hi3|congruence].
    eapply stands_for_moves; [apply Hk|done].
  - exists v', m3, e3. by rewrite <-Ek.
Qed.

Lemma yields_archive_new m raw w n w0 :
  raw_ok w → stands_for m raw w → iw_raw w0 !! raw_key raw = None →
  yields (archive_new sched clock m) (w, n) (λ r s, kept w s.1 ∧ ingest_result raw w0 r s.1).
Proof using Hrely Hfail.
  intros Hw Hs Hnone. unfold archive_new.
  apply yields_bind, yields_try. eapply yields_mono; [apply yields_PutRaw; [done|apply Hs]|].
  intros [idx|e] [w1 n1] [Hk1 Hput]; cbn [fst snd] in *.
  2:{ apply yields_fails. split; [done|]. intros Hc. right. eapply stands_for_conflict; [|by apply Hput].
      by eapply stands_for_moves; [apply Hk1|]. }
  destruct Hput as (Hd & Hpub & Hin). unfold index_call.
  apply yields_bind, yields_try, yields_kept; [apply Hk1|..].
  { intros e w2 Hk2 He _. apply yields_fails. split; [by eapply kept_trans|]. by apply result_error. }
  intros w2 Hk2. apply (kept_trans _ _ _ Hk1) in Hk2 as Hk02.
  pose proof (save_index_step w2 m idx (proj1 Hk2) Hd Hpub
    (stored_copy_moves _ _ _ _ (proj2 Hk2) Hin)) as Hstep.
  destruct (SaveRawIndex idx (iw_raw w2)) as [r t]. cbn [fst snd]. fold (set_index t w2) in Hstep |- *.
  destruct Hstep as (O3 & M3 & created & -> & Hsome & Hnew & Hseen).
  assert (kept w (set_index t w2)) as Hk3 by (eapply kept_trans; [exact Hk02|by split]).
  assert (stands_for m raw (set_index t w2)) as Hs3 by (eapply stands_for_moves; [apply Hk3|done]).
  destruct created.
  - apply yields_bind. eapply yields_mono; [apply (yields_publish _ m); [apply Hk3|apply Hs3|done|done|by left]|].
    intros r [w4 n4] (Hk4 & Hok & Herr). cbn [fst snd] in *.
    apply (kept_trans _ _ _ Hk3) in Hk4 as Hk. destruct r as [[]|e]; [|split; [done|]; by apply result_error, Herr].
    apply yields_ret. split; [done|].
    destruct (mv_index _ _ (proj2 Hk4) _ _ (Hnew eq_refl)) as (i & Hi & Ep). rewrite (sf_key _ _ _ Hs3) in Hi.
    split; [|intros _; destruct (Hok eq_refl) as (v & m' & e & Hv & ? & ? & ?)].
    + eapply (stands_for_archived m); [apply Hk4| |exact Hi|congruence].
      eapply stands_for_moves; [apply Hk4|done].
    + exists v, m', e. by rewrite <-(sf_key _ _ _ Hs3).
  - unfold index_read, index_call. apply yields_bind, yields_kept; [done|..].
    { intros e w4 Hk4 ? _. split; [by eapply kept_trans|by apply result_error]. }
    intros w4 Hk4. unfold GetRawIndexAt, GetRawIndex. fold (raw_key m). cbn [fst snd].
    replace (w4 <| iw_raw := iw_raw w4 |>) with w4 by (by destruct w4).
    destruct (indexed_moves _ w4 _ (proj2 Hk4) Hsome) as [i Hi]. rewrite Hi.
    apply (kept_trans _ _ _ Hk3) in Hk4 as Hk.
    assert (stands_for m raw w4) as Hs4 by (eapply stands_for_moves; [apply Hk|done]).
    rewrite (sf_key _ _ _ Hs4) in Hi.
    assert (stands_for m m w4) as Hmm by (destruct Hs4; by split).
    rewrite decide_False.
    2:{ eapply (indexed_content m m w4); [apply Hk4|done|]. by rewrite (sf_key _ _ _ Hs4). }
    apply yields_ret. split; [done|]. split; [by eapply (stands_for_archived m); [apply Hk4|..]|].
    intros [[=]|[? ?]]. congruence.
Qed.

Lemma yields_ingest_prepared m w n :
  raw_ok w → head_ok m → payload_json (rm_Payload m) →
  yields (ingest_prepared sched clock legacy m) (w, n) (λ r s, kept w s.1 ∧ ingest_result m w r s.1).
Proof using Hrely Hfail.
  intros Hw Hh Hp. unfold ingest_prepared, reserve.
  apply yields_bind, yields_try, yields_kept; [done|..].
  { intros e w1 Hk1 He _. rewrite decide_False by done. apply yields_fails.
    split; [done|]. by apply result_error. }
  intros w1 Hk1. pose proof (reserve_step w1 m (proj1 Hk1) Hh Hp) as Hstep.
  destruct (ReserveRawMessage m (iw_reservations w1)) as [r t]. cbn [fst snd].
  fold (set_reservations t w1) in Hstep |- *. destruct Hstep as (O2 & M2 & Hr).
  assert (kept w (set_reservations t w1)) as Hk2 by (eapply kept_trans; [exact Hk1|by split]).
  generalize dependent (set_reservations t w1). intros w2 O2 M2 Hr Hk2. destruct r as [[m' new]|e].
  - destruct Hr as (Hres & Ep & Ek & E1 & E2 & Hnew).
    assert (stands_for m' m w2) as Hs2 by by split.
    assert (∀ w3 n3, kept w2 w3 → iw_raw w !! raw_key m = None →
      yields (archive_new sched clock m') (w3, n3) (λ r s, kept w s.1 ∧ ingest_result m w r s.1)) as Harchive.
    { intros w3 n3 Hk3 Hnone. eapply yields_mono.
      - apply (yields_archive_new m' m w3 n3 w); [apply Hk3| |done]. by eapply stands_for_moves; [apply Hk3|].
      - intros r s [Hk Hr]. split; [|done]. eapply kept_trans; [exact Hk2|]. by eapply kept_trans. }
    apply yields_bind. destruct new.
    + apply yields_ret. apply Harchive; [by apply kept_refl|]. specialize (Hnew eq_refl).
      apply eq_None_not_Some. intros Hi. destruct (indexed_moves w w1 _ (proj2 Hk1) Hi). congruence.
    + eapply yields_mono; [by apply (yields_seen_before m' m)|].
      intros [[idx|]|e] [w3 n3] [Hk3 Hseen]; cbn [fst snd] in *; apply (kept_trans _ _ _ Hk2) in Hk3 as Hk.
      * apply yields_ret. split; [done|]. split; [apply Hseen|intros _; apply Hseen].
      * apply Harchive; [done|]. apply eq_None_not_Some. intros Hi.
        destruct (indexed_moves w w2 _ (proj2 Hk2) Hi). congruence.
      * split; [done|]. by apply result_error.
  - destruct Hr as [-> (v & Hv & Hother)]. rewrite decide_True by done. unfold index_read, index_call.
    assert (∀ w3, kept w w3 → moves w1 w3 → kept w w3 ∧ ingest_result m w (Err ErrRawConflict) w3) as Hconf.
    { intros w3 Hk3 Hm3. split; [done|]. intros _. left. exists v. split; [|done].
      by eapply lookup_weaken, mv_reserved. }
    apply yields_bind, yields_try, yields_kept; [done|..].
    + intros e w3 Hk3 _ _. apply yields_fails, Hconf; [by eapply kept_trans|]. etrans; [exact M2|apply Hk3].
    + intros w3 Hk3. cbn [fst snd]. replace (w3 <| iw_raw := iw_raw w3 |>) with w3 by (by destruct w3).
      apply yields_fails, Hconf; [by eapply kept_trans|]. etrans; [exact M2|apply Hk3].
Qed.

Lemma result_moves raw m w w1 r w' :
  moves w w1 → raw_key m = raw_key raw → ingest_result m w1 r w' → ingest_result m w r w'.
Proof using.
  intros Hm _. destruct r as [[idx created]|e]; [|done]. intros [Ha Hp]. split; [done|].
  intros [?|Hi]; apply Hp; [by left|right]. by eapply indexed_moves.
Qed.

Lemma prepared_payload raw m : prepared raw m → rm_Payload m = rm_Payload raw.
Proof using. intros [E%(f_equal rm_Payload) _ _ _ _ _ _ _]. exact E. Qed.

Lemma yields_IngestRaw raw w n :
  raw_ok w → codable raw →
  yields (IngestRaw sched clock paused random legacy raw) (w, n) (λ r s, kept w s.1 ∧
    ∃ m, prepared raw m ∧ ingest_result m w r s.1).
Proof using Hrely Hfail Hsha.
  intros Hw [Hp Hh]. unfold IngestRaw. apply yields_bind, yields_observe.
  assert (∀ e w', kept w w' → err_is e ≠ Conflict →
    kept w w' ∧ ∃ m, prepared raw m ∧ ingest_result m w (Err e) w') as Herr.
  { intros e w' Hk He. split; [done|]. exists (Normalize 0 raw).
    split; [apply prepared_Normalize|by apply result_error]. }
  destruct (paused n); [apply yields_fails; by apply Herr|].
  apply yields_bind, yields_observe, yields_bind.
  eapply yields_mono; [apply gives_bind_protocol; [apply prepared_Normalize|done]|].
  intros r [w1 n1] (Hk1 & m & -> & Hm). cbn [fst snd] in *.
  destruct (Validate m) as [[]|e] eqn:Hval.
  2:{ apply yields_fails, Herr; [done|]. unfold Validate in Hval.
      destruct (decide (_ ≠ [])); [|destruct (decide _); [|done]]; by injection Hval as <-. }
  apply yields_bind. eapply yields_mono; [apply silent_ensureGatewayChild, Hk1|].
  intros [[]|e] [w2 n2] [Hk2 Hconf]; cbn [fst snd] in *; apply (kept_trans _ _ _ Hk1) in Hk2 as Hk;
    [|apply Herr; [done|by apply Hconf]].
  eapply yields_mono; [apply yields_ingest_prepared; [apply Hk|by apply Hh|]|].
  { by rewrite (prepared_payload _ _ Hm). }
  intros r s [Hk3 Hr]. split; [by eapply kept_trans|]. exists m. split; [done|].
  by eapply result_moves; [apply Hk| |].
Qed.

(** ** The job *)

(** The entry is one of the index, or was when it was read. *)
Definition listed i w : Prop := ∃ k i0, iw_raw w !! k = Some i0 ∧ archive_part i0 = archive_part i.
Lemma listed_moves w w' i : moves w w' → listed i w → listed i w'.
Proof using.
  intros Hm (k & i0 & Hi & Ep). destruct (mv_index _ _ Hm _ _ Hi) as (i1 & Hi1 & Ep1).
  exists k, i1. split; [done|]. congruence.
Qed.

Lemma yields_mark_failed i t w n (Q : res (res unit) → ingest_world * nat → Prop) :
  raw_ok w → listed i w → (∀ r w1 n1, kept w w1 → Q (Ok r) (w1, n1)) →
  yields (store_try (mark_published sched i 0 t)) (w, n) Q.
Proof using Hrely Hfail.
  intros Hw Hl HQ. unfold mark_published, index_call. apply yields_try, yields_kept; [done|by intros; apply HQ|].
  intros w1 Hk1. destruct (listed_moves _ _ _ (proj2 Hk1) Hl) as (k & i0 & Hi & Ep).
  destruct (indexed_read w1 None _ _ _ (proj1 Hk1) Hi Ep) as (v & m & _ & _ & Hd & _).
  pose proof (mark_step w1 i m 0 t (proj1 Hk1) Hd) as Hstep.
  destruct (MarkRawPublished _ _ _ _ _) as [r tb]. cbn [fst snd]. apply HQ.
  eapply kept_trans; [exact Hk1|]. by apply Hstep.
Qed.

Lemma yields_retry_entry i w n :
  raw_ok w → listed i w → yields (retry_entry sched clock legacy i) (w, n) (λ r s, kept w s.1 ∧ r = Ok tt).
Proof using Hrely Hfail.
  intros Hw Hl. unfold retry_entry, engine_GetRaw. apply yields_bind, yields_try, yields_kept; [done|..].
  { intros e w1 Hk1 _ _. apply yields_bind, yields_mark_failed; [apply Hk1|by eapply listed_moves; [apply Hk1|]|].
    intros r w2 n2 Hk2. apply yields_ret. split; [by eapply kept_trans|done]. }
  intros w1 Hk1. cbn [fst snd]. destruct (listed_moves _ _ _ (proj2 Hk1) Hl) as (k & i0 & Hi & Ep).
  destruct (indexed_read w1 legacy _ _ _ (proj1 Hk1) Hi Ep) as (v & m & Hv & Ho & Hd & Ek & ->).
  apply yields_bind, yields_try. eapply yields_mono; [apply (yields_publish _ m); [apply Hk1| | |done|by right]|].
  - exists v. by rewrite Ek.
  - by rewrite Ek, Hi.
  - intros r [w2 n2] (Hk2 & _ & _). apply yields_ret. split; [by eapply kept_trans|done].
Qed.

Lemma yields_retry_entries l w n :
  raw_ok w → Forall (λ i, listed i w) l →
  yields (retry_entries sched clock legacy l) (w, n) (λ r s, kept w s.1 ∧ r = Ok tt).
Proof using Hrely Hfail.
  revert w n. induction l as [|i l IH]; intros w n Hw Hl; cbn; [apply yields_ret; auto|].
  apply Forall_cons in Hl as [Hi Hl]. apply yields_bind.
  eapply yields_mono; [by apply yields_retry_entry|]. intros r [w1 n1] [Hk1 ->]; cbn [fst snd] in *.
  eapply yields_mono; [apply IH; [apply Hk1|]|].
  - eapply Forall_impl; [exact Hl|]. intros i' Hi'. by eapply listed_moves; [apply Hk1|].
  - intros r s [Hk2 ->]. split; [by eapply kept_trans|done].
Qed.

Lemma pending_listed i t :
  i ∈ ListPendingRawIndexes 200 t → pending_entry i ∧ ∃ k, t !! k = Some i.
Proof using.
  unfold ListPendingRawIndexes. rewrite page_first by lia. intros (n & Hin & _)%elem_of_take.
  apply list_elem_of_lookup_2 in Hin.
  rewrite merge_sort_Permutation in Hin. apply list_elem_of_filter in Hin as [Hp Hin]. split; [done|].
  apply list_elem_of_omap in Hin as (k & _ & Hk). by exists k.
Qed.
Lemma pending_listed_all `{!MapOrderLaws} i t :
  (length (filter pending_entry (raw_entries t)) ≤ 200)%nat → (∃ k, t !! k = Some i) → pending_entry i →
  i ∈ ListPendingRawIndexes 200 t.
Proof using.
  intros Hlen (k & Hk) Hp. unfold ListPendingRawIndexes. rewrite page_first by lia.
  rewrite take_ge by (rewrite merge_sort_Permutation; lia). rewrite merge_sort_Permutation.
  apply list_elem_of_filter. split; [done|]. apply list_elem_of_omap. exists k. split; [|done].
  rewrite map_range_keys. apply list_elem_of_fmap. exists (k, i). split; [done|]. by apply elem_of_map_to_list.
Qed.
Lemma raw_entries_listed w : Forall (λ i, listed i w) (ListPendingRawIndexes 200 (iw_raw w)).
Proof using.
  apply Forall_forall. intros i Hi. apply pending_listed in Hi as (_ & k & Hk). by exists k, i.
Qed.

Lemma yields_retryPendingRawOnce w n :
  raw_ok w → yields (retryPendingRawOnce sched clock legacy) (w, n) (λ r s, kept w s.1).
Proof using Hrely Hfail.
  intros Hw. unfold retryPendingRawOnce, index_read, index_call. apply yields_bind, yields_try, yields_kept; [done|..].
  { intros e w1 Hk1 _ _. by apply yields_fails. }
  intros w1 Hk1. cbn [fst snd]. replace (w1 <| iw_raw := iw_raw w1 |>) with w1 by (by destruct w1).
  eapply yields_mono; [apply yields_retry_entries; [apply Hk1|apply raw_entries_listed]|].
  intros r s [Hk2 _]. by eapply kept_trans.
Qed.

(** ** Nobody else acts and nothing fails *)

Context (Hcalm : calm sched) (Hclock : ∀ n, clock n / 1000000 ≠ 0).

Lemma yields_calm {A} (f : ingest_world → res A * ingest_world) w n (Q : res A → ingest_world * nat → Prop) :
  Q (f w).1 ((f w).2, S n) → yields (store_call sched f) (w, n) Q.
Proof using Hcalm. intros HQ. unfold yields. by rewrite calm_call. Qed.

(** Every entry is as it was, or is published. *)
Definition settled (t t' : gmap string RawArchiveIndex) : Prop :=
  ∀ k, t' !! k = t !! k ∨ ∃ i i', t !! k = Some i ∧ t' !! k = Some i' ∧ ri_PublishedAt i' ≠ 0.
#[local] Instance settled_preorder : PreOrder settled.
Proof using.
  split; [by left|]. intros t1 t2 t3 H12 H23 k.
  destruct (H23 k) as [E|(i2 & i3 & E2 & E3 & Hp)]; destruct (H12 k) as [E'|(i1 & i2' & E1 & E2' & Hp')].
  - left. congruence.
  - right. exists i1, i2'. by rewrite E.
  - right. exists i2, i3. by rewrite <-E'.
  - right. by exists i1, i3.
Qed.
Definition is_published k (t : gmap string RawArchiveIndex) : Prop :=
  ∃ i, t !! k = Some i ∧ ri_PublishedAt i ≠ 0.
Lemma settled_published k t t' : settled t t' → is_published k t → is_published k t'.
Proof using.
  intros Hs (i & Hi & Hp). destruct (Hs k) as [E|(i1 & i2 & E1 & E2 & Hp')]; [|by exists i2].
  exists i. by rewrite E.
Qed.

(** One entry of the job is published and marked. *)
Definition entry_done i w w' : Prop :=
  kept w w' ∧ settled (iw_raw w) (iw_raw w') ∧ is_published (index_key i) (iw_raw w') ∧
  (∀ k, k ≠ index_key i → iw_raw w' !! k = iw_raw w !! k) ∧
  ∃ m, describes i m ∧ iw_bus w' = iw_bus w ++ [raw_event (json_copy m)].
Lemma retry_entry_calm i w n :
  raw_ok w → listed i w →
  yields (retry_entry sched clock legacy i) (w, n) (λ r s, r = Ok tt ∧ entry_done i w s.1).
Proof using Hcalm Hclock.
  intros Hw (k & i0 & Hi & Ep).
  destruct (indexed_read w legacy _ _ _ Hw Hi Ep) as (v & m & Hv & Ho & Hd & Ek & Hget).
  assert (reserved w m) as Hres by (exists v; by rewrite Ek).
  pose proof (publish_step w m (raw_event (json_copy m)) Hw Hres) as [O1 M1]; [by rewrite Ek, Hi|by right|].
  set (w1 := add_event (raw_event (json_copy m)) w) in *.
  unfold retry_entry, publishArchivedRaw, engine_GetRaw, bus_publish, mark_published, index_call, clock_millis.
  apply yields_bind, yields_try, yields_calm. cbn [fst snd]. rewrite Hget.
  apply yields_bind, yields_try, yields_bind, yields_try, yields_calm. cbn [fst snd].
  apply yields_bind, yields_bind, yields_observe, yields_ret, yields_bind, yields_try, yields_calm.
  fold (add_event (raw_event (json_copy m)) w). fold w1.
  pose proof (mark_step w1 i m (clock (S (S n)) / 1000000) "" O1 Hd) as Hstep.
  unfold MarkRawPublished in *. fold (index_key i) in *. rewrite (describes_key _ _ Hd), Ek in *.
  assert (iw_raw w1 = iw_raw w) as Eraw by done. rewrite Eraw, Hi in *. cbn [fst snd].
  set (i1 := published_entry _ _ i0) in *. apply yields_ret, yields_ret. cbn [fst snd].
  fold (set_index (<[k := i1]> (iw_raw w)) w1). split; [done|].
  destruct Hstep as [O2 M2].
  { intros _ _. exists v, m, (raw_event (json_copy m)). split_and!; try done; [by right|]. apply elem_of_app. right. by apply list_elem_of_singleton. }
  assert (ri_PublishedAt i1 ≠ 0) as Hp by (unfold i1, published_entry; rewrite decide_True by done; apply Hclock).
  split; [split; [done|by etrans]|]. split; [|split].
  - intros k'. change (iw_raw (set_index (<[k:=i1]> (iw_raw w)) w1)) with (<[k:=i1]> (iw_raw w)).
    destruct (decide (k' = k)) as [-> |]; [right|left; by rewrite lookup_insert_ne].
    exists i0, i1. by rewrite lookup_insert_eq.
  - exists i1. rewrite (describes_key _ _ Hd), Ek. split; [apply lookup_insert_eq|done].
  - split; [|by exists m]. rewrite (describes_key _ _ Hd), Ek. intros k' Hne. by apply lookup_insert_ne.
Qed.

Lemma retry_entries_calm l w n :
  raw_ok w → Forall (λ i, listed i w) l →
  yields (retry_entries sched clock legacy l) (w, n) (λ r s, r = Ok tt ∧ kept w s.1 ∧
    settled (iw_raw w) (iw_raw s.1) ∧
    (∀ k, k ∉ map index_key l → iw_raw s.1 !! k = iw_raw w !! k) ∧
    ∃ ms, Forall2 (λ i m, describes i m ∧ is_published (index_key i) (iw_raw s.1)) l ms ∧
          iw_bus s.1 = iw_bus w ++ map (λ m, raw_event (json_copy m)) ms).
Proof using Hcalm Hclock.
  revert w n. induction l as [|i l IH]; intros w n Hw Hl; cbn.
  { apply yields_ret. split; [done|]. split; [auto|]. split; [done|]. split; [done|].
    exists []. by rewrite app_nil_r. }
  apply Forall_cons in Hl as [Hi Hl]. apply yields_bind.
  eapply yields_mono; [by apply retry_entry_calm|]. intros r [w1 n1] [-> (Hk1 & Hs1 & Hp1 & Hf1 & m & Hd & Eb1)].
  cbn [fst snd] in *. eapply yields_mono; [apply IH; [apply Hk1|]|].
  { eapply Forall_impl; [exact Hl|]. intros i' Hi'. by eapply listed_moves; [apply Hk1|]. }
  intros r s (-> & Hk2 & Hs2 & Hf2 & ms & Hms & Eb2). split; [done|]. split; [by eapply kept_trans|].
  split; [by etrans|]. split.
  { intros k [Hne Hin]%not_elem_of_cons. rewrite Hf2 by done. by apply Hf1. }
  exists (m :: ms). split.
  - constructor; [|done]. split; [done|]. by eapply settled_published.
  - rewrite Eb2, Eb1. cbn. by rewrite <-app_assoc.
Qed.
End theorems.
