(* ===== verification/RawTheorems.v ===== *)
(** The properties of ingestion: whatever other processes do between the calls
    and whichever calls fail, a message is archived, indexed and published
    under one identity with one content; what is archived but not indexed may
    be stuck. *)
From S2P Require Import Prelude GoText GbCodec StoreIO AlarmModel AlarmStore DeviceModel RawModel.
From S2P Require Import RawIngest.
From S2P Require Import RawProofs RawSteps.

(** ** What is archived but not indexed *)

Section stuck.
Context `{AlarmDetails, RawCodec, MapOrder} (sched : store_schedule ingest_world).
Context (clock : nat → Z) (paused : nat → bool) (random : nat → nat → string).
Context (legacy : option (RawArchiveIndex → res RawMessage)).
Implicit Types (w : ingest_world) (m raw : RawMessage).
Abbreviation IngestIO := (StoreIO ingest_world).

(** The identity is reserved for the content of the message, every database
    holds it under another digest, and it is neither indexed nor published. *)
Record stuck raw w : Prop := {
  st_reserved : ∃ v, iw_reservations w !! raw_key raw = Some v ∧ ¬ other_message v raw ∧
    raw_key (clone (rv_Metadata v)) = raw_key raw;
  st_index : iw_raw w !! raw_key raw = None;
  st_tables : ∀ b t, table b w = Some t → ∃ old, t !! raw_key raw = Some old ∧ PayloadHash old ≠ PayloadHash raw;
  st_bus : ∀ m, raw_key m = raw_key raw → raw_event m ∉ iw_bus w }.

Lemma stuck_ledger raw w w' : same_ledger w w' → stuck raw w → stuck raw w'.
Proof using.
  intros [E1 E2 E3 E4] [Hv Hi Ht Hb]. split; rewrite ?E1, ?E3, ?E4; [done..| |done].
  intros b t. rewrite E2. apply Ht.
Qed.

(** The other processes leave the message as it is. *)
Context (raw : RawMessage) (Henv : ∀ n w, stuck raw w → stuck raw (sc_env sched n w)).

(** A message with the identity and the content of [raw]. *)
Record alike m : Prop := {
  al_key : raw_key m = raw_key raw; al_payload : rm_Payload m = rm_Payload raw;
  al_product : rm_ProductID m = rm_ProductID raw; al_device : rm_DeviceID m = rm_DeviceID raw }.

(** [p] leaves the message stuck, and its result, if any, is as [P] says. *)
Definition steady {A} (P : A → Prop) (p : IngestIO A) : Prop :=
  ∀ w n, stuck raw w → yields p (w, n) (λ r s, stuck raw s.1 ∧ ∀ a, r = Ok a → P a).
Abbreviation any := (λ _, True).

Lemma steady_ret {A} (P : A → Prop) (a : A) : P a → steady P (mret a : IngestIO A).
Proof using. intros HP w n Hs. apply yields_ret. split; [done|]. by intros ? [= <-]. Qed.
Lemma steady_fails {A} (P : A → Prop) e : steady P (store_fails e : IngestIO A).
Proof using. intros w n Hs. by apply yields_fails. Qed.
Lemma steady_observe {A} (f : nat → A) : steady any (observe f : IngestIO A).
Proof using. intros w n Hs. by apply yields_observe. Qed.
Lemma steady_bind {A B} (P : A → Prop) (P' : B → Prop) (p : IngestIO A) (f : A → IngestIO B) :
  steady P p → (∀ a, P a → steady P' (f a)) → steady P' (p ≫= f).
Proof using.
  intros Hp Hf w n Hs. apply yields_bind. eapply yields_mono; [by apply Hp|].
  intros [a|e] [w1 n1] [Hs1 HP]; [|by split]. apply (Hf a); [by apply HP|done].
Qed.
Lemma steady_then {A B} (P' : B → Prop) (p : IngestIO A) (f : A → IngestIO B) :
  steady any p → (∀ a, steady P' (f a)) → steady P' (p ≫= f).
Proof using. intros Hp Hf. eapply steady_bind; [exact Hp|]. auto. Qed.
Lemma steady_try {A} (p : IngestIO A) : steady any p → steady any (store_try p).
Proof using.
  intros Hp w n Hs. apply yields_try. eapply yields_mono; [by apply Hp|]. intros r s [Hs1 _]. by split.
Qed.
Lemma steady_call {A} (f : ingest_world → res A * ingest_world) :
  (∀ w, stuck raw w → stuck raw (f w).2) → steady any (store_call sched f).
Proof using Henv.
  intros Hf w n Hs. apply yields_call; [intros e _; split; [by apply Henv|done]|].
  intros w1 _. split; [|done]. by apply Hf, Henv.
Qed.
Lemma steady_local {A} (f : ingest_world → A * ingest_world) :
  (∀ w, stuck raw w → stuck raw (f w).2) → steady any (local_step sched f).
Proof using Henv. intros Hf w n Hs. apply yields_local. intros w1. split; [|done]. by apply Hf, Henv. Qed.
#[local] Hint Resolve steady_ret steady_fails steady_observe : core.

(** Reading and writing what the ledger is not about. *)
Lemma steady_devices {A} (f : device_repo → res A * device_repo) : steady any (devices_call sched f).
Proof using Henv.
  apply steady_call. intros w Hs. destruct (f (iw_repo w)). by apply (stuck_ledger _ w).
Qed.
Lemma steady_reads {A} (f : ingest_world → res A) : steady any (store_call sched (λ w, (f w, w))).
Proof using Henv. by apply steady_call. Qed.
Lemma steady_index {A} (f : gmap string RawArchiveIndex → res A) : steady any (index_read sched f).
Proof using Henv.
  apply steady_call. intros w Hs. cbn [snd]. by replace (w <| iw_raw := iw_raw w |>) with w by (by destruct w).
Qed.
#[local] Hint Resolve steady_devices steady_reads steady_index steady_try : core.

Lemma steady_ensureGatewayChild m : steady any (ensureGatewayChild sched clock random m).
Proof using Henv.
  unfold ensureGatewayChild. case_decide; [auto|].
  apply steady_then; [by apply steady_try, steady_devices|]. intros [gateway|e]; [|case_decide; auto].
  case_decide; [auto|]. apply steady_then.
  { unfold check_product. case_decide; [auto|]. apply steady_then; [by apply steady_try, steady_devices|].
    intros [p|e]; case_decide; auto. }
  intros _. unfold check_child. apply steady_then; [by apply steady_try, steady_devices|].
  intros [child|e]; [repeat case_decide; auto|]. case_decide; [|auto].
  unfold register_child, clock_millis, random_text.
  apply steady_then; [apply steady_then; auto|]. intros now. do 2 (apply steady_then; [auto|]; intros ?).
  apply steady_then; [by apply steady_try, steady_devices|]. intros [_|e']; [|auto].
  unfold RecordAudit, random_text. apply steady_then; [apply steady_observe|]. intros audit.
  apply steady_then; [|intros; by apply steady_ret].
  apply steady_try, steady_call. intros w Hs. by apply (stuck_ledger _ w).
Qed.

(** The protocol of the message is filled in, nothing else. *)
Lemma steady_productBinding tenant product : steady any (productBinding sched clock tenant product).
Proof using Henv.
  assert (steady any (load_binding sched clock tenant product)) as Hload.
  { unfold load_binding. apply steady_then; [by apply steady_try, steady_reads|]. intros binding.
    destruct (match binding with Ok _ => true | Err _ => _ end); [|auto].
    apply steady_then; [auto|]. intros now. apply steady_then; [|auto].
    apply steady_local. intros w Hs. by apply (stuck_ledger _ w). }
  unfold productBinding. apply steady_then; [by apply steady_local|]. intros entry.
  apply steady_then; [auto|]. intros now. destruct entry; [case_decide; auto|done].
Qed.
Lemma steady_protocolRelease tenant protocol version :
  steady any (protocolRelease sched clock tenant protocol version).
Proof using Henv.
  assert (steady any (load_release sched clock tenant protocol version)) as Hload.
  { unfold load_release. apply steady_then; [by apply steady_try, steady_reads|]. intros [v|e]; [|auto].
    apply steady_then; [auto|]. intros now. apply steady_then; [|auto].
    apply steady_local. intros w Hs. by apply (stuck_ledger _ w). }
  unfold protocolRelease. apply steady_then; [by apply steady_local|]. intros entry.
  apply steady_then; [auto|]. intros now. destruct entry; [case_decide; auto|done].
Qed.
Lemma steady_bind_protocol m : alike m → steady alike (bind_protocol sched clock m).
Proof using Henv.
  intros Hm. unfold bind_protocol. case_decide; [|by apply steady_ret].
  apply steady_then; [apply steady_productBinding|]. intros [b|e]; [|by apply steady_ret].
  apply steady_then; [apply steady_protocolRelease|]. intros [v|e]; apply steady_ret; by destruct Hm.
Qed.

(** Every database refuses the message. *)
Lemma stuck_save m w b :
  raw_key m = raw_key raw → rm_Payload m = rm_Payload raw → stuck raw w →
  (∃ e, (save_in_database b m (iw_store w)).1 = Err e) ∧
  stuck raw (set_store (save_in_database b m (iw_store w)).2 w).
Proof using.
  intros Ek Ep Hs. unfold save_in_database. destruct (database b (iw_store w)) as [[used t]|] eqn:Hd.
  2:{ split; [by eexists|]. by destruct w. }
  apply (database_table _ _ _ _ w eq_refl) in Hd as [Hused Ht].
  destruct (st_tables _ _ Hs _ _ Ht) as (old & Hold & Hne). unfold SaveRawMessage. rewrite Ek, Hold.
  rewrite decide_True by (left; unfold PayloadHash in *; by rewrite Ep). split; [by eexists|].
  eapply stuck_ledger; [|exact Hs]. split; try done. intros b'. cbn [fst snd]. rewrite table_put by done.
  destruct (decide (b' = used)) as [-> |]; congruence.
Qed.

(** [p] fails and leaves the message stuck. *)
Definition refuses {A} (p : IngestIO A) : Prop := steady (λ _ : A, False) p.
Lemma stuck_PutRaw m :
  raw_key m = raw_key raw → rm_Payload m = rm_Payload raw → refuses (PutRaw sched clock m).
Proof using Henv.
  intros Ek Ep. unfold PutRaw. apply steady_then; [by apply steady_try, steady_devices|]. intros state.
  apply steady_then.
  { apply steady_local. intros w Hs. pose proof (note_arrival_ledger m w) as Hl.
    destruct (note_arrival m (iw_store w)) as [previous st]. by apply (stuck_ledger _ w). }
  intros [previous threshold]. destruct (match state with Ok _ => _ | Err _ => _ end) as [interval lastSeen].
  apply (steady_bind (λ _, False)); [|done]. intros w n Hs.
  apply yields_call; [intros e _; split; [by apply Henv|done]|]. intros w1 _.
  pose proof (stuck_save m (sc_env sched n w)
    (backend_of threshold interval lastSeen previous (rm_ReceivedAt m)) Ek Ep (Henv n w Hs)) as [[e Ee] Hst].
  destruct (save_in_database _ m _) as [r st']. cbn [fst snd] in *. subst r. by split.
Qed.
Lemma stuck_archive_new m :
  raw_key m = raw_key raw → rm_Payload m = rm_Payload raw → refuses (archive_new sched clock m).
Proof using Henv.
  intros Ek Ep. unfold archive_new. intros w n Hs. apply yields_bind, yields_try.
  eapply yields_mono; [by apply (stuck_PutRaw m Ek Ep)|]. intros [i|e] [w1 n1] [Hs1 Hno]; [by destruct (Hno i)|].
  by apply yields_fails.
Qed.

Lemma stuck_prepared m : alike m → refuses (ingest_prepared sched clock legacy m).
Proof using Henv.
  intros Hm w n Hs. unfold ingest_prepared, reserve. apply yields_bind, yields_try, yields_call.
  { intros e _. pose proof (Henv n w Hs) as Hs1. destruct (decide (err_is e = Conflict)); [|by apply yields_fails].
    apply (steady_then _ _ _ (steady_try _ (steady_index _))); [intros; apply steady_fails|done]. }
  intros w1 _. pose proof (Henv n w Hs) as Hs1. change (stuck raw w1) in Hs1. clearbody w1.
  destruct (st_reserved _ _ Hs1) as (v & Hv & Hsame & Ekey). unfold ReserveRawMessage.
  rewrite (al_key m Hm), Hv. rewrite decide_False.
  2:{ unfold other_message, PayloadHash in *. by rewrite (al_payload m Hm), (al_product m Hm), (al_device m Hm). }
  cbn [fst snd]. replace (w1 <| iw_reservations := iw_reservations w1 |>) with w1 by (by destruct w1).
  set (m' := (clone (rv_Metadata v)) <| rm_Payload := rm_Payload m |>).
  assert (refuses (archive_new sched clock m')) as Harchive
    by (apply stuck_archive_new; [exact Ekey|apply (al_payload m Hm)]).
  apply yields_bind. unfold seen_before. apply yields_bind, yields_try.
  unfold index_read, index_call. apply yields_call.
  { intros e _. pose proof (Henv (S n) w1 Hs1) as Hs2. destruct (decide (err_is e = NotFound)).
    - by apply yields_ret, Harchive.
    - by apply yields_fails. }
  intros w2 _. pose proof (Henv (S n) w1 Hs1) as Hs2. change (stuck raw w2) in Hs2. clearbody w2.
  cbn [fst snd]. replace (w2 <| iw_raw := iw_raw w2 |>) with w2 by (by destruct w2).
  unfold GetRawIndexAt, GetRawIndex. fold (raw_key m). rewrite (al_key m Hm), (st_index _ _ Hs2).
  rewrite decide_True by done. by apply yields_ret, Harchive.
Qed.

Lemma stuck_IngestRaw :
  rm_MessageID raw ≠ "" → refuses (IngestRaw sched clock paused random legacy raw).
Proof using Henv.
  intros Hid. unfold IngestRaw. apply steady_then; [auto|]. intros [|]; [auto|].
  apply steady_then; [auto|]. intros now.
  assert (alike (Normalize now raw)) as Hm.
  { unfold Normalize. rewrite (decide_False (P := rm_MessageID raw = "")) by done.
    split; repeat case_decide; by destruct raw. }
  eapply steady_bind; [by apply steady_bind_protocol|]. intros m Hm'. destruct (Validate m) as [_|e]; [|auto].
  apply steady_then; [apply steady_ensureGatewayChild|]. intros _. by apply stuck_prepared.
Qed.
End stuck.

(** ** The properties *)

Section properties.
Context `{AlarmDetails, RawCodec, MapOrder} (sched : store_schedule ingest_world).
Context (clock : nat → Z) (paused : nat → bool) (random : nat → nat → string).
Context (legacy : option (RawArchiveIndex → res RawMessage)).
Implicit Types (w : ingest_world) (m raw : RawMessage) (i idx : RawArchiveIndex).

(** The others keep the ledger and forget nothing. *)
Definition others_keep : Prop := ∀ n w, raw_ok w → raw_ok (sc_env sched n w) ∧ moves w (sc_env sched n w).
(** A call that fails does not claim a conflict or that something is missing. *)
Definition plain_failures : Prop :=
  ∀ n e, sc_fail sched n = Some e → err_is e ≠ Conflict ∧ err_is e ≠ NotFound.
Definition hex_digests : Prop := ∀ s, utf8 ("raw_" +:+ String.substring 0 24 (sha256_hex s)).

(** C10: whatever other processes that keep the ledger do between the calls
    and whichever calls fail, with errors that claim neither a conflict nor that
    something is missing, IngestRaw keeps the ledger, and its answer is right.  The message is any with JSON text as its payload, however
    it is written, and other fields that JSON gives back ([codable]); the state
    is one that keeps the ledger, as in every history of C13.  A message it
    accepts is archived under its identity with the content that identity was
    reserved for, and its copy through JSON can be read back; it or that copy
    was published if this call created the entry or found one.  A conflict is
    reported only when the identity is reserved for other content, or when a
    database holds a copy of the message whose digest is not that of the text
    received, the fault of C27. *)
Theorem IngestRaw_outcome raw w n :
  others_keep → plain_failures → hex_digests → raw_ok w → codable raw →
  let '(r, (w', _)) := IngestRaw sched clock paused random legacy raw (w, n) in
  raw_ok w' ∧ moves w w' ∧ ∃ m, prepared raw m ∧
  match r with
  | Ok (idx, created) =>
    (∃ v i stored, iw_reservations w' !! raw_key m = Some v ∧ ¬ other_message v m ∧
       iw_raw w' !! raw_key m = Some i ∧ archive_part i = archive_part idx ∧
       of_reservation v stored ∧ describes idx stored ∧
       GetRaw legacy idx (iw_store w') = Ok (json_copy stored)) ∧
    (created = true ∨ is_Some (iw_raw w !! raw_key m) →
       ∃ v sent e, iw_reservations w' !! raw_key m = Some v ∧ of_reservation v sent ∧
         publishes e sent ∧ e ∈ iw_bus w')
  | Err e => err_is e = Conflict →
      (∃ v, iw_reservations w' !! raw_key m = Some v ∧ other_message v m) ∨ copy_conflict m w'
  end.
Proof using.
  intros Hrely Hfail Hsha Hw Hc.
  pose proof (yields_IngestRaw sched clock paused random legacy Hrely Hfail Hsha raw w n Hw Hc) as Hy.
  unfold yields in Hy. destruct (IngestRaw _ _ _ _ _ raw (w, n)) as [r [w' n']]. cbn [fst snd] in Hy.
  destruct Hy as ([Hw' Hm] & m & Hprep & Hr). split; [done|]. split; [done|]. exists m. split; [done|].
  destruct r as [[idx created]|e]; [|exact Hr]. destruct Hr as [(v & i & st & Ha) Hp]. split; [|exact Hp].
  exists v, i, st. tauto.
Qed.

(** A history of calls. *)
Inductive ingest_op := Ingest (raw : RawMessage) | RetryPending.
Definition op_codable (o : ingest_op) : Prop := match o with Ingest raw => codable raw | RetryPending => True end.
Definition run_op (s : ingest_world * nat) (o : ingest_op) : ingest_world * nat :=
  match o with
  | Ingest raw => (IngestRaw sched clock paused random legacy raw s).2
  | RetryPending => (retryPendingRawOnce sched clock legacy s).2
  end.
(** Nothing was received; devices and bindings are as they may be. *)
Record fresh w : Prop := {
  fr_reservations : iw_reservations w = ∅; fr_index : iw_raw w = ∅;
  fr_tables : ∀ b t, table b w = Some t → t = ∅;
  fr_bus : iw_bus w = []; fr_cache : iw_cache w = ∅;
  fr_bindings : ∀ k b, iw_bindings w !! k = Some b → utf8 (pb_ProtocolID b) ∧ utf8 (pb_Version b);
  fr_releases : ∀ k r, iw_releases w !! k = Some r → utf8 (pr_PointTableVersion r) }.

Lemma fresh_ok w : fresh w → raw_ok w.
Proof using.
  intros [F1 F2 F3 F4 F5 F6 F7]. unfold tenant_protocols.
  split; unfold tenant_protocols; rewrite ?F1, ?F2, ?F4, ?F5; try done.
  - intros b t k m Ht. by rewrite (F3 _ _ Ht).
  - intros e He. by apply elem_of_nil in He.
Qed.
Lemma history_ok ops w n :
  others_keep → plain_failures → hex_digests → raw_ok w → Forall op_codable ops →
  raw_ok (foldl run_op (w, n) ops).1.
Proof using.
  intros Hrely Hfail Hsha Hw Hops. revert w n Hw. induction Hops as [|o ops Ho _ IH]; intros w n Hw; [done|].
  cbn [foldl]. destruct (run_op (w, n) o) as [w1 n1] eqn:E. apply IH.
  destruct o as [raw|]; cbn in E.
  - pose proof (yields_IngestRaw sched clock paused random legacy Hrely Hfail Hsha raw w n Hw Ho) as [[Hw1 _] _].
    by rewrite E in Hw1.
  - pose proof (yields_retryPendingRawOnce sched clock legacy Hrely Hfail w n Hw) as [Hw1 _]. by rewrite E in Hw1.
Qed.

(** C13: in every history of ingestion and of the retry job, with failures
    that claim neither a conflict nor that something is missing and with other
    processes that keep the ledger in between, from a platform that has
    received nothing, for messages whose payloads are JSON text and whose other
    fields JSON gives back: of every indexed message, the one its entry
    describes, the copy through JSON can be read back - the same but for the
    white space and escapes of its payload -; when the entry is marked as
    published, a message of that content or its copy was published; and every
    message published is, or is the copy of, one that is indexed under its
    identity with its digest. *)
Theorem raw_ledger ops w n :
  others_keep → plain_failures → hex_digests → fresh w → Forall op_codable ops →
  let w' := (foldl run_op (w, n) ops).1 in
  (∀ k i, iw_raw w' !! k = Some i →
    ∃ m, describes i m ∧ raw_key m = k ∧ payload_json (rm_Payload m) ∧
      GetRaw legacy i (iw_store w') = Ok (with_payload (compact (rm_Payload m)) m) ∧
      (ri_PublishedAt i ≠ 0 →
       ∃ sent e, publishes e sent ∧ e ∈ iw_bus w' ∧ head_of sent = head_of m ∧ PayloadHash sent = PayloadHash m)) ∧
  (∀ e, e ∈ iw_bus w' → be_topic e = TopicRaw →
    ∃ m i, publishes e m ∧ iw_raw w' !! raw_key m = Some i ∧ describes i m).
Proof using.
  intros Hrely Hfail Hsha Hw Hops w'.
  pose proof (history_ok ops w n Hrely Hfail Hsha (fresh_ok w Hw) Hops) as Hok. fold w' in Hok.
  split.
  - intros k i Hi. destruct (indexed_read w' legacy k i i Hok Hi eq_refl) as (v & m & Hv & Ho & Hd & Ek & Hget).
    exists m. split_and!; try done; [apply Ho|]. intros Hpub.
    destruct (ro_published _ Hok k i Hi Hpub) as (v' & sent & e & Hv' & Ho' & Hpe & Hin).
    assert (v' = v) as -> by congruence. destruct Ho as [E1 _ E2], Ho' as [E1' _ E2'].
    exists sent, e. split_and!; [done|done|congruence..].
  - intros e He Ht. destruct (ro_bus _ Hok e He Ht) as (k & v & m & Hv & Ho & Hpe & i & Hi).
    destruct (indexed_read w' legacy k i i Hok Hi eq_refl) as (v' & m' & Hv' & Ho' & Hd & Ek & _).
    assert (v' = v) as -> by congruence. exists m, i. split; [done|].
    rewrite (of_reservation_key v m m' Ho Ho'), Ek. split; [done|]. by eapply describes_same.
Qed.

(** C24: while nobody else acts and nothing fails, in a state that keeps the
    ledger (as every history of C13 does), a run of the retry job publishes each
    of the first two hundred pending messages once - the copy through JSON of
    the message its entry describes, which is what the databases hold - and
    marks it; when no more than that were pending none is left, and every other
    entry is as it was. *)
Theorem retryPendingRawOnce_publishes `{!MapOrderLaws} w n :
  calm sched → (∀ n, clock n / 1000000 ≠ 0) → raw_ok w →
  let l := ListPendingRawIndexes 200 (iw_raw w) in
  let '(r, (w', _)) := retryPendingRawOnce sched clock legacy (w, n) in
  r = Ok tt ∧ raw_ok w' ∧
  (∃ ms, Forall2 (λ i m, describes i m ∧
            ∃ i', iw_raw w' !! index_key i = Some i' ∧ ri_PublishedAt i' ≠ 0) l ms ∧
         iw_bus w' = iw_bus w ++ map (λ m, raw_event (json_copy m)) ms) ∧
  (∀ k, k ∉ map index_key l → iw_raw w' !! k = iw_raw w !! k) ∧
  (length (filter pending_entry (raw_entries (iw_raw w))) ≤ 200 → ListPendingRawIndexes 200 (iw_raw w') = [])%nat.
Proof using.
  intros Hcalm Hclock Hw l.
  assert (yields (retryPendingRawOnce sched clock legacy) (w, n) (λ r s, r = Ok tt ∧ kept w s.1 ∧
    settled (iw_raw w) (iw_raw s.1) ∧ (∀ k, k ∉ map index_key l → iw_raw s.1 !! k = iw_raw w !! k) ∧
    ∃ ms, Forall2 (λ i m, describes i m ∧ is_published (index_key i) (iw_raw s.1)) l ms ∧
          iw_bus s.1 = iw_bus w ++ map (λ m, raw_event (json_copy m)) ms)) as Hy.
  { unfold retryPendingRawOnce, index_read, index_call. apply yields_bind, yields_try, yields_calm; [done|].
    cbn [fst snd]. replace (w <| iw_raw := iw_raw w |>) with w by (by destruct w).
    apply retry_entries_calm; [done..|apply raw_entries_listed]. }
  unfold yields in Hy. destruct (retryPendingRawOnce _ _ _ (w, n)) as [r [w' n']]. cbn [fst snd] in Hy.
  destruct Hy as (-> & [Hw' _] & Hs & Hf & ms & Hms & Eb). split; [done|]. split; [done|].
  split; [by exists ms|]. split; [done|]. intros Hlen.
  destruct (ListPendingRawIndexes 200 (iw_raw w')) as [|i l'] eqn:El; [done|exfalso].
  destruct (pending_listed i (iw_raw w')) as [[Hi0 Hatt] (k & Hi)]; [by rewrite El; left|].
  destruct (Hs k) as [Eq|(i1 & i2 & _ & E2 & Hne)]; [|congruence].
  assert (i ∈ l) as Hl by (apply pending_listed_all; [done|by exists k; rewrite <-Eq|by split]).
  apply list_elem_of_lookup in Hl as (x & Hx).
  destruct (Forall2_lookup_l _ _ _ _ _ Hms Hx) as (m & _ & Hd & i3 & Hi3 & Hne3).
  rewrite Eq in Hi. destruct (indexed_read w legacy k i i Hw Hi eq_refl) as (v & m' & _ & _ & Hd' & Ek & _).
  rewrite (describes_key _ _ Hd'), Ek, Eq, Hi in Hi3. by injection Hi3 as <-.
Qed.

(** C27: a message with an identity of its own whose reservation is for its
    content, that every database holds under another digest and that is neither
    indexed nor published, stays so while the other processes leave it as it
    is: however often it is delivered again, whichever calls fail, every
    delivery fails and it is neither indexed nor published. *)
Theorem IngestRaw_stuck raw w n :
  (∀ n w, stuck raw w → stuck raw (sc_env sched n w)) → rm_MessageID raw ≠ "" → stuck raw w →
  let '(r, (w', _)) := IngestRaw sched clock paused random legacy raw (w, n) in
  (∃ e, r = Err e) ∧ iw_raw w' !! raw_key raw = None ∧
  (∀ m, raw_key m = raw_key raw → raw_event m ∉ iw_bus w') ∧ stuck raw w'.
Proof using.
  intros Henv Hid Hs. pose proof (stuck_IngestRaw sched clock paused random legacy raw Henv Hid w n Hs) as Hy.
  unfold yields in Hy. destruct (IngestRaw _ _ _ _ _ raw (w, n)) as [r [w' n']]. cbn [fst snd] in Hy.
  destruct Hy as [Hs' Hno]. split; [|split; [apply Hs'|split; [apply Hs'|done]]].
  destruct r as [a|e]; [by destruct (Hno a)|by exists e].
Qed.

(** What a gateway may report a message for. *)
Definition devices w : gmap string ManagedDevice := dr_devices (iw_repo w).
Definition device_of raw : string := store_key [rm_TenantID raw; rm_DeviceID raw].
Definition gateway_of raw : string := store_key [rm_TenantID raw; rm_GatewayID raw].
Definition enabled_product raw w : Prop :=
  rm_ProductID raw ≠ "" ∧ ∃ p, GetProduct (rm_TenantID raw) (rm_ProductID raw) (iw_repo w) = Ok p ∧ p_Status p = "ENABLED".
Definition child_under (g : ManagedDevice) raw (c : ManagedDevice) : Prop :=
  d_DeviceRole c = "CHILD" ∧ d_GatewayID c = d_ID g ∧ d_ProductID c = rm_ProductID raw.

Definition admission raw w (r : res unit) (s : ingest_world * nat) : Prop :=
  match r with
  | Ok _ =>
    (rm_GatewayID raw = "" ∨ rm_DeviceID raw = rm_GatewayID raw) ∧ devices s.1 = devices w ∨
    ∃ g c, devices w !! gateway_of raw = Some g ∧ IsGateway g ∧ enabled_product raw w ∧ child_under g raw c ∧
      devices s.1 = <[device_of raw := c]> (devices w) ∧
      (devices w !! device_of raw = None ∨ devices w !! device_of raw = Some c)
  | Err _ => devices s.1 = devices w
  end.

Lemma calm_devices {A} (f : device_repo → res A * device_repo) w n (Q : res (res A) → ingest_world * nat → Prop) :
  calm sched → Q (Ok (f (iw_repo w)).1) (w <| iw_repo := (f (iw_repo w)).2 |>, S n) →
  yields (store_try (devices_call sched f)) (w, n) Q.
Proof using.
  intros Hcalm HQ. unfold devices_call. apply yields_try, (yields_calm sched); [done|]. by destruct (f (iw_repo w)).
Qed.
Lemma calm_reads {A} (f : device_repo → res A) w n (Q : res (res A) → ingest_world * nat → Prop) :
  calm sched → Q (Ok (f (iw_repo w))) (w, S n) → yields (store_try (devices_read sched f)) (w, n) Q.
Proof using.
  intros Hcalm HQ. apply calm_devices; [done|]. cbn [fst snd].
  by replace (w <| iw_repo := iw_repo w |>) with w by (by destruct w).
Qed.

Lemma register_child_admits raw g w n :
  calm sched → devices w !! device_of raw = None →
  yields (register_child sched clock random raw g) (w, n) (λ r s,
    match r with
    | Ok _ => ∃ c, child_under g raw c ∧ devices s.1 = <[device_of raw := c]> (devices w)
    | Err _ => devices s.1 = devices w
    end).
Proof using.
  intros Hcalm Hnone. unfold register_child, clock_millis, random_text.
  apply yields_bind, yields_bind, yields_observe, yields_ret, yields_bind, yields_observe, yields_bind, yields_observe.
  set (c := child_of _ _ _ _ _). apply yields_bind, calm_devices; [done|].
  unfold SaveManagedDevice. destruct (decide (map_Forall _ _)); cbn [fst snd].
  - unfold RecordAudit, random_text. apply yields_bind, yields_observe, yields_bind, yields_try, (yields_calm sched); [done|].
    apply yields_ret. by exists c.
  - by apply yields_fails.
Qed.

(** C11: while nobody else acts, a message is let through only when it comes
    from a device itself or its gateway is registered as one, the product of
    its device is enabled and the device is a child of that gateway with that
    product; a device that was not registered is registered as such, no
    registered device is changed, and a refusal changes none. *)
Theorem ensureGatewayChild_admits raw w n :
  calm sched →
  let '(r, s) := ensureGatewayChild sched clock random raw (w, n) in
  match r with
  | Ok _ =>
    (rm_GatewayID raw = "" ∨ rm_DeviceID raw = rm_GatewayID raw) ∧ devices s.1 = devices w ∨
    ∃ g c, devices w !! gateway_of raw = Some g ∧ IsGateway g ∧ enabled_product raw w ∧ child_under g raw c ∧
      devices s.1 = <[device_of raw := c]> (devices w) ∧
      (devices w !! device_of raw = None ∨ devices w !! device_of raw = Some c)
  | Err _ => devices s.1 = devices w
  end.
Proof using.
  intros Hcalm. assert (yields (ensureGatewayChild sched clock random raw) (w, n) (admission raw w)) as Hy.
  { unfold ensureGatewayChild. destruct (decide _) as [Hd|Hd]; [apply yields_ret; by left|].
    assert (∀ e n', yields (store_fails e : StoreIO ingest_world unit) (w, n') (admission raw w)) as Hrefuse by done.
    apply yields_bind, calm_reads; [done|]. destruct (GetManagedDevice _ (rm_GatewayID raw) _) as [g|e] eqn:Hg;
      [|by destruct (decide _)].
    destruct (decide (¬ IsGateway g)) as [|Hgw]; [done|]. apply dec_stable in Hgw.
    apply yields_bind. unfold check_product. destruct (decide (rm_ProductID raw = "")) as [|Hp]; [done|].
    apply yields_bind, calm_reads; [done|]. destruct (GetProduct _ _ _) as [p|e] eqn:Hprod; [|by destruct (decide _)].
    destruct (decide (p_Status p ≠ "ENABLED")) as [|Hst]; [done|]. apply dec_stable in Hst. apply yields_ret.
    assert (enabled_product raw w) as Hen by (split; [done|by exists p]).
    assert (devices w !! gateway_of raw = Some g) as Hg'.
    { unfold GetManagedDevice in Hg. unfold devices, gateway_of. destruct (_ !! _); [by injection Hg as ->|done]. }
    unfold check_child. apply yields_bind, calm_reads; [done|]. unfold GetManagedDevice.
    destruct (dr_devices (iw_repo w) !! store_key [rm_TenantID raw; rm_DeviceID raw]) as [c|] eqn:Hc.
    - destruct (decide (_ ∨ _)) as [|Hchild]; [done|]. apply Decidable.not_or in Hchild as [E1 E2].
      apply dec_stable in E1, E2. destruct (decide (d_ProductID c ≠ _)) as [|E3]; [done|]. apply dec_stable in E3.
      apply yields_ret. right. exists g, c. split_and!; try done; [|by right].
      cbn. symmetry. by apply insert_id.
    - rewrite decide_True by done. eapply yields_mono; [by apply register_child_admits|].
      intros [[]|e] s; [|done]. intros (c & Hcu & E). right. exists g, c. split_and!; try done. by left. }
  unfold yields in Hy. by destruct (ensureGatewayChild _ _ _ raw (w, n)).
Qed.
End properties.
