(* ===== verification/RawWitness.v ===== *)
(** The theorems about ingestion on a concrete encoding and a concrete
    platform. *)
From S2P Require Import Prelude GoText GbCodec StoreIO AlarmModel AlarmStore MessageClaims.
From S2P Require Import MessageClaimsTheorems DeviceModel Scenario.
From S2P Require Import RawModel RawIngest RawProofs RawSteps RawTheorems.
From Stdlib Require Import Ascii.

#[local] Instance no_details : AlarmDetails := {| detail := unit; event_detail _ := tt; detail_event _ := None |}.
#[local] Instance raw_order : MapOrder := λ A m, (map_to_list m).*1.
#[local] Instance raw_order_laws : MapOrderLaws.
Proof. intros A m. reflexivity. Qed.

(** ** An encoding of messages

    The payload loses its spaces; headers and metadata are dropped. *)

Fixpoint squeeze (s : string) : string :=
  match s with
  | EmptyString => ""
  | String " "%char s => squeeze s
  | String c s => String c (squeeze s)
  end.
Definition coded (m : RawMessage) : string :=
  frame (rm_MessageID m) (frame (rm_Source m) (frame (rm_TenantID m) (frame (rm_ProductID m)
  (frame (rm_DeviceID m) (frame (rm_DeviceName m) (frame (rm_GatewayID m) (frame (rm_Protocol m)
  (frame (rm_Transport m) (frame (rm_PayloadFormat m) (frame (squeeze (rm_Payload m)) (frame (rm_ClientID m)
  (frame (rm_RemoteAddress m) (frame (rm_ParserVersion m) (frame (rm_ProtocolID m)
  (frame (rm_ProtocolVersion m) (frame (rm_PointTableVersion m) (frame (rm_CollectorID m)
  (int_bits (rm_ReceivedAt m))))))))))))))))))).
Definition decoded (s : string) : RawMessage :=
  let '(id, s) := unframe s in let '(source, s) := unframe s in let '(tenant, s) := unframe s in
  let '(product, s) := unframe s in let '(device, s) := unframe s in let '(name, s) := unframe s in
  let '(gateway, s) := unframe s in let '(protocol, s) := unframe s in let '(transport, s) := unframe s in
  let '(format, s) := unframe s in let '(payload, s) := unframe s in let '(client, s) := unframe s in
  let '(remote, s) := unframe s in let '(parser, s) := unframe s in let '(protocolID, s) := unframe s in
  let '(version, s) := unframe s in let '(points, s) := unframe s in let '(collector, s) := unframe s in
  mk_RawMessage id source tenant product device name gateway protocol transport (bits_int s) format payload
    client remote ∅ parser protocolID version points collector ∅.
#[local] Instance framed_codec : RawCodec := {|
  marshal m := Some (bytes_of (coded m));
  unmarshal l := Some (decoded (string_of_bytes l));
  sha256_hex s := if Nat.even (String.length s) then "e0" else "0d" |}.

Lemma clone_eq m :
  clone m = m <| rm_Payload := squeeze (rm_Payload m) |> <| rm_Headers := ∅ |> <| rm_Metadata := ∅ |>.
Proof.
  unfold clone. cbn [marshal unmarshal framed_codec default]. rewrite string_of_bytes_of.
  unfold decoded, coded. rewrite !unframe_frame, bits_int_bits. by destruct m.
Qed.
Lemma squeeze_squeeze p : squeeze (squeeze p) = squeeze p.
Proof.
  induction p as [|c p IH]; [done|]. destruct (decide (c = " "%char)) as [-> |Hc]; [done|].
  assert (∀ q, squeeze (String c q) = String c (squeeze q)) as E.
  { intros q. cbn. destruct c as [[] [] [] [] [] [] [] []]; done. }
  by rewrite !E, IH.
Qed.
Lemma compact_squeeze p : compact p = squeeze p.
Proof. unfold compact. by rewrite clone_eq. Qed.
Lemma every_payload p : payload_json p.
Proof.
  unfold payload_json. rewrite !clone_eq, !compact_squeeze. cbn [with_payload rm_Payload set].
  unfold with_payload, set. cbn. by rewrite squeeze_squeeze.
Qed.
Lemma head_plain m : rm_Headers m = ∅ → rm_Metadata m = ∅ → head_ok m.
Proof.
  intros E1 E2. split.
  - intros p _. rewrite clone_eq, compact_squeeze. destruct m; cbn in *. unfold with_payload, set. cbn.
    by rewrite E1, E2.
  - rewrite clone_eq. destruct m; cbn in *. unfold head_of, with_payload, set. cbn. by rewrite E1, E2.
Qed.
Lemma codable_plain raw : rm_Headers raw = ∅ → rm_Metadata raw = ∅ → codable raw.
Proof.
  intros E1 E2. split; [apply every_payload|]. intros m [E _ _ _ _ _ _ _].
  pose proof (f_equal rm_Headers E) as F1. pose proof (f_equal rm_Metadata E) as F2. cbn in F1, F2.
  apply head_plain; congruence.
Qed.
Lemma short_digests : hex_digests.
Proof. intros s. cbn [sha256_hex framed_codec]. by destruct (Nat.even _). Qed.

(** ** A gateway and its child *)

Definition gateway : ManagedDevice :=
  zero_ManagedDevice <| d_ID := "g" |> <| d_TenantID := "t" |> <| d_DeviceRole := "GATEWAY" |>.
Definition panel : Product := mk_Product "p" "t" "" "ENABLED" 60 30.
Definition registered : device_repo :=
  mk_device_repo _ ∅ [] {[store_key ["t"; "g"] := gateway]} {[store_key ["t"; "p"] := panel]}
    empty_alarm_repo empty_claim_repo.
(** One database; the product is bound to a protocol with a point table. *)
Definition platform : ingest_world :=
  mk_ingest_world _ registered ∅ ∅ {[store_key ["t"; "p"] := mk_ProductProtocolBinding "t" "p" "gb" "1"]}
    {[store_key ["t"; "gb"; "1"] := mk_ProtocolRelease "t" "gb" "1" "pt1"]} []
    (New (Some ∅) None 10) [] ∅.
Definition report (payload : string) : RawMessage :=
  zero_RawMessage <| rm_MessageID := "m" |> <| rm_TenantID := "t" |> <| rm_ProductID := "p" |>
    <| rm_DeviceID := "c" |> <| rm_GatewayID := "g" |> <| rm_Payload := payload |>.
(** Nobody else acts; the calls of which [broken] says so fail. *)
Definition lonely (broken : nat → bool) : store_schedule ingest_world :=
  mk_store_schedule (λ _ w, w) (λ n, if broken n then Some (mk_error Other "connection refused") else None).
Definition noon_clock (n : nat) : Z := 1700000000000000000 + Z.of_nat n * 1000000.
Definition never (_ : nat) : bool := false.
Definition counted (n k : nat) : string := counted_id (n + k).

Abbreviation ingest broken := (IngestRaw (lonely broken) noon_clock never counted None).

Lemma lonely_keeps broken : others_keep (lonely broken).
Proof. by intros n w Hw. Qed.
Lemma lonely_plain broken : plain_failures (lonely broken).
Proof. intros n e. cbn. destruct (broken n); [|done]. by intros [= <-]. Qed.
Lemma platform_fresh : fresh platform.
Proof.
  split; try done.
  - intros b t. unfold table. destruct (decide _); [by intros [= <-]|]. by destruct (decide _).
  - intros k b Hb. cbn [iw_bindings platform] in Hb. by apply lookup_singleton_Some in Hb as [_ <-].
  - intros k r Hr. cbn [iw_releases platform] in Hr. by apply lookup_singleton_Some in Hr as [_ <-].
Qed.
Lemma report_codable p : codable (report p).
Proof. by apply codable_plain. Qed.

(** ** An accepted message

    Its payload has a space, which the copy in the database has not. *)

Definition accepted := ingest never (report "{ }") (platform, 0%nat).
#[local] Strategy expand [accepted].
Definition entry_of (r : res (RawArchiveIndex * bool)) : RawArchiveIndex :=
  match r with Ok (i, _) => i | Err _ => zero_RawArchiveIndex end.

Lemma accepted_result : accepted.1 = Ok (entry_of accepted.1, true).
Proof. vm_compute. reflexivity. Qed.

Lemma IngestRaw_outcome_witness :
  accepted.1 = Ok (entry_of accepted.1, true) ∧
  (∃ v stored, GetRaw None (entry_of accepted.1) (iw_store accepted.2.1) = Ok (json_copy stored) ∧
     of_reservation v stored) ∧
  ∃ v sent e, of_reservation v sent ∧ publishes e sent ∧ e ∈ iw_bus accepted.2.1.
Proof.
  pose proof accepted_result as Er. split; [exact Er|].
  pose proof (IngestRaw_outcome (lonely never) noon_clock never counted None (report "{ }") platform 0
    (lonely_keeps never) (lonely_plain never) short_digests (fresh_ok _ platform_fresh)
    (report_codable "{ }")) as Hout.
  change (ingest never (report "{ }") (platform, 0%nat)) with accepted in Hout.
  destruct accepted as [r [w' n']].
  cbn [fst snd] in *. rewrite Er in Hout. destruct Hout as (_ & _ & m & _ & Ha & Hp).
  destruct Ha as (v & _ & stored & _ & _ & _ & _ & Ho & _ & Hget). split; [exists v, stored; split; assumption|].
  destruct (Hp (or_introl eq_refl)) as (v' & sent & e & _ & Ho' & Hpe & Hin). exists v', sent, e.
  exact (conj Ho' (conj Hpe Hin)).
Defined.

(** ** A broken bus *)

(** The seventeenth call publishes. *)
Definition bus_down (n : nat) : bool := bool_decide (n = 16%nat).
Definition report_key : string := raw_key (report "{ }").
Definition delivered_twice : list ingest_op := [Ingest (report "{ }"); RetryPending; Ingest (report "{ }")].
Definition recovered_world : ingest_world :=
  (foldl (run_op (lonely bus_down) noon_clock never counted None) (platform, 0%nat) delivered_twice).1.
Lemma once_codable : Forall op_codable [Ingest (report "{ }")].
Proof. constructor; [by apply report_codable|constructor]. Qed.
Lemma twice_codable : Forall op_codable delivered_twice.
Proof. constructor; [by apply report_codable|]. constructor; [done|exact once_codable]. Qed.
#[local] Strategy expand [recovered_world].

Lemma raw_ledger_witness :
  length (iw_bus recovered_world) = 1%nat ∧
  ∃ i m sent e, iw_raw recovered_world !! report_key = Some i ∧
    GetRaw None i (iw_store recovered_world) = Ok (json_copy m) ∧
    publishes e sent ∧ e ∈ iw_bus recovered_world ∧ PayloadHash sent = PayloadHash m.
Proof.
  split; [vm_compute; reflexivity|].
  assert (∃ i, iw_raw recovered_world !! report_key = Some i ∧ ri_PublishedAt i ≠ 0) as (i & Hi & Hp)
    by (eexists; split; [vm_compute; reflexivity|vm_compute; discriminate]).
  pose proof (raw_ledger (lonely bus_down) noon_clock never counted None
    delivered_twice platform 0 (lonely_keeps bus_down) (lonely_plain bus_down) short_digests platform_fresh
    twice_codable) as [Hindex _].
  destruct (Hindex report_key i Hi) as (m & _ & _ & _ & Hget & Hpub).
  destruct (Hpub Hp) as (sent & e & Hpe & Hin & _ & Eh). exists i, m, sent, e.
  exact (conj Hi (conj Hget (conj Hpe (conj Hin Eh)))).
Defined.

(** The message is pending; then the job runs. *)
Definition pending_world : ingest_world :=
  (foldl (run_op (lonely bus_down) noon_clock never counted None) (platform, 0%nat) [Ingest (report "{ }")]).1.
#[local] Strategy expand [pending_world].
Lemma pending_ok : raw_ok pending_world.
Proof.
  exact (history_ok (lonely bus_down) noon_clock never counted None [Ingest (report "{ }")] platform 0
    (lonely_keeps bus_down) (lonely_plain bus_down) short_digests (fresh_ok _ platform_fresh)
    once_codable).
Qed.
Definition retried_run := retryPendingRawOnce (lonely never) noon_clock None (pending_world, 0%nat).
#[local] Strategy expand [retried_run].

Lemma retryPendingRawOnce_publishes_witness :
  length (ListPendingRawIndexes 200 (iw_raw pending_world)) = 1%nat ∧
  ListPendingRawIndexes 200 (iw_raw retried_run.2.1) = [] ∧
  ∃ m, iw_bus retried_run.2.1 = iw_bus pending_world ++ [raw_event (json_copy m)].
Proof.
  assert (length (ListPendingRawIndexes 200 (iw_raw pending_world)) = 1%nat) as El by (vm_compute; reflexivity).
  assert (calm (lonely never)) as Hcalm by (split; intros; reflexivity).
  assert (∀ n, noon_clock n / 1000000 ≠ 0) as Hclock.
  { intros n E. unfold noon_clock in E. rewrite Z.div_add in E by lia.
    change (1700000000000000000 / 1000000) with 1700000000000 in E. lia. }
  pose proof (retryPendingRawOnce_publishes (lonely never) noon_clock None pending_world 0 Hcalm Hclock
    pending_ok) as Hrun.
  assert (length (filter pending_entry (raw_entries (iw_raw pending_world))) = 1%nat) as Ef
    by (vm_compute; reflexivity).
  unfold retried_run. cbv zeta in Hrun.
  destruct (retryPendingRawOnce (lonely never) noon_clock None (pending_world, 0%nat)) as [r [w' n']].
  destruct Hrun as (_ & _ & (ms & Hms & Eb) & _ & Hnone). cbn [fst snd].
  split; [exact El|]. split; [apply Hnone; rewrite Ef; lia|].
  apply Forall2_length in Hms. rewrite El in Hms. destruct ms as [|m [|]]; [discriminate Hms| |discriminate Hms].
  exists m. exact Eb.
Defined.

(** ** A broken index

    The payload is archived without its space; the sixteenth call, which would
    index it, fails. *)
Definition index_down (n : nat) : bool := bool_decide (n = 15%nat).
Definition spaced_report : RawMessage := report "{ }".
Definition archived_only : ingest_world := (ingest index_down spaced_report (platform, 0%nat)).2.1.
Definition again := ingest never spaced_report (archived_only, 0%nat).
#[local] Strategy expand [again].

Lemma archived_only_stuck : stuck spaced_report archived_only.
Proof.
  split.
  - eexists. split; [vm_compute; reflexivity|]. split; [|vm_compute; reflexivity].
    intros [E|[E|E]]; vm_compute in E; exact (E eq_refl).
  - vm_compute. reflexivity.
  - assert (rs_clickhouse (iw_store archived_only) = None) as Ec by (vm_compute; reflexivity).
    intros b t. unfold table. rewrite Ec. destruct (decide (b = PostgreSQLBucket)).
    + assert (∃ old, (t0 ← rs_postgres (iw_store archived_only); t0 !! raw_key spaced_report) = Some old ∧
        PayloadHash old ≠ PayloadHash spaced_report) as (old & Hold & Hne)
        by (eexists; split; [vm_compute; reflexivity|vm_compute; discriminate]).
      intros Et. rewrite Et in Hold. exists old. split; [exact Hold|exact Hne].
    + destruct (decide (b = ClickHouseBucket)); discriminate.
  - assert (iw_bus archived_only = []) as -> by (vm_compute; reflexivity).
    intros m _ Hin. by apply elem_of_nil in Hin.
Qed.

Lemma IngestRaw_stuck_witness :
  is_Some (iw_reservations archived_only !! raw_key spaced_report) ∧ (∃ e, again.1 = Err e) ∧
  iw_raw again.2.1 !! raw_key spaced_report = None ∧ raw_event spaced_report ∉ iw_bus again.2.1.
Proof.
  assert (rm_MessageID spaced_report ≠ "") as Hd by discriminate.
  pose proof (IngestRaw_stuck (lonely never) noon_clock never counted None spaced_report archived_only 0
    (λ _ _ Hs, Hs) Hd archived_only_stuck) as Hout.
  split; [eexists; vm_compute; reflexivity|].
  change (ingest never spaced_report (archived_only, 0%nat)) with again in Hout.
  destruct again as [r [w' n']]. destruct Hout as ((e & ->) & Hi & Hb & _).
  split; [exists e; reflexivity|]. split; [exact Hi|]. exact (Hb spaced_report eq_refl).
Defined.
(** The caller sees a conflict, which the inbox of the gateway quarantines. *)
Lemma again_conflict : match again.1 with Err e => err_is e = Conflict | Ok _ => False end.
Proof. vm_compute. reflexivity. Qed.

(** ** A child that was not registered *)

Definition let_through := ensureGatewayChild (lonely never) noon_clock counted (report "{}") (platform, 0%nat).
#[local] Strategy expand [let_through].
Lemma let_through_ok : let_through.1 = Ok tt.
Proof. vm_compute. reflexivity. Qed.

Lemma ensureGatewayChild_admits_witness :
  devices platform !! device_of (report "{}") = None ∧
  ∃ g c, devices platform !! gateway_of (report "{}") = Some g ∧ child_under g (report "{}") c ∧
    devices let_through.2.1 = <[device_of (report "{}") := c]> (devices platform).
Proof.
  assert (devices platform !! device_of (report "{}") = None) as Hnone by (vm_compute; reflexivity).
  split; [exact Hnone|].
  pose proof (ensureGatewayChild_admits (lonely never) noon_clock counted (report "{}") platform 0
    (conj (λ _ _, eq_refl) (λ _, eq_refl))) as Hout.
  pose proof let_through_ok as Er.
  change (ensureGatewayChild (lonely never) noon_clock counted (report "{}") (platform, 0%nat))
    with let_through in Hout.
  destruct let_through as [r s]. cbn [fst] in Er. rewrite Er in Hout.
  destruct Hout as [[[E|E] _]|(g & c & Hg & _ & _ & Hc & E & _)]; [discriminate E|discriminate E|].
  exists g, c. split; [exact Hg|]. split; [exact Hc|exact E].
Defined.
