(* ===== verification/NotifyModel.v ===== *)
(** Alarm notifications: channels, policies, the delivery queue and its memory
    store (internal/notify/model.go, memory.go, validate.go).

    Every method of the store holds its mutex and is one step.  The time of an
    update is an argument, in milliseconds. *)
From S2P Require Import Prelude GoText AlarmModel AlarmStore.

(** ** Constants *)

Abbreviation ChannelSMTP := "smtp".
Abbreviation ChannelWeCom := "wecom".
Abbreviation ChannelDingTalk := "dingtalk".
Abbreviation ChannelFeishu := "feishu".
Abbreviation ChannelWebhook := "webhook".
Abbreviation KindTrigger := "trigger".
Abbreviation KindRecovery := "recovery".
Abbreviation StatusPending := "PENDING".
Abbreviation StatusSending := "SENDING".
Abbreviation StatusSent := "SENT".
Abbreviation StatusFailed := "FAILED".
Abbreviation StatusCancelled := "CANCELLED".

Definition notify_not_found : error := mk_error NotFound "notification resource not found".
Definition notify_conflict : error :=
  mk_error Conflict "notification resource changed or is still referenced".

(** ** Data *)

Record ChannelConfig := mk_ChannelConfig {
  cc_URLHint : string; cc_Host : string; cc_Port : Z; cc_Security : string; cc_Username : string;
  cc_From : string }.
Record Channel := mk_Channel {
  ch_ID : string; ch_TenantID : string; ch_Name : string; ch_Type : string; ch_Enabled : bool;
  ch_Config : ChannelConfig; ch_SecretSet : bool; ch_Version : Z; ch_UpdatedAt : Z }.
#[export] Instance eta_Channel : Settable Channel := λ v,
  mk_Channel (ch_ID v) (ch_TenantID v) (ch_Name v) (ch_Type v) (ch_Enabled v) (ch_Config v)
    (ch_SecretSet v) (ch_Version v) (ch_UpdatedAt v).
Record ChannelSecret := mk_ChannelSecret {
  se_URL : string; se_SignSecret : string; se_Password : string }.
Definition zero_ChannelSecret : ChannelSecret := mk_ChannelSecret "" "" "".

Record Stage := mk_Stage {
  sg_DelaySeconds : Z; sg_ChannelIDs : list string; sg_Users : list string; sg_Roles : list string;
  sg_OnDuty : bool; sg_StationIDs : list string; sg_Emails : list string; sg_Mobiles : list string }.
Record Policy := mk_Policy {
  po_ID : string; po_TenantID : string; po_Name : string; po_Enabled : bool; po_Levels : list string;
  po_AlarmTypes : list string; po_ProductIDs : list string; po_NotifyRecovery : bool;
  po_Stages : list Stage; po_Version : Z; po_UpdatedAt : Z }.
#[export] Instance eta_Policy : Settable Policy := λ v,
  mk_Policy (po_ID v) (po_TenantID v) (po_Name v) (po_Enabled v) (po_Levels v) (po_AlarmTypes v)
    (po_ProductIDs v) (po_NotifyRecovery v) (po_Stages v) (po_Version v) (po_UpdatedAt v).

(** [Stage] counts the levels from 0. *)
Record Task := mk_Task {
  tk_ID : Z; tk_TenantID : string; tk_AlarmID : string; tk_PolicyID : string; tk_PolicyName : string;
  tk_Stage : nat; tk_Kind : string; tk_ChannelID : string; tk_Status : string; tk_Attempts : Z;
  tk_NextAt : Z; tk_LastError : string; tk_Recipients : list string; tk_CreatedAt : Z; tk_SentAt : Z }.
#[export] Instance eta_Task : Settable Task := λ v,
  mk_Task (tk_ID v) (tk_TenantID v) (tk_AlarmID v) (tk_PolicyID v) (tk_PolicyName v) (tk_Stage v)
    (tk_Kind v) (tk_ChannelID v) (tk_Status v) (tk_Attempts v) (tk_NextAt v) (tk_LastError v)
    (tk_Recipients v) (tk_CreatedAt v) (tk_SentAt v).
#[export] Instance Task_eq_dec : EqDecision Task.
Proof. solve_decision. Defined.

Record notify_repo := mk_notify_repo {
  nr_channels : gmap string Channel; nr_secrets : gmap string string;
  nr_policies : gmap string Policy; nr_tasks : list Task; nr_leases : gmap Z Z; nr_seq : Z }.
#[export] Instance eta_notify_repo : Settable notify_repo := λ v,
  mk_notify_repo (nr_channels v) (nr_secrets v) (nr_policies v) (nr_tasks v) (nr_leases v) (nr_seq v).
Definition NewMemoryStore : notify_repo := mk_notify_repo ∅ ∅ ∅ [] ∅ 0.

(** ** Channels and policies *)

(** The values of a map as [range] visits it. *)
Definition map_values `{MapOrder} {A} (m : gmap string A) : list A := omap (λ k, m !! k) (map_range m).

(** [sort.Slice] by a text. *)
Definition by_text {A} (name : A → string) (a b : A) : Prop := String.leb (name a) (name b) = true.
#[export] Instance by_text_dec {A} (name : A → string) a b : Decision (by_text name a b).
Proof. unfold by_text. apply _. Defined.

Section store.
Context `{MapOrder}.

Definition ListChannels (tenant : string) (r : notify_repo) : list Channel :=
  merge_sort (by_text ch_Name) (filter (λ c, ch_TenantID c = tenant) (map_values (nr_channels r))).
Definition GetChannel (tenant id : string) (r : notify_repo) : res (Channel * string) :=
  let k := store_key [tenant; id] in
  match nr_channels r !! k with
  | Some c => Ok (c, default "" (nr_secrets r !! k))
  | None => Err notify_not_found
  end.

(** Version 0 creates; any other version must be the stored one. *)
Definition version_conflict (old : option Z) (version : Z) : Prop :=
  match old with None => version ≠ 0 | Some v => version = 0 ∨ v ≠ version end.
#[export] Instance version_conflict_dec old version : Decision (version_conflict old version).
Proof. unfold version_conflict. destruct old; apply _. Defined.

(** [sealed] is [None] when the stored secret is kept. *)
Definition SaveChannel (now : Z) (c : Channel) (sealed : option string) (r : notify_repo)
    : res Channel * notify_repo :=
  let k := store_key [ch_TenantID c; ch_ID c] in
  if decide (version_conflict (ch_Version <$> nr_channels r !! k) (ch_Version c))
  then (Err notify_conflict, r)
  else
    let r := match sealed with Some v => r <| nr_secrets ::= <[k := v]> |> | None => r end in
    let c := c <| ch_SecretSet := bool_decide (default "" (nr_secrets r !! k) ≠ "") |>
      <| ch_Version ::= (λ n, wrap64 (n + 1)) |> <| ch_UpdatedAt := now |> in
    (Ok c, r <| nr_channels ::= <[k := c]> |>).
Definition DeleteChannel (tenant id : string) (r : notify_repo) : res unit * notify_repo :=
  let k := store_key [tenant; id] in
  match nr_channels r !! k with
  | None => (Err notify_not_found, r)
  | Some _ => (Ok tt, r <| nr_channels ::= delete k |> <| nr_secrets ::= delete k |>)
  end.

Definition ListPolicies (tenant : string) (r : notify_repo) : list Policy :=
  merge_sort (by_text po_Name) (filter (λ p, po_TenantID p = tenant) (map_values (nr_policies r))).
Definition GetPolicy (tenant id : string) (r : notify_repo) : res Policy :=
  match nr_policies r !! store_key [tenant; id] with
  | Some p => Ok p
  | None => Err notify_not_found
  end.
Definition SavePolicy (now : Z) (p : Policy) (r : notify_repo) : res Policy * notify_repo :=
  let k := store_key [po_TenantID p; po_ID p] in
  if decide (version_conflict (po_Version <$> nr_policies r !! k) (po_Version p))
  then (Err notify_conflict, r)
  else
    let p := p <| po_Version ::= (λ n, wrap64 (n + 1)) |> <| po_UpdatedAt := now |> in
    (Ok p, r <| nr_policies ::= <[k := p]> |>).
Definition DeletePolicy (tenant id : string) (r : notify_repo) : res unit * notify_repo :=
  let k := store_key [tenant; id] in
  match nr_policies r !! k with
  | None => (Err notify_not_found, r)
  | Some _ => (Ok tt, r <| nr_policies ::= delete k |>)
  end.
End store.

(** ** The delivery queue *)

Definition taskIdentity (t : Task) : string :=
  join nul [tk_TenantID t; tk_AlarmID t; tk_PolicyID t; dec (Z.of_nat (tk_Stage t)); tk_Kind t;
            tk_ChannelID t].

(** [existing] are the identities queued so far; the number inserted. *)
Fixpoint enqueue_new (existing : gset string) (tasks : list Task) (r : notify_repo) : Z * notify_repo :=
  match tasks with
  | [] => (0, r)
  | t :: tasks =>
    if decide (taskIdentity t ∈ existing) then enqueue_new existing tasks r
    else
      let seq := wrap64 (nr_seq r + 1) in
      let r := r <| nr_seq := seq |> <| nr_tasks ::= (λ l, l ++ [t <| tk_ID := seq |>]) |> in
      let '(inserted, r) := enqueue_new ({[taskIdentity t]} ∪ existing) tasks r in
      (inserted + 1, r)
  end.
Definition EnqueueTasks (tasks : list Task) (r : notify_repo) : Z * notify_repo :=
  enqueue_new (list_to_set (taskIdentity <$> nr_tasks r)) tasks r.

(** A waiting task whose time has come, or one whose lease has run out. *)
Definition task_due (now : Z) (leases : gmap Z Z) (t : Task) : Prop :=
  tk_Status t = StatusPending ∧ tk_NextAt t <= now
  ∨ tk_Status t = StatusSending ∧ default 0 (leases !! tk_ID t) <= now.
#[export] Instance task_due_dec now leases t : Decision (task_due now leases t).
Proof. unfold task_due. apply _. Defined.

(** The tasks from here on with [n] already claimed: those claimed, the tasks
    and the leases afterwards. *)
Fixpoint claim_tasks (now leaseMillis limit n : Z) (tasks : list Task) (leases : gmap Z Z)
    : list Task * list Task * gmap Z Z :=
  match tasks with
  | [] => ([], [], leases)
  | t :: tasks =>
    if decide (¬ task_due now leases t ∨ limit <= n) then
      let '(out, tasks, leases) := claim_tasks now leaseMillis limit n tasks leases in
      (out, t :: tasks, leases)
    else
      let t := t <| tk_Status := StatusSending |> in
      let '(out, tasks, leases) :=
        claim_tasks now leaseMillis limit (n + 1) tasks (<[tk_ID t := wrap64 (now + leaseMillis)]> leases) in
      (t :: out, t :: tasks, leases)
  end.
Definition ClaimDueTasks (now leaseMillis limit : Z) (r : notify_repo) : list Task * notify_repo :=
  let '(out, tasks, leases) := claim_tasks now leaseMillis limit 0 (nr_tasks r) (nr_leases r) in
  (out, r <| nr_tasks := tasks |> <| nr_leases := leases |>).

Definition FinishTask (t : Task) (r : notify_repo) : res unit * notify_repo :=
  match list_find (λ x, tk_ID x = tk_ID t) (nr_tasks r) with
  | Some (i, _) => (Ok tt, r <| nr_tasks ::= <[i := t]> |> <| nr_leases ::= delete (tk_ID t) |>)
  | None => (Err notify_not_found, r)
  end.

Definition by_id (a b : Task) : Prop := tk_ID a ≤ tk_ID b.
#[export] Instance by_id_dec a b : Decision (by_id a b).
Proof. unfold by_id. apply _. Defined.
Definition ListAlarmTasks (tenant alarmID : string) (r : notify_repo) : list Task :=
  merge_sort by_id (filter (λ t, tk_TenantID t = tenant ∧ tk_AlarmID t = alarmID) (nr_tasks r)).
