(* ===== verification/NotifyService.v ===== *)
(** The notification service: which alarms a policy covers, queueing the
    stages of an alarm, delivery with retries, and the rendered message
    (internal/notify/service.go, internal/model/alarm_labels.go).

    The directory of alarms and people, the sealing of channel secrets and the
    sending of a message are what other parts promise to the service. *)
From S2P Require Import Prelude GoText GoTime SitesModel StoreIO AlarmModel AlarmStore.
From S2P Require Import NotifyModel.

(** ** Names of codes *)

Definition alarmLevelNames : list (string * string) :=
  [("CRITICAL", "紧急"); ("HIGH", "高"); ("MEDIUM", "中"); ("LOW", "低"); ("INFO", "提示")].
Definition alarmTypeNames : list (string * string) :=
  [("FIRE_RISK", "火灾风险"); ("FIRE", "火灾告警"); ("SMOKE_DETECTED", "检测到烟雾");
   ("FLAME_DETECTED", "检测到火焰"); ("HIGH_TEMPERATURE", "温度过高"); ("DEVICE_FAULT", "设备故障");
   ("DEVICE_OFFLINE", "设备离线"); ("WATER_PRESSURE_LOW", "水压过低");
   ("WATER_LEVEL_ABNORMAL", "水位异常"); ("ELECTRICAL_FIRE", "电气火灾");
   ("GAS_LEAK", "可燃气体泄漏"); ("MANUAL_ALARM", "手动报警")].
Definition labelOf `{UpperCase} (names : list (string * string)) (v : string) : string :=
  match list_find (λ name : string * string, runes name.1 = to_upper (trim_space v)) names with
  | Some (_, (_, name)) => name
  | None => v
  end.
Definition AlarmLevelName `{UpperCase} : string → string := labelOf alarmLevelNames.
Definition AlarmTypeName `{UpperCase} : string → string := labelOf alarmTypeNames.

(** ** What others provide *)

Record Contact := mk_Contact { co_Name : string; co_Email : string; co_Phone : string }.

(** The structured payload of a webhook. *)
Inductive event_value := EvText (s : string) | EvInt (z : Z) | EvMap (l : list (string * event_value)).
Record Message_t := mk_Message {
  me_Title : string; me_Text : string; me_Link : string; me_Emails : list string;
  me_Mobiles : list string; me_Event : list (string * event_value) }.

(** Alarms and people; [D] is the state the directory reads, instants are
    nanoseconds. *)
Class Directory (D : Type) `{AlarmDetails} := {
  dir_Alarm : string → string → D → res Alarm;
  dir_DeviceProduct : string → string → D → res string;
  dir_UserContacts : string → string → list string → list string → D → res (list Contact);
  dir_OnDutyContacts : string → Z → list string → D → res (list Contact) }.

(** [Cipher.Open] of a tenant, a channel and the sealed value. *)
Class SecretBox := cipher_open : string → string → string → res ChannelSecret.

(** ** Matching *)

Section matching.
Context `{AlarmDetails, Platform}.

Definition Matches (p : Policy) (a : Alarm) (productID : string) : Prop :=
  (po_Enabled p = true ∧ po_Stages p ≠ []) ∧
  (po_Levels p = [] ∨ Exists (λ v, equal_fold v (a_AlarmLevel a)) (po_Levels p)) ∧
  (po_AlarmTypes p = [] ∨ a_AlarmType a ∈ po_AlarmTypes p) ∧
  (po_ProductIDs p = [] ∨ productID ∈ po_ProductIDs p).
#[export] Instance Matches_dec p a productID : Decision (Matches p a productID).
Proof. unfold Matches. apply _. Defined.

(** The tasks of one stage, the [i]-th. *)
Definition stage_tasks (now : Z) (a : Alarm) (kind : string) (p : Policy) (i : nat) (stage : Stage)
    : list Task :=
  let next := if decide (kind = KindTrigger) then wrap64 (now + wrap64 (sg_DelaySeconds stage * 1000))
              else now in
  (λ channel, mk_Task 0 (a_TenantID a) (a_ID a) (po_ID p) (po_Name p) i kind channel StatusPending 0
                next "" [] now 0) <$> sg_ChannelIDs stage.

(** A recovery notice goes to the first stage's audience only. *)
Definition policy_tasks (now : Z) (a : Alarm) (kind productID : string) (p : Policy) : list Task :=
  if decide (¬ Matches p a productID ∨ kind = KindRecovery ∧ po_NotifyRecovery p = false) then []
  else
    let stages := if decide (kind = KindRecovery) then take 1 (po_Stages p) else po_Stages p in
    concat (imap (stage_tasks now a kind p) stages).
Definition alarm_tasks (now : Z) (a : Alarm) (kind productID : string) (policies : list Policy)
    : list Task :=
  policies ≫= policy_tasks now a kind productID.
End matching.

(** ** The world *)

(** One call of the sender and what became of it. *)
Record delivery := mk_delivery {
  dl_task : Task; dl_channel : Channel; dl_message : Message_t; dl_error : option error }.
Record notify_world (D : Type) := mk_notify_world {
  nw_store : notify_repo; nw_dir : D; nw_sent : list delivery }.
#[global] Arguments mk_notify_world {D} _ _ _.
#[global] Arguments nw_store {D} _.
#[global] Arguments nw_dir {D} _.
#[global] Arguments nw_sent {D} _.
#[export] Instance eta_notify_world {D} : Settable (notify_world D) := λ v,
  mk_notify_world (nw_store v) (nw_dir v) (nw_sent v).

Section service.
Context `{AlarmDetails, Platform, UpperCase, MapOrder}.
Context {D : Type} `{!Directory D, !SecretBox}.
Context (sched : store_schedule (notify_world D)).
(** The clock in nanoseconds, the end of the context and the answer of the
    receiving side when [n] calls were made. *)
Context (clock : nat → Z) (cancelled : nat → option error).
Context (send_result : nat → Channel → ChannelSecret → Message_t → option error).
(** [WebURL] and [MaxAttempts] of the service. *)
Context (WebURL : string) (MaxAttempts : Z).
Abbreviation NotifyIO := (StoreIO (notify_world D)).

Definition notify_call {A} (f : notify_repo → res A * notify_repo) : NotifyIO A :=
  store_call sched (λ w, let '(a, r) := f (nw_store w) in (a, w <| nw_store := r |>)).
Definition notify_read {A} (f : notify_repo → res A) : NotifyIO A := notify_call (λ r, (f r, r)).
Definition dir_call {A} (f : D → res A) : NotifyIO A := store_call sched (λ w, (f (nw_dir w), w)).

(** [UnixMilli] *)
Definition millis (at_ : Z) : Z := at_ / 1000000.
Definition now_millis : NotifyIO Z := now ← observe clock; mret (millis now).

(** ** Queueing *)

(** The product is read for the first policy that asks for one. *)
Definition alarm_product (a : Alarm) (policies : list Policy) : NotifyIO string :=
  if decide (Exists (λ p, po_ProductIDs p ≠ []) policies) then
    product ← store_try (dir_call (dir_DeviceProduct (a_TenantID a) (a_DeviceID a)));
    match product with
    | Ok productID => mret productID
    | Err e => if decide (err_is e = NotFound) then mret "" else store_fails e
    end
  else mret "".
Definition notify_enqueue (a : Alarm) (kind : string) : NotifyIO unit :=
  policies ← notify_read (λ r, Ok (ListPolicies (a_TenantID a) r));
  productID ← alarm_product a policies;
  now ← now_millis;
  let tasks := alarm_tasks now a kind productID policies in
  if decide (tasks = []) then mret tt
  else
    _ ← notify_call (λ r, let '(n, r) := EnqueueTasks tasks r in (Ok n, r));
    mret tt.

Section events.
Context `{!AlarmDecode}.
Definition HandleReported (payload : string) : NotifyIO unit :=
  match unmarshal_alarm payload with
  | Err e => store_fails (mk_error Permanent ("decode alarm notification: " +:+ err_text e))
  | Ok a =>
    if decide (a_TriggerCount a ≠ 1 ∨ a_Status a ≠ "ACTIVE" ∨ a_TenantID a = "") then mret tt
    else notify_enqueue a KindTrigger
  end.
Definition HandleRecovered (payload : string) : NotifyIO unit :=
  match unmarshal_alarm payload with
  | Err e => store_fails (mk_error Permanent ("decode alarm recovery: " +:+ err_text e))
  | Ok a =>
    if decide (a_Status a ≠ "RECOVERED" ∨ a_TenantID a = "") then mret tt
    else notify_enqueue a KindRecovery
  end.
End events.

(** ** The message *)

(** The addresses collected so far, without repetition. *)
Record audience := mk_audience {
  au_seen : gset string; au_emails : list string; au_mobiles : list string; au_names : list string }.
#[local] Instance eta_audience : Settable audience := λ v,
  mk_audience (au_seen v) (au_emails v) (au_mobiles v) (au_names v).
Definition add_email (u : audience) (v : string) : audience :=
  let v := trim_space v in
  if decide (v ≠ "" ∧ v ∉ au_seen u)
  then u <| au_seen ::= (λ s, {[v]} ∪ s) |> <| au_emails ::= (λ l, l ++ [v]) |> else u.
Definition add_mobile (u : audience) (v : string) : audience :=
  let v := trim_space v in
  if decide (v ≠ "" ∧ v ∉ au_seen u)
  then u <| au_seen ::= (λ s, {[v]} ∪ s) |> <| au_mobiles ::= (λ l, l ++ [v]) |> else u.
Definition add_contact (u : audience) (c : Contact) : audience :=
  let u := add_mobile (add_email u (co_Email c)) (co_Phone c) in
  if decide (co_Name c ≠ "") then u <| au_names ::= (λ l, l ++ [co_Name c]) |> else u.
Definition stage_audience (contacts : list Contact) (stage : Stage) : audience :=
  let u := foldl add_contact (mk_audience ∅ [] [] []) contacts in
  foldl add_mobile (foldl add_email u (sg_Emails stage)) (sg_Mobiles stage).

(** [Format("2006-01-02 15:04:05")] in the fixed zone of China. *)
Definition format_cst (ms : Z) : string :=
  let t := civil_in (λ _, 8 * 3600) (ms / 1000) in
  format_date t +:+ " " +:+ format_clock (c_hour t) (c_minute t) +:+ ":" +:+ dec2 (c_second t).

(** [strings.TrimRight(s, "/")] *)
Fixpoint trim_slashes (s : string) : string :=
  match s with
  | EmptyString => EmptyString
  | String c s =>
    match trim_slashes s with
    | EmptyString => if decide (String c "" = "/") then "" else String c ""
    | s => String c s
    end
  end.

Definition notification_title (a : Alarm) (t : Task) : string :=
  let device := if decide (a_DeviceName a = "") then a_DeviceID a else a_DeviceName a in
  let head :=
    if decide (tk_Kind t = KindRecovery) then "【已恢复】" +:+ AlarmTypeName (a_AlarmType a)
    else "【" +:+ AlarmLevelName (a_AlarmLevel a) +:+ "】" +:+ AlarmTypeName (a_AlarmType a) in
  head +:+ " " +:+ device.
Definition notification_link (a : Alarm) : string :=
  if decide (WebURL ≠ "") then trim_slashes WebURL +:+ "/alarms/" +:+ a_ID a else "".
Definition newline : string := String (of_byte 10) "".
Definition notification_text (a : Alarm) (stage : Stage) (t : Task) : string :=
  let device := if decide (a_DeviceName a = "") then a_DeviceID a else a_DeviceName a in
  let location := trim_space (join " " [a_ComponentName a; a_ComponentLocation a]) in
  let at_ := if decide (tk_Kind t = KindRecovery ∧ a_RecoveredAt a > 0) then a_RecoveredAt a
             else a_FirstTriggeredAt a in
  join newline
    (["设备：" +:+ device]
     ++ (if decide (a_Content a ≠ "") then ["内容：" +:+ a_Content a] else [])
     ++ (if decide (location ≠ "") then ["位置：" +:+ location] else [])
     ++ (if decide (at_ > 0) then ["时间：" +:+ format_cst at_] else [])
     ++ (if decide (tk_Kind t = KindTrigger ∧ (0 < tk_Stage t)%nat)
         then ["升级通知（第 " +:+ dec (Z.of_nat (tk_Stage t) + 1) +:+ " 级）：告警 "
               +:+ dec (Z.quot (sg_DelaySeconds stage) 60) +:+ " 分钟内未确认"] else [])
     ++ (if decide (WebURL ≠ "") then ["详情：" +:+ notification_link a] else [])).
Definition notification_event (a : Alarm) (p : Policy) (t : Task) : list (string * event_value) :=
  [("event", EvText ("alarm." +:+ tk_Kind t)); ("tenantId", EvText (a_TenantID a));
   ("policyId", EvText (po_ID p)); ("stage", EvInt (Z.of_nat (tk_Stage t)));
   ("alarm", EvMap
      [("alarmId", EvText (a_ID a)); ("deviceId", EvText (a_DeviceID a));
       ("deviceName", EvText (a_DeviceName a)); ("alarmType", EvText (a_AlarmType a));
       ("alarmLevel", EvText (a_AlarmLevel a)); ("status", EvText (a_Status a));
       ("content", EvText (a_Content a)); ("firstTriggeredAt", EvInt (a_FirstTriggeredAt a));
       ("componentLocation", EvText (a_ComponentLocation a))])].

Definition stage_contacts (a : Alarm) (stage : Stage) : NotifyIO (list Contact) :=
  users ← if decide (sg_Users stage ≠ [] ∨ sg_Roles stage ≠ [])
          then dir_call (dir_UserContacts (a_TenantID a) (a_DeviceID a) (sg_Users stage) (sg_Roles stage))
          else mret [];
  duty ← if sg_OnDuty stage
         then (now ← observe clock;
               dir_call (dir_OnDutyContacts (a_TenantID a) now (sg_StationIDs stage)))
         else mret [];
  mret (users ++ duty).
Definition render (a : Alarm) (p : Policy) (stage : Stage) (t : Task)
    : NotifyIO (Message_t * list string) :=
  contacts ← stage_contacts a stage;
  let u := stage_audience contacts stage in
  let recipients := if decide (au_names u = []) then au_emails u ++ au_mobiles u else au_names u in
  mret (mk_Message (notification_title a t) (notification_text a stage t) (notification_link a)
          (au_emails u) (au_mobiles u) (notification_event a p t), recipients).

(** ** Delivery *)

Definition second : Z := 1000000000.
Definition maxAttempts : Z := if decide (MaxAttempts > 0) then MaxAttempts else 8.
(** The wait before the next attempt, in nanoseconds. *)
Definition retry_wait (attempts : Z) : Z :=
  wrap64 (wrap64 (wrap64 (Z.shiftl 1 attempts) * 15) * second) `min` (600 * second).
Definition truncate (v : string) (n : nat) : string :=
  if decide (String.length v ≤ n)%nat then v else String.substring 0 n v.

Definition finish (t : Task) (status reason : string) : NotifyIO unit :=
  let t := t <| tk_Status := status |> <| tk_LastError := reason |> in
  t ← if decide (status = StatusSent)
      then (now ← now_millis; mret (t <| tk_SentAt := now |>)) else mret t;
  notify_call (FinishTask t).

(** The task after a failed attempt at [now]. *)
Definition retried (now : Z) (t : Task) (cause : error) : Task :=
  let t := t <| tk_Attempts ::= (λ n, wrap64 (n + 1)) |>
    <| tk_LastError := truncate (err_text cause) 500 |> in
  if decide (tk_Attempts t >= maxAttempts) then t <| tk_Status := StatusFailed |>
  else t <| tk_Status := StatusPending |> <| tk_NextAt := millis (now + retry_wait (tk_Attempts t)) |>.
Definition retry (t : Task) (cause : error) : NotifyIO unit :=
  ended ← observe cancelled;
  match ended with
  | Some e => store_fails e
  | None => now ← observe clock; notify_call (FinishTask (retried now t cause))
  end.

(** The call of the sender for a task. *)
Definition send (t : Task) (channel : Channel) (secret : ChannelSecret) (msg : Message_t)
    : NotifyIO (option error) :=
  n ← observe id;
  let outcome := send_result n channel secret msg in
  local_step sched (λ w, (outcome, w <| nw_sent ::= (λ l, l ++ [mk_delivery t channel msg outcome]) |>)).

(** From the rendered message on. *)
Definition send_rendered (t : Task) (channel : Channel) (secret : ChannelSecret)
    (rendered : res (Message_t * list string)) : NotifyIO unit :=
  match rendered with
  | Err e => retry t e
  | Ok (msg, recipients) =>
    let t := t <| tk_Recipients := recipients |> in
    if decide (ch_Type channel = ChannelSMTP ∧ me_Emails msg = [])
    then finish t StatusFailed "没有可用的收件邮箱"
    else
      outcome ← send t channel secret msg;
      match outcome with
      | Some e => retry t e
      | None => finish t StatusSent ""
      end
  end.

(** From the channel on; [stage] is the task's stage of the policy. *)
Definition deliver_through (t : Task) (alarm : Alarm) (policy : Policy) (stage : Stage) : NotifyIO unit :=
  got ← store_try (notify_read (GetChannel (tk_TenantID t) (tk_ChannelID t)));
  match got with
  | Err e => if decide (err_is e = NotFound) then finish t StatusCancelled "通知渠道已删除或停用"
             else retry t e
  | Ok (channel, sealed) =>
    if negb (ch_Enabled channel) then finish t StatusCancelled "通知渠道已删除或停用"
    else
      match cipher_open (tk_TenantID t) (tk_ChannelID t) sealed with
      | Err e => finish t StatusFailed (err_text e)
      | Ok secret =>
        rendered ← store_try (render alarm policy stage t);
        send_rendered t channel secret rendered
      end
  end.

Definition deliver_alarm (t : Task) (alarm : Alarm) : NotifyIO unit :=
  if decide (tk_Kind t = KindTrigger ∧ (0 < tk_Stage t)%nat ∧ a_Status alarm ≠ "ACTIVE")
  then finish t StatusCancelled "告警已被处理，停止升级通知"
  else
    got ← store_try (notify_read (GetPolicy (tk_TenantID t) (tk_PolicyID t)));
    match got with
    | Err e => if decide (err_is e = NotFound) then finish t StatusCancelled "通知策略已删除或停用"
               else retry t e
    | Ok policy =>
      match po_Enabled policy, po_Stages policy !! tk_Stage t with
      | true, Some stage => deliver_through t alarm policy stage
      | _, _ => finish t StatusCancelled "通知策略已删除或停用"
      end
    end.
Definition deliver (t : Task) : NotifyIO unit :=
  got ← store_try (dir_call (dir_Alarm (tk_TenantID t) (tk_AlarmID t)));
  match got with
  | Err e => if decide (err_is e = NotFound) then finish t StatusCancelled "告警已不存在"
             else retry t e
  | Ok alarm => deliver_alarm t alarm
  end.

Fixpoint deliver_each (tasks : list Task) : NotifyIO unit :=
  match tasks with
  | [] => mret tt
  | t :: tasks => _ ← deliver t; deliver_each tasks
  end.

Definition claim_due (now : Z) : NotifyIO (list Task) :=
  notify_call (λ r, let '(out, r) := ClaimDueTasks now 60000 20 r in (Ok out, r)).
(** [None] is a run that has not ended after [fuel] batches. *)
Fixpoint DeliverDue (fuel : nat) : NotifyIO (option unit) :=
  match fuel with
  | O => mret None
  | S fuel =>
    now ← now_millis;
    tasks ← claim_due now;
    if decide (tasks = []) then mret (Some tt)
    else _ ← deliver_each tasks; DeliverDue fuel
  end.

(** A sample message through a channel. *)
Definition Test (tenant channelID : string) (emails mobiles : list string) : NotifyIO unit :=
  '(channel, sealed) ← notify_read (GetChannel tenant channelID);
  match cipher_open tenant channelID sealed with
  | Err e => store_fails e
  | Ok secret =>
    let msg := mk_Message "【测试】炬联告警通知" "这是一条测试消息，收到即表示通知渠道配置可用。" "" emails mobiles
                 [("event", EvText "test"); ("tenantId", EvText tenant)] in
    n ← observe id;
    outcome ← local_step sched (λ w, (send_result n channel secret msg, w));
    match outcome with Some e => store_fails e | None => mret tt end
  end.
End service.
