(* ===== verification/NotifyQueue.v ===== *)
(** The delivery queue of the notifications: what queueing, claiming and
    finishing do to it, and its histories with any number of workers. *)
From S2P Require Import Prelude GoText AlarmModel AlarmStore NotifyModel.

Abbreviation task_ids := (fmap (M := list) tk_ID).
Abbreviation identities := (fmap (M := list) taskIdentity).

(** The part of a task that is fixed when it is queued. *)
Definition subject (t : Task) : Task :=
  t <| tk_Status := "" |> <| tk_Attempts := 0 |> <| tk_NextAt := 0 |> <| tk_LastError := "" |>
    <| tk_Recipients := [] |> <| tk_SentAt := 0 |>.
Definition same_task (t t' : Task) : Prop := subject t' = subject t.
#[export] Instance same_task_equivalence : Equivalence same_task.
Proof. unfold same_task. split; [done|by intros ???|]. intros x y z -> ->. done. Qed.
Lemma same_task_id t t' : same_task t t' → tk_ID t' = tk_ID t.
Proof. intros E. exact (f_equal tk_ID E). Qed.
Lemma same_task_identity t t' : same_task t t' → taskIdentity t' = taskIdentity t.
Proof. intros E. exact (f_equal taskIdentity E). Qed.
Definition sending (t : Task) : Task := t <| tk_Status := StatusSending |>.
Lemma same_task_sending t : same_task t (sending t).
Proof. done. Qed.

Definition final_status (s : string) : Prop :=
  s = StatusSent ∨ s = StatusFailed ∨ s = StatusCancelled.
#[export] Instance final_status_dec s : Decision (final_status s).
Proof. unfold final_status. apply _. Defined.

(** ** Queueing *)

(** What is added, whatever the numbers. *)
Lemma enqueue_new_adds tasks : ∀ existing r,
  ∃ new, nr_tasks (enqueue_new existing tasks r).2 = nr_tasks r ++ new ∧
    (enqueue_new existing tasks r).1 = Z.of_nat (length new) ∧ (length new ≤ length tasks)%nat ∧
    nr_policies (enqueue_new existing tasks r).2 = nr_policies r ∧
    NoDup (identities new) ∧ (∀ t, t ∈ new → taskIdentity t ∉ existing) ∧
    (∀ t, t ∈ tasks → taskIdentity t ∈ existing ∨ taskIdentity t ∈ identities new) ∧
    (∀ t, t ∈ new → ∃ t0, t0 ∈ tasks ∧ t = t0 <| tk_ID := tk_ID t |>).
Proof.
  induction tasks as [|t tasks IH]; intros existing r; cbn [enqueue_new length].
  { exists []. rewrite app_nil_r. cbn.
    split_and!; [done..|constructor| |by intros ? ?%not_elem_of_nil|]; by intros ? ?%not_elem_of_nil. }
  case_decide as Hin.
  { destruct (IH existing r) as (new & ? & ? & ? & ? & ? & ? & Hall & Horig). exists new.
    split_and!; try done; [lia|..].
    - intros x [->|Hx]%elem_of_cons; [by left|by apply Hall].
    - intros x Hx. destruct (Horig _ Hx) as (t0 & ? & ?). exists t0. split; [by right|done]. }
  set (r1 := (r <| nr_seq := wrap64 (nr_seq r + 1) |>) <| nr_tasks ::= _ |>).
  destruct (IH ({[taskIdentity t]} ∪ existing) r1) as (new & Et & En & Hlen & Hp & Hnd & Hnew & Hall & Horig).
  destruct (enqueue_new _ tasks r1) as [n r']. cbn [fst snd] in *.
  exists (t <| tk_ID := wrap64 (nr_seq r + 1) |> :: new). split_and!.
  - rewrite Et. cbn. by rewrite <-(assoc_L (++)).
  - cbn [length]. lia.
  - cbn [length]. lia.
  - done.
  - cbn [fmap list_fmap]. constructor; [|done]. intros (x & E & Hx)%list_elem_of_fmap.
    apply (Hnew _ Hx). rewrite <-E. set_solver.
  - intros x [->|Hx]%elem_of_cons; [done|]. apply Hnew in Hx. set_solver.
  - intros x [->|Hx]%elem_of_cons; [right; left|].
    destruct (Hall _ Hx) as [Ho|Ho]; [|right; by right].
    apply elem_of_union in Ho as [->%elem_of_singleton|Ho]; [right; left|by left].
  - intros x [->|Hx]%elem_of_cons; [exists t; split; [left|done]|].
    destruct (Horig _ Hx) as (t0 & ? & ?). exists t0. split; [by right|done].
Qed.

(** The numbers, short of their range. *)
Lemma enqueue_new_numbers tasks : ∀ existing r,
  0 ≤ nr_seq r → nr_seq r + Z.of_nat (length tasks) < two63 →
  let '(n, r') := enqueue_new existing tasks r in
  ∃ new, r' = r <| nr_tasks := nr_tasks r ++ new |> <| nr_seq := nr_seq r + n |> ∧
    n = Z.of_nat (length new) ∧ task_ids new = seqZ (nr_seq r + 1) n.
Proof.
  induction tasks as [|t tasks IH]; intros existing r Hs0 Hs; cbn [enqueue_new length] in *.
  { exists []. rewrite app_nil_r, Z.add_0_r. by destruct r. }
  case_decide as Hin; [apply IH; lia|].
  set (r1 := (r <| nr_seq := wrap64 (nr_seq r + 1) |>) <| nr_tasks ::= _ |>).
  assert (wrap64 (nr_seq r + 1) = nr_seq r + 1) as Hw by (apply wrap64_small; unfold in_int64; lia).
  specialize (IH ({[taskIdentity t]} ∪ existing) r1).
  destruct (enqueue_new _ tasks r1) as [n r']. destruct IH as (new & -> & -> & Hids); [cbn; lia..|].
  cbn in Hids. rewrite Hw in Hids.
  exists (t <| tk_ID := nr_seq r + 1 |> :: new). split_and!.
  - unfold r1. rewrite Hw. destruct r. unfold set. cbn. rewrite <-(assoc_L (++)). cbn. f_equal. lia.
  - cbn [length]. lia.
  - cbn [fmap list_fmap]. rewrite Hids, (seqZ_cons (nr_seq r + 1)) by lia.
    cbn. f_equal. f_equal; lia.
Qed.

(** What a call of [EnqueueTasks] adds. *)
Record enqueued (tasks new : list Task) (r : notify_repo) : Prop := {
  en_once : NoDup (identities new);
  en_new : ∀ t, t ∈ new → taskIdentity t ∉ identities (nr_tasks r);
  en_all : ∀ t, t ∈ tasks → taskIdentity t ∈ identities (nr_tasks r ++ new);
  en_orig : ∀ t, t ∈ new → ∃ t0, t0 ∈ tasks ∧ t = t0 <| tk_ID := tk_ID t |> }.

Lemma EnqueueTasks_adds tasks r :
  ∃ new, enqueued tasks new r ∧ (length new ≤ length tasks)%nat ∧
    nr_tasks (EnqueueTasks tasks r).2 = nr_tasks r ++ new ∧
    nr_policies (EnqueueTasks tasks r).2 = nr_policies r.
Proof.
  destruct (enqueue_new_adds tasks (list_to_set (identities (nr_tasks r))) r)
    as (new & Et & _ & Hlen & Hp & Hnd & Hnew & Hall & Horig).
  exists new. split; [|done]. split; try done.
  - intros t Ht Hin. apply (Hnew _ Ht). by apply elem_of_list_to_set.
  - intros t Ht. rewrite fmap_app, elem_of_app.
    destruct (Hall _ Ht) as [Hin%elem_of_list_to_set|Hin]; [by left|by right].
Qed.
Lemma EnqueueTasks_spec tasks r :
  0 ≤ nr_seq r → nr_seq r + Z.of_nat (length tasks) < two63 →
  ∃ new, enqueued tasks new r ∧ task_ids new = seqZ (nr_seq r + 1) (Z.of_nat (length new)) ∧
    EnqueueTasks tasks r = (Z.of_nat (length new),
      r <| nr_tasks := nr_tasks r ++ new |> <| nr_seq := nr_seq r + Z.of_nat (length new) |>).
Proof.
  intros Hs0 Hs. destruct (EnqueueTasks_adds tasks r) as (new & Hnew & _ & Et & _). exists new.
  split; [done|]. pose proof (enqueue_new_numbers tasks (list_to_set (identities (nr_tasks r))) r Hs0 Hs) as Hn.
  unfold EnqueueTasks in *. destruct (enqueue_new _ tasks r) as [n r'].
  destruct Hn as (new' & -> & -> & Hids). cbn in Et. by apply app_inv_head in Et as ->.
Qed.

(** A second queueing of the same tasks adds nothing. *)
Lemma enqueue_again tasks r :
  (∀ t, t ∈ tasks → taskIdentity t ∈ identities (nr_tasks r)) → EnqueueTasks tasks r = (0, r).
Proof.
  intros Hall. unfold EnqueueTasks. set (existing := list_to_set _).
  assert (∀ t, t ∈ tasks → taskIdentity t ∈ existing) as Hin.
  { intros t Ht. by apply elem_of_list_to_set, Hall. }
  clearbody existing. clear Hall. induction tasks as [|t tasks IH]; cbn [enqueue_new]; [done|].
  rewrite decide_True by (apply Hin; left). apply IH. intros x Hx. apply Hin. by right.
Qed.

(** ** Claiming *)

(** The tasks a claim takes, in order. *)
Definition claim_pick (now limit : Z) (leases : gmap Z Z) (tasks : list Task) : list Task :=
  take (Z.to_nat limit) (filter (task_due now leases) tasks).
Definition mark_sending (picked : list Task) (t : Task) : Task :=
  if decide (tk_ID t ∈ task_ids picked) then sending t else t.
Definition lease_all (until : Z) (picked : list Task) (leases : gmap Z Z) : gmap Z Z :=
  foldl (λ m t, <[tk_ID t := until]> m) leases picked.

Lemma lookup_lease_all until picked leases i :
  lease_all until picked leases !! i =
  if decide (i ∈ task_ids picked) then Some until else leases !! i.
Proof.
  unfold lease_all. revert leases. induction picked as [|t picked IH]; intros leases; [done|].
  cbn [foldl fmap list_fmap]. rewrite IH. destruct (decide (tk_ID t = i)) as [<-|Hne].
  - rewrite lookup_insert_eq, (decide_True (P := tk_ID t ∈ tk_ID t :: _)) by left. by case_decide.
  - rewrite lookup_insert_ne by done. destruct (decide (i ∈ task_ids picked)) as [Hi|Hi].
    + by rewrite decide_True by (by right).
    + rewrite decide_False; [done|]. by intros [->|?]%elem_of_cons.
Qed.

Lemma filter_ext_in {A} (P Q : A → Prop) `{∀ x, Decision (P x), ∀ x, Decision (Q x)} (l : list A) :
  (∀ x, x ∈ l → P x ↔ Q x) → filter P l = filter Q l.
Proof.
  induction l as [|x l IH]; intros HPQ; [done|]. rewrite !filter_cons.
  rewrite (IH ltac:(intros y Hy; apply HPQ; by right)). specialize (HPQ x ltac:(left)).
  destruct (decide (P x)), (decide (Q x)); tauto.
Qed.

Lemma claim_pick_ids now limit leases tasks i :
  i ∈ task_ids (claim_pick now limit leases tasks) → i ∈ task_ids tasks.
Proof.
  intros (t & -> & Ht)%list_elem_of_fmap. apply list_elem_of_fmap_2.
  unfold claim_pick in Ht. apply elem_of_take in Ht as (j & Ht & _).
  by apply list_elem_of_lookup_2, list_elem_of_filter in Ht as [_ Ht].
Qed.

Lemma claim_pick_lease now limit i until leases tasks :
  i ∉ task_ids tasks → claim_pick now limit (<[i := until]> leases) tasks = claim_pick now limit leases tasks.
Proof.
  intros Hi. unfold claim_pick. f_equal. apply filter_ext_in. intros t Ht. unfold task_due.
  rewrite lookup_insert_ne; [done|]. intros ->. by apply Hi, list_elem_of_fmap_2.
Qed.

Lemma mark_sending_other picked tasks :
  (∀ i, i ∈ task_ids tasks → i ∉ task_ids picked) → mark_sending picked <$> tasks = tasks.
Proof.
  intros Hp. induction tasks as [|t tasks IH]; [done|]. cbn [fmap list_fmap]. f_equal.
  - unfold mark_sending. rewrite decide_False; [done|]. apply Hp. left.
  - apply IH. intros i Hi. apply Hp. by right.
Qed.

Lemma mark_sending_cons picked t tasks :
  tk_ID t ∉ task_ids tasks → mark_sending (t :: picked) <$> tasks = mark_sending picked <$> tasks.
Proof.
  intros Ht. apply list_fmap_ext. intros j x Hx. unfold mark_sending.
  assert (tk_ID x ≠ tk_ID t) as Hne.
  { intros E. apply Ht. rewrite <-E. by apply list_elem_of_fmap_2, list_elem_of_lookup_2 with j. }
  destruct (decide (tk_ID x ∈ task_ids picked)) as [Hi|Hi].
  - by rewrite decide_True by (by right).
  - rewrite decide_False; [done|]. by intros [?|?]%elem_of_cons.
Qed.

Lemma claim_tasks_spec now lease limit tasks : ∀ n leases,
  NoDup (task_ids tasks) →
  claim_tasks now lease limit n tasks leases =
  let picked := claim_pick now (limit - n) leases tasks in
  (sending <$> picked, mark_sending picked <$> tasks, lease_all (wrap64 (now + lease)) picked leases).
Proof.
  induction tasks as [|t tasks IH]; intros n leases Hnd; cbn [claim_tasks].
  { unfold claim_pick. by rewrite filter_nil, take_nil. }
  apply NoDup_cons in Hnd as [Ht Hnd]. cbv zeta.
  destruct (decide (¬ task_due now leases t ∨ limit <= n)) as [Hskip|Htake].
  - rewrite (IH n leases Hnd). cbv zeta.
    assert (claim_pick now (limit - n) leases (t :: tasks) = claim_pick now (limit - n) leases tasks) as ->.
    { unfold claim_pick. destruct Hskip as [Hd|Hl].
      - by rewrite filter_cons, decide_False.
      - by replace (Z.to_nat (limit - n)) with 0%nat by lia. }
    f_equal. f_equal. cbn [fmap list_fmap]. f_equal.
    unfold mark_sending. rewrite decide_False; [done|]. by intros Hi%claim_pick_ids.
  - apply Decidable.not_or in Htake as [Hd%dec_stable Hl].
    change (tk_ID (t <| tk_Status := StatusSending |>)) with (tk_ID t).
    rewrite (IH (n + 1) _ Hnd), claim_pick_lease by done. cbv zeta.
    assert (claim_pick now (limit - n) leases (t :: tasks)
            = t :: claim_pick now (limit - (n + 1)) leases tasks) as ->.
    { unfold claim_pick. rewrite filter_cons, decide_True by done.
      replace (Z.to_nat (limit - n)) with (S (Z.to_nat (limit - (n + 1)))) by lia. done. }
    cbn [fmap list_fmap]. rewrite mark_sending_cons by done. f_equal. f_equal. f_equal.
    unfold mark_sending. by rewrite decide_True by left.
Qed.

(** What a claim does. *)
Lemma ClaimDueTasks_spec now lease limit r :
  NoDup (task_ids (nr_tasks r)) →
  let picked := claim_pick now limit (nr_leases r) (nr_tasks r) in
  ClaimDueTasks now lease limit r =
  (sending <$> picked,
   r <| nr_tasks := mark_sending picked <$> nr_tasks r |>
     <| nr_leases := lease_all (wrap64 (now + lease)) picked (nr_leases r) |>).
Proof.
  intros Hnd. unfold ClaimDueTasks. rewrite claim_tasks_spec by done. by rewrite Z.sub_0_r.
Qed.

Lemma claim_pick_elem now limit leases tasks t :
  t ∈ claim_pick now limit leases tasks → t ∈ tasks ∧ task_due now leases t.
Proof.
  unfold claim_pick. intros (j & Ht & _)%elem_of_take.
  by apply list_elem_of_lookup_2, list_elem_of_filter in Ht as [? ?].
Qed.
Lemma claim_pick_nil now limit leases tasks :
  0 < limit → claim_pick now limit leases tasks = [] → ∀ t, t ∈ tasks → ¬ task_due now leases t.
Proof.
  unfold claim_pick. intros Hl E t Ht Hd.
  assert (t ∈ filter (task_due now leases) tasks) as Hin by (by apply list_elem_of_filter).
  destruct (filter (task_due now leases) tasks) as [|x l]; [by apply not_elem_of_nil in Hin|].
  by destruct (Z.to_nat limit) eqn:?; [lia|].
Qed.
Lemma sublist_fmap {A B} (f : A → B) (l l' : list A) : sublist l l' → sublist (f <$> l) (f <$> l').
Proof. induction 1; cbn; by constructor. Qed.
Lemma claim_pick_NoDup now limit leases tasks :
  NoDup (task_ids tasks) → NoDup (task_ids (claim_pick now limit leases tasks)).
Proof.
  intros Hnd. eapply sublist_NoDup; [exact Hnd|]. apply sublist_fmap. unfold claim_pick. etrans; [apply sublist_take|apply sublist_filter].
Qed.

(** ** Finishing *)

Definition put_task (t x : Task) : Task := if decide (tk_ID x = tk_ID t) then t else x.

Lemma put_task_ids t tasks : task_ids (put_task t <$> tasks) = task_ids tasks.
Proof.
  rewrite <-list_fmap_compose. apply list_fmap_ext. intros i x _. cbn. unfold put_task. by case_decide.
Qed.
Lemma put_task_other t tasks : tk_ID t ∉ task_ids tasks → put_task t <$> tasks = tasks.
Proof.
  intros Ht. rewrite <-(list_fmap_id tasks) at 2. apply list_fmap_ext. intros i x Hx. unfold put_task.
  rewrite decide_False; [done|]. intros E. apply Ht. rewrite <-E.
  by apply list_elem_of_fmap_2, list_elem_of_lookup_2 with i.
Qed.

Lemma insert_put_task t tasks i x :
  NoDup (task_ids tasks) → list_find (λ x, tk_ID x = tk_ID t) tasks = Some (i, x) →
  <[i := t]> tasks = put_task t <$> tasks.
Proof.
  intros Hnd (Hx & E & _)%list_find_Some.
  apply list_eq. intros j. rewrite list_lookup_fmap. destruct (decide (i = j)) as [<-|Hne].
  - rewrite list_lookup_insert_eq by (by eapply lookup_lt_Some). rewrite Hx. cbn.
    unfold put_task. by rewrite decide_True.
  - rewrite list_lookup_insert_ne by done. destruct (tasks !! j) as [y|] eqn:Hy; [|done].
    cbn. unfold put_task. rewrite decide_False; [done|]. intros E'. apply Hne.
    apply (NoDup_lookup (task_ids tasks) i j (tk_ID t)); [done|rewrite list_lookup_fmap..].
    + by rewrite Hx, <-E.
    + by rewrite Hy, <-E'.
Qed.

Lemma FinishTask_spec t r :
  NoDup (task_ids (nr_tasks r)) →
  FinishTask t r =
  if decide (tk_ID t ∈ task_ids (nr_tasks r))
  then (Ok tt, r <| nr_tasks := put_task t <$> nr_tasks r |> <| nr_leases := delete (tk_ID t) (nr_leases r) |>)
  else (Err notify_not_found, r).
Proof.
  intros Hnd. unfold FinishTask.
  destruct (list_find _ _) as [[i x]|] eqn:Hf; case_decide as Hin; try done.
  - unfold set. cbn. by rewrite (insert_put_task _ _ _ _ Hnd Hf).
  - apply list_find_Some in Hf as (Hx & E & _). destruct Hin. rewrite <-E.
    by apply list_elem_of_fmap_2, list_elem_of_lookup_2 with i.
  - apply list_find_None in Hf. apply list_elem_of_fmap in Hin as (x & E & Hx).
    rewrite Forall_forall in Hf. by destruct (Hf _ Hx).
Qed.

(** ** Histories

    The queue, the copies that workers hold with the end of their lease, and
    the tasks as workers finished them. *)
Record queue_run := mk_queue_run {
  qr_repo : notify_repo; qr_held : list (Task * Z); qr_finished : list Task; qr_now : Z }.
Definition empty_run : queue_run := mk_queue_run NewMemoryStore [] [] 0.

(** How a worker may leave the copy of a task it holds. *)
Record concludes (c t : Task) : Prop := {
  cn_same : same_task c t;
  cn_status : final_status (tk_Status t) ∨ tk_Status t = StatusPending }.

(** A worker is timely when it finishes a task while its lease lasts. *)
Inductive queue_step (timely : bool) : queue_run → queue_run → Prop :=
  | qs_enqueue tasks s :
      Forall (λ t, tk_Status t = StatusPending) tasks →
      nr_seq (qr_repo s) + Z.of_nat (length tasks) < two63 →
      queue_step timely s
        (mk_queue_run (EnqueueTasks tasks (qr_repo s)).2 (qr_held s) (qr_finished s) (qr_now s))
  | qs_claim now lease limit out r s :
      qr_now s <= now → 0 <= lease → in_int64 (now + lease) →
      ClaimDueTasks now lease limit (qr_repo s) = (out, r) →
      queue_step timely s
        (mk_queue_run r (qr_held s ++ ((λ t : Task, (t, now + lease)) <$> out)) (qr_finished s) now)
  | qs_finish now c until before after t s :
      qr_held s = before ++ (c, until) :: after → concludes c t →
      qr_now s <= now → (timely = true → now < until) →
      queue_step timely s
        (mk_queue_run (FinishTask t (qr_repo s)).2 (before ++ after) (qr_finished s ++ [t]) now)
  | qs_other r s :
      nr_tasks r = nr_tasks (qr_repo s) → nr_leases r = nr_leases (qr_repo s) →
      nr_seq r = nr_seq (qr_repo s) →
      queue_step timely s (mk_queue_run r (qr_held s) (qr_finished s) (qr_now s)).

(** The queue itself: identities, numbers and what workers hold. *)
Record queue_ok (s : queue_run) : Prop := {
  qo_ids : task_ids (nr_tasks (qr_repo s)) = seqZ 1 (nr_seq (qr_repo s));
  qo_seq : 0 <= nr_seq (qr_repo s);
  qo_once : NoDup (identities (nr_tasks (qr_repo s)));
  qo_held : ∀ c until, (c, until) ∈ qr_held s → ∃ t, t ∈ nr_tasks (qr_repo s) ∧ same_task t c;
  qo_finished : ∀ t, t ∈ qr_finished s → ∃ t0, t0 ∈ nr_tasks (qr_repo s) ∧ same_task t0 t }.

Lemma empty_run_ok : queue_ok empty_run.
Proof.
  split; cbn; try done; [by constructor|by intros ?? ?%not_elem_of_nil|by intros ? ?%not_elem_of_nil].
Qed.
Lemma queue_ids_NoDup s : queue_ok s → NoDup (task_ids (nr_tasks (qr_repo s))).
Proof. intros [-> _ _ _ _]. apply NoDup_seqZ. Qed.

Lemma task_by_id tasks t t' :
  NoDup (task_ids tasks) → t ∈ tasks → t' ∈ tasks → tk_ID t = tk_ID t' → t = t'.
Proof.
  intros Hnd [i Hi]%list_elem_of_lookup [j Hj]%list_elem_of_lookup E.
  assert (i = j) as ->; [|congruence].
  eapply (NoDup_lookup (task_ids tasks) i j (tk_ID t)); [done|..]; rewrite list_lookup_fmap;
    [by rewrite Hi|by rewrite Hj, E].
Qed.

(** Every step keeps the subjects of the tasks it finds, in place. *)
Definition keeps_tasks (tasks tasks' : list Task) : Prop :=
  ∃ new, subject <$> tasks' = (subject <$> tasks) ++ new.
#[export] Instance keeps_tasks_preorder : PreOrder keeps_tasks.
Proof.
  split; [intros l; exists []; by rewrite app_nil_r|].
  intros l1 l2 l3 [n1 E1] [n2 E2]. exists (n1 ++ n2). by rewrite E2, E1, (assoc_L (++)).
Qed.
Lemma keeps_tasks_elem tasks tasks' t :
  keeps_tasks tasks tasks' → t ∈ tasks → ∃ t', t' ∈ tasks' ∧ same_task t t'.
Proof.
  intros [new E] Ht. assert (subject t ∈ subject <$> tasks') as Hs.
  { rewrite E. apply elem_of_app. left. by apply list_elem_of_fmap_2. }
  apply list_elem_of_fmap in Hs as (t' & Et & Ht'). by exists t'.
Qed.

Lemma subject_mark_sending picked (tasks : list Task) : subject <$> (mark_sending picked <$> tasks) = subject <$> tasks.
Proof.
  rewrite <-list_fmap_compose. apply list_fmap_ext. intros i x _. cbn. unfold mark_sending. by case_decide.
Qed.
Lemma subject_put_task t t0 (tasks : list Task) :
  NoDup (task_ids tasks) → t0 ∈ tasks → same_task t0 t → subject <$> (put_task t <$> tasks) = subject <$> tasks.
Proof.
  intros Hnd H0 Hs. rewrite <-list_fmap_compose. apply list_fmap_ext. intros i x Hx. cbn.
  unfold put_task. case_decide as E; [|done].
  assert (x = t0) as ->; [|done]. eapply task_by_id; [done|by eapply list_elem_of_lookup_2|done|].
  rewrite E. by apply same_task_id.
Qed.

Lemma ids_of_subjects (tasks : list Task) : task_ids tasks = task_ids (subject <$> tasks).
Proof. by rewrite <-list_fmap_compose. Qed.
Lemma identities_of_subjects (tasks : list Task) : identities tasks = identities (subject <$> tasks).
Proof. by rewrite <-list_fmap_compose. Qed.

(** Steps that keep the subjects and the numbering keep the rest. *)
Lemma queue_ok_subjects s s' :
  queue_ok s → subject <$> nr_tasks (qr_repo s') = subject <$> nr_tasks (qr_repo s) →
  nr_seq (qr_repo s') = nr_seq (qr_repo s) →
  (∀ c until, (c, until) ∈ qr_held s' → ∃ t, t ∈ nr_tasks (qr_repo s) ∧ same_task t c) →
  (∀ t, t ∈ qr_finished s' → ∃ t0, t0 ∈ nr_tasks (qr_repo s) ∧ same_task t0 t) →
  queue_ok s' ∧ keeps_tasks (nr_tasks (qr_repo s)) (nr_tasks (qr_repo s')).
Proof.
  intros [Hids Hseq Honce _ _] E Es Hheld Hfin.
  assert (keeps_tasks (nr_tasks (qr_repo s)) (nr_tasks (qr_repo s'))) as Hk by (exists []; by rewrite app_nil_r).
  assert (∀ t c, t ∈ nr_tasks (qr_repo s) → same_task t c →
            ∃ t', t' ∈ nr_tasks (qr_repo s') ∧ same_task t' c) as Hmove.
  { intros t c Ht Hc. destruct (keeps_tasks_elem _ _ _ Hk Ht) as (t' & Ht' & Hs). exists t'.
    split; [done|]. by rewrite <-Hs. }
  split; [|done]. split.
  - by rewrite ids_of_subjects, E, <-ids_of_subjects, Es.
  - by rewrite Es.
  - by rewrite identities_of_subjects, E, <-identities_of_subjects.
  - intros c until Hc. destruct (Hheld _ _ Hc) as (t & ? & ?). by eapply Hmove.
  - intros t Ht. destruct (Hfin _ Ht) as (t0 & ? & ?). by eapply Hmove.
Qed.

Lemma queue_step_ok timely s s' :
  queue_ok s → queue_step timely s s' →
  queue_ok s' ∧ keeps_tasks (nr_tasks (qr_repo s)) (nr_tasks (qr_repo s')).
Proof.
  intros Hs Hstep. pose proof (queue_ids_NoDup _ Hs) as Hnd. destruct Hstep as
    [tasks s Hnew Hroom|now lease limit out r s Hnow Hlease Hwrap Hc|now c until before after t s Hheld Hc Hnow Ht
    |r s Et El Es].
  - destruct (EnqueueTasks_spec tasks (qr_repo s) (qo_seq _ Hs) Hroom) as (new & [Honce Hn _ _] & Hids & ->).
    assert (keeps_tasks (nr_tasks (qr_repo s)) (nr_tasks (qr_repo s) ++ new)) as Hk.
    { exists (subject <$> new). by rewrite fmap_app. }
    cbn. split; [|done]. destruct Hs as [H1 H2 H3 H4 H5]. split; cbn.
    + rewrite fmap_app, H1, Hids, seqZ_app by lia. f_equal. f_equal. lia.
    + lia.
    + rewrite fmap_app. apply NoDup_app. split_and!; [done| |done].
      intros x Hx (t & -> & Ht)%list_elem_of_fmap. by apply (Hn _ Ht).
    + intros c until Hin. destruct (H4 _ _ Hin) as (t & ? & ?). exists t. split; [|done].
      apply elem_of_app. by left.
    + intros c Hin. destruct (H5 _ Hin) as (t & ? & ?). exists t. split; [|done]. apply elem_of_app. by left.
  - rewrite ClaimDueTasks_spec in Hc by done. injection Hc as <- <-.
    apply queue_ok_subjects; cbn; [done|apply subject_mark_sending|done| |apply Hs].
    intros c until [Hc|Hc]%elem_of_app; [by eapply qo_held|].
    apply list_elem_of_fmap in Hc as (x & E & (x0 & -> & Hx)%list_elem_of_fmap). injection E as -> ->.
    apply claim_pick_elem in Hx as [Hx _]. exists x0. split; [done|apply same_task_sending].
  - destruct (qo_held _ Hs c until) as (t0 & Ht0 & Hsame); [rewrite Hheld; apply elem_of_app; right; left|].
    assert (same_task t0 t) as Hst by (etrans; [done|apply Hc]).
    rewrite FinishTask_spec by done. rewrite decide_True; cbn.
    2:{ rewrite (same_task_id _ _ Hst). by apply list_elem_of_fmap_2. }
    apply queue_ok_subjects; cbn; [done|by eapply subject_put_task|done|..].
    + intros c' u' Hin. eapply qo_held; [done|]. rewrite Hheld.
      apply elem_of_app in Hin as [Hin|Hin]; apply elem_of_app; [by left|right; by right].
    + intros x [Hx|Hx]%elem_of_app; [by apply qo_finished|].
      apply list_elem_of_singleton in Hx as ->. by exists t0.
  - apply queue_ok_subjects; cbn; [done|by rewrite Et|done|apply Hs|apply Hs].
Qed.
