(* ===== verification/NotifyTimely.v ===== *)
(** Workers that finish what they claimed while their lease lasts conclude a
    task at most once. *)
From S2P Require Import Prelude GoText AlarmModel AlarmStore NotifyModel NotifyQueue.

Definition live (now : Z) (h : Task * Z) : Prop := now < h.2.
#[export] Instance live_dec now h : Decision (live now h).
Proof. unfold live. apply _. Defined.

(** The copies held under a lease at [now], by number. *)
Definition live_ids (now : Z) (held : list (Task * Z)) : list Z := task_ids ((filter (live now) held).*1).
(** The tasks that workers concluded. *)
Definition concluded (finished : list Task) : list Task := filter (λ t, final_status (tk_Status t)) finished.
#[global] Arguments live_ids : simpl never.
#[global] Arguments concluded : simpl never.

Record timely_ok (s : queue_run) : Prop := {
  tm_held : ∀ c until, (c, until) ∈ qr_held s → qr_now s < until →
    c ∈ nr_tasks (qr_repo s) ∧ tk_Status c = StatusSending ∧ nr_leases (qr_repo s) !! tk_ID c = Some until;
  tm_one : NoDup (live_ids (qr_now s) (qr_held s));
  tm_once : NoDup (task_ids (concluded (qr_finished s)));
  tm_stored : ∀ t, t ∈ concluded (qr_finished s) → t ∈ nr_tasks (qr_repo s) }.

Lemma final_not_due now leases t : final_status (tk_Status t) → ¬ task_due now leases t.
Proof. unfold final_status, task_due. intros [-> |[-> | ->]] [[? _]|[? _]]; done. Qed.
Lemma final_not_sending t : final_status (tk_Status t) → tk_Status t ≠ StatusSending.
Proof. unfold final_status. by intros [-> |[-> | ->]]. Qed.

Lemma live_ids_later now now' held : now <= now' → sublist (live_ids now' held) (live_ids now held).
Proof.
  intros Hle. unfold live_ids. apply sublist_fmap, sublist_fmap.
  induction held as [|h held IH]; [done|]. rewrite !filter_cons.
  destruct (decide (live now' h)) as [L'|L'], (decide (live now h)) as [L|L];
    [by constructor|unfold live in *; lia|by constructor|done].
Qed.
Lemma live_ids_app now held held' : live_ids now (held ++ held') = live_ids now held ++ live_ids now held'.
Proof. unfold live_ids. by rewrite filter_app, !fmap_app. Qed.
Lemma elem_of_live_ids now held i :
  i ∈ live_ids now held ↔ ∃ c until, (c, until) ∈ held ∧ now < until ∧ i = tk_ID c.
Proof.
  unfold live_ids. rewrite <-list_fmap_compose, list_elem_of_fmap. split.
  - intros ([c u] & -> & [Hl Hin]%list_elem_of_filter). by exists c, u.
  - intros (c & u & Hin & Hl & ->). exists (c, u). split; [done|]. by apply list_elem_of_filter.
Qed.

Lemma mark_sending_notin picked (tasks : list Task) t :
  t ∈ tasks → tk_ID t ∉ task_ids picked → t ∈ mark_sending picked <$> tasks.
Proof.
  intros Ht Hp. apply list_elem_of_fmap. exists t. split; [|done]. unfold mark_sending.
  by rewrite decide_False.
Qed.
Lemma put_task_notin t0 (tasks : list Task) t : t ∈ tasks → tk_ID t ≠ tk_ID t0 → t ∈ put_task t0 <$> tasks.
Proof.
  intros Ht Hne. apply list_elem_of_fmap. exists t. split; [|done]. unfold put_task.
  by rewrite decide_False.
Qed.

(** A stored task that is not due is not picked. *)
Lemma not_picked now limit leases tasks t :
  NoDup (task_ids tasks) → t ∈ tasks → ¬ task_due now leases t →
  tk_ID t ∉ task_ids (claim_pick now limit leases tasks).
Proof.
  intros Hnd Ht Hd (x & E & [Hx Hdx]%claim_pick_elem)%list_elem_of_fmap.
  by rewrite (task_by_id tasks t x) in Hd.
Qed.

Section steps.
Context (s : queue_run) (Hok : queue_ok s) (Htm : timely_ok s).

Lemma held_later c until now :
  (c, until) ∈ qr_held s → qr_now s <= now → now < until →
  c ∈ nr_tasks (qr_repo s) ∧ ¬ task_due now (nr_leases (qr_repo s)) c ∧
  nr_leases (qr_repo s) !! tk_ID c = Some until.
Proof using Htm.
  intros Hc Hle Hl. destruct (tm_held _ Htm _ _ Hc) as (Hin & Hst & Hle'); [lia|].
  split_and!; [done| |done]. unfold task_due. rewrite Hst, Hle'. cbn. intros [[? _]|[_ ?]]; [done|lia].
Qed.

Lemma timely_claim now lease limit out r :
  qr_now s <= now → 0 <= lease → in_int64 (now + lease) →
  ClaimDueTasks now lease limit (qr_repo s) = (out, r) →
  timely_ok (mk_queue_run r (qr_held s ++ ((λ t : Task, (t, now + lease)) <$> out)) (qr_finished s) now).
Proof using Hok Htm.
  intros Hnow Hlease Hwrap Hc. pose proof (queue_ids_NoDup _ Hok) as Hnd.
  rewrite ClaimDueTasks_spec in Hc by done. injection Hc as <- <-.
  set (picked := claim_pick _ _ _ _) in *.
  assert (∀ c until, (c, until) ∈ qr_held s → now < until →
            (tk_ID c ∉ task_ids picked) ∧ c ∈ nr_tasks (qr_repo s)) as Hold.
  { intros c until Hc Hl. destruct (held_later c until now Hc Hnow Hl) as (Hin & Hd & _).
    split; [by apply not_picked|done]. }
  split; cbn.
  - intros c until [Hc|Hc]%elem_of_app Hl.
    + destruct (Hold _ _ Hc Hl) as [Hp Hin]. destruct (tm_held _ Htm _ _ Hc) as (_ & Hst & Hle); [lia|].
      split_and!; [by apply mark_sending_notin|done|].
      by rewrite lookup_lease_all, decide_False.
    + apply list_elem_of_fmap in Hc as (x & E & (x0 & -> & Hx)%list_elem_of_fmap). injection E as -> ->.
      pose proof (list_elem_of_fmap_2 tk_ID _ _ Hx) as Hid.
      apply claim_pick_elem in Hx as [Hx Hd]. split_and!; [|done|].
      * apply list_elem_of_fmap. exists x0. split; [|done]. unfold mark_sending. by rewrite decide_True.
      * rewrite lookup_lease_all, decide_True by done. by rewrite wrap64_small.
  - rewrite live_ids_app. apply NoDup_app. split_and!.
    + eapply sublist_NoDup; [apply (tm_one _ Htm)|by apply live_ids_later].
    + intros i (c & u & Hc & Hl & ->)%elem_of_live_ids (c' & u' & Hc' & _ & E)%elem_of_live_ids.
      destruct (Hold _ _ Hc Hl) as [Hp _]. apply Hp. rewrite E.
      apply list_elem_of_fmap in Hc' as (x & Ex & (x0 & -> & Hx)%list_elem_of_fmap). injection Ex as -> _.
      apply (list_elem_of_fmap_2 tk_ID _ _ Hx).
    + eapply sublist_NoDup; [apply (claim_pick_NoDup now limit (nr_leases (qr_repo s)) _ Hnd)|].
      fold picked. clearbody picked. unfold live_ids. clear. induction picked as [|x l IH]; [done|].
      cbn [fmap list_fmap]. rewrite filter_cons. case_decide; cbn; by constructor.
  - apply (tm_once _ Htm).
  - intros t Ht. apply mark_sending_notin; [by apply (tm_stored _ Htm)|].
    apply not_picked; [done|by apply (tm_stored _ Htm)|]. apply final_not_due.
    by apply list_elem_of_filter in Ht as [? _].
Qed.

Lemma timely_finish now c until before after t :
  qr_held s = before ++ (c, until) :: after → concludes c t → qr_now s <= now → now < until →
  timely_ok (mk_queue_run (FinishTask t (qr_repo s)).2 (before ++ after) (qr_finished s ++ [t]) now).
Proof using Hok Htm.
  intros Hheld [Hsame Hst] Hnow Hl. pose proof (queue_ids_NoDup _ Hok) as Hnd.
  pose proof (same_task_id _ _ Hsame) as Eid.
  assert ((c, until) ∈ qr_held s) as Hc by (rewrite Hheld; apply elem_of_app; right; left).
  destruct (tm_held _ Htm _ _ Hc) as (Hin & Hsend & Hle); [lia|].
  rewrite FinishTask_spec, decide_True by (done || (rewrite Eid; by apply list_elem_of_fmap_2)).
  assert (∀ c' u', (c', u') ∈ before ++ after → now < u' → tk_ID c' ≠ tk_ID t) as Hother.
  { intros c' u' Hc' Hl' E. pose proof (tm_one _ Htm) as Hone. rewrite Hheld in Hone.
    replace (before ++ (c, until) :: after) with ((before ++ [(c, until)]) ++ after) in Hone
      by (by rewrite <-(assoc_L (++))).
    rewrite !live_ids_app in Hone. rewrite <-(assoc_L (++)) in Hone.
    apply (NoDup_Permutation_proper _ (live_ids (qr_now s) [(c, until)] ++ live_ids (qr_now s) (before ++ after)))
      in Hone; [|rewrite live_ids_app; solve_Permutation].
    apply NoDup_app in Hone as (_ & Hdis & _). apply (Hdis (tk_ID c)).
    - apply elem_of_live_ids. exists c, until. split; [left|]. split; [lia|done].
    - apply elem_of_live_ids. exists c', u'. split; [done|]. split; [lia|]. congruence. }
  split; cbn.
  - intros c' u' Hc' Hl'. pose proof (Hother _ _ Hc' Hl') as Hne.
    destruct (tm_held _ Htm c' u') as (Hin' & Hst' & Hle'); [rewrite Hheld; set_solver|lia|].
    split_and!; [by apply put_task_notin|done|]. by rewrite lookup_delete_ne.
  - eapply sublist_NoDup; [apply (tm_one _ Htm)|]. etrans; [by apply live_ids_later|].
    rewrite Hheld. rewrite !live_ids_app. apply sublist_app; [done|].
    change ((c, until) :: after) with ([(c, until)] ++ after). rewrite live_ids_app. by apply sublist_inserts_l.
  - unfold concluded. rewrite filter_app. destruct (decide (final_status (tk_Status t))) as [Hf|Hf].
    + rewrite filter_cons, decide_True, filter_nil by done. rewrite fmap_app. apply NoDup_app.
      split_and!; [apply (tm_once _ Htm)| |apply NoDup_singleton].
      intros i (x & -> & Hx)%list_elem_of_fmap Hi. apply list_elem_of_singleton in Hi.
      pose proof (tm_stored _ Htm _ Hx) as Hxin. apply list_elem_of_filter in Hx as [Hxf _].
      assert (x = c) as -> by (eapply task_by_id; [done..|congruence]).
      by apply (final_not_sending c).
    + rewrite filter_cons, decide_False, filter_nil, app_nil_r by done. apply (tm_once _ Htm).
  - unfold concluded. rewrite filter_app. intros x [Hx|Hx]%elem_of_app.
    + pose proof (tm_stored _ Htm _ Hx) as Hxin. apply list_elem_of_filter in Hx as [Hxf _].
      apply put_task_notin; [done|]. intros E. apply (final_not_sending x); [done|].
      assert (x = c) as -> by (eapply task_by_id; [done..|congruence]). done.
    + apply list_elem_of_filter in Hx as [_ ->%list_elem_of_singleton].
      apply list_elem_of_fmap. exists c. split; [|done]. unfold put_task. by rewrite decide_True.
Qed.
End steps.

Lemma timely_step s s' : queue_ok s → timely_ok s → queue_step true s s' → timely_ok s'.
Proof.
  intros Hok Htm Hstep. destruct Hstep as
    [tasks s Hnew Hroom|now lease limit out r s Hnow Hlease Hwrap Hc|now c until before after t s Hheld Hc Hnow Ht
    |r s Et El Es].
  - destruct (EnqueueTasks_spec tasks (qr_repo s) (qo_seq _ Hok) Hroom) as (new & _ & _ & ->).
    destruct Htm as [H1 H2 H3 H4]. split; cbn; try done.
    + intros c until Hc Hl. destruct (H1 _ _ Hc Hl) as (? & ? & ?). split_and!; [|done..].
      apply elem_of_app. by left.
    + intros t Ht. apply elem_of_app. left. by apply H4.
  - by eapply timely_claim.
  - by eapply timely_finish; auto.
  - destruct Htm as [H1 H2 H3 H4]. split; cbn; try done; by rewrite Et, ?El.
Qed.

Lemma empty_timely : timely_ok empty_run.
Proof.
  split; [by intros ?? ?%not_elem_of_nil|apply NoDup_nil_2|apply NoDup_nil_2|by intros ? ?%not_elem_of_nil].
Qed.

Lemma run_steps timely s s' :
  queue_ok s → (timely = true → timely_ok s) → rtc (queue_step timely) s s' →
  queue_ok s' ∧ (timely = true → timely_ok s') ∧
  keeps_tasks (nr_tasks (qr_repo s)) (nr_tasks (qr_repo s')) ∧ qr_finished s `prefix_of` qr_finished s'.
Proof.
  intros Hok Htm. induction 1 as [s|s s1 s' Hstep _ IH]; [done|].
  destruct (queue_step_ok _ _ _ Hok Hstep) as [Hok1 Hk].
  destruct IH as (Hok' & Htm' & Hk' & Hf'); [done| |].
  - intros ->. by apply (timely_step s s1); [|apply Htm|].
  - split_and!; [done..|by etrans|]. etrans; [|exact Hf'].
    destruct Hstep; cbn; try done. by apply prefix_app_r.
Qed.

(** C5: a notification is queued once.  In every history of queueing,
    claiming and finishing by any number of workers, late ones too, the tasks
    are numbered 1, 2, ... and no two are for the same alarm, policy, stage,
    kind and channel; a task is never removed, renumbered or redirected, and
    queueing it again does nothing.  When every worker finishes what it
    claimed while its lease lasts, a task is concluded (sent, failed or
    cancelled) at most once and stays as it was concluded. *)
Theorem queue_once timely s s' :
  rtc (queue_step timely) empty_run s → rtc (queue_step timely) s s' →
  task_ids (nr_tasks (qr_repo s)) = seqZ 1 (nr_seq (qr_repo s)) ∧
  NoDup (identities (nr_tasks (qr_repo s))) ∧
  keeps_tasks (nr_tasks (qr_repo s)) (nr_tasks (qr_repo s')) ∧
  EnqueueTasks (nr_tasks (qr_repo s)) (qr_repo s') = (0, qr_repo s') ∧
  (timely = true →
    NoDup (task_ids (concluded (qr_finished s'))) ∧
    ∀ t, t ∈ concluded (qr_finished s) → t ∈ nr_tasks (qr_repo s) ∧ t ∈ nr_tasks (qr_repo s')).
Proof.
  intros H1 H2. assert (rtc (queue_step timely) empty_run s') as H3 by (by etrans).
  destruct (run_steps _ _ _ empty_run_ok (λ _, empty_timely) H1) as (Hok & Htm & _ & _).
  destruct (run_steps _ _ _ Hok Htm H2) as (Hok' & Htm' & Hk & [more Hf]).
  split_and!; [apply Hok|apply Hok|done|..].
  - apply enqueue_again. intros t Ht. destruct (keeps_tasks_elem _ _ _ Hk Ht) as (t' & Ht' & Hs).
    rewrite <-(same_task_identity _ _ Hs). by apply list_elem_of_fmap_2.
  - intros ->. split; [by apply tm_once, Htm'|]. intros t Ht. split; [by apply (tm_stored _ (Htm eq_refl))|].
    apply (tm_stored _ (Htm' eq_refl)). unfold concluded in *. rewrite Hf, filter_app.
    apply elem_of_app. by left.
Qed.
