(* ===== verification/NotifyDelivery.v ===== *)
(** The delivery of one task: what it may send and what it writes back. *)
From S2P Require Import Prelude GoText SitesModel StoreIO AlarmModel AlarmStore NotifyModel.
From S2P Require Import NotifyService NotifyQueue.

Section delivery.
Context `{AlarmDetails, Platform, UpperCase, MapOrder}.
Context {D : Type} `{!Directory D, !SecretBox}.
Context (sched : store_schedule (notify_world D)).
Context (clock : nat → Z) (cancelled : nat → option error).
Context (send_result : nat → Channel → ChannelSecret → Message_t → option error).
Context (WebURL : string) (MaxAttempts : Z).
Implicit Types (t : Task) (w : notify_world D).

(** What one delivery may leave of a task, with the messages it sent; the clock
    was read when at most [last] calls were made. *)
Inductive outcome (last : nat) t : list delivery → Task → Prop :=
  | oc_cancelled reason :
      outcome last t [] (t <| tk_Status := StatusCancelled |> <| tk_LastError := reason |>)
  | oc_failed recipients reason :
      outcome last t [] (t <| tk_Recipients := recipients |> <| tk_Status := StatusFailed |>
                           <| tk_LastError := reason |>)
  | oc_retried m cause :
      (m ≤ last)%nat → outcome last t [] (retried MaxAttempts (clock m) t cause)
  | oc_sent recipients channel msg m :
      (m ≤ last)%nat →
      ch_Enabled channel = true → (ch_Type channel = ChannelSMTP → me_Emails msg ≠ []) →
      let addressed := t <| tk_Recipients := recipients |> in
      outcome last t [mk_delivery addressed channel msg None]
        (addressed <| tk_Status := StatusSent |> <| tk_LastError := "" |>
           <| tk_SentAt := millis (clock m) |>)
  | oc_refused recipients channel msg e m :
      (m ≤ last)%nat →
      ch_Enabled channel = true → (ch_Type channel = ChannelSMTP → me_Emails msg ≠ []) →
      let addressed := t <| tk_Recipients := recipients |> in
      outcome last t [mk_delivery addressed channel msg (Some e)]
        (retried MaxAttempts (clock m) addressed e).

(** The directory knows the alarm, and an escalation is for an active one. *)
Definition may_send t w : Prop :=
  ∃ a, dir_Alarm (tk_TenantID t) (tk_AlarmID t) (nw_dir w) = Ok a ∧
    (tk_Kind t = KindTrigger → (0 < tk_Stage t)%nat → a_Status a = "ACTIVE").

(** What the others do while a task is delivered: [R] holds of their steps,
    and the log of what this worker sends is its own. *)
Context (R : notify_world D → notify_world D → Prop) `{!PreOrder R}.
Context (HR : ∀ n w, R w (sc_env sched n w)).
Context (HRsend : ∀ w l, R w (w <| nw_sent := l |>)).
Context (Hlog : ∀ n w, nw_sent (sc_env sched n w) = nw_sent w).

(** The end of a delivery: [t] is written, or the call does not happen. *)
Definition writes w t (r : res unit) (s : notify_world D * nat) : Prop :=
  ∃ w0, R w w0 ∧ nw_sent w0 = nw_sent w ∧
    ((∃ e, r = Err e ∧ s.1 = w0) ∨
     (r = (FinishTask t (nw_store w0)).1 ∧ s.1 = w0 <| nw_store := (FinishTask t (nw_store w0)).2 |>)).
Definition concluded_by w t (sent : list delivery) (r : res unit) (s : notify_world D * nat) : Prop :=
  ∃ t' w1, outcome s.2 t sent t' ∧ R w w1 ∧ nw_sent w1 = nw_sent w ++ sent ∧ writes w1 t' r s.

Lemma concluded_before w w1 t sent r s :
  R w w1 → nw_sent w1 = nw_sent w → concluded_by w1 t sent r s → concluded_by w t sent r s.
Proof using PreOrder0.
  intros HRw E (t' & w2 & Ho & H12 & E2 & Hw). exists t', w2. split; [done|].
  split; [by etrans|]. split; [congruence|done].
Qed.

Lemma yields_finish_call t w n (Q : res unit → notify_world D * nat → Prop) :
  (∀ r w', writes w t r (w', S n) → Q r (w', S n)) →
  yields (notify_call sched (FinishTask t)) (w, n) Q.
Proof using HR Hlog.
  intros HQ. apply yields_call.
  - intros e _. apply HQ. exists (sc_env sched n w). split; [apply HR|]. split; [apply Hlog|].
    left. by exists e.
  - intros w1 _. destruct (FinishTask t (nw_store w1)) as [r r'] eqn:E. apply HQ.
    exists w1. split; [apply HR|]. split; [apply Hlog|]. right. by rewrite E.
Qed.

(** A delivery that began with [n] calls and ends within [k] more. *)
Definition ends w n k t sent (r : res unit) (s : notify_world D * nat) : Prop :=
  (n ≤ s.2 ≤ n + k)%nat ∧ concluded_by w t sent r s.

Lemma yields_finish t0 t status reason sent w w1 n k :
  (1 ≤ k)%nat → status ≠ StatusSent → R w w1 → nw_sent w1 = nw_sent w ++ sent →
  outcome (S n) t0 sent (t <| tk_Status := status |> <| tk_LastError := reason |>) →
  yields (finish sched clock t status reason) (w1, n) (ends w n k t0 sent).
Proof using HR Hlog.
  intros Hk Hs HRw Elog Ho. unfold finish. apply yields_bind. rewrite decide_False by done.
  apply yields_finish_call. intros r w' Hw. split; [cbn; lia|].
  by exists (t <| tk_Status := status |> <| tk_LastError := reason |>), w1.
Qed.

Lemma yields_finish_sent t0 t sent w w1 n k :
  (1 ≤ k)%nat → R w w1 → nw_sent w1 = nw_sent w ++ sent →
  outcome (S n) t0 sent (t <| tk_Status := StatusSent |> <| tk_LastError := "" |>
    <| tk_SentAt := millis (clock n) |>) →
  yields (finish sched clock t StatusSent "") (w1, n) (ends w n k t0 sent).
Proof using HR Hlog.
  intros Hk HRw Elog Ho. unfold finish. apply yields_bind. rewrite decide_True by done.
  apply yields_finish_call. intros r w' Hw. split; [cbn; lia|].
  by exists (t <| tk_Status := StatusSent |> <| tk_LastError := "" |> <| tk_SentAt := millis (clock n) |>), w1.
Qed.

Lemma yields_retry t0 t cause sent w w1 n k :
  (1 ≤ k)%nat → R w w1 → nw_sent w1 = nw_sent w ++ sent →
  (∀ last, (n ≤ last)%nat → outcome last t0 sent (retried MaxAttempts (clock n) t cause)) →
  yields (retry sched clock cancelled MaxAttempts t cause) (w1, n) (ends w n k t0 sent).
Proof using HR Hlog PreOrder0.
  intros Hk HRw Elog Ho. unfold retry. apply yields_bind, yields_observe.
  destruct (cancelled n) as [e|].
  - split; [cbn; lia|]. exists (retried MaxAttempts (clock n) t cause), w1. split_and!; [by apply Ho|done..|].
    exists w1. split; [done|]. split; [done|]. left. by exists e.
  - apply yields_bind, yields_observe, yields_finish_call. intros r w' Hw. split; [cbn; lia|].
    exists (retried MaxAttempts (clock n) t cause), w1. split; [apply Ho; cbn; lia|done].
Qed.

(** A delivery that sends only when [P] holds. *)
Definition delivers w n k t (P : Prop) (r : res unit) (s : notify_world D * nat) : Prop :=
  ∃ sent, (sent ≠ [] → P) ∧ ends w n k t sent r s.
Abbreviation run_deliver := (deliver sched clock cancelled send_result WebURL MaxAttempts).

Lemma delivers_before w n k w1 n1 k1 t (P P1 : Prop) r s :
  R w w1 → nw_sent w1 = nw_sent w → (n ≤ n1)%nat → (n1 + k1 ≤ n + k)%nat → (P1 → P) →
  delivers w1 n1 k1 t P1 r s → delivers w n k t P r s.
Proof using PreOrder0.
  intros HRw E Hn1 Hk HP (sent & Hs & Hn & Hc). exists sent. split; [auto|]. split; [lia|].
  by eapply concluded_before.
Qed.

(** A read whose error the code looks at. *)
Lemma yields_try_read {A B} (g : notify_world D → res A * notify_world D)
    (m : res A → StoreIO (notify_world D) B) w n Q :
  (∀ w, (g w).2 = w) →
  (∀ got w1, w1 = sc_env sched n w → (got = (g w1).1 ∨ ∃ e, got = Err e) → yields (m got) (w1, S n) Q) →
  yields (store_try (store_call sched g) ≫= m) (w, n) Q.
Proof using.
  intros Hg HQ. apply yields_bind, yields_try, yields_call.
  - intros e _. apply HQ; [done|]. right. by exists e.
  - intros w1 _. rewrite Hg. apply HQ; [done|]. by left.
Qed.
Lemma notify_read_pure {A} (f : notify_repo → res A) w :
  (let '(a, r) := (f (nw_store w), nw_store w) in (a, w <| nw_store := r |>)).2 = w.
Proof using. by destruct w. Qed.

(** The three outcomes that need no message. *)
Lemma delivers_cancel t reason w n k P :
  (1 ≤ k)%nat →
  yields (finish sched clock t StatusCancelled reason) (w, n) (delivers w n k t P).
Proof using HR Hlog PreOrder0.
  intros Hk. eapply yields_mono; [apply (yields_finish t t StatusCancelled reason [] w w n k);
    [done|done|done|by rewrite app_nil_r|constructor]|].
  intros r s Hr. by exists [].
Qed.
Lemma delivers_fail t recipients reason w n k P :
  (1 ≤ k)%nat →
  yields (finish sched clock (t <| tk_Recipients := recipients |>) StatusFailed reason) (w, n) (delivers w n k t P).
Proof using HR Hlog PreOrder0.
  intros Hk. eapply yields_mono; [apply (yields_finish t _ StatusFailed reason [] w w n k);
    [done|done|done|by rewrite app_nil_r|constructor]|].
  intros r s Hr. by exists [].
Qed.
Lemma delivers_retry t cause w n k P :
  (1 ≤ k)%nat →
  yields (retry sched clock cancelled MaxAttempts t cause) (w, n) (delivers w n k t P).
Proof using HR Hlog PreOrder0.
  intros Hk. eapply yields_mono; [apply (yields_retry t t cause [] w w n k);
    [done|done|by rewrite app_nil_r|by constructor]|].
  intros r s Hr. by exists [].
Qed.

Lemma delivers_rendered t channel secret rendered w n (P : Prop) :
  ch_Enabled channel = true → P →
  yields (send_rendered sched clock cancelled send_result MaxAttempts t channel secret rendered) (w, n)
    (delivers w n 2 t P).
Proof using HR HRsend Hlog PreOrder0.
  intros Hen HP. unfold send_rendered. destruct rendered as [[msg recipients]|e]; [|apply delivers_retry; lia].
  destruct (decide (ch_Type channel = ChannelSMTP ∧ me_Emails msg = [])) as [_|Hmail]; [apply delivers_fail; lia|].
  assert (ch_Type channel = ChannelSMTP → me_Emails msg ≠ []) as Hm by tauto.
  unfold send. apply yields_bind, yields_bind, yields_observe, yields_local. cbv zeta.
  set (d := mk_delivery _ channel msg _). set (w1 := set nw_sent _ _).
  assert (R w w1) as HR1 by (etrans; [apply HR|apply HRsend]).
  assert (nw_sent w1 = nw_sent w ++ [d]) as E1 by (cbn; by rewrite Hlog).
  eapply yields_mono with (Q := ends w n 2 t [d]).
  - destruct (send_result (id n) channel secret msg) as [e|] eqn:Es.
    + eapply yields_mono; [apply (yields_retry t _ e [d] w w1 (S n) 1); [done|done|done|]|].
      * intros last Hlast. unfold d. apply oc_refused; [lia|done..].
      * intros r s [Hn Hc]. split; [lia|done].
    + eapply yields_mono; [apply (yields_finish_sent t _ [d] w w1 (S n) 1); [done|done|done|]|].
      * unfold d. apply oc_sent; [lia|done..].
      * intros r s [Hn Hc]. split; [lia|done].
  - intros r s Hr. by exists [d].
Qed.

Lemma yields_contacts a stage w n (Q : res (list Contact) → notify_world D * nat → Prop) :
  (∀ r w1 n1, R w w1 → nw_sent w1 = nw_sent w → (n ≤ n1 ≤ n + 2)%nat → Q r (w1, n1)) →
  yields (stage_contacts sched clock a stage) (w, n) Q.
Proof using HR Hlog PreOrder0.
  intros HQ. unfold stage_contacts. apply yields_bind.
  eapply yields_mono with (Q := λ r s, R w s.1 ∧ nw_sent s.1 = nw_sent w ∧ (n ≤ s.2 ≤ n + 1)%nat).
  { case_decide; [apply yields_call|by apply yields_ret; cbn; split_and!; [done|done|lia..]].
    - intros e _. cbn. split_and!; [apply HR|apply Hlog|lia..].
    - intros w1 _. cbn. split_and!; [apply HR|apply Hlog|lia..]. }
  intros [users|e] [w1 n1] (HR1 & E1 & Hn1); cbn in *; [|apply HQ; [done..|cbn; lia]].
  apply yields_bind.
  eapply yields_mono with (Q := λ r s, R w s.1 ∧ nw_sent s.1 = nw_sent w ∧ (n ≤ s.2 ≤ n + 2)%nat).
  { destruct (sg_OnDuty stage); [|by apply yields_ret; cbn; split_and!; [done|done|lia..]].
    apply yields_bind, yields_observe, yields_call.
    - intros e _. cbn. rewrite Hlog. split_and!; [etrans; [done|apply HR]|done|lia..].
    - intros w2 _. cbn. unfold w2. rewrite Hlog. split_and!; [etrans; [done|apply HR]|done|lia..]. }
  intros [duty|e] [w2 n2] (HR2 & E2 & Hn2); cbn in *; by apply HQ.
Qed.

Lemma delivers_through t alarm policy stage w n (P : Prop) :
  P → yields (deliver_through sched clock cancelled send_result WebURL MaxAttempts t alarm policy stage) (w, n)
        (delivers w n 5 t P).
Proof using HR HRsend Hlog PreOrder0.
  intros HP. unfold deliver_through, notify_read, notify_call.
  apply yields_try_read; [apply notify_read_pure|]. intros got w1 Ew _.
  assert (R w w1) as HR1 by (rewrite Ew; apply HR). assert (nw_sent w1 = nw_sent w) as E1 by (rewrite Ew; apply Hlog).
  eapply yields_mono with (Q := delivers w1 (S n) 4 t P).
  2:{ intros r s Hd. eapply delivers_before; [..|exact Hd]; auto; lia. }
  destruct got as [[channel sealed]|e].
  2:{ case_decide; [apply delivers_cancel|apply delivers_retry]; lia. }
  destruct (ch_Enabled channel) eqn:Hen; [|apply delivers_cancel; lia]. cbn [negb].
  destruct (cipher_open _ _ sealed) as [secret|e].
  2:{ destruct t. apply (delivers_fail _ tk_Recipients). lia. }
  unfold render. apply yields_bind, yields_try, yields_bind, yields_contacts.
  intros rc w2 n2 HR2 E2 Hn2. destruct rc as [contacts|e].
  - apply yields_ret. eapply yields_mono; [by apply (delivers_rendered _ _ _ _ _ _ P)|].
    intros r s Hd. eapply delivers_before; [..|exact Hd]; auto; lia.
  - eapply yields_mono; [by apply (delivers_rendered _ _ _ _ _ _ P)|].
    intros r s Hd. eapply delivers_before; [..|exact Hd]; auto; lia.
Qed.

Lemma delivers_alarm t alarm w n (P : Prop) :
  ((tk_Kind t = KindTrigger → (0 < tk_Stage t)%nat → a_Status alarm = "ACTIVE") → P) →
  yields (deliver_alarm sched clock cancelled send_result WebURL MaxAttempts t alarm) (w, n)
    (delivers w n 6 t P).
Proof using HR HRsend Hlog PreOrder0.
  intros HP. unfold deliver_alarm.
  destruct (decide (_ ∧ _ ∧ _)) as [_|Hactive]; [apply delivers_cancel; lia|].
  assert P as HP' by (apply HP; intros; apply dec_stable; tauto).
  unfold notify_read, notify_call. apply yields_try_read; [apply notify_read_pure|]. intros got w1 Ew _.
  assert (R w w1) as HR1 by (rewrite Ew; apply HR). assert (nw_sent w1 = nw_sent w) as E1 by (rewrite Ew; apply Hlog).
  eapply yields_mono with (Q := delivers w1 (S n) 5 t P).
  2:{ intros r s Hd. eapply delivers_before; [..|exact Hd]; auto; lia. }
  destruct got as [policy|e].
  2:{ case_decide; [apply delivers_cancel|apply delivers_retry]; lia. }
  destruct (po_Enabled policy); [|apply delivers_cancel; lia].
  destruct (po_Stages policy !! tk_Stage t); [by apply delivers_through|apply delivers_cancel; lia].
Qed.

(** Every delivery ends, and only as [outcome] says. *)
Lemma delivers_task t w n :
  yields (run_deliver t) (w, n) (delivers w n 7 t (may_send t (sc_env sched n w))).
Proof using HR HRsend Hlog PreOrder0.
  unfold deliver, dir_call. apply yields_try_read; [done|]. intros got w1 Ew Hgot.
  assert (R w w1) as HR1 by (rewrite Ew; apply HR). assert (nw_sent w1 = nw_sent w) as E1 by (rewrite Ew; apply Hlog).
  eapply yields_mono with (Q := delivers w1 (S n) 6 t (may_send t w1)).
  2:{ intros r s Hd. eapply delivers_before; [..|exact Hd]; auto; [lia|by rewrite Ew]. }
  destruct got as [alarm|e].
  - apply delivers_alarm. intros Hact. exists alarm. split; [|done]. cbn in Hgot. by destruct Hgot as [<-|[e ?]].
  - case_decide; [apply delivers_cancel|apply delivers_retry]; lia.
Qed.
End delivery.
