(* ===== verification/NotifyRounds.v ===== *)
(** The delivery loop: progress of the tasks from batch to batch. *)
From S2P Require Import Prelude GoText SitesModel StoreIO AlarmModel AlarmStore NotifyModel.
From S2P Require Import NotifyService NotifyQueue NotifyDelivery.

Lemma Forall2_compose {A B C} (P : A → B → Prop) (Q : B → C → Prop) (R : A → C → Prop) l1 l2 l3 :
  (∀ x y z, P x y → Q y z → R x z) → Forall2 P l1 l2 → Forall2 Q l2 l3 → Forall2 R l1 l3.
Proof.
  intros HPQ HP. revert l3. induction HP; intros l3 HQ; inversion HQ; subst; constructor; eauto.
Qed.

(** ** Measures *)

Definition open_task (t : Task) : Prop := tk_Status t = StatusPending ∨ tk_Status t = StatusSending.
#[export] Instance open_task_dec t : Decision (open_task t).
Proof. unfold open_task. apply _. Defined.

(** The attempts a task has left. *)
Definition attempts_left (most : Z) (t : Task) : nat :=
  if decide (open_task t) then Z.to_nat (1 `max` (most - tk_Attempts t)) else 0.
Definition total_left (most : Z) (tasks : list Task) : nat := sum_list_with (attempts_left most) tasks.

(** An open task has a count of attempts that can go up. *)
Definition counted (t : Task) : Prop := open_task t → 0 <= tk_Attempts t < two63 - 1.

Lemma due_open now leases t : task_due now leases t → open_task t.
Proof. unfold task_due, open_task. tauto. Qed.
Lemma final_not_open t : final_status (tk_Status t) → ¬ open_task t.
Proof. unfold final_status, open_task. intros [-> |[-> | ->]] [?|?]; done. Qed.
Lemma attempts_left_open most t : open_task t → (1 ≤ attempts_left most t)%nat.
Proof. intros Ho. unfold attempts_left. rewrite decide_True by done. lia. Qed.
Lemma attempts_left_final most t : final_status (tk_Status t) → attempts_left most t = 0%nat.
Proof. intros Hf. unfold attempts_left. rewrite decide_False; [done|by apply final_not_open]. Qed.
Lemma attempts_left_sending most t : open_task t → attempts_left most (sending t) = attempts_left most t.
Proof.
  intros Ho. unfold attempts_left. rewrite (decide_True (P := open_task t)) by done.
  rewrite decide_True; [done|by right].
Qed.

(** A task after a delivery: nearer to its end, and waiting no longer than
    [until] for the next attempt. *)
Record moved (most until : Z) (x y : Task) : Prop := {
  mv_same : same_task x y;
  mv_left : (attempts_left most y < attempts_left most x)%nat;
  mv_status : final_status (tk_Status y) ∨ tk_Status y = StatusPending ∧ tk_NextAt y <= until;
  mv_counted : counted y }.

Lemma moved_trans most until until' x y z :
  until <= until' → moved most until x y → moved most until' y z → moved most until' x z.
Proof. intros Hu [S1 L1 _ _] [S2 L2 ? ?]. split; [by etrans|lia|done|done]. Qed.
Lemma moved_later most until until' x y : until <= until' → moved most until x y → moved most until' x y.
Proof. intros Hu [S1 L1 [?|[? ?]] ?]; split; auto. right. split; [done|lia]. Qed.
Lemma moved_sending most until x y : open_task x → moved most until (sending x) y → moved most until x y.
Proof.
  intros Ho [S1 L1 ? ?]. split; [|by rewrite attempts_left_sending in L1|done|done].
  etrans; [apply same_task_sending|done].
Qed.

Section rounds.
Context `{AlarmDetails, Platform, UpperCase, MapOrder}.
Context {D : Type} `{!Directory D, !SecretBox}.
Context (sched : store_schedule (notify_world D)).
Context (clock : nat → Z) (cancelled : nat → option error).
Context (send_result : nat → Channel → ChannelSecret → Message_t → option error).
Context (WebURL : string) (MaxAttempts : Z).
Implicit Types (t : Task) (w : notify_world D).
Abbreviation most := (maxAttempts MaxAttempts).
Context (Hmax : in_int64 MaxAttempts) (Hclock : ∀ n m, (n ≤ m)%nat → clock n <= clock m).

(** The next attempt is at most ten minutes after the [n]-th call. *)
Definition retry_until (n : nat) : Z := millis (clock n) + 600000.

Lemma retry_until_later n m : (n ≤ m)%nat → retry_until n <= retry_until m.
Proof using Hclock.
  intros Hle. unfold retry_until, millis. pose proof (Hclock n m Hle) as Hc.
  pose proof (Z.div_le_mono (clock n) (clock m) 1000000 ltac:(lia) Hc). lia.
Qed.

Lemma most_range : 1 <= most < two63.
Proof using Hmax.
  unfold maxAttempts, in_int64, two63 in *. case_decide; lia.
Qed.

Lemma retried_moved m n t cause :
  (m ≤ n)%nat → open_task t → counted t → moved most (retry_until n) t (retried MaxAttempts (clock m) t cause).
Proof using Hmax Hclock.
  intros Hm Ho Hc. pose proof most_range as Hr. specialize (Hc Ho).
  assert (wrap64 (tk_Attempts t + 1) = tk_Attempts t + 1) as Hw.
  { apply wrap64_small. unfold in_int64, two63 in *. lia. }
  unfold retried. cbv zeta. set (t1 := set tk_LastError _ _).
  assert (tk_Attempts t1 = tk_Attempts t + 1) as Ea by (cbn; exact Hw).
  rewrite Ea. case_decide as Hlast.
  - split; [done| |left; right; by left|intros [?|?]; done].
    rewrite attempts_left_final by (right; by left). by apply attempts_left_open.
  - split; [done| |right; split; [done|]|].
    + unfold attempts_left. rewrite (decide_True (P := open_task t)) by done.
      rewrite decide_True by (by left). cbn [tk_Attempts]. cbn in Ea |- *. lia.
    + cbn. etrans; [|by apply (retry_until_later m n)]. unfold retry_until, millis.
      pose proof (Z.le_min_r (wrap64 (wrap64 (wrap64 (Z.shiftl 1 (tk_Attempts t + 1)) * 15) * second)) (600 * second)) as Hmin.
      fold (retry_wait (tk_Attempts t + 1)) in Hmin |- *.
      replace (600 * second) with (600000 * 1000000) in Hmin by done.
      rewrite <-Z.div_add by lia. apply Z.div_le_mono; lia.
    + intros _. cbn in Ea |- *. lia.
Qed.

Lemma outcome_moved n t sent t' :
  open_task t → counted t → outcome clock MaxAttempts n t sent t' → moved most (retry_until n) t t'.
Proof using Hmax Hclock.
  intros Ho Hc Hout. destruct Hout as [reason|recipients reason|m cause Hm|recipients channel msg m Hm Hen Hmail
    |recipients channel msg e m Hm Hen Hmail].
  1, 2, 4: split; [done| |left; unfold final_status; cbn; auto|intros [?|?]; done];
    rewrite attempts_left_final by (unfold final_status; cbn; auto); by apply attempts_left_open.
  - by apply retried_moved.
  - by destruct (retried_moved m n addressed e Hm Ho Hc) as [S L ? ?]; split.
Qed.

(** ** One batch *)

(** The successful sends, by task. *)
Definition sent_ids (log : list delivery) : list Z :=
  (λ d, tk_ID (dl_task d)) <$> filter (λ d, dl_error d = None) log.

Lemma outcome_sent n t sent t' :
  outcome clock MaxAttempts n t sent t' →
  (length sent ≤ 1)%nat ∧ (sent_ids sent = [] ∨ sent_ids sent = [tk_ID t] ∧ tk_Status t' = StatusSent).
Proof using.
  destruct 1; (split; [cbn; lia|]); unfold sent_ids; try by left.
  by right.
Qed.

(** Only this worker changes the queue and its log. *)
Definition same_queue w w' : Prop :=
  nr_tasks (nw_store w') = nr_tasks (nw_store w) ∧ nr_leases (nw_store w') = nr_leases (nw_store w)
  ∧ nr_seq (nw_store w') = nr_seq (nw_store w).
#[export] Instance same_queue_preorder : PreOrder same_queue.
Proof.
  split; [done|]. intros w1 w2 w3 (E1 & E2 & E3) (F1 & F2 & F3).
  unfold same_queue. by rewrite F1, F2, F3.
Qed.
Context (Hqueue : ∀ n w, same_queue w (sc_env sched n w)).
Context (Hlog : ∀ n w, nw_sent (sc_env sched n w) = nw_sent w).
Abbreviation tasks_of w := (nr_tasks (nw_store w)).
Abbreviation leases_of w := (nr_leases (nw_store w)).

(** The tasks numbered [ids] have moved and the others are as they were. *)
Record batch_done (ids : list Z) (until : Z) w w' : Prop := {
  bd_tasks : Forall2 (λ x y, (tk_ID x ∉ ids) ∧ y = x ∨ tk_ID x ∈ ids ∧ moved most until x y)
               (tasks_of w) (tasks_of w');
  bd_leases : ∀ i, i ∉ ids → leases_of w' !! i = leases_of w !! i }.

Lemma batch_done_nil until w w' : same_queue w w' → batch_done [] until w w'.
Proof using.
  intros (Et & El & _). split; [|by rewrite El]. rewrite Et. apply Forall_Forall2_diag, Forall_forall.
  intros x _. left. split; [apply not_elem_of_nil|done].
Qed.

Lemma batch_done_app ids1 ids2 until1 until w w1 w2 :
  until1 <= until → batch_done ids1 until1 w w1 → batch_done ids2 until w1 w2 →
  batch_done (ids1 ++ ids2) until w w2.
Proof using.
  intros Hu [T1 L1] [T2 L2]. split.
  - eapply Forall2_compose; [|exact T1|exact T2]. cbn. intros x y z Hxy Hyz.
    assert (tk_ID y = tk_ID x) as E.
    { destruct Hxy as [[_ ->]|[_ [S _ _ _]]]; [done|by apply same_task_id]. }
    rewrite E in Hyz. rewrite not_elem_of_app, elem_of_app.
    destruct Hxy as [[Hn ->]|[Hi M1]], Hyz as [[Hn2 ->]|[Hi2 M2]]; [by left|right; auto..| |].
    + right. split; [by left|]. by eapply moved_later.
    + right. split; [by left|]. by eapply moved_trans.
  - intros i [H1' H2']%not_elem_of_app. by rewrite L2, L1.
Qed.

Lemma batch_done_ids ids until w w' : batch_done ids until w w' → task_ids (tasks_of w') = task_ids (tasks_of w).
Proof using.
  intros [T _]. apply list_eq_Forall2, Forall2_fmap, Forall2_flip. eapply Forall2_impl; [exact T|]. cbn.
  intros x y [[_ ->]|[_ [S _ _ _]]]; [done|by apply same_task_id].
Qed.

(** A task that was not in the batch is where it was. *)
Lemma batch_done_other ids until w w' x :
  batch_done ids until w w' → x ∈ tasks_of w → tk_ID x ∉ ids → x ∈ tasks_of w'.
Proof using.
  intros [T _] [i Hi]%list_elem_of_lookup Hn. destruct (Forall2_lookup_l _ _ _ _ _ T Hi) as (y & Hy & Hxy).
  destruct Hxy as [[_ ->]|[? _]]; [by eapply list_elem_of_lookup_2|done].
Qed.

Lemma put_task_done until t t' w :
  NoDup (task_ids (tasks_of w)) → t ∈ tasks_of w → moved most until t t' →
  batch_done [tk_ID t] until w (w <| nw_store := (FinishTask t' (nw_store w)).2 |>)
  ∧ (FinishTask t' (nw_store w)).1 = Ok tt ∧ t' ∈ nr_tasks (FinishTask t' (nw_store w)).2.
Proof using.
  intros Hnd Ht Hm. pose proof (same_task_id _ _ (mv_same _ _ _ _ Hm)) as E.
  rewrite FinishTask_spec by done. rewrite decide_True by (rewrite E; by apply list_elem_of_fmap_2).
  split_and!; [|done|].
  2:{ cbn. apply list_elem_of_fmap. exists t. split; [|done]. unfold put_task. by rewrite decide_True. }
  split; cbn.
  - apply Forall2_fmap_r, Forall_Forall2_diag, Forall_forall. intros x Hx. cbn beta.
    unfold put_task. rewrite E. destruct (decide (tk_ID x = tk_ID t)) as [Ex|Ex].
    + right. split; [rewrite Ex; left|]. by rewrite (task_by_id _ _ _ Hnd Hx Ht Ex), decide_True.
    + left. split; [by intros ?%list_elem_of_singleton|]. by rewrite decide_False.
  - intros i Hi. rewrite lookup_delete_ne; [done|]. intros <-. apply Hi. rewrite E. left.
Qed.

(** A batch of tasks as a claim hands it out. *)
Record batch_ready (ts : list Task) w : Prop := {
  br_ids : NoDup (task_ids (tasks_of w));
  br_once : NoDup (task_ids ts);
  br_stored : ∀ t, t ∈ ts → t ∈ tasks_of w ∧ tk_Status t = StatusSending ∧ counted t }.

(** The log of a batch and the tasks it reports as sent. *)
Record batch_log (ts : list Task) w w' (new : list delivery) : Prop := {
  bl_log : nw_sent w' = nw_sent w ++ new;
  bl_length : (length new ≤ length ts)%nat;
  bl_once : NoDup (sent_ids new);
  bl_ids : ∀ i, i ∈ sent_ids new → i ∈ task_ids ts }.
Definition sent_stored (new : list delivery) w : Prop :=
  ∀ i, i ∈ sent_ids new → ∃ y, y ∈ tasks_of w ∧ tk_ID y = i ∧ tk_Status y = StatusSent.

Definition batch_post (ts : list Task) w n (r : res unit) (s : notify_world D * nat) : Prop :=
  (n ≤ s.2)%nat ∧ ∃ new, batch_log ts w s.1 new ∧
    (r = Ok tt → batch_done (task_ids ts) (retry_until s.2) w s.1 ∧ sent_stored new s.1).

Lemma sent_ids_app l l' : sent_ids (l ++ l') = sent_ids l ++ sent_ids l'.
Proof using. unfold sent_ids. by rewrite filter_app, fmap_app. Qed.

Lemma yields_deliver_one t w n :
  batch_ready [t] w →
  yields (deliver sched clock cancelled send_result WebURL MaxAttempts t) (w, n) (batch_post [t] w n).
Proof using Hmax Hclock Hqueue Hlog.
  intros [Hnd _ Hst]. destruct (Hst t ltac:(left)) as (Ht & Hs & Hc).
  eapply yields_mono; [apply (delivers_task sched clock cancelled send_result WebURL MaxAttempts
    same_queue Hqueue ltac:(done) Hlog t w n)|].
  intros r [w' n'] (sent & _ & Hn & t' & w1 & Hout & HR1 & E1 & w0 & HR0 & E0 & Hend). cbn in *.
  pose proof (outcome_sent _ _ _ _ Hout) as [Hlen Hsent].
  apply outcome_moved in Hout as Hm; [|by right|done].
  assert (same_queue w w0) as HR by (by etrans). destruct HR as (Et & El & Es).
  split; [cbn; lia|]. exists sent. cbn. split.
  - split; [|done| |].
    + destruct Hend as [(e & _ & ->)|[_ ->]]; cbn; congruence.
    + destruct Hsent as [-> |[-> _]]; [apply NoDup_nil_2|apply NoDup_singleton].
    + intros i. destruct Hsent as [-> |[-> _]]; [by intros ?%not_elem_of_nil|done].
  - intros ->. destruct Hend as [(e & ? & _)|[Eok ->]]; [done|].
    destruct (put_task_done (retry_until n') t t' w0) as (Hd & _ & Hin); [by rewrite Et..|done|]. split.
    + eapply (batch_done_app [] [tk_ID t]); [done| |exact Hd]. by apply batch_done_nil.
    + intros i Hi. destruct Hsent as [E|[E Hst']]; rewrite E in Hi; [by apply not_elem_of_nil in Hi|].
      apply list_elem_of_singleton in Hi as ->. exists t'. split; [done|]. split; [|done].
      by apply same_task_id, Hm.
Qed.

Lemma batch_log_widen t ts w w' new : batch_log [t] w w' new → batch_log (t :: ts) w w' new.
Proof using.
  intros [E Hl Ho Hi]. split; [done|cbn in *; lia|done|].
  intros i H'%Hi. apply list_elem_of_singleton in H' as ->. left.
Qed.

Lemma batch_log_cons t ts w w1 w' new1 new2 :
  NoDup (task_ids (t :: ts)) → batch_log [t] w w1 new1 → batch_log ts w1 w' new2 →
  batch_log (t :: ts) w w' (new1 ++ new2).
Proof using.
  intros [Hni _]%NoDup_cons [E1 L1 O1 I1] [E2 L2 O2 I2]. split.
  - by rewrite E2, E1, (assoc_L (++)).
  - rewrite length_app. cbn in *. lia.
  - rewrite sent_ids_app. apply NoDup_app. split_and!; [done| |done].
    intros i Hi%I1 Hi2%I2. by apply list_elem_of_singleton in Hi as ->.
  - intros i. rewrite sent_ids_app. intros [Hi%I1|Hi%I2]%elem_of_app; [|by right].
    apply list_elem_of_singleton in Hi as ->. left.
Qed.

Lemma batch_ready_rest t ts until w w1 :
  batch_ready (t :: ts) w → batch_done (task_ids [t]) until w w1 → batch_ready ts w1.
Proof using.
  intros [Hnd [Hni Hnd2]%NoDup_cons Hst] Hd. split.
  - by rewrite (batch_done_ids _ _ _ _ Hd).
  - done.
  - intros t2 Ht2. destruct (Hst t2) as (? & ? & ?); [by right|]. split; [|done].
    eapply batch_done_other; [done..|]. intros E%list_elem_of_singleton. apply Hni. rewrite <-E.
    by apply list_elem_of_fmap_2.
Qed.

Lemma yields_deliver_each ts : ∀ w n,
  batch_ready ts w →
  yields (deliver_each sched clock cancelled send_result WebURL MaxAttempts ts) (w, n) (batch_post ts w n).
Proof using Hmax Hclock Hqueue Hlog.
  induction ts as [|t ts IH]; intros w n Hb; cbn [deliver_each].
  { apply yields_ret. split; [done|]. exists []. split.
    - split; [by rewrite app_nil_r|done|apply NoDup_nil_2|by intros ? ?%not_elem_of_nil].
    - intros _. split; [by apply batch_done_nil|by intros ? ?%not_elem_of_nil]. }
  pose proof (br_once _ _ Hb) as Honce. apply yields_bind. eapply yields_mono; [apply yields_deliver_one|].
  { destruct Hb as [Hnd _ Hst]. split; [done|apply NoDup_singleton|].
    intros x ->%list_elem_of_singleton. apply Hst. left. }
  intros [[]|e] [w1 n1] (Hn1 & new1 & Hlog1 & Hd1).
  2:{ split; [done|]. exists new1. split; [by apply batch_log_widen|done]. }
  destruct (Hd1 eq_refl) as [Hdone1 Hsent1]. cbn in Hn1, Hdone1, Hsent1.
  eapply yields_mono; [apply (IH w1 n1); by eapply batch_ready_rest|].
  intros r [w2 n2] (Hn2 & new2 & Hlog2 & Hd2). cbn in Hn2.
  split; [cbn; lia|]. exists (new1 ++ new2). split; [by eapply batch_log_cons|].
  intros ->. destruct (Hd2 eq_refl) as [Hdone2 Hsent2]. split.
  - eapply (batch_done_app [tk_ID t]); [|exact Hdone1|exact Hdone2]. by apply retry_until_later.
  - intros i. rewrite sent_ids_app. intros [Hi|Hi]%elem_of_app; [|by apply Hsent2].
    destruct (Hsent1 _ Hi) as (y & Hy & Ey & Hst). exists y. split; [|done].
    eapply batch_done_other; [done..|]. apply (bl_ids _ _ _ _ Hlog1) in Hi.
    apply list_elem_of_singleton in Hi. rewrite Ey, Hi. by apply NoDup_cons in Honce as [? _].
Qed.
End rounds.
