(* ===== verification/NotifyTheorems.v ===== *)
(** The properties of the delivery of notifications. *)
From S2P Require Import Prelude GoText SitesModel StoreIO AlarmModel AlarmStore NotifyModel.
From S2P Require Import NotifyService NotifyQueue NotifyDelivery NotifyRounds.

(** The delivery loop ends, sends nothing twice, and leaves nothing due. *)

(** ** Sums *)

Lemma sum_list_le {A} (f g : A → nat) l l' :
  Forall2 (λ x y, (g y ≤ f x)%nat) l l' → (sum_list_with g l' ≤ sum_list_with f l)%nat.
Proof. induction 1; cbn [sum_list_with]; lia. Qed.

Lemma sum_list_indicator {A} (f : A → nat) (P : A → Prop) `{∀ x, Decision (P x)} (l : list A) :
  (sum_list_with (λ x, f x + if decide (P x) then 1 else 0) l = sum_list_with f l + length (filter P l))%nat.
Proof.
  induction l as [|x l IH]; [done|]. rewrite filter_cons. cbn [sum_list_with].
  destruct (decide (P x)); cbn [length]; lia.
Qed.

(** The tasks numbered [ids] each lose an attempt. *)
Lemma total_left_drop most (picked tasks tasks' : list Task) :
  NoDup (task_ids picked) → (∀ x, x ∈ picked → x ∈ tasks) →
  Forall2 (λ x y, tk_ID y = tk_ID x ∧
             (attempts_left most y + (if decide (tk_ID x ∈ task_ids picked) then 1 else 0)
              ≤ attempts_left most x)%nat) tasks tasks' →
  (total_left most tasks' + length picked ≤ total_left most tasks)%nat.
Proof.
  intros Hnd Hin HT. unfold total_left.
  assert (Forall2 (λ x y, (attempts_left most y + (if decide (tk_ID y ∈ task_ids picked) then 1 else 0)
                           ≤ attempts_left most x)%nat) tasks tasks') as Hle.
  { eapply Forall2_impl; [exact HT|]. by intros x y [-> ?]. }
  apply sum_list_le in Hle. rewrite sum_list_indicator in Hle.
  etrans; [|exact Hle]. apply Nat.add_le_mono_l.
  assert (task_ids tasks' = task_ids tasks) as Eids.
  { apply list_eq_Forall2, Forall2_fmap, Forall2_flip. eapply Forall2_impl; [exact HT|]. by intros x y [-> _]. }
  rewrite <-(length_fmap tk_ID picked), <-(length_fmap tk_ID (filter _ _)).
  apply submseteq_length, NoDup_submseteq; [done|]. intros i Hi.
  assert (i ∈ task_ids tasks') as (y & -> & Hy)%list_elem_of_fmap.
  { rewrite Eids. apply list_elem_of_fmap in Hi as (x & -> & Hx). by apply list_elem_of_fmap_2, Hin. }
  apply list_elem_of_fmap_2. by apply list_elem_of_filter.
Qed.

Section loop.
Context `{AlarmDetails, Platform, UpperCase, MapOrder}.
Context {D : Type} `{!Directory D, !SecretBox}.
Context (sched : store_schedule (notify_world D)).
Context (clock : nat → Z) (cancelled : nat → option error).
Context (send_result : nat → Channel → ChannelSecret → Message_t → option error).
Context (WebURL : string) (MaxAttempts : Z).
Implicit Types (t : Task) (w : notify_world D).
Abbreviation most := (maxAttempts MaxAttempts).
Context (Hmax : in_int64 MaxAttempts) (Hclock : ∀ n m, (n ≤ m)%nat → clock n <= clock m).
Context (Hqueue : ∀ n w, same_queue w (sc_env sched n w)).
Context (Hlog : ∀ n w, nw_sent (sc_env sched n w) = nw_sent w).
Abbreviation tasks_of w := (nr_tasks (nw_store w)).
Abbreviation leases_of w := (nr_leases (nw_store w)).
Abbreviation until := (retry_until clock).
Abbreviation left_in w := (total_left most (tasks_of w)).

(** A queue whose tasks are numbered apart. *)
Record sound_queue w : Prop := {
  sq_ids : NoDup (task_ids (tasks_of w));
  sq_counted : ∀ t, t ∈ tasks_of w → counted t }.

(** Every task is as it was, with its lease, or has moved on. *)
Definition progressed (u : Z) w w' : Prop :=
  Forall2 (λ x y, y = x ∧ leases_of w' !! tk_ID x = leases_of w !! tk_ID x ∨ moved most u x y)
    (tasks_of w) (tasks_of w').

Lemma progressed_same u w w' : same_queue w w' → progressed u w w'.
Proof using.
  intros (Et & El & _). unfold progressed. rewrite Et, El. apply Forall_Forall2_diag, Forall_forall. by left.
Qed.

Lemma progressed_trans u u' w w1 w2 : u <= u' → progressed u w w1 → progressed u' w1 w2 → progressed u' w w2.
Proof using.
  intros Hu H12 H23. eapply Forall2_compose; [|exact H12|exact H23]. cbn. intros x y z Hxy Hyz.
  destruct Hxy as [[-> E1]|M1], Hyz as [[-> E2]|M2].
  - left. split; [done|congruence].
  - by right.
  - right. by eapply moved_later.
  - right. by eapply moved_trans.
Qed.

Lemma progressed_ids u w w' : progressed u w w' → task_ids (tasks_of w') = task_ids (tasks_of w).
Proof using.
  intros Hp. apply list_eq_Forall2, Forall2_fmap, Forall2_flip. eapply Forall2_impl; [exact Hp|]. cbn.
  intros x y [[-> _]|[S _ _ _]]; [done|by apply same_task_id].
Qed.

Lemma progressed_sound u w w' : progressed u w w' → sound_queue w → sound_queue w'.
Proof using.
  intros Hp [Hnd Hc]. split; [by rewrite (progressed_ids _ _ _ Hp)|].
  intros y [i Hi]%list_elem_of_lookup. destruct (Forall2_lookup_r _ _ _ _ _ Hp Hi) as (x & Hx & Hxy).
  apply list_elem_of_lookup_2 in Hx. destruct Hxy as [[-> _]|[_ _ _ ?]]; [by apply Hc|done].
Qed.

(** ** A claim and its batch *)

Definition claimed_world (now : Z) w : notify_world D :=
  w <| nw_store := (ClaimDueTasks now 60000 20 (nw_store w)).2 |>.
Definition claimed_tasks (now : Z) w : list Task := claim_pick now 20 (leases_of w) (tasks_of w).

Lemma claimed_spec now w :
  sound_queue w →
  (ClaimDueTasks now 60000 20 (nw_store w)).1 = sending <$> claimed_tasks now w ∧
  tasks_of (claimed_world now w) = mark_sending (claimed_tasks now w) <$> tasks_of w ∧
  leases_of (claimed_world now w) = lease_all (wrap64 (now + 60000)) (claimed_tasks now w) (leases_of w).
Proof using.
  intros [Hnd _]. unfold claimed_world. rewrite ClaimDueTasks_spec by done. done.
Qed.

Lemma mark_sending_ids picked (tasks : list Task) : task_ids (mark_sending picked <$> tasks) = task_ids tasks.
Proof using. by rewrite ids_of_subjects, subject_mark_sending, <-ids_of_subjects. Qed.
Lemma sending_ids (picked : list Task) : task_ids (sending <$> picked) = task_ids picked.
Proof using. by rewrite <-list_fmap_compose. Qed.

Lemma claimed_ready now w :
  sound_queue w → batch_ready (sending <$> claimed_tasks now w) (claimed_world now w).
Proof using.
  intros Hs. pose proof (claimed_spec now w Hs) as (_ & Et & _). destruct Hs as [Hnd Hc]. split.
  - by rewrite Et, mark_sending_ids.
  - rewrite sending_ids. by apply claim_pick_NoDup.
  - intros t (x & -> & Hx)%list_elem_of_fmap. pose proof (list_elem_of_fmap_2 tk_ID _ _ Hx) as Hid.
    apply claim_pick_elem in Hx as [Hx Hd%due_open]. split_and!; [|done|].
    + rewrite Et. apply list_elem_of_fmap. exists x. split; [|done]. unfold mark_sending. by rewrite decide_True.
    + intros _. by apply (Hc x).
Qed.

(** A batch that was delivered without an error. *)
Lemma claimed_done now u w w' :
  sound_queue w →
  batch_done MaxAttempts (task_ids (sending <$> claimed_tasks now w)) u (claimed_world now w) w' →
  progressed u w w' ∧ (total_left most (tasks_of w') + length (claimed_tasks now w) ≤ left_in w)%nat.
Proof using.
  intros Hs Hd. pose proof (claimed_spec now w Hs) as (_ & Et & El). destruct Hs as [Hnd Hc].
  rewrite sending_ids in Hd. destruct Hd as [T L]. rewrite Et in T. apply Forall2_fmap_l in T.
  set (picked := claimed_tasks now w) in *.
  assert (∀ x, x ∈ tasks_of w → tk_ID x ∈ task_ids picked → x ∈ picked) as Hpick.
  { intros x Hx (x' & E & Hx')%list_elem_of_fmap. pose proof (claim_pick_elem _ _ _ _ _ Hx') as [Hin _].
    by rewrite (task_by_id _ _ _ Hnd Hx Hin E). }
  assert (Forall2 (λ x y, (tk_ID x ∉ task_ids picked) ∧ y = x ∧ leases_of w' !! tk_ID x = leases_of w !! tk_ID x
                    ∨ tk_ID x ∈ task_ids picked ∧ moved most u x y) (tasks_of w) (tasks_of w')) as T'.
  { apply Forall2_same_length_lookup_2; [by eapply Forall2_length|]. intros i x y Hx Hy.
    pose proof (Forall2_lookup_lr _ _ _ _ _ _ T Hx Hy) as Hxy. cbn in Hxy. unfold mark_sending in Hxy.
    apply list_elem_of_lookup_2 in Hx.
    destruct (decide (tk_ID x ∈ task_ids picked)) as [Hin|Hin].
    - right. split; [done|]. destruct Hxy as [[? _]|[_ M]]; [done|].
      apply moved_sending in M; [done|].
      exact (due_open _ _ _ (proj2 (claim_pick_elem _ _ _ _ _ (Hpick x Hx Hin)))).
    - left. destruct Hxy as [[_ ->]|[? _]]; [|done]. split_and!; [done..|].
      rewrite L, El, lookup_lease_all by done. by rewrite decide_False. }
  split.
  - eapply Forall2_impl; [exact T'|]. cbn. intros x y [(_ & -> & ?)|[_ ?]]; [by left|by right].
  - apply total_left_drop.
    + by apply claim_pick_NoDup.
    + intros x Hx. by apply claim_pick_elem in Hx as [? _].
    + eapply Forall2_impl; [exact T'|]. cbn. intros x y [(? & -> & _)|[? [S ? _ _]]].
      * split; [done|]. rewrite decide_False by done. lia.
      * split; [by apply same_task_id|]. rewrite decide_True by done. lia.
Qed.

Lemma yields_claim_batch now w n (Q : res (list Task) → notify_world D * nat → Prop) :
  sound_queue w →
  (∀ e, Q (Err e) (sc_env sched n w, S n)) →
  (∀ w0, same_queue w w0 → nw_sent w0 = nw_sent w → sound_queue w0 →
     Q (Ok (sending <$> claimed_tasks now w0)) (claimed_world now w0, S n)) →
  yields (claim_due sched now) (w, n) Q.
Proof using Hqueue Hlog MaxAttempts.
  intros Hs Herr Hok. unfold claim_due, notify_call. apply yields_call; [auto|]. intros w0 _.
  assert (sound_queue w0) as Hs0.
  { eapply (progressed_sound 0); [|exact Hs]. apply progressed_same, Hqueue. }
  specialize (Hok w0 (Hqueue n w) (Hlog n w) Hs0).
  rewrite <-(proj1 (claimed_spec now w0 Hs0)) in Hok. unfold claimed_world in Hok.
  destruct (ClaimDueTasks now 60000 20 (nw_store w0)) as [out r]. exact Hok.
Qed.

(** ** The loop *)

(** The messages of a run: to open tasks only, and none confirmed twice. *)
Record run_log w (new : list delivery) : Prop := {
  rl_length : (length new ≤ left_in w)%nat;
  rl_once : NoDup (sent_ids new);
  rl_open : ∀ i, i ∈ sent_ids new → ∃ x, x ∈ tasks_of w ∧ tk_ID x = i ∧ open_task x }.

Definition nothing_due n w (s : notify_world D * nat) : Prop :=
  ∃ m, (n ≤ m ≤ s.2)%nat ∧
    ∀ t, t ∈ tasks_of s.1 → ¬ task_due (millis (clock m)) (leases_of s.1) t.

Definition run_post (fuel : nat) w n (r : res (option unit)) (s : notify_world D * nat) : Prop :=
  (n ≤ s.2)%nat ∧ (r = Ok None → (fuel ≤ left_in w)%nat) ∧
  ∃ new, nw_sent s.1 = nw_sent w ++ new ∧ run_log w new ∧
    (r = Ok (Some tt) → progressed (until s.2) w s.1 ∧ sent_stored new s.1 ∧ nothing_due n w s).

Lemma run_log_nil w : run_log w [].
Proof using. split; [cbn; lia|apply NoDup_nil_2|by intros ? ?%not_elem_of_nil]. Qed.

Lemma progressed_sent u w w' y : progressed u w w' → y ∈ tasks_of w → tk_Status y = StatusSent → y ∈ tasks_of w'.
Proof using.
  intros Hp [i Hi]%list_elem_of_lookup Hst. destruct (Forall2_lookup_l _ _ _ _ _ Hp Hi) as (z & Hz & Hyz).
  apply list_elem_of_lookup_2 in Hz. destruct Hyz as [[-> _]|[_ L _ _]]; [done|].
  rewrite (attempts_left_final most y) in L by (by left). lia.
Qed.

Lemma progressed_open u w w' y :
  progressed u w w' → y ∈ tasks_of w' → open_task y → ∃ x, x ∈ tasks_of w ∧ tk_ID x = tk_ID y ∧ open_task x.
Proof using.
  intros Hp [i Hi]%list_elem_of_lookup Ho. destruct (Forall2_lookup_r _ _ _ _ _ Hp Hi) as (x & Hx & Hxy).
  apply list_elem_of_lookup_2 in Hx. exists x. split; [done|]. destruct Hxy as [[-> _]|[S L _ _]]; [done|].
  split; [symmetry; by apply same_task_id|]. unfold attempts_left in L.
  destruct (decide (open_task x)); [done|lia].
Qed.

(** The log of a batch followed by the log of the rest of the run. *)
Lemma run_log_batch now u w w1 w2 new1 new2 :
  sound_queue w → batch_log (sending <$> claimed_tasks now w) w1 w2 new1 →
  progressed u w w2 → (left_in w2 + length (claimed_tasks now w) ≤ left_in w)%nat →
  sent_stored new1 w2 → run_log w2 new2 → run_log w (new1 ++ new2).
Proof using.
  intros Hs [_ L1 O1 I1] Hp Hleft Hst [L2 O2 I2]. rewrite sending_ids in I1. rewrite length_fmap in L1. split.
  - rewrite length_app. lia.
  - rewrite sent_ids_app. apply NoDup_app. split_and!; [done| |done].
    intros i Hi1 Hi2. destruct (Hst _ Hi1) as (y & Hy & Ey & Hys), (I2 _ Hi2) as (z & Hz & Ez & Hzo).
    pose proof (progressed_sound _ _ _ Hp Hs) as [Hnd2 _].
    rewrite <-(task_by_id _ y z Hnd2 Hy Hz) in Hzo by congruence.
    destruct Hzo as [E|E]; by rewrite E in Hys.
  - intros i. rewrite sent_ids_app. intros [Hi|Hi]%elem_of_app.
    + apply I1, list_elem_of_fmap in Hi as (x & -> & [Hx Hd%due_open]%claim_pick_elem). by exists x.
    + destruct (I2 _ Hi) as (y & Hy & <- & Ho). by eapply progressed_open.
Qed.

(** A batch that failed. *)
Lemma run_log_failed now w w1 w2 new :
  sound_queue w → batch_log (sending <$> claimed_tasks now w) w1 w2 new → run_log w new.
Proof using.
  intros [Hnd Hc] [_ L1 O1 I1]. rewrite sending_ids in I1. rewrite length_fmap in L1. split; [|done|].
  - etrans; [exact L1|]. pose proof (total_left_drop most (claimed_tasks now w) (tasks_of w)
      ((λ x, if decide (tk_ID x ∈ task_ids (claimed_tasks now w))
             then x <| tk_Status := StatusFailed |> else x) <$> tasks_of w)) as Hd.
    enough (total_left most ((λ x, if decide (tk_ID x ∈ task_ids (claimed_tasks now w))
             then x <| tk_Status := StatusFailed |> else x) <$> tasks_of w) + length (claimed_tasks now w)
             ≤ left_in w)%nat by lia.
    apply Hd; [by apply claim_pick_NoDup|by intros x [? _]%claim_pick_elem|].
    apply Forall2_fmap_r, Forall_Forall2_diag, Forall_forall. intros x Hx. unfold compose. cbn beta.
    destruct (decide (tk_ID x ∈ task_ids (claimed_tasks now w))) as [Hin|Hin]; [|split; [done|lia]].
    split; [done|].
    rewrite attempts_left_final by (right; by left). apply attempts_left_open.
    apply list_elem_of_fmap in Hin as (x' & E & [Hx' Hd']%claim_pick_elem).
    rewrite (task_by_id _ x x' Hnd Hx Hx' E). by eapply due_open.
  - intros i Hi%I1. apply list_elem_of_fmap in Hi as (x & -> & [Hx Hd%due_open]%claim_pick_elem). by exists x.
Qed.

Lemma yields_DeliverDue fuel : ∀ w n,
  sound_queue w →
  yields (DeliverDue sched clock cancelled send_result WebURL MaxAttempts fuel) (w, n) (run_post fuel w n).
Proof using Hmax Hclock Hqueue Hlog.
  induction fuel as [|fuel IH]; intros w n Hs; cbn [DeliverDue].
  { apply yields_ret. split; [done|]. split; [intros _; lia|]. exists []. split; [by rewrite app_nil_r|].
    by split; [apply run_log_nil|]. }
  apply yields_bind. unfold now_millis. apply yields_bind, yields_observe, yields_ret, yields_bind.
  set (now := millis (clock n)).
  apply yields_claim_batch; [done| |].
  { intros e. split; [cbn; lia|]. split; [done|]. exists []. rewrite app_nil_r.
    split; [apply Hlog|]. by split; [apply run_log_nil|]. }
  intros w0 HR0 E0 Hs0. pose proof HR0 as (Et & El & _).
  assert (left_in w0 = left_in w) as Eleft by (by rewrite Et).
  assert (∀ new, run_log w0 new → run_log w new) as Hlog0.
  { intros new [L O I]. rewrite Et in L, I. by split. }
  pose proof (claimed_spec now w0 Hs0) as (_ & Etc & Elc).
  destruct (decide (sending <$> claimed_tasks now w0 = [])) as [Hnil|Hsome].
  - apply fmap_nil_inv in Hnil. apply yields_ret. split; [cbn; lia|]. split; [done|]. exists [].
    rewrite app_nil_r. split; [done|]. split; [apply run_log_nil|]. intros _. rewrite Hnil in Etc, Elc.
    rewrite mark_sending_other in Etc by (intros i _; apply not_elem_of_nil).
    split_and!; [|by intros ? ?%not_elem_of_nil|].
    + cbn [fst]. apply progressed_same. split_and!; [by rewrite Etc|by rewrite Elc|].
      cbn. unfold claimed_world. rewrite ClaimDueTasks_spec by apply Hs0. cbn. apply HR0.
    + exists n. split; [cbn; lia|]. cbn [fst]. rewrite Etc, Elc. intros t Ht.
      by apply (claim_pick_nil now 20 (leases_of w0) (tasks_of w0)).
  - assert (1 ≤ length (claimed_tasks now w0))%nat as Hlen.
    { destruct (claimed_tasks now w0); [done|cbn; lia]. }
    apply yields_bind. eapply yields_mono.
    { apply (yields_deliver_each sched clock cancelled send_result WebURL MaxAttempts Hmax Hclock Hqueue Hlog).
      by apply claimed_ready. }
    assert (nw_sent (claimed_world now w0) = nw_sent w) as Elog by done.
    intros [[]|e] [w2 n2] (Hn2 & new1 & Hb & Hd).
    2:{ split; [cbn in *; lia|]. split; [done|]. exists new1. rewrite (bl_log _ _ _ _ Hb), Elog.
        split; [done|]. split; [|done]. by eapply Hlog0, run_log_failed. }
    destruct (Hd eq_refl) as [Hdone Hsent1]. cbn [fst snd] in *.
    apply claimed_done in Hdone as [Hp Hleft]; [|done].
    eapply yields_mono; [apply (IH w2 n2); by eapply progressed_sound|].
    intros r [w3 n3] (Hn3 & Hnone & new2 & Elog2 & Hl2 & Hend). cbn [fst snd] in *.
    unfold run_post. cbn [fst snd]. split; [lia|]. split; [intros Er; specialize (Hnone Er); lia|].
    exists (new1 ++ new2). split; [by rewrite Elog2, (bl_log _ _ _ _ Hb), Elog, (assoc_L (++))|].
    split; [by eapply Hlog0, run_log_batch|]. intros Er. destruct (Hend Er) as (Hp2 & Hs2 & m & Hm & Hdue).
    split_and!.
    + eapply (progressed_trans (until n2)); [by apply retry_until_later| |exact Hp2].
      eapply (progressed_trans (until n2)); [done|by apply progressed_same|exact Hp].
    + intros i. rewrite sent_ids_app. intros [Hi|Hi]%elem_of_app; [|by apply Hs2].
      destruct (Hsent1 _ Hi) as (y & Hy & Ey & Hst). exists y. split; [by eapply progressed_sent|done].
    + exists m. split; [cbn in *; lia|done].
Qed.
End loop.

Section theorems.
Context `{AlarmDetails, Platform, UpperCase, MapOrder}.
Context {D : Type} `{!Directory D, !SecretBox}.
Context (sched : store_schedule (notify_world D)).
Context (clock : nat → Z) (cancelled : nat → option error).
Context (send_result : nat → Channel → ChannelSecret → Message_t → option error).
Context (WebURL : string) (MaxAttempts : Z).
Implicit Types (t : Task) (w : notify_world D).
Abbreviation most := (maxAttempts MaxAttempts).
Abbreviation tasks_of w := (nr_tasks (nw_store w)).
Abbreviation leases_of w := (nr_leases (nw_store w)).
Abbreviation run_deliver := (deliver sched clock cancelled send_result WebURL MaxAttempts).
Abbreviation run_due := (DeliverDue sched clock cancelled send_result WebURL MaxAttempts).
(** The log of this worker's messages is its own. *)
Context (Hlog : ∀ n w, nw_sent (sc_env sched n w) = nw_sent w).

(** C15: one delivery.  Whatever the others do meanwhile and whichever calls
    fail, [deliver] ends within seven calls; it sends at most one message, and
    none unless the directory knows the alarm at its first call and, for an
    escalation, says that nobody has handled it; the channel is enabled and a
    mail has an address.  What it writes back, if its last call happens, is
    the task sent, cancelled, failed, or to be tried again with one more
    attempt, at the latest in ten minutes, until the attempts are used up. *)
Theorem deliver_outcome t w n :
  let '(r, (w', n')) := run_deliver t (w, n) in
  (n ≤ n' ≤ n + 7)%nat ∧
  ∃ sent t' w0, outcome clock MaxAttempts n' t sent t' ∧
    nw_sent w0 = nw_sent w ++ sent ∧ (sent ≠ [] → may_send t (sc_env sched n w)) ∧
    ((∃ e, r = Err e ∧ w' = w0) ∨
     (r, w') = (let '(r, store) := FinishTask t' (nw_store w0) in (r, w0 <| nw_store := store |>))).
Proof using Hlog.
  assert (PreOrder (λ _ _ : notify_world D, True)) as Hpre by (by split).
  pose proof (delivers_task sched clock cancelled send_result WebURL MaxAttempts (λ _ _, True)
    (λ _ _, I) (λ _ _, I) Hlog t w n) as Hd.
  unfold yields in Hd. destruct (run_deliver t (w, n)) as [r [w' n']].
  destruct Hd as (sent & Hmay & Hn & t' & w1 & Hout & _ & E1 & w0 & _ & E0 & Hend). cbn [fst snd] in *.
  split; [done|]. exists sent, t', w0. split; [done|]. split; [by rewrite E0|]. split; [done|].
  destruct Hend as [?|[-> ->]]; [by left|right]. by destruct (FinishTask t' (nw_store w0)).
Qed.

Context (Hmax : in_int64 MaxAttempts) (Hclock : ∀ n m, (n ≤ m)%nat → clock n <= clock m).

(** C12: the delivery loop ends.  While only this worker changes the queue,
    and whatever else the others do and whichever calls fail, [DeliverDue]
    ends within as many batches as the open tasks have attempts left, and
    sends no more messages than that, none of them confirmed twice.  When it
    returns without an error no task is due, and every confirmed message is
    recorded. *)
Theorem DeliverDue_ends fuel w n :
  (∀ n w, same_queue w (sc_env sched n w)) → sound_queue w →
  (total_left most (tasks_of w) < fuel)%nat →
  let '(r, (w', n')) := run_due fuel (w, n) in
  r ≠ Ok None ∧
  ∃ new, nw_sent w' = nw_sent w ++ new ∧ (length new ≤ total_left most (tasks_of w))%nat ∧
    NoDup (sent_ids new) ∧
    (r = Ok (Some tt) →
       (∃ m, (n ≤ m ≤ n')%nat ∧ ∀ t, t ∈ tasks_of w' → ¬ task_due (millis (clock m)) (leases_of w') t) ∧
       ∀ d, d ∈ new → dl_error d = None →
         ∃ t, t ∈ tasks_of w' ∧ tk_ID t = tk_ID (dl_task d) ∧ tk_Status t = StatusSent).
Proof using Hlog Hmax Hclock.
  intros Hq Hs Hfuel.
  pose proof (yields_DeliverDue sched clock cancelled send_result WebURL MaxAttempts Hmax Hclock Hq Hlog
    fuel w n Hs) as Hd.
  unfold yields in Hd. destruct (run_due fuel (w, n)) as [r [w' n']].
  destruct Hd as (_ & Hnone & new & Elog & [Hlen Honce _] & Hend). cbn [fst snd] in *.
  split; [intros Er; specialize (Hnone Er); lia|]. exists new. split_and!; [done..|].
  intros Er. destruct (Hend Er) as (_ & Hsent & Hdue). split; [exact Hdue|].
  intros d Hin Hd. apply Hsent. apply list_elem_of_fmap. exists d. split; [done|].
  by apply list_elem_of_filter.
Qed.

(** ** Settling *)

(** When a task is due next. *)
Definition wait_of (leases : gmap Z Z) t : Z :=
  if decide (tk_Status t = StatusPending) then tk_NextAt t else default 0 (leases !! tk_ID t).
Lemma task_due_wait now leases t : task_due now leases t ↔ open_task t ∧ wait_of leases t <= now.
Proof using.
  unfold task_due, open_task, wait_of. destruct (decide (tk_Status t = StatusPending)) as [E|E].
  - rewrite E. split; [intros [[_ ?]|[? _]]; [tauto|done]|tauto].
  - split; [intros [[? _]|[? ?]]; [done|tauto]|intros [[?|?] ?]; [done|tauto]].
Qed.

(** Between two runs others only queue new tasks. *)
Definition only_adds w w' : Prop :=
  (∃ new, tasks_of w' = tasks_of w ++ new) ∧ sound_queue w' ∧
  ∀ t, t ∈ tasks_of w → leases_of w' !! tk_ID t = leases_of w !! tk_ID t.

(** Runs without an error, of which [k] begin at or after the time [due], the
    next ten minutes after the end of such a run. *)
Inductive delivery_rounds : nat → Z → notify_world D * nat → notify_world D * nat → Prop :=
  | rounds_end due s : delivery_rounds 0 due s s
  | rounds_any k due fuel s s1 s2 s' :
      run_due fuel s = (Ok (Some tt), s1) → only_adds s1.1 s2.1 → (s1.2 ≤ s2.2)%nat →
      delivery_rounds k due s2 s' → delivery_rounds k due s s'
  | rounds_next k due fuel s s1 s2 s' :
      due <= millis (clock s.2) →
      run_due fuel s = (Ok (Some tt), s1) → only_adds s1.1 s2.1 → (s1.2 ≤ s2.2)%nat →
      delivery_rounds k (retry_until clock s1.2) s2 s' → delivery_rounds (S k) due s s'.

(** The account of one task: concluded, or it has fewer attempts than rounds
    left, or as many and is due at the next of them. *)
Definition accounted (k : nat) (due : Z) (s : notify_world D * nat) t : Prop :=
  final_status (tk_Status t) ∨
  open_task t ∧ wait_of (leases_of s.1) t <= retry_until clock s.2 ∧
    ((attempts_left most t < k)%nat ∨
     (attempts_left most t ≤ k)%nat ∧ wait_of (leases_of s.1) t <= due).

Lemma moved_wait u leases x y :
  moved most u x y → final_status (tk_Status y) ∨ open_task y ∧ wait_of leases y <= u.
Proof using.
  intros [_ _ [?|[E ?]] _]; [by left|]. right. split; [by left|]. unfold wait_of. by rewrite decide_True.
Qed.

Context (Hqueue : ∀ n w, same_queue w (sc_env sched n w)).

(** One run, and what others add after it. *)
Lemma run_accounts fuel s s1 s2 i x :
  sound_queue s.1 → run_due fuel s = (Ok (Some tt), s1) → only_adds s1.1 s2.1 → (s1.2 ≤ s2.2)%nat →
  tasks_of s.1 !! i = Some x →
  (s.2 ≤ s1.2)%nat ∧ ∃ y, tasks_of s2.1 !! i = Some y ∧ same_task x y ∧
    (y = x ∧ wait_of (leases_of s2.1) y = wait_of (leases_of s.1) x ∧
       ¬ task_due (millis (clock s.2)) (leases_of s.1) x
     ∨ moved most (retry_until clock s1.2) x y).
Proof using Hlog Hmax Hclock Hqueue.
  intros Hs Erun [[new Eadd] [_ Elease]] Hle Hx. destruct s as [w n], s1 as [w1 n1]. cbn [fst snd] in *.
  pose proof (yields_DeliverDue sched clock cancelled send_result WebURL MaxAttempts Hmax Hclock Hqueue Hlog
    fuel w n Hs) as Hd.
  unfold yields in Hd. rewrite Erun in Hd. destruct Hd as (Hn & _ & new' & _ & _ & Hend).
  destruct (Hend eq_refl) as (Hp & _ & m & Hm & Hnone). cbn [fst snd] in *. split; [done|].
  destruct (Forall2_lookup_l _ _ _ _ _ Hp Hx) as (y & Hy & Hxy). exists y.
  split; [rewrite Eadd; by apply lookup_app_l_Some|]. apply list_elem_of_lookup_2 in Hy.
  destruct Hxy as [[-> El]|Hm']; [|by split; [apply Hm'|right]]. split; [done|]. left. split; [done|].
  assert (wait_of (leases_of s2.1) x = wait_of (leases_of w1) x) as Ew1
    by (unfold wait_of; by rewrite (Elease x Hy)).
  assert (wait_of (leases_of w1) x = wait_of (leases_of w) x) as Ew by (unfold wait_of; by rewrite El).
  split; [congruence|]. rewrite task_due_wait. intros [Ho Hw]. apply (Hnone _ Hy), task_due_wait.
  split; [done|]. rewrite Ew. etrans; [exact Hw|]. apply Z.div_le_mono; [lia|apply Hclock; lia].
Qed.

Lemma rounds_accounted k due s s' :
  delivery_rounds k due s s' → ∀ i x, sound_queue s.1 → tasks_of s.1 !! i = Some x → accounted k due s x →
  ∃ y, tasks_of s'.1 !! i = Some y ∧ same_task x y ∧ final_status (tk_Status y).
Proof using Hlog Hmax Hclock Hqueue.
  induction 1 as [due s|k due fuel s s1 s2 s' Erun Hadd Hle _ IH|k due fuel s s1 s2 s' Hdue Erun Hadd Hle _ IH];
    intros i x Hs Hx Hacc.
  { exists x. split; [done|]. split; [done|]. destruct Hacc as [?|(Ho & _ & Hleft)]; [done|].
    apply (attempts_left_open most) in Ho. lia. }
  all: destruct (run_accounts fuel s s1 s2 i x Hs Erun Hadd Hle Hx) as (Hle0 & y & Hy & Hsame & Hxy);
    pose proof (proj1 (proj2 Hadd)) as Hs2; pose proof (retry_until_later clock Hclock _ _ Hle) as Hu;
    pose proof (retry_until_later clock Hclock _ _ Hle0) as Hu0.
  all: enough (accounted _ _ s2 y) as Hacc2 by
    (destruct (IH i y Hs2 Hy Hacc2) as (z & Hz & Hsz & Hf); exists z; split; [done|]; split; [by etrans|done]).
  all: destruct Hacc as [Hf|(Ho & Hw & Hleft)].
  - destruct Hxy as [(-> & _)|[_ L _ _]]; [by left|]. rewrite (attempts_left_final most x Hf) in L. lia.
  - destruct Hxy as [(-> & Ew & _)|M].
    + right. split; [done|]. rewrite Ew. split; [lia|done].
    + destruct (moved_wait _ (leases_of s2.1) _ _ M) as [?|[Hoy Hwy]]; [by left|]. right. split; [done|].
      split; [lia|]. left. destruct M as [_ L _ _]. lia.
  - destruct Hxy as [(-> & _)|[_ L _ _]]; [by left|]. rewrite (attempts_left_final most x Hf) in L. lia.
  - destruct Hxy as [(-> & Ew & Hnot)|M].
    + right. split; [done|]. rewrite Ew. split; [lia|].
      destruct Hleft as [?|[_ Hdue']]; [right; lia|]. destruct Hnot. apply task_due_wait. split; [done|lia].
    + destruct (moved_wait _ (leases_of s2.1) _ _ M) as [?|[Hoy Hwy]]; [by left|]. right. split; [done|].
      split; [lia|]. right. split; [|done]. destruct M as [_ L _ _]. lia.
Qed.

(** C14: a notification settles.  While only this worker delivers, every task
    that is due when a run of the delivery loop begins is sent, cancelled or
    given up for good after as many error-free runs as the service allows
    attempts, each beginning ten minutes or more after the one before ended;
    any number of other runs and of newly queued tasks may come between. *)
Theorem every_task_settles s s' i x :
  sound_queue s.1 → delivery_rounds (Z.to_nat most) (millis (clock s.2)) s s' →
  tasks_of s.1 !! i = Some x → task_due (millis (clock s.2)) (leases_of s.1) x →
  ∃ y, tasks_of s'.1 !! i = Some y ∧ same_task x y ∧ final_status (tk_Status y).
Proof using Hlog Hmax Hclock Hqueue.
  intros Hs Hrounds Hx Hdue. eapply rounds_accounted; [done..|]. right.
  pose proof (proj1 (task_due_wait _ _ _) Hdue) as [Ho Hw]. split; [done|].
  split; [unfold retry_until; lia|]. right. split; [|done].
  pose proof (most_range MaxAttempts Hmax) as Hm. apply list_elem_of_lookup_2 in Hx.
  pose proof (sq_counted _ Hs x Hx Ho) as Hc. unfold attempts_left. rewrite decide_True by done. lia.
Qed.
End theorems.
