(* ===== verification/NotifyReports.v ===== *)
(** From alarms to notifications: the report events of the alarm store, however
    often and in whatever order they are delivered, queue every notification
    of an alarm once. *)
From S2P Require Import Prelude GoText GoJson SitesModel StoreIO AlarmModel AlarmStore.
From S2P Require Import AlarmEngine AlarmRuns AlarmHistory AlarmTheorems NotifyModel.
From S2P Require Import NotifyService NotifyQueue.

Section tasks.
Context `{AlarmDetails, Platform}.

Lemma elem_of_stage_tasks now a kind p i stage t :
  t ∈ stage_tasks now a kind p i stage →
  tk_TenantID t = a_TenantID a ∧ tk_AlarmID t = a_ID a ∧ tk_PolicyID t = po_ID p ∧ tk_Stage t = i ∧
  tk_Kind t = kind ∧ tk_ChannelID t ∈ sg_ChannelIDs stage ∧ tk_Status t = StatusPending.
Proof. unfold stage_tasks. intros (c & -> & Hc)%list_elem_of_fmap. done. Qed.

(** The tasks of a first report: one for every channel of every stage of every
    matching policy. *)
Lemma elem_of_alarm_tasks now a productID policies t :
  t ∈ alarm_tasks now a KindTrigger productID policies ↔
  ∃ p i stage, p ∈ policies ∧ Matches p a productID ∧ po_Stages p !! i = Some stage ∧
    t ∈ stage_tasks now a KindTrigger p i stage.
Proof.
  unfold alarm_tasks. rewrite list_elem_of_bind. unfold policy_tasks. split.
  - intros (p & Ht & Hp). destruct (decide (¬ Matches p a productID ∨ _)) as [_|Hm]; [by apply not_elem_of_nil in Ht|].
    rewrite decide_False in Ht by done. apply list_elem_of_In, in_concat in Ht as (l & Hl & Ht).
    apply list_elem_of_In in Hl, Ht. apply elem_of_lookup_imap in Hl as (i & stage & -> & Hi).
    exists p, i, stage. split; [done|]. split; [apply dec_stable; tauto|done].
  - intros (p & i & stage & Hp & Hm & Hi & Ht). exists p. split; [|done].
    rewrite decide_False by (intros [?|[? _]]; done). rewrite decide_False by done.
    apply list_elem_of_In, in_concat. exists (stage_tasks now a KindTrigger p i stage).
    rewrite <-!list_elem_of_In. split; [|done]. apply elem_of_lookup_imap. by exists i, stage.
Qed.

(** Which tasks there are does not depend on the time. *)
Lemma stage_identity now now' a p i stage t :
  t ∈ stage_tasks now a KindTrigger p i stage →
  ∃ t', t' ∈ stage_tasks now' a KindTrigger p i stage ∧ taskIdentity t' = taskIdentity t.
Proof.
  unfold stage_tasks. intros (c & -> & Hc)%list_elem_of_fmap. eexists.
  split; [apply list_elem_of_fmap; by exists c|done].
Qed.

Lemma Matches_no_product p a productID productID' :
  po_ProductIDs p = [] → Matches p a productID ↔ Matches p a productID'.
Proof. unfold Matches. tauto. Qed.

(** The product matters only to policies that name products. *)
Lemma alarm_tasks_no_product now a kind productID productID' policies :
  ¬ Exists (λ p, po_ProductIDs p ≠ []) policies →
  alarm_tasks now a kind productID policies = alarm_tasks now a kind productID' policies.
Proof.
  intros Hno. unfold alarm_tasks. induction policies as [|p policies IH]; [done|].
  rewrite !bind_cons. rewrite IH by (intros ?; apply Hno; by right). f_equal.
  unfold policy_tasks. assert (po_ProductIDs p = []) as Hp.
  { destruct (po_ProductIDs p) eqn:E; [done|]. destruct Hno. left. by rewrite E. }
  pose proof (Matches_no_product p a productID productID' Hp) as Hm.
  destruct (decide (¬ Matches p a productID ∨ _)) as [Hd|Hd],
    (decide (¬ Matches p a productID' ∨ _)) as [Hd'|Hd']; tauto.
Qed.
End tasks.

(** ** One event *)

Section reports.
Context `{AlarmDetails, !AlarmJson, !AlarmDecode, Platform, UpperCase, MapOrder}.
Context {D : Type} `{!Directory D}.
Context (sched : store_schedule (notify_world D)) (clock : nat → Z).
Implicit Types (w : notify_world D).
Abbreviation tasks_of w := (nr_tasks (nw_store w)).
Abbreviation IO := (StoreIO (notify_world D)).

(** The policies and the products stay, and no task is added or removed. *)
Record same_config w w' : Prop := {
  sc_policies : nr_policies (nw_store w') = nr_policies (nw_store w);
  sc_tasks : subject <$> tasks_of w' = subject <$> tasks_of w;
  sc_products : ∀ tenant device, dir_DeviceProduct tenant device (nw_dir w')
                               = dir_DeviceProduct tenant device (nw_dir w) }.
#[export] Instance same_config_preorder : PreOrder same_config.
Proof.
  split; [done|]. intros w1 w2 w3 [P1 T1 D1] [P2 T2 D2]. split; [congruence..|].
  intros tenant device. by rewrite D2, D1.
Qed.
Context (Hconfig : ∀ n w, same_config w (sc_env sched n w)).
(** A call that fails does not claim that something does not exist. *)
Context (Hfail : ∀ n e, sc_fail sched n = Some e → err_is e ≠ NotFound).

Definition policies_of (tenant : string) w : list Policy := ListPolicies tenant (nw_store w).
Definition product_of (a : Alarm) w : string :=
  match dir_DeviceProduct (a_TenantID a) (a_DeviceID a) (nw_dir w) with Ok p => p | Err _ => "" end.

Lemma same_policies tenant w w' : same_config w w' → policies_of tenant w' = policies_of tenant w.
Proof. intros [Hp _ _]. unfold policies_of, ListPolicies. by rewrite Hp. Qed.
Lemma same_product a w w' : same_config w w' → product_of a w' = product_of a w.
Proof. intros [_ _ Hd]. unfold product_of. by rewrite Hd. Qed.

(** The queue after a call: as it was, or with the tasks of [a] queued. *)
Definition queued_tasks (a : Alarm) (now : Z) w w' : Prop :=
  ∃ w0, same_config w w0 ∧ w' = w0 <| nw_store := (EnqueueTasks
    (alarm_tasks now a KindTrigger (product_of a w) (policies_of (a_TenantID a) w)) (nw_store w0)).2 |>.

Lemma yields_product a w w1 n :
  same_config w w1 →
  yields (alarm_product sched a (policies_of (a_TenantID a) w)) (w1, n) (λ r s, same_config w s.1 ∧
    ∀ productID, r = Ok productID → ∀ now, alarm_tasks now a KindTrigger productID (policies_of (a_TenantID a) w)
      = alarm_tasks now a KindTrigger (product_of a w) (policies_of (a_TenantID a) w)).
Proof using Hconfig Hfail.
  intros Hw1. unfold alarm_product. set (policies := policies_of _ _).
  destruct (decide (Exists _ policies)) as [Hx|Hx].
  2:{ apply yields_ret. split; [done|]. intros ? [= <-] now. by apply alarm_tasks_no_product. }
  unfold dir_call. apply yields_bind, yields_try, yields_call.
  - intros e He. rewrite decide_False by (by eapply Hfail). apply yields_fails.
    split; [etrans; [exact Hw1|apply Hconfig]|done].
  - intros w2 _. assert (same_config w w2) as Hw2 by (etrans; [exact Hw1|apply Hconfig]). clearbody w2.
    cbn [fst snd]. rewrite (sc_products _ _ Hw2). unfold product_of.
    destruct (dir_DeviceProduct _ _ _) as [p|e]; [|case_decide].
    + apply yields_ret. split; [done|]. by intros ? [= <-].
    + apply yields_ret. split; [done|]. by intros ? [= <-].
    + apply yields_fails. split; [exact Hw2|done].
Qed.

Lemma yields_enqueue a w n :
  yields (notify_enqueue sched clock a KindTrigger) (w, n) (λ r s,
    (∃ e, r = Err e ∧ same_config w s.1) ∨ (r = Ok tt ∧ ∃ now, queued_tasks a now w s.1)).
Proof using Hconfig Hfail.
  unfold notify_enqueue, notify_read, notify_call. apply yields_bind, yields_call.
  { intros e _. left. exists e. split; [done|apply Hconfig]. }
  intros w1 _. assert (same_config w w1) as Hw1 by apply Hconfig. clearbody w1. cbn [fst snd].
  change (ListPolicies (a_TenantID a) (nw_store w1)) with (policies_of (a_TenantID a) w1).
  replace (w1 <| nw_store := nw_store w1 |>) with w1 by (by destruct w1). rewrite (same_policies _ _ _ Hw1).
  set (policies := policies_of (a_TenantID a) w).
  apply yields_bind. eapply yields_mono; [by apply (yields_product a w w1)|].
  intros [productID|e] [w2 n2] [Hw2 Hp]; cbn [fst snd] in *; [|left; by exists e].
  apply yields_bind. unfold now_millis. apply yields_bind, yields_observe, yields_ret.
  rewrite (Hp productID eq_refl). set (now := millis (clock n2)). set (tasks := alarm_tasks now _ _ _ _).
  assert (alarm_tasks now a KindTrigger (product_of a w) (policies_of (a_TenantID a) w) = tasks) as Etasks by done.
  destruct (decide (tasks = [])) as [Hnil|_].
  - apply yields_ret. right. split; [done|]. exists now, w2. split; [done|]. cbn [fst].
    rewrite Etasks, Hnil. cbn. by destruct w2.
  - apply yields_bind, yields_call.
    + intros e _. left. exists e. split; [done|]. etrans; [exact Hw2|apply Hconfig].
    + intros w3 _. assert (same_config w w3) as Hw3 by (etrans; [exact Hw2|apply Hconfig]). clearbody w3.
      destruct (EnqueueTasks tasks (nw_store w3)) as [k store] eqn:E. apply yields_ret. right.
      split; [done|]. exists now, w3. split; [done|]. cbn [fst snd].
      by rewrite Etasks, E.
Qed.

(** A report that is the first of an open alarm. *)
Definition first_report (b : Alarm) : Prop :=
  a_TriggerCount b = 1 ∧ a_Status b = "ACTIVE" ∧ a_TenantID b ≠ "".
Abbreviation handle := (HandleReported sched clock).

Lemma yields_HandleReported payload w n :
  yields (handle payload) (w, n) (λ r s,
    (same_config w s.1 ∧ (r = Ok tt → ∀ b, unmarshal_alarm payload = Ok b → ¬ first_report b)) ∨
    (r = Ok tt ∧ ∃ b now, unmarshal_alarm payload = Ok b ∧ first_report b ∧ queued_tasks b now w s.1)).
Proof using Hconfig Hfail.
  unfold HandleReported. destruct (unmarshal_alarm payload) as [b|e].
  2:{ apply yields_fails. by left. }
  destruct (decide (_ ∨ _)) as [Hskip|Hfirst].
  - apply yields_ret. left. split; [done|]. intros _ b' [= <-] (Hc & Hs & Ht).
    by destruct Hskip as [?|[?|?]].
  - eapply yields_mono; [apply yields_enqueue|]. intros r s [(e & -> & Hs)|(-> & now & Hq)].
    + left. by split.
    + right. split; [done|]. exists b, now. split; [done|]. split; [|done].
      split_and!; [apply dec_stable; tauto..|tauto].
Qed.

(** ** Any number of deliveries *)

(** The bus delivers the events one after the other and looks at the errors. *)
Fixpoint handle_all (payloads : list string) : IO (list (res unit)) :=
  match payloads with
  | [] => mret []
  | payload :: payloads =>
    r ← store_try (handle payload);
    rs ← handle_all payloads;
    mret (r :: rs)
  end.

Section base.
(** The policies and products are those of the world at the start. *)
Context (wb : notify_world D).
Definition settings w : Prop :=
  nr_policies (nw_store w) = nr_policies (nw_store wb) ∧
  ∀ tenant device, dir_DeviceProduct tenant device (nw_dir w) = dir_DeviceProduct tenant device (nw_dir wb).

(** A task of the notification of [b]. *)
Definition notice_task (b : Alarm) (t : Task) : Prop :=
  ∃ p stage, p ∈ policies_of (a_TenantID b) wb ∧ Matches p b (product_of b wb) ∧
    po_Stages p !! tk_Stage t = Some stage ∧ tk_ChannelID t ∈ sg_ChannelIDs stage ∧
    tk_TenantID t = a_TenantID b ∧ tk_AlarmID t = a_ID b ∧ tk_PolicyID t = po_ID p ∧ tk_Kind t = KindTrigger.

(** The queue holds the notifications of alarms in [from] and no task twice. *)
Record notified (from : Alarm → Prop) w : Prop := {
  no_settings : settings w;
  no_once : NoDup (identities (tasks_of w));
  no_from : ∀ t, t ∈ tasks_of w → ∃ b, from b ∧ notice_task b t }.
(** Every notification of [b] is queued. *)
Definition covered (b : Alarm) w : Prop :=
  ∀ t, notice_task b t → taskIdentity t ∈ identities (tasks_of w).

Lemma notice_task_subject b t t' : subject t' = subject t → notice_task b t → notice_task b t'.
Proof using.
  intros E. unfold notice_task.
  pose proof (f_equal tk_Stage E) as E1. pose proof (f_equal tk_ChannelID E) as E2.
  pose proof (f_equal tk_TenantID E) as E3. pose proof (f_equal tk_AlarmID E) as E4.
  pose proof (f_equal tk_PolicyID E) as E5. pose proof (f_equal tk_Kind E) as E6.
  cbn in E1, E2, E3, E4, E5, E6. by rewrite E1, E2, E3, E4, E5, E6.
Qed.

Lemma settings_config w w' : settings w → same_config w w' → settings w'.
Proof using. intros [P Q] [P' _ Q']. split; [congruence|]. intros tenant device. by rewrite Q', Q. Qed.

Lemma notified_config from w w' : notified from w → same_config w w' → notified from w'.
Proof using.
  intros [Hset Honce Hfrom] Hc. split; [by eapply settings_config|..].
  - by rewrite identities_of_subjects, (sc_tasks _ _ Hc), <-identities_of_subjects.
  - intros t' Ht'. assert (subject t' ∈ subject <$> tasks_of w) as Hs.
    { rewrite <-(sc_tasks _ _ Hc). by apply list_elem_of_fmap_2. }
    apply list_elem_of_fmap in Hs as (t & E & Ht). destruct (Hfrom _ Ht) as (b & Hb & Hn).
    exists b. split; [done|]. by eapply notice_task_subject.
Qed.
Lemma covered_config b w w' : covered b w → same_config w w' → covered b w'.
Proof using.
  intros Hb Hc t Ht. rewrite identities_of_subjects, (sc_tasks _ _ Hc), <-identities_of_subjects. by apply Hb.
Qed.

(** The tasks that a first report queues are its notifications. *)
Lemma settings_tasks b w :
  settings w → product_of b w = product_of b wb ∧ policies_of (a_TenantID b) w = policies_of (a_TenantID b) wb.
Proof using.
  intros [P Q]. unfold product_of, policies_of, ListPolicies. by rewrite P, Q.
Qed.

Lemma queued_notified (from : Alarm → Prop) b now w w' :
  notified from w → from b → queued_tasks b now w w' →
  notified from w' ∧ covered b w' ∧ ∀ b', covered b' w → covered b' w'.
Proof using.
  intros Hn Hb (w0 & Hc & ->). destruct (settings_tasks b w (no_settings _ _ Hn)) as [-> ->].
  assert (∀ b', covered b' w → covered b' w0) as Hkeep by (intros b' Hb'; by eapply covered_config).
  pose proof (notified_config _ _ _ Hn Hc) as [Hset Honce Hfrom].
  set (tasks := alarm_tasks now b _ _ _).
  destruct (EnqueueTasks_adds tasks (nw_store w0)) as (new & [O1 O2 O3 O4] & _ & Et & Ep).
  set (w' := set nw_store _ w0). change (tasks_of w' = tasks_of w0 ++ new) in Et.
  split; [split|split].
  - destruct Hset as [P Q]. split; [cbn; congruence|exact Q].
  - rewrite Et, fmap_app. apply NoDup_app. split_and!; [done| |done].
    intros i Hi (t & -> & Ht)%list_elem_of_fmap. by apply (O2 _ Ht).
  - rewrite Et. intros t [Ht|Ht]%elem_of_app; [by apply Hfrom|].
    destruct (O4 _ Ht) as (t0 & Ht0 & ->). exists b. split; [done|].
    apply elem_of_alarm_tasks in Ht0 as (p & i & stage & Hp & Hm & Hi & Hst).
    apply elem_of_stage_tasks in Hst as (E1 & E2 & E3 & E4 & E5 & E6 & _).
    exists p, stage. cbn. by rewrite E4.
  - intros t (p & stage & Hp & Hm & Hi & Hch & E1 & E2 & E3 & E4). rewrite Et.
    set (t0 := mk_Task 0 (a_TenantID b) (a_ID b) (po_ID p) (po_Name p) (tk_Stage t) KindTrigger (tk_ChannelID t)
                 StatusPending 0 (wrap64 (now + wrap64 (sg_DelaySeconds stage * 1000))) "" [] now 0).
    assert (taskIdentity t = taskIdentity t0) as -> by (unfold taskIdentity; by rewrite E1, E2, E3, E4).
    apply O3. apply elem_of_alarm_tasks. exists p, (tk_Stage t), stage. split_and!; [done..|].
    unfold stage_tasks. rewrite decide_True by done. apply list_elem_of_fmap. by exists (tk_ChannelID t).
  - intros b' Hb' t Ht. rewrite Et, fmap_app. apply elem_of_app. left.
    exact (Hkeep b' Hb' t Ht).
Qed.

Lemma yields_handle_all (from : Alarm → Prop) payloads : ∀ w n,
  notified from w →
  (∀ payload b, payload ∈ payloads → unmarshal_alarm payload = Ok b → first_report b → from b) →
  yields (handle_all payloads) (w, n) (λ r s, ∃ rs, r = Ok rs ∧ notified from s.1 ∧
    (∀ b, covered b w → covered b s.1) ∧
    ∀ i payload b, payloads !! i = Some payload → rs !! i = Some (Ok tt) →
      unmarshal_alarm payload = Ok b → first_report b → covered b s.1).
Proof using Hconfig Hfail.
  induction payloads as [|payload payloads IH]; intros w n Hn Hfrom; cbn [handle_all].
  { apply yields_ret. by exists []. }
  apply yields_bind, yields_try. eapply yields_mono; [apply yields_HandleReported|].
  intros r [w1 n1] Hr. cbn [fst] in Hr.
  assert (notified from w1 ∧ (∀ b, covered b w → covered b w1) ∧
    (r = Ok tt → ∀ b, unmarshal_alarm payload = Ok b → first_report b → covered b w1)) as (Hn1 & Hkeep1 & Hok1).
  { destruct Hr as [[Hc Hno]|(-> & b & now & Eb & Hfb & Hq)].
    - split; [by eapply notified_config|]. split; [intros b Hb; by eapply covered_config|].
      intros -> b Eb Hfb. by destruct (Hno eq_refl b Eb).
    - destruct (queued_notified from b now w w1 Hn) as (? & ? & ?);
        [eapply Hfrom; [left|done..]|done|]. split; [done|]. split; [done|].
      intros _ b' Eb' _. rewrite Eb in Eb'. by injection Eb' as <-. }
  apply yields_bind. eapply yields_mono; [apply (IH w1 n1 Hn1)|].
  { intros p b Hp. apply Hfrom. by right. }
  intros r2 s (rs & -> & Hn2 & Hkeep2 & Hok2). apply yields_ret. exists (r :: rs).
  split_and!; [done|done|auto|]. intros [|i] p b; cbn.
  - intros [= <-] [= ->] Eb Hfb. by apply Hkeep2, Hok1.
  - apply Hok2.
Qed.

Lemma reads_notice a b t : reads_as a b → notice_task b t ↔ notice_task a t.
Proof using.
  intros [E1 E2 E3 E4 E5 _ _]. unfold notice_task, product_of, Matches. by rewrite E1, E2, E3, E4, E5.
Qed.
End base.

(** The first reports among the events are those the alarms were raised with. *)
Lemma first_report_raised `{!AlarmJsonLaws} (log : list OutboxEvent) bs r payload b' :
  oe_Payload <$> log = marshal_alarm <$> bs → Forall encodable bs → notices_ok bs r → payload ∈ oe_Payload <$> log →
  unmarshal_alarm payload = Ok b' → first_report b' →
  ∃ k a b, ar_alarms r !! k = Some a ∧ as_raised a b ∧ reads_as b b'.
Proof using.
  intros Ebs Henc [Hf Ha Ho] Hin Eb' (Hc & _ & _). rewrite Ebs in Hin. rewrite Forall_forall in Henc.
  apply list_elem_of_fmap in Hin as (b & -> & Hb).
  destruct (alarm_read_back b (Henc _ Hb)) as (b2 & Eb2 & Hr). rewrite Eb' in Eb2. injection Eb2 as <-.
  destruct (Ha _ Hb) as (k & a & Hk & Hs). destruct (Hf _ _ Hk) as (b1 & Hb1 & Hraised).
  apply list_elem_of_lookup in Hb as [i Hi], Hb1 as [j Hj].
  assert (i = j) as <-.
  { eapply Ho; [done..| | |].
    - destruct Hs as [-> _], Hraised as [[-> _] _]. done.
    - by rewrite <-(ra_count _ _ Hr).
    - apply Hraised. }
  exists k, a, b. split; [done|]. assert (b1 = b) as -> by congruence. done.
Qed.

(** C4: every alarm is notified once.  The events that a history of the alarm
    store has published or queued, all of them encoded, are delivered to [HandleReported] in any
    order and any number of times, from an empty queue, with failures that do
    not claim that something is missing, while the policies and the products of
    the devices stay and other processes neither queue nor remove tasks.  (A
    failed lookup that answers "not found", as the one of the HTTP server does,
    loses notifications: [NotifyWitness.failing_lookup_loses].)  Then no
    notification is queued twice, each is for an alarm as it was raised, through
    a channel of a stage of a policy of its tenant that covers it; and once the
    first report of an alarm with a tenant was handled without an error, all its
    notifications are queued. *)
Theorem alarms_notified_once `{!MapOrderLaws, !AlarmJsonLaws} evs r sent payloads w n :
  alarm_run evs r sent → (∀ b, marshal_alarm b ∈ oe_Payload <$> (sent ++ ar_outbox r) → encodable b) →
  (∀ p, p ∈ payloads → p ∈ oe_Payload <$> (sent ++ ar_outbox r)) →
  tasks_of w = [] →
  let '(out, (w', _)) := handle_all payloads (w, n) in
  ∃ rs, out = Ok rs ∧ NoDup (identities (tasks_of w')) ∧
    (∀ t, t ∈ tasks_of w' → ∃ k a b, ar_alarms r !! k = Some a ∧ as_raised a b ∧ notice_task w b t) ∧
    ∀ k a, ar_alarms r !! k = Some a → a_TenantID a ≠ "" →
      ∃ b, as_raised a b ∧ marshal_alarm b ∈ oe_Payload <$> (sent ++ ar_outbox r) ∧
        ∀ i t, payloads !! i = Some (marshal_alarm b) → rs !! i = Some (Ok tt) → notice_task w b t →
          ∃ t', t' ∈ tasks_of w' ∧ taskIdentity t' = taskIdentity t.
Proof using Hconfig Hfail.
  intros Hrun Hcode Hps Hnil.
  destruct (ho_notices _ _ _ (alarm_run_ok _ _ _ Hrun)) as (bs & Ebs & Hbs).
  assert (Forall encodable bs) as Henc.
  { apply Forall_forall. intros b Hb. apply Hcode. rewrite Ebs. by apply list_elem_of_fmap_2. }
  set (from := λ b', ∃ k a b, ar_alarms r !! k = Some a ∧ as_raised a b ∧ reads_as b b').
  pose proof (yields_handle_all w from payloads w n) as Hall.
  unfold yields in Hall. destruct (handle_all payloads (w, n)) as [out [w' n']]. cbn [fst snd] in Hall.
  destruct Hall as (rs & -> & [_ Honce Hfrom] & _ & Hok).
  { split; [by split|by rewrite Hnil; apply NoDup_nil_2|]. rewrite Hnil. by intros ? ?%not_elem_of_nil. }
  { intros p b Hp Eb Hfb. eapply first_report_raised; eauto. }
  exists rs. split; [done|]. split; [done|]. split.
  - intros t Ht. destruct (Hfrom _ Ht) as (b' & (k & a & b & Hk & Hr & Hread) & Hn).
    exists k, a, b. split; [done|]. split; [done|]. by apply (reads_notice w b b').
  - intros k a Hk Htenant. destruct (nt_first _ _ Hbs _ _ Hk) as (b & Hb & Hr). exists b. split; [done|].
    split; [rewrite Ebs; by apply list_elem_of_fmap_2|]. intros i t Hi Hrs Hn.
    destruct (alarm_read_back b) as (b' & Eb' & Hread); [by eapply Forall_forall|].
    pose proof Hr as ((_ & Et & _) & _ & Est & Ecount).
    assert (first_report b') as Hfb.
    { split_and!; [by rewrite (ra_count _ _ Hread)|by rewrite (ra_status _ _ Hread)|].
      by rewrite (ra_tenant _ _ Hread), Et. }
    pose proof (Hok i _ b' Hi Hrs Eb' Hfb t (proj2 (reads_notice w b b' t Hread) Hn)) as Hin.
    apply list_elem_of_fmap in Hin as (t' & E & Ht'). by exists t'.
Qed.
End reports.
