(* ===== verification/NotifyValidate.v ===== *)
(** What administrators may save: the checks of channels and policies
    (internal/notify/validate.go), and who is on duty for a notification
    (OnDutyContacts of internal/httpapi/notifications.go). *)
From S2P Require Import Prelude GoText GoTime Keyed AlarmModel AlarmStore NotifyModel.
From S2P Require Import NotifyService FireModel.

(** ** Patterns

    The regular expressions, over the runes of the text. *)
Definition id_rune (r : Z) : bool :=
  in_range 65 90 r || in_range 97 122 r || in_range 48 57 r || (r =? 95) || (r =? 46) || (r =? 45).
(** [^[A-Za-z0-9_.-]{1,64}$] *)
Definition idPattern (s : string) : bool :=
  let r := runes s in forallb id_rune r && (1 <=? length r)%nat && (length r <=? 64)%nat.

(** [[^@\s]] *)
Definition mail_rune (r : Z) : bool :=
  negb (r =? 64) && negb (in_range 9 10 r || in_range 12 13 r || (r =? 32)).
(** [^[^@\s]{1,64}@[^@\s]{1,190}\.[^@\s]{2,}$]: the text has one at sign, and a
    dot of the domain ends the middle part. *)
Definition emailPattern (s : string) : bool :=
  match list_find (λ r, r = 64) (runes s) with
  | None => false
  | Some (n, _) =>
    let name := take n (runes s) in
    let domain := drop (S n) (runes s) in
    forallb mail_rune name && (1 <=? n)%nat && (n <=? 64)%nat && forallb mail_rune domain
    && existsb (λ i, bool_decide (domain !! i = Some 46) && (i <=? 190)%nat
                     && (i + 3 <=? length domain)%nat) (seq 1 (length domain))
  end.

(** [^\+?[0-9][0-9-]{5,19}$] *)
Definition mobilePattern (s : string) : bool :=
  let r := match runes s with 43 :: r => r | r => r end in
  match r with
  | [] => false
  | d :: rest =>
    in_range 48 57 d && forallb (λ r, in_range 48 57 r || (r =? 45)) rest
    && (5 <=? length rest)%nat && (length rest <=? 19)%nat
  end.

Definition maxStages : nat := 8.
Definition maxStageDelay : Z := 24 * 60 * 60.
Definition maxListItems : nat := 100.

Definition ValidChannelType (kind : string) : Prop :=
  kind = ChannelSMTP ∨ kind = ChannelWeCom ∨ kind = ChannelDingTalk ∨ kind = ChannelFeishu ∨ kind = ChannelWebhook.
#[export] Instance ValidChannelType_dec kind : Decision (ValidChannelType kind).
Proof. unfold ValidChannelType. apply _. Defined.

Definition refused (text : string) : error := mk_error Other text.

(** ** Policies *)

(** One stage, the [i]-th, after a stage with the delay [previous]. *)
Definition check_stage (channels : gset string) (i : nat) (previous : Z) (stage : Stage) : res unit :=
  _ ← fail_when (i = 0%nat ∧ sg_DelaySeconds stage ≠ 0) (refused "第 1 级通知须立即发送");
  _ ← fail_when (sg_DelaySeconds stage <= previous ∨ sg_DelaySeconds stage > maxStageDelay)
        (refused "升级等待时间须逐级递增且不超过 24 小时");
  _ ← fail_when (sg_ChannelIDs stage = []) (refused "每级通知至少选择一个通知渠道");
  _ ← for_each (λ id, fail_when (id ∉ channels) (refused "通知渠道不存在")) (sg_ChannelIDs stage);
  _ ← fail_when (maxListItems < length (sg_Users stage) + length (sg_Roles stage) + length (sg_Emails stage)
                   + length (sg_Mobiles stage) + length (sg_StationIDs stage))%nat
        (refused "接收人过多");
  _ ← for_each (λ v, fail_when (emailPattern v = false) (refused ("邮箱格式无效：" +:+ v))) (sg_Emails stage);
  for_each (λ v, fail_when (mobilePattern v = false) (refused ("手机号格式无效：" +:+ v))) (sg_Mobiles stage).
Fixpoint check_stages (channels : gset string) (i : nat) (previous : Z) (stages : list Stage) : res unit :=
  match stages with
  | [] => Ok tt
  | stage :: stages =>
    _ ← check_stage channels i previous stage;
    check_stages channels (S i) (sg_DelaySeconds stage) stages
  end.
(** [channels] are the identities of the tenant's channels. *)
Definition ValidatePolicy (p : Policy) (channels : gset string) : res unit :=
  _ ← fail_when (idPattern (po_ID p) = false) (refused "策略标识须为 1 至 64 位字母、数字、点、横线或下划线");
  _ ← fail_when (trim_space (po_Name p) = "" ∨ rune_count (trim_space (po_Name p)) > 64)
        (refused "请填写不超过 64 个字的策略名称");
  _ ← fail_when (po_Stages p = [] ∨ (maxStages < length (po_Stages p))%nat) (refused "通知策略须包含 1 至 8 级通知");
  _ ← fail_when ((maxListItems < length (po_Levels p))%nat ∨ (maxListItems < length (po_AlarmTypes p))%nat
                   ∨ (maxListItems < length (po_ProductIDs p))%nat) (refused "筛选条件过多");
  check_stages channels 0 (-1) (po_Stages p).

(** ** Channels *)

Definition ValidateChannel (c : Channel) : res unit :=
  _ ← fail_when (idPattern (ch_ID c) = false) (refused "渠道标识须为 1 至 64 位字母、数字、点、横线或下划线");
  _ ← fail_when (trim_space (ch_Name c) = "" ∨ rune_count (trim_space (ch_Name c)) > 64)
        (refused "请填写不超过 64 个字的渠道名称");
  _ ← fail_when (¬ ValidChannelType (ch_Type c)) (refused "不支持的通知渠道类型");
  fail_when (ch_Type c = ChannelSMTP ∧ emailPattern (cc_From (ch_Config c)) = false)
    (refused "发件人邮箱格式无效").

(** The policies that use a channel, by name. *)
Definition ReferencedBy (policies : list Policy) (channelID : string) : list string :=
  po_Name <$> filter (λ p, Exists (λ stage, channelID ∈ sg_ChannelIDs stage) (po_Stages p)) policies.

(** ** On duty *)

Definition OnDutyContacts (state : FireSafetyState) (at_ : Z) (stations : list string) : list Contact :=
  let now := millis at_ in
  let onDuty := filter (λ a, as_StartAt a <= now < as_EndAt a ∧ (stations = [] ∨ as_StationID a ∈ stations))
                  (Assignments state) ≫= as_PersonnelIDs in
  (λ p, mk_Contact (pe_Name p) "" (pe_Phone p)) <$>
    filter (λ p, pe_Enabled p = true ∧ key p ∈ onDuty) (Personnel state).

(** ** The schedule of a saved policy *)

Record stage_ok (channels : gset string) (stage : Stage) : Prop := {
  st_some : sg_ChannelIDs stage ≠ [];
  st_channels : ∀ id, id ∈ sg_ChannelIDs stage → id ∈ channels;
  st_emails : ∀ v, v ∈ sg_Emails stage → emailPattern v = true;
  st_mobiles : ∀ v, v ∈ sg_Mobiles stage → mobilePattern v = true;
  st_recipients : (length (sg_Users stage) + length (sg_Roles stage) + length (sg_Emails stage)
                   + length (sg_Mobiles stage) + length (sg_StationIDs stage) ≤ maxListItems)%nat }.

Lemma check_stage_ok channels i previous stage :
  check_stage channels i previous stage = Ok tt →
  stage_ok channels stage ∧ (i = 0%nat → sg_DelaySeconds stage = 0) ∧
  previous < sg_DelaySeconds stage <= maxStageDelay.
Proof.
  unfold check_stage. intros Hs.
  apply res_bind_ok in Hs as ([] & Hfirst%fail_when_ok & Hs).
  apply res_bind_ok in Hs as ([] & Hdelay%fail_when_ok & Hs).
  apply res_bind_ok in Hs as ([] & Hsome%fail_when_ok & Hs).
  apply res_bind_ok in Hs as ([] & Hch%for_each_fail & Hs).
  apply res_bind_ok in Hs as ([] & Hcap%fail_when_ok & Hs).
  apply res_bind_ok in Hs as ([] & Hmail%for_each_fail & Hmob%for_each_fail).
  rewrite Forall_forall in Hch, Hmail, Hmob. split; [split|split].
  - done.
  - intros id Hid. apply dec_stable. by apply Hch.
  - intros v Hv. apply not_false_is_true. by apply Hmail.
  - intros v Hv. apply not_false_is_true. by apply Hmob.
  - lia.
  - intros ->. apply dec_stable. intros ?. by apply Hfirst.
  - apply Decidable.not_or in Hdelay. lia.
Qed.

Lemma check_stages_ok channels stages : ∀ i previous,
  check_stages channels i previous stages = Ok tt →
  ∀ j stage, stages !! j = Some stage →
    stage_ok channels stage ∧ ((i + j)%nat = 0%nat → sg_DelaySeconds stage = 0) ∧
    previous < sg_DelaySeconds stage <= maxStageDelay ∧
    ∀ j' stage', (j < j')%nat → stages !! j' = Some stage' → sg_DelaySeconds stage < sg_DelaySeconds stage'.
Proof.
  induction stages as [|stage stages IH]; intros i previous Hs j x Hx; [done|].
  cbn [check_stages] in Hs. apply res_bind_ok in Hs as ([] & (Hok & Hz & Hd)%check_stage_ok & Hs).
  destruct j as [|j]; cbn in Hx.
  - injection Hx as <-. split; [done|]. split; [intros ?; apply Hz; lia|]. split; [done|].
    intros [|j'] x' Hlt Hx'; [lia|]. cbn in Hx'. destruct (IH _ _ Hs j' x' Hx') as (_ & _ & ? & _). lia.
  - destruct (IH _ _ Hs j x Hx) as (Hok' & _ & Hd' & Hlt). split; [done|]. split; [lia|]. split; [lia|].
    intros [|j'] x' Hj Hx'; [lia|]. cbn in Hx'. by apply (Hlt j' x'); [lia|].
Qed.

Lemma ValidatePolicy_stages p channels :
  ValidatePolicy p channels = Ok tt →
  (1 ≤ length (po_Stages p) ≤ maxStages)%nat ∧ check_stages channels 0 (-1) (po_Stages p) = Ok tt.
Proof.
  unfold ValidatePolicy. intros Hs.
  apply res_bind_ok in Hs as ([] & _ & Hs). apply res_bind_ok in Hs as ([] & _ & Hs).
  apply res_bind_ok in Hs as ([] & Hlen%fail_when_ok & Hs). apply res_bind_ok in Hs as ([] & _ & Hs).
  split; [|done]. apply Decidable.not_or in Hlen as [Hne Hlen].
  destruct (po_Stages p); [done|]. cbn [length] in *. lia.
Qed.

Section schedule.
Context `{AlarmDetails}.

(** The tasks of a stage: one per channel, due at its delay. *)
Lemma stage_tasks_due now (a : Alarm) p i stage t :
  0 <= now < 4611686018427387904 → -1 < sg_DelaySeconds stage <= maxStageDelay →
  t ∈ stage_tasks now a KindTrigger p i stage → tk_NextAt t = now + sg_DelaySeconds stage * 1000.
Proof.
  unfold maxStageDelay. intros Hnow Hd (c & -> & _)%list_elem_of_fmap. cbn [tk_NextAt].
  rewrite decide_True by done. rewrite !wrap64_small; unfold in_int64, two63; try lia.
  rewrite wrap64_small; unfold in_int64, two63; lia.
Qed.

(** C19: the escalation of a policy that passes its checks.  It has one to
    eight stages.  Every stage has channels, all of them the tenant's, at most
    a hundred recipients and only mail addresses and numbers of the required
    form; an alarm is notified once per stage and channel.  The notifications
    of the first stage are due at once, those of each later stage strictly
    after those of the stages before, and none later than a day: for clocks
    before 2^62 milliseconds the times do not wrap around. *)
Theorem escalation_schedule p channels now (a : Alarm) :
  ValidatePolicy p channels = Ok tt → 0 <= now < 4611686018427387904 →
  (1 ≤ length (po_Stages p) ≤ 8)%nat ∧
  ∀ i si, po_Stages p !! i = Some si →
    stage_ok channels si ∧ tk_ChannelID <$> stage_tasks now a KindTrigger p i si = sg_ChannelIDs si ∧
    ∀ ti, ti ∈ stage_tasks now a KindTrigger p i si →
      now <= tk_NextAt ti <= now + 86400000 ∧ (i = 0%nat → tk_NextAt ti = now) ∧
      ∀ j sj tj, (i < j)%nat → po_Stages p !! j = Some sj → tj ∈ stage_tasks now a KindTrigger p j sj →
        tk_NextAt ti < tk_NextAt tj.
Proof.
  intros [Hlen Hs]%ValidatePolicy_stages Hnow. split; [exact Hlen|]. intros i si Hi.
  destruct (check_stages_ok _ _ _ _ Hs i si Hi) as (Hok & Hz & Hd & Hlt). cbn [Nat.add] in Hz.
  split; [done|]. split; [unfold stage_tasks; rewrite <-list_fmap_compose; apply list_fmap_id|].
  intros ti Hti. rewrite (stage_tasks_due _ _ _ _ _ _ Hnow Hd Hti).
  unfold maxStageDelay in *. split; [lia|]. split; [intros E; rewrite (Hz E); lia|].
  intros j sj tj Hij Hj Htj. destruct (check_stages_ok _ _ _ _ Hs j sj Hj) as (_ & _ & Hdj & _).
  rewrite (stage_tasks_due _ _ _ _ _ _ Hnow Hdj Htj). specialize (Hlt j sj Hij Hj). lia.
Qed.
End schedule.

(** Who is on duty: enabled people of an assignment at the instant. *)
Lemma elem_of_on_duty state at_ stations c :
  c ∈ OnDutyContacts state at_ stations ↔
  ∃ p a, p ∈ Personnel state ∧ a ∈ Assignments state ∧ c = mk_Contact (pe_Name p) "" (pe_Phone p) ∧
    pe_Enabled p = true ∧ key p ∈ as_PersonnelIDs a ∧ as_StartAt a <= millis at_ < as_EndAt a ∧
    (stations = [] ∨ as_StationID a ∈ stations).
Proof.
  unfold OnDutyContacts. rewrite list_elem_of_fmap. split.
  - intros (p & -> & Hp). apply list_elem_of_filter in Hp as [[He Hd] Hp].
    apply list_elem_of_bind in Hd as (a & Hid & Ha). apply list_elem_of_filter in Ha as [[Ht Hst] Ha].
    by exists p, a.
  - intros (p & a & Hp & Ha & -> & He & Hid & Ht & Hst). exists p. split; [done|].
    apply list_elem_of_filter. split; [|done]. split; [done|]. apply list_elem_of_bind. exists a.
    split; [done|]. by apply list_elem_of_filter.
Qed.
