(* ===== verification/NotifyWitness.v ===== *)
(** The theorems about notifications applied to a concrete alarm history, a
    concrete queue and a worker. *)
From S2P Require Import Prelude GoText GoJson Scenario SitesModel StoreIO AlarmModel AlarmStore.
From S2P Require Import AlarmEngine AlarmRuns AlarmHistory AlarmTheorems AlarmWitness NotifyModel.
From S2P Require Import NotifyService NotifyQueue NotifyTimely NotifyDelivery NotifyRounds.
From S2P Require Import NotifyTheorems NotifyReports NotifyValidate.
From Stdlib Require Import Ascii.

#[local] Existing Instance ascii_platform.
#[local] Existing Instance ascii_upper.
#[local] Existing Instance held_details.
#[local] Existing Instance alarm_order.
#[local] Existing Instance alarm_order_laws.

(** ** An encoding of alarms *)

#[local] Instance framed_json : AlarmJson := λ a,
  frame (a_ID a) (frame (a_TenantID a) (frame (a_DeviceID a) (frame (a_AlarmType a)
    (frame (a_AlarmLevel a) (frame (a_Status a) (int_bits (a_TriggerCount a))))))).
#[local] Instance framed_decode : AlarmDecode := λ s,
  let '(i, s) := unframe s in let '(tenant, s) := unframe s in
  let '(device, s) := unframe s in let '(kind, s) := unframe s in
  let '(level, s) := unframe s in let '(status, s) := unframe s in
  Ok (zero_Alarm <| a_ID := i |> <| a_TenantID := tenant |> <| a_DeviceID := device |>
    <| a_AlarmType := kind |> <| a_AlarmLevel := level |> <| a_Status := status |>
    <| a_TriggerCount := bits_int s |>).
Lemma framed_read_back a : ∃ b, framed_decode (framed_json a) = Ok b ∧ reads_as a b.
Proof.
  eexists. split.
  - unfold framed_decode, framed_json. rewrite !unframe_frame. reflexivity.
  - split; try reflexivity. apply bits_int_bits.
Qed.
#[local] Instance framed_laws : AlarmJsonLaws.
Proof. intros a _. apply framed_read_back. Qed.

(** The texts of a payload can be checked on what is read back. *)
Definition readable (payload : string) : bool :=
  match framed_decode payload with Ok b => bool_decide (utf8_texts b) | Err _ => false end.
Lemma readable_encodable b : readable (marshal_alarm b) = true → encodable b.
Proof.
  unfold readable. destruct (framed_read_back b) as (b' & E & [E1 E2 E3 E4 E5 E6 _]).
  change (marshal_alarm b) with (framed_json b). rewrite E. intros Hb%bool_decide_eq_true. split.
  - change (marshal_alarm b) with (framed_json b). unfold framed_json. by destruct (a_ID b).
  - unfold utf8_texts in *. by rewrite E1, E2, E3, E4, E5, E6 in Hb.
Qed.

(** ** A tenant with two policies *)

#[local] Instance alarm_directory : Directory alarm_repo := {|
  dir_Alarm tenant i r :=
    match ar_alarms r !! store_key [tenant; i] with Some a => Ok a | None => Err alarm_not_found end;
  dir_DeviceProduct _ device _ := if decide (device = "d") then Ok "panel" else Err alarm_not_found;
  dir_UserContacts _ _ _ _ _ := Ok [mk_Contact "Ann" "ann@example.com" "13800000000"];
  dir_OnDutyContacts _ _ _ _ := Ok [mk_Contact "Bob" "" "13900000000"] |}.
#[local] Instance open_box : SecretBox := λ _ _ sealed, Ok (mk_ChannelSecret sealed "" "").

Definition mail_channel : Channel :=
  mk_Channel "mail" "t" "mail" ChannelSMTP true (mk_ChannelConfig "" "h" 25 "" "" "a@b.cd") true 1 0.
Definition hook_channel : Channel :=
  mk_Channel "hook" "t" "hook" ChannelWebhook true (mk_ChannelConfig "" "" 0 "" "" "") true 1 0.
Definition at_once (channels : list string) : Stage := mk_Stage 0 channels ["ann"] [] false [] [] [].
Definition after_minutes (n : Z) (channels : list string) : Stage :=
  mk_Stage (60 * n) channels [] [] true [] ["duty@example.com"] [].
Definition fires : Policy :=
  mk_Policy "fires" "t" "fires" true ["high"] ["FIRE"] [] true [at_once ["mail"; "hook"]; after_minutes 5 ["mail"]]
    1 0.
Definition panels : Policy :=
  mk_Policy "panels" "t" "panels" true [] [] ["panel"] false [at_once ["hook"]] 1 0.
Definition configured : notify_repo := mk_notify_repo
  {[store_key ["t"; "mail"] := mail_channel; store_key ["t"; "hook"] := hook_channel]} ∅
  {[store_key ["t"; "fires"] := fires; store_key ["t"; "panels"] := panels]} [] ∅ 0.

(** ** From the history of the alarm store to the queue *)

Definition alarms1 : alarm_repo := (exec_events first_events (empty_alarm_repo, [])).1.
Definition sent1 : list OutboxEvent := (exec_events first_events (empty_alarm_repo, [])).2.
Definition payloads1 : list string := oe_Payload <$> (sent1 ++ ar_outbox alarms1).
Lemma alarms1_run : alarm_run first_events alarms1 sent1.
Proof. refine (run_of first_events _ _); vm_compute; reflexivity. Qed.

(** The events arrive in another order and more than once; the third call
    fails, and before the sixth a worker takes all tasks. *)
Definition shuffled_payloads : list string :=
  reverse payloads1 ++ payloads1 ++ (payloads1 ≫= λ p, [p; p]).
Definition hook_fails : store_schedule (notify_world alarm_repo) := {|
  sc_env n w :=
    if decide (n = 5%nat)
    then w <| nw_store ::= (λ r, r <| nr_tasks ::= fmap (λ t, t <| tk_Status := StatusSending |>) |>) |> else w;
  sc_fail n := if decide (n = 2%nat) then Some (mk_error Other "timeout") else None |}.
Definition world1 : notify_world alarm_repo := mk_notify_world configured alarms1 [].
Definition seconds (n : nat) : Z := Z.of_nat n * second.

Lemma hook_fails_config n w : same_config w (sc_env hook_fails n w).
Proof.
  unfold hook_fails. cbn [sc_env]. case_decide; [|done]. destruct w as [[] ? ?].
  split; [done| |done]. cbn. rewrite <-list_fmap_compose. by apply list_fmap_ext.
Qed.
Lemma hook_fails_reason n e : sc_fail hook_fails n = Some e → err_is e ≠ NotFound.
Proof. cbn. case_decide; [|done]. by intros [= <-]. Qed.
Lemma payloads1_readable b : marshal_alarm b ∈ payloads1 → encodable b.
Proof.
  intros Hb. apply readable_encodable.
  assert (forallb readable payloads1 = true) as Hall by (vm_compute; reflexivity).
  rewrite forallb_forall in Hall. apply Hall. by apply list_elem_of_In.
Qed.
Lemma shuffled_in p : p ∈ shuffled_payloads → p ∈ payloads1.
Proof.
  unfold shuffled_payloads. rewrite !elem_of_app, elem_of_reverse, list_elem_of_bind.
  intros [Hp|[Hp|(q & Hp & Hq)]]; [exact Hp..|]. rewrite !elem_of_cons, elem_of_nil in Hp.
  destruct Hp as [->|[->|[]]]; exact Hq.
Qed.

(** The first event fails; the alarms raised by a rule are for the panels, the
    fire for both policies. *)
Definition handled1 := handle_all hook_fails seconds shuffled_payloads (world1, 0%nat).
Definition queued1 : list Task := nr_tasks (nw_store handled1.2.1).
Definition succeeded (r : res (list (res unit))) : list bool :=
  match r with Ok rs => (λ x : res unit, match x with Ok _ => true | Err _ => false end) <$> rs | Err _ => [] end.
Lemma alarms_notified_once_witness :
  (succeeded handled1.1 = false :: replicate 15 true ∧
   (λ t, (tk_AlarmID t, tk_Stage t, tk_ChannelID t)) <$> queued1 =
     [("a2", 0%nat, "hook"); ("a1", 0%nat, "mail"); ("a1", 0%nat, "hook"); ("a1", 1%nat, "mail");
      ("a1", 0%nat, "hook"); ("x1", 0%nat, "hook")]) ∧
  NoDup (identities queued1) ∧
  ∀ t, t ∈ queued1 → ∃ k a b, ar_alarms alarms1 !! k = Some a ∧ as_raised a b ∧ notice_task world1 b t.
Proof.
  split; [vm_compute; split; reflexivity|].
  pose proof (alarms_notified_once hook_fails seconds hook_fails_config hook_fails_reason first_events alarms1
    sent1 shuffled_payloads world1 0 alarms1_run payloads1_readable shuffled_in eq_refl) as Hall.
  unfold queued1, handled1. destruct (handle_all _ _ _ _) as [out [w' n']].
  destruct Hall as (rs & _ & Honce & Hfrom & _). split; [exact Honce|exact Hfrom].
Defined.

(** ** A queue and two workers *)

Definition notice (i channel : string) : Task :=
  mk_Task 0 "t" i "fires" "fires" 0 KindTrigger channel StatusPending 0 0 "" [] 0 0.
Definition q_enqueue (tasks : list Task) (s : queue_run) : queue_run :=
  mk_queue_run (EnqueueTasks tasks (qr_repo s)).2 (qr_held s) (qr_finished s) (qr_now s).
Definition q_claim (now : Z) (s : queue_run) : queue_run :=
  let '(out, r) := ClaimDueTasks now 60000 20 (qr_repo s) in
  mk_queue_run r (qr_held s ++ ((λ t, (t, now + 60000)) <$> out)) (qr_finished s) now.
(** The first copy held is finished. *)
Definition q_finish (now : Z) (status : string) (s : queue_run) : queue_run :=
  match qr_held s with
  | [] => s
  | (c, _) :: held =>
    let t := c <| tk_Status := status |> in
    mk_queue_run (FinishTask t (qr_repo s)).2 held (qr_finished s ++ [t]) now
  end.

Lemma claim_runs now s :
  qr_now s <= now → 0 <= now <= 1000000 → queue_step true s (q_claim now s).
Proof.
  intros Hnow Hsmall. unfold q_claim. destruct (ClaimDueTasks _ _ _ _) as [out r] eqn:E.
  eapply qs_claim; [lia|lia|unfold in_int64, two63; lia|exact E].
Qed.
Lemma finish_runs now status c until held s :
  qr_held s = (c, until) :: held → qr_now s <= now → now < until →
  final_status status ∨ status = StatusPending → queue_step true s (q_finish now status s).
Proof.
  intros E Hnow Hlt Hst. unfold q_finish. rewrite E.
  apply (qs_finish true now c until [] held _ s); [exact E|by split|lia|intros _; lia].
Qed.

(** Both tasks are claimed, the second one is handed back and claimed again. *)
Definition q0 : queue_run :=
  q_enqueue [notice "a1" "mail"; notice "a1" "hook"; notice "a1" "mail"] empty_run.
Definition q1 : queue_run := q_claim 0 q0.
Definition q2 : queue_run := q_finish 20 StatusPending (q_finish 10 StatusSent q1).
Definition q3 : queue_run := q_finish 40 StatusFailed (q_claim 30 q2).
Lemma q1_run : rtc (queue_step true) empty_run q1.
Proof.
  apply (rtc_l _ _ q0); [|apply rtc_once, claim_runs; [by vm_compute|lia]].
  apply qs_enqueue; [repeat constructor|cbn; unfold two63; lia].
Qed.
Lemma q2_run : rtc (queue_step true) q1 q2.
Proof.
  apply (rtc_l _ _ (q_finish 10 StatusSent q1)); [|apply rtc_once];
    (eapply finish_runs; [vm_compute; reflexivity|by vm_compute|lia|]);
    [by left; left|by right].
Qed.
Lemma q3_run : rtc (queue_step true) q2 q3.
Proof.
  apply (rtc_l _ _ (q_claim 30 q2)); [apply claim_runs; [by vm_compute|lia]|apply rtc_once].
  eapply finish_runs; [vm_compute; reflexivity|by vm_compute|lia|left; right; by left].
Qed.
Lemma queue_once_witness :
  ((λ t, (tk_ID t, tk_Status t)) <$> nr_tasks (qr_repo q3) = [(1, StatusSent); (2, StatusFailed)] ∧
   length (qr_finished q3) = 3%nat) ∧
  NoDup (identities (nr_tasks (qr_repo q2))) ∧ NoDup (task_ids (concluded (qr_finished q3))).
Proof.
  split; [vm_compute; split; reflexivity|].
  assert (rtc (queue_step true) empty_run q2) as H2 by (etrans; [exact q1_run|exact q2_run]).
  destruct (queue_once true q2 q3 H2 q3_run) as (_ & Hid & _ & _ & Hc). split; [exact Hid|].
  exact (proj1 (Hc eq_refl)).
Defined.

(** The theorems about the delivery loop applied to a worker, and what two
    workers can do to one task. *)

#[local] Existing Instance ascii_platform.
#[local] Existing Instance ascii_upper.
#[local] Existing Instance held_details.
#[local] Existing Instance alarm_order.
#[local] Existing Instance alarm_directory.
#[local] Existing Instance open_box.
#[local] Existing Instance framed_decode.

(** ** One worker *)

(** Somebody takes over the fire after the first run. *)
Definition taken_over : store_schedule (notify_world alarm_repo) := {|
  sc_env n w :=
    if decide (n = 200%nat)
    then w <| nw_dir ::= (λ r, r <| ar_alarms ::= fmap (λ a, a <| a_Status := "ACKED" |>) |>) |> else w;
  sc_fail _ := None |}.
Definition worker_clock (n : nat) : Z := if (n <? 200)%nat then seconds n else seconds (n + 700).
Definition never_cancelled (n : nat) : option error := None.
(** Mail is refused at first. *)
Definition mail_down (n : nat) (c : Channel) (_ : ChannelSecret) (_ : Message_t) : option error :=
  if decide (ch_Type c = ChannelSMTP ∧ n < 130)%nat then Some (mk_error Other "connection refused") else None.

Definition world2 : notify_world alarm_repo := handled1.2.1.
Abbreviation run := (DeliverDue taken_over worker_clock never_cancelled mail_down "https://fire.example.com/" 2).
Definition start : notify_world alarm_repo * nat := (world2, 100%nat).
Definition round1 := run 40 start.
Definition round2 := run 40 (round1.2.1, 200%nat).
Definition states (w : notify_world alarm_repo) : list (Z * string * Z) :=
  (λ t, (tk_ID t, tk_Status t, tk_Attempts t)) <$> nr_tasks (nw_store w).

Lemma worker_clock_mono n m : (n ≤ m)%nat → worker_clock n <= worker_clock m.
Proof.
  intros Hle. unfold worker_clock, seconds, second.
  destruct (Nat.ltb_spec n 200), (Nat.ltb_spec m 200); lia.
Qed.
Lemma taken_over_queue n w : same_queue w (sc_env taken_over n w).
Proof. cbn. by case_decide. Qed.
Lemma taken_over_log n w : nw_sent (sc_env taken_over n w) = nw_sent w.
Proof. cbn. by case_decide. Qed.
Definition sound_check (tasks : list Task) : bool :=
  bool_decide (NoDup (task_ids tasks) ∧ Forall (λ t, 0 <= tk_Attempts t < two63 - 1) tasks).
Lemma sound_checked (w : notify_world alarm_repo) : sound_check (nr_tasks (nw_store w)) = true → sound_queue w.
Proof.
  intros [Hid Hall]%bool_decide_eq_true. split; [exact Hid|]. intros t Ht _.
  by apply (proj1 (Forall_forall _ _) Hall).
Qed.
Lemma nothing_added (w : notify_world alarm_repo) : sound_queue w → only_adds w w.
Proof. intros Hs. split; [exists []; by rewrite app_nil_r|]. by split. Qed.
Lemma world2_sound : sound_queue world2.
Proof. apply sound_checked. vm_compute. reflexivity. Qed.

(** The first run sends what it can; the mail waits for another attempt. *)
Lemma DeliverDue_ends_witness :
  (states round1.2.1 = [(1, StatusSent, 0); (2, StatusPending, 1); (3, StatusSent, 0); (4, StatusPending, 0);
                        (5, StatusSent, 0); (6, StatusSent, 0)] ∧
   total_left (maxAttempts 2) (nr_tasks (nw_store world2)) = 12%nat) ∧
  round1.1 ≠ Ok None ∧
  ∃ new, nw_sent round1.2.1 = nw_sent world2 ++ new ∧ (length new ≤ 12)%nat ∧ NoDup (sent_ids new).
Proof.
  split; [vm_compute; split; reflexivity|].
  pose proof (DeliverDue_ends taken_over worker_clock never_cancelled mail_down "https://fire.example.com/" 2
    taken_over_log ltac:(unfold in_int64, two63; lia) worker_clock_mono 40 world2 100 taken_over_queue
    world2_sound) as Hd.
  assert (total_left (maxAttempts 2) (nr_tasks (nw_store world2)) = 12%nat) as E by (vm_compute; reflexivity).
  rewrite E in Hd. unfold round1, start. destruct (run 40 (world2, 100%nat)) as [r [w' n']].
  destruct Hd as (Hr & new & Hlog & Hlen & Honce & _); [lia|]. split; [exact Hr|]. exists new. auto.
Defined.

Lemma rounds_of (w0 w1 w2 : notify_world alarm_repo) n1 n2 :
  run 40 (w0, 100%nat) = (Ok (Some tt), (w1, n1)) → run 40 (w1, 200%nat) = (Ok (Some tt), (w2, n2)) →
  sound_queue w1 → sound_queue w2 → (n1 ≤ 200)%nat → retry_until worker_clock n1 <= millis (worker_clock 200) →
  delivery_rounds taken_over worker_clock never_cancelled mail_down "https://fire.example.com/" 2
    (Z.to_nat (maxAttempts 2)) (millis (worker_clock 100)) (w0, 100%nat) (w2, n2).
Proof.
  intros E1 E2 H1 H2 Hn Hu. change (Z.to_nat (maxAttempts 2)) with 2%nat.
  eapply (rounds_next _ _ _ _ _ _ 1 _ 40 _ _ (w1, 200%nat)); [reflexivity|exact E1|by apply nothing_added|exact Hn|].
  eapply (rounds_next _ _ _ _ _ _ 0 _ 40 _ _ (w2, n2)); [exact Hu|exact E2|by apply nothing_added|reflexivity|].
  apply rounds_end.
Qed.
Lemma run_result s r : (run 40 s).1 = r → run 40 s = (r, ((run 40 s).2.1, (run 40 s).2.2)).
Proof. intros <-. by destruct (run 40 s) as [? []]. Qed.
Lemma two_rounds :
  delivery_rounds taken_over worker_clock never_cancelled mail_down "https://fire.example.com/" 2
    (Z.to_nat (maxAttempts 2)) (millis (worker_clock start.2)) start round2.2.
Proof.
  rewrite (surjective_pairing round2.2).
  apply (rounds_of world2 round1.2.1 round2.2.1 round1.2.2 round2.2.2).
  - apply run_result. vm_compute. reflexivity.
  - apply run_result. vm_compute. reflexivity.
  - apply sound_checked. vm_compute. reflexivity.
  - apply sound_checked. vm_compute. reflexivity.
  - apply Nat.leb_le. vm_compute. reflexivity.
  - apply Z.leb_le. vm_compute. reflexivity.
Qed.

(** After the second run the mail is sent and the escalation is cancelled. *)
Lemma every_task_settles_witness :
  (states round2.2.1 = [(1, StatusSent, 0); (2, StatusSent, 1); (3, StatusSent, 0); (4, StatusCancelled, 0);
                        (5, StatusSent, 0); (6, StatusSent, 0)]) ∧
  ∃ y, nr_tasks (nw_store round2.2.1) !! 1%nat = Some y ∧ final_status (tk_Status y).
Proof.
  split; [vm_compute; reflexivity|].
  assert (is_Some (nr_tasks (nw_store start.1) !! 1%nat)) as [x Hx] by (apply not_eq_None_Some; vm_compute; done).
  destruct (every_task_settles taken_over worker_clock never_cancelled mail_down "https://fire.example.com/" 2
    taken_over_log ltac:(unfold in_int64, two63; lia) worker_clock_mono taken_over_queue
    start round2.2 1 x world2_sound two_rounds Hx) as (y & Hy & _ & Hf).
  - apply (bool_decide_eq_true_1 (task_due _ _ _)). vm_compute in Hx. injection Hx as <-. vm_compute. reflexivity.
  - exists y. split; [exact Hy|exact Hf].
Defined.

(** The mail of the fire: refused, to be tried again in half a minute. *)
Definition mail_task : Task :=
  mk_Task 2 "t" "a1" "fires" "fires" 0 KindTrigger "mail" StatusSending 0 0 "" [] 0 0.
Definition delivered : res unit * (notify_world alarm_repo * nat) :=
  deliver taken_over worker_clock never_cancelled mail_down "" 2 mail_task (world2, 100%nat).
Lemma deliver_outcome_witness :
  (delivered.2.2 = 106%nat ∧ (states delivered.2.1 !! 1%nat) = Some (2, StatusPending, 1)) ∧
  (100 ≤ delivered.2.2 ≤ 107)%nat.
Proof.
  split; [vm_compute; split; reflexivity|].
  pose proof (deliver_outcome taken_over worker_clock never_cancelled mail_down "" 2 taken_over_log mail_task
    world2 100) as Hd.
  unfold delivered. destruct (deliver _ _ _ _ _ _ _ _) as [r [w' n']]. exact (proj1 Hd).
Defined.

(** ** A policy that may be saved *)

Lemma escalation_schedule_witness :
  (ValidatePolicy fires {["mail"; "hook"]} = Ok tt ∧
   ValidatePolicy (fires <| po_Stages ::= (λ l, l ++ l) |>) {["mail"; "hook"]}
     = Err (refused "升级等待时间须逐级递增且不超过 24 小时") ∧
   ValidatePolicy (fires <| po_Stages := [at_once []] |>) {["mail"; "hook"]}
     = Err (refused "每级通知至少选择一个通知渠道")) ∧
  tk_ChannelID <$> stage_tasks 1000 zero_Alarm KindTrigger fires 0 (at_once ["mail"; "hook"]) = ["mail"; "hook"] ∧
  tk_NextAt <$> stage_tasks 1000 zero_Alarm KindTrigger fires 1 (after_minutes 5 ["mail"]) = [301000].
Proof.
  split; [vm_compute; split; [reflexivity|split; reflexivity]|].
  assert (ValidatePolicy fires {["mail"; "hook"]} = Ok tt) as Hvalid by (vm_compute; reflexivity).
  destruct (escalation_schedule fires {["mail"; "hook"]} 1000 zero_Alarm Hvalid) as [_ Hall]; [lia|].
  destruct (Hall 0%nat (at_once ["mail"; "hook"]) eq_refl) as (_ & Hchannels & _).
  split; [exact Hchannels|vm_compute; reflexivity].
Defined.

(** ** Two workers

    A claim leases up to 20 tasks for a minute, but they are sent one after
    the other.  With five seconds per call the lease of the fourth task is over
    when its turn comes; a second worker that claims meanwhile sends it, and
    then the first one sends it again. *)

Definition quiet : store_schedule (notify_world alarm_repo) := {| sc_env _ w := w; sc_fail _ := None |}.
Definition accepted (_ : nat) (_ : Channel) (_ : ChannelSecret) (_ : Message_t) : option error := None.
Definition slow_clock (n : nat) : Z := seconds (5 * n).
Definition second_worker (w : notify_world alarm_repo) : notify_world alarm_repo :=
  (DeliverDue quiet (λ _, slow_clock 214) never_cancelled accepted "" 8 40 (w, 0%nat)).2.1.
(** The other worker runs before the fourteenth call. *)
Definition overlapped : store_schedule (notify_world alarm_repo) := {|
  sc_env n w := if decide (n = 214%nat) then second_worker w else w; sc_fail _ := None |}.
Definition slow_run :=
  DeliverDue overlapped slow_clock never_cancelled accepted "" 8 40 (world2, 200%nat).
Lemma lease_outlived :
  slow_run.1 = Ok (Some tt) ∧ sent_ids (nw_sent slow_run.2.1) = [1; 2; 3; 5; 6; 3; 5; 6].
Proof. vm_compute. split; reflexivity. Qed.

(** ** A failing lookup

    A directory that answers every failure of the product lookup with "not
    found" makes [HandleReported] succeed without queueing the notification of
    a policy for products. *)

Definition failing_lookup : Directory alarm_repo := {|
  dir_Alarm := dir_Alarm; dir_DeviceProduct _ _ _ := Err alarm_not_found;
  dir_UserContacts := dir_UserContacts; dir_OnDutyContacts := dir_OnDutyContacts |}.
Definition rule_alarm : string := default "" (payloads1 !! 1%nat).
Lemma failing_lookup_loses :
  let told d := HandleReported (Directory0 := d) quiet seconds rule_alarm (world1, 0%nat) in
  ((told failing_lookup).1 = Ok tt ∧ nr_tasks (nw_store (told failing_lookup).2.1) = []) ∧
  tk_PolicyID <$> nr_tasks (nw_store (told alarm_directory).2.1) = ["panels"].
Proof. vm_compute. split; [split|]; reflexivity. Qed.
